(* ===== verification/_CoqProject ===== *)
-Q . S2P
Prelude.v
Names.v
RandStr.v
Runes.v
Json.v
KvSrv.v
KvModel.v
KvLin.v
KvTest.v
KvAppend.v
KvPut.v
Lock.v
Raft.v
RaftLog.v
RaftNet.v
MrCoord.v
MrWorker.v
MrJob.v
MrApps.v
MrParallel.v
Commands.v
Labgob.v
ShardCfg.v
ShardCodec.v
Labrpc.v
LabrpcCall.v
Tester.v
TestCfg.v
Rsm.v
ShardTest.v
TestLife.v
RaftSrv.v
RaftCheck.v
RaftTest.v
RaftCut.v
Annotation.v
Porcupine.v
KvNet.v
KvLate.v
KvRead.v
LockTest.v
KvClients.v
ShardPart.v
ShardSrv.v
