(* ===== verification/Prelude.v ===== *)
(** * A verification of the labs of 6.5840 (2025)

    The repository holds the Go code of the course's labs: a MapReduce system, a
    versioned key/value server with a lock on top, the Raft consensus protocol,
    the configurations of a sharded store, and the framework that runs them in
    tests, a simulated network above all.  This library models that code
    function by function and proves what makes each part correct.  Paths below
    are under [src/src/].

    ** How the parts interact

    Every client of a server is a [labrpc.ClientEnd] of the simulated network
    ([labrpc/labrpc.go]); the test framework ([tester1/]) creates the ends,
    partitions the network, crashes and restarts servers and hands each instance
    its persister.  The key/value clerk ([kvsrv1/client.go]) retries RPCs to the
    server ([kvsrv1/server.go]); the lock ([kvsrv1/lock/lock.go]) is a client of
    the clerk; tests record the clerk's operations ([kvtest1/porcupine.go]) and
    have them checked against a sequential model ([models1/kv.go]).  Raft peers
    ([raft1/raft.go]) call each other through the network.  MapReduce workers
    ([mr/worker.go]) call the coordinator ([mr/coordinator.go]) and exchange
    files.  Shard configurations ([shardkv1/shardcfg/shardcfg.go]) are data with a
    JSON text.  The test drivers sit on top: [kvtest1/kvtest.go] runs clients that put
    and append and checks their results, [raft1/server.go] and [raft1/test.go] collect
    what the peers apply and compare it, [labgob/labgob.go] warns about what is encoded.

    ** The files

    - [Prelude]: Go integers with their wrap-around ([wrap64], [u64], [u32]), the
      outcome monad of code that may panic or block for ever, indexing and loops
      in it, FNV-1a, and what the components share on lists, sets, majorities
      and strings.
    - [Names]: decimal numbers in the names of files, servers and groups.  [RandStr]: the
      random names of [tester1/config.go] and when two of them are the same.  [Runes]:
      UTF-8 and [strings.FieldsFunc], over a table of letters ([Letters]).
    - [KvSrv]: [rpc.go], [server.go] and the clerk's loops of [client.go].  A call
      has one of three outcomes ([attempt]): request lost, reply lost, delivered.
      The class [VersionedKV] is the contract of a versioned store; the server
      is its instance and the lock is proved against the class.
    - [Json]: the JSON text of the values the program encodes, printed and parsed as
      [encoding/json] does.
    - [KvModel]: [models1/kv.go], and the system of any number of clerks and the
      server, one step per invocation and per RPC attempt ([sys_step]), with the
      recorded history; [linearizes] is what the checker looks for.
    - [KvLin]: the invariant between server, pending calls, history and a
      linearization built step by step.  [Porcupine]: when a test fails for the
      checker's verdict, and which of [kvtest1/porcupine.go] and the cleanup of
      [tester1/annotation.go] draws what.
    - [KvTest]: the clients, helpers and checks of [kvtest1/kvtest.go]; [drun] runs any
      number of client programs against one server, interleaved attempt by attempt.
      [KvAppend] and [KvPut] are the two tests: the invariant of the clients that
      append, and of those that put, and the checks that follow.
    - [Lock]: [Acquire] and [Release] as client programs with a program counter
      ([pc]); a step is one RPC attempt of one client.
    - [Raft]: one peer, a definition per critical section of [rf.mu].
    - [RaftLog]: the log of [AppendEntries], a Go map from indices, against the
      textbook operation on a list.
    - [RaftNet]: the cluster.  [net_step] runs a ticker iteration of a peer, the
      execution of an outstanding RPC, or the arrival of a reply; an RPC executes
      and answers at most once and may never do so.
    - [MrCoord]: the coordinator with its mutex, the [Schedule] loop, and the
      system of coordinator and workers ([mr_step]), in which workers report only
      what they were assigned and may die.
    - [MrWorker]: map and reduce tasks on a store of files for any map and reduce
      function, [main/mrsequential.go] on the same store, and [mrapps/wc.go].
    - [MrJob]: the loop of [Worker] for any number of workers, composed with the
      coordinator and the files ([job_step]); requests fail, replies are lost, workers
      stop in the middle of a task.
    - [MrApps]: the other applications of [mrapps/], and the word count and the inverted
      index as jobs.
      [MrParallel]: [nparallel] and [mrapps/jobcount.go] on a directory that processes
      share while they start and end ([pstep]), and [main/mrcoordinator.go].
    - [Commands]: the other programs of [main/]: the arguments of a process, how it exits
      ([proc]), the application that [mrworker] and [mrsequential] load from a plugin, and
      the flags of [diskvd].
    - [Labgob]: [checkType] on descriptions of types, [checkDefault] on values.
    - [ShardCfg]: assignment of shards to groups, joining, leaving, balancing and
      the checker [CheckConfig].
    - [ShardCodec]: [String] and [FromString] of a configuration.
    - [Labrpc]: the network's configuration, the dispatch of a request, and the
      life of a request in [processReq] with its two goroutines and its timers.
    - [LabrpcCall]: [ClientEnd.Call], the goroutine that takes requests, and [Cleanup].
    - [Tester]: persisters, servers, one server group and one client, on the
      network of [Labrpc]; persisters live in a store, so that an old and a new
      instance of a server may share or not share one.
    - [TestCfg]: [tester1/config.go] with the tables of groups and clients on one
      shared network, a round of the partitioner, and [kvsrv1/test.go].
    - [Rsm]: [kvraft1/rsm/]: the class [StateMachine] with the laws of a replica
      ([Replicable]) and its instance, the counter of [rsm/server.go]; [Submit] and
      [MakeRSM] as they are; the harness of [rsm/test.go] for any [Submit].  Its module
      [KvRaft] holds the stubs of [kvraft1/] and the clerks its tests make.
    - [ShardTest]: [shardkv1/test.go] for any shard controller: the class [ShardCtrler],
      the contract [Sequential], joins and leaves over [TestCfg] and [ShardCfg]; the
      empty methods of [shardctrler.go] are the instance [Stub.ctrler].  [ShardPart]:
      [partitionCtrler] and [concurCtrler], their goroutines step by step
      ([group_step]), against controllers that recover a change that was cut off
      ([Recovering]) or refuse one that is out of date ([Refusing]).  [ShardSrv]: the
      stubs of [shardkv1/] as they are.
    - [TestLife]: a test from [MakeTest] to its cleanup, with clerks made and deleted
      through the interface [IClerkMaker] ([ClerkMaker]).
    - [RaftSrv]: [raft1/server.go] (what a server does with each [ApplyMsg], snapshots,
      restarts) and the checks of [raft1/test.go]; [RaftCheck] runs [checkOneLeader]
      against the cluster of [RaftNet].  [RaftTest] puts the peers behind the ends of a
      server group that the harness partitions, shuts down and restarts ([t_step]);
      [RaftCut] is what a partition does to elections there.
    - [KvNet]: clerks and server of [kvsrv1/] composed with the network of [LabrpcCall]
      ([kstep]), and its simulation by the system of [KvModel].  [KvLate]: the store as
      its clients see it when requests outlive their calls ([late_step]), and client
      programs over the network ([tstep]).  [KvRead]: clients that put only over versions
      they have read ([disc]).  [LockTest] and [KvClients]: the clients of [lock_test.go]
      and of [kvtest.go] as such programs.
    - [Annotation]: the points, intervals and continuous intervals collected for
      the visualisation of a run, and the reports of crashes and partitions.

    ** What the theorems show

    Key/value service: the complete behaviour of [Put] ([Put_spec]) and of the
    clerk's loop ([Clerk_Put_spec]), exactly-once effect over a lossy network
    ([Put_exactly_once]), and linearizability of every recorded history
    ([history_linearizable]), in an order that holds nothing but operations that were
    issued; Puts answered [ErrNoKey] are set apart because the checker's model has no
    transition for them ([KvModel_rejects_ErrNoKey]).  Over the
    simulated network itself, where requests are encoded, dispatched, delayed and
    reordered, the same holds as long as no request outlives the call that sent it
    ([network_history_linearizable]); one that does is a history that is not
    linearizable ([late_put_not_linearizable]).  With such requests the service is still
    the store in which an attempt takes effect at most once, at some moment after its call
    ([network_refines_late]), and every history is linearizable whose clients put only over
    versions they have read ([read_histories_linearizable]).  Under either condition
    (the first one with no Put answered [ErrNoKey]), a checker that rejects only what
    cannot be linearized never fails a test whose clerks have returned
    ([CheckPorcupine_passes]).  The tests
    of the service are right about it: whatever is lost and however the clients
    interleave, the checks of concurrent appends and of concurrent puts pass
    ([append_test_passes], [put_test_passes], and over the simulated network
    [append_test_network], [put_test_network]), and [PutAtLeastOnce] ends with its value in
    place ([PutAtLeastOnce_spec]).
    Lock: mutual exclusion ([mutual_exclusion]) and progress on a free lock; over the
    network, with requests that come late, the check of the lock test never fails
    ([lock_test_passes]).
    Raft: at most one leader per term without restarts ([election_safety]) and
    two with one ([restart_allows_two_leaders], and [restart_two_leaders] in the test's
    own system; the state is not persisted);
    elections can succeed; [AppendEntries] refines the textbook rule, preserves
    log matching, is idempotent and its inner loop terminates; what the index
    conventions of [Start] and [isLogUpToDate] give, and that this version never
    commits.  Its harness: servers that survive the readers of the apply channels have
    logs that agree ([committed_logs_agree]), [one] and [checkOneLeader] answer only what
    holds ([one_sound], [checkOneLeader_pass]), a snapshot restores the log
    ([snapshot_restores]), and no test of agreement succeeds with these peers
    ([no_agreement]).  In the system of a test, which keeps its types
    ([test_system_typed]), a minority behind a partition elects no leader
    ([minority_elects_no_leader]), so that [checkNoLeader] passes there
    ([checkNoLeader_passes]), and [checkOneLeader] names a leader of the latest term among
    the connected servers ([checkOneLeader_partitions]).
    MapReduce: the whole job, with workers that come, stop and lose requests, computes
    what the sequential program computes ([job_done_output]; [job_equals_sequential] for
    the tasks alone), also when the three programs are started from their command lines
    ([commands_agree]), for applications that emit valid UTF-8 and reduce without regard
    to order, as long as no reply to a report is lost and no file fails to be moved to its
    name ([no_loss]; [rename_failure_loses_output] is what happens then); the word count's job counts the words ([wc_correct]), words being
    the runs of letters of a text in UTF-8 ([FieldsFunc_text]), and the indexer's job gives
    the inverted index ([index_correct]); phases
    are separated and [Done] means that everything was reported; a live worker finishes
    the job ([job_terminates]); exactly when a heartbeat deadlocks, and what a repeated
    report does; [nparallel] counts the processes that are in it and [jobcount.go] the
    runs of map tasks ([nparallel_counts], [jobcount_counts]).  A valid command line of
    [diskvd] starts the server it describes ([diskvd_command_line]).
    Shard configurations: [Rebalance] terminates, assigns every shard and balances;
    [JoinBalance] and [LeaveBalance] pass the checker; a refused [Leave] is not atomic;
    the text of a configuration is read back as that configuration
    ([FromString_String]).  The harness and a controller that keeps its contract go
    through any joins and leaves of at most as many groups as shards
    ([join_leave_spec]); one group more joins and is not counted as a member
    ([thirteenth_group]); with the empty controller the first join panics
    ([stub_controller_panics]).  Competing controllers that change nothing once they are
    superseded keep every member up, while there are no more groups than shards
    ([concurCtrler_safe]); a controller that recovers passes [partitionCtrler] exactly
    when its goroutine stands, as the test reads [state], between a change and the next
    assignment to [state], or in a change that is made or recovered
    ([partitionCtrler_verdict]).
    Replicated state machine: a replica that restores a snapshot answers and ends like
    the one that took it ([rsmSrv_replay], by the laws of [Replicable]), no increment is
    lost by overlapping calls but replies may coincide ([DoOp_concurrent]); the harness
    answers only what a reachable server of the partition answered, gives up only after
    all have refused ([onePartition_spec]), waits 30.71 s at most for the counters
    ([checkCounter_spec]), and gets no answer from the [Submit] of the repository
    ([Submit_never_answers]).
    Network and framework: a call that returns true has had its handler run exactly once
    ([Call_at_most_once]), a killed server never answers positively, partitions connect
    exactly what they say, a group that is started is complete and one that is left is
    unreachable ([MakeGroupStart_spec], [ExitGroup_spec]), no end is made or deleted twice
    in the life of a test ([test_cleanup]), a random name has its length and two are the
    same exactly when their first bytes are ([Randstring_names]), a restarted server has the
    state saved at its shutdown, crash annotations are single intervals, and the
    encoding checks visit every reachable type once ([checkType_spec]) and panic exactly
    on values behind lower-case fields ([checkDefault_spec]).

    ** Integers, fuel and bounds

    [int] is 64 bits with wrap-around where the code adds to it ([wrap64]),
    versions are 64 bits unsigned ([u64]) and hashes 32 ([u32]).  Theorems on
    runs assume fewer steps than the counter can hold ([uint64_max] for versions,
    [int_max] for terms); one step advances a counter by at most one.  Loops
    without a structural measure carry fuel: [delete_loop] takes one more than
    the size of the log and [delete_loop_total] proves it enough; [balance] takes
    144 rounds, because every move lowers the number of ordered pairs of shards
    with one group, at most 12 * 12 ([Rebalance_correct] proves that it returns); the recursion of
    [handleHeartBeat] blocks at its first call, so that its fuel is never used up
    ([heartbeat_deadlock]); [reduce_loop] takes the length of its input;
    [checkType] marks a type per call, so one more than the number of types is enough
    ([checkType_spec]); [checkDefault1] goes three levels deep, as the code does.
    Loops that run until the network lets them end take the outcomes of their attempts
    as a list, and theorems say which lists let them end.

    ** Not modelled

    The checker [porcupine] and [encoding/gob] are third-party or library code:
    linearizability is stated directly, and what gob encodes goes through a codec that is
    a parameter with a round-trip law.  So do the records of intermediate files, with the
    documented law of [encoding/json]: what is read back are the entries written, each
    string made valid UTF-8 ([ToValid], [coerce_kv]).  Handlers
    of a [labrpc] service are a parameter ([invoke]).  The clerks and servers of the
    sharded service and of [kvraft1] are stubs that answer the zero value: they have no
    behaviour to verify yet, and the tests of shard controllers are proved against what
    the comments of [shardctrler.go] and of [test.go] promise: a controller finishes in
    [InitController] the change that another one has begun, and changes nothing once it is
    superseded.  Names that the tests draw at random are those of a function of a counter;
    that it is injective says that no two drawn names coincide ([Randstring_names] is when
    two names of 20 bytes do).  The packages that [diskvd], [lockc],
    [lockd], [pbd] and [viewd] start are not in the repository, and a plugin is a file of
    machine code: both are parameters of [Commands].  Which code points beyond Latin-1 are
    letters is a table of the language's library ([letter_beyond]).  Printing
    of progress, signals and sockets are input and output.  Go's scheduler is any
    interleaving of the steps, map iteration any order where the code ranges over a map
    (the indexer's order is a function of the document), and time and random numbers are
    arguments of the steps that read them.

    Three compositions are left apart.  The readers of the apply channels ([RaftSrv]) are
    not joined with the peers of [RaftTest] and their persisters: the peers of this
    version send nothing on that channel.  The servers of [Rsm] are not run over such
    peers, because [Submit] answers before it would reach one.  And the controllers of
    [ShardPart] are contracts, not clients of a key/value service over the network. *)
From Stdlib Require Export ZArith Lia Ascii.
From Stdlib Require Strings.String.
From stdpp Require Export functions base tactics numbers strings sorting relations fin_maps gmap list.

Open Scope Z_scope.

(** ** Go integers *)

Definition int_min : Z := - 2 ^ 63.
Definition int_max : Z := 2 ^ 63 - 1.
Definition uint64_max : Z := 2 ^ 64 - 1.

(** [int] arithmetic wraps modulo 2^64 into the signed range. *)
Definition wrap64 (z : Z) : Z := (z + 2 ^ 63) mod 2 ^ 64 - 2 ^ 63.

(** [int32] arithmetic. *)
Definition wrap32 (z : Z) : Z := (z + 2 ^ 31) mod 2 ^ 32 - 2 ^ 31.

(** [uint64] and [uint32] arithmetic. *)
Definition u64 (z : Z) : Z := z mod 2 ^ 64.
Definition u32 (z : Z) : Z := z mod 2 ^ 32.

Lemma wrap64_id z : int_min <= z <= int_max -> wrap64 z = z.
Proof. unfold wrap64, int_min, int_max. intros H. rewrite Z.mod_small; lia. Qed.

Lemma wrap64_range z : int_min <= wrap64 z <= int_max.
Proof.
  unfold wrap64, int_min, int_max.
  pose proof (Z.mod_pos_bound (z + 2 ^ 63) (2 ^ 64)). lia.
Qed.

Lemma wrap64_add a b : wrap64 (wrap64 a + b) = wrap64 (a + b).
Proof.
  unfold wrap64. f_equal.
  replace ((a + 2 ^ 63) mod 2 ^ 64 - 2 ^ 63 + b + 2 ^ 63) with ((a + 2 ^ 63) mod 2 ^ 64 + b) by lia.
  rewrite Zplus_mod_idemp_l. f_equal. lia.
Qed.

Lemma u64_id z : 0 <= z <= uint64_max -> u64 z = z.
Proof. unfold u64, uint64_max. intros H. apply Z.mod_small. lia. Qed.

(** Bit fields, as numbers. *)
Lemma lor_shift a b k : 0 <= k -> 0 <= b < 2 ^ k -> Z.lor (Z.shiftl a k) b = a * 2 ^ k + b.
Proof.
  intros Hk Hb. rewrite Z.shiftl_mul_pow2 by done. symmetry. apply Z.add_nocarry_lor.
  apply Z.bits_inj'. intros n Hn. rewrite Z.land_spec, Z.bits_0.
  destruct (Z.lt_ge_cases n k).
  - by rewrite Z.mul_pow2_bits_low.
  - destruct (decide (b = 0)) as [->|Hne]; [by rewrite Z.bits_0, andb_false_r|].
    rewrite (Z.bits_above_log2 b n), andb_false_r; [done|lia|]. apply Z.log2_lt_pow2; [lia|].
    apply (Z.lt_le_trans _ (2 ^ k)); [lia|]. by apply Z.pow_le_mono_r.
Qed.

Lemma bits6 v k : 0 <= k -> Z.land (Z.shiftr v k) 63 = (v / 2 ^ k) mod 64.
Proof. intros Hk. change 63 with (Z.ones 6). rewrite Z.land_ones by lia. by rewrite Z.shiftr_div_pow2. Qed.

(** ** Outcomes of Go code that may not return normally *)

(** [Ret] is a normal return, [Panic] a run-time panic (or [log.Fatalf], which
    also ends the process) and [Blocked] a goroutine that never proceeds. *)
Inductive outcome (A : Type) : Type :=
| Ret (a : A)
| Panic
| Blocked.
Arguments Ret {A} a.
Arguments Panic {A}.
Arguments Blocked {A}.

#[export] Instance outcome_ret : MRet outcome := fun A a => Ret a.
#[export] Instance outcome_bind : MBind outcome :=
  fun A B f m => match m with Ret a => f a | Panic => Panic | Blocked => Blocked end.

Definition is_Ret {A} (m : outcome A) : bool :=
  match m with Ret _ => true | _ => false end.

(** One step of a monadic computation whose head is known. *)
Ltac step_bind := cbn [mbind outcome_bind option_bind].

(** How a computation ends. *)
Declare Scope go_scope.
Delimit Scope go_scope with go.
Notation "m '⇓' v" := (m = Ret v) (at level 70, no associativity) : go_scope.
Notation "m '↯'" := (m = Panic) (at level 1) : go_scope.

Lemma outcome_bind_Ret {A B} (a : A) (f : A -> outcome B) : (x ← Ret a; f x) = f a.
Proof. reflexivity. Qed.

Lemma outcome_bind_inv {A B} (m : outcome A) (f : A -> outcome B) b :
  (x ← m; f x) = Ret b -> exists a, m = Ret a /\ f a = Ret b.
Proof. destruct m; simpl; try discriminate. eauto. Qed.

Create HintDb go.
Create Rewrite HintDb go.
#[export] Hint Resolve list_elem_of_here list_elem_of_further lookup_lt_Some : go.
#[export] Hint Resolve wrap64_range : go.
#[export] Hint Rewrite @outcome_bind_Ret @length_insert @length_replicate @length_fmap @length_seq
  @length_app : go.

(** ** Sets and majorities *)

Lemma majority_intersect {A} `{Countable A} (U X Y : gset A) (n : nat) :
  X ⊆ U -> Y ⊆ U -> (size U <= n)%nat ->
  Z.of_nat n / 2 < Z.of_nat (size X) -> Z.of_nat n / 2 < Z.of_nat (size Y) ->
  exists x, x ∈ X /\ x ∈ Y.
Proof.
  intros HX HY HU HsX HsY.
  destruct (decide (X ∩ Y ≡ ∅)) as [He|Hne].
  - exfalso. assert (Hd : X ## Y) by (by apply disjoint_intersection).
    pose proof (size_union X Y Hd) as Hs.
    assert (Hle : (size (X ∪ Y) <= size U)%nat) by (by apply subseteq_size, union_least).
    pose proof (Z.div_mod (Z.of_nat n) 2 ltac:(lia)).
    pose proof (Z.mod_pos_bound (Z.of_nat n) 2 ltac:(lia)). lia.
  - apply set_choose in Hne as [x Hx]. exists x. by apply elem_of_intersection.
Qed.

(** The integers [0 .. n-1], as the loops [for i := 0; i < n; i++] visit them. *)
Definition range (n : nat) : list Z := Z.of_nat <$> seq 0 n.

Lemma elem_of_range n i : i ∈ range n <-> 0 <= i < Z.of_nat n.
Proof.
  unfold range. rewrite list_elem_of_fmap. split.
  - intros (j & -> & Hj%elem_of_seq). lia.
  - intros Hi. exists (Z.to_nat i). rewrite elem_of_seq. lia.
Qed.

Lemma range_lookup k (i : nat) : range k !! i = if decide (i < k)%nat then Some (Z.of_nat i) else None.
Proof.
  unfold range. rewrite list_lookup_fmap. case_decide as Hd.
  - by rewrite lookup_seq_lt.
  - by rewrite lookup_seq_ge by lia.
Qed.

Lemma range_lookup_Some n i x : range n !! i = Some x -> x = Z.of_nat i /\ (i < n)%nat.
Proof. rewrite range_lookup. case_decide; by intros [= <-]. Qed.

Lemma NoDup_range n : NoDup (range n).
Proof. apply NoDup_fmap_2; [intros x y; lia|apply NoDup_seq]. Qed.

Definition range_set (n : nat) : gset Z := list_to_set (range n).

Lemma elem_of_range_set n i : i ∈ range_set n <-> 0 <= i < Z.of_nat n.
Proof. unfold range_set. rewrite elem_of_list_to_set. apply elem_of_range. Qed.

Lemma size_range_set n : size (range_set n) = n.
Proof.
  unfold range_set. rewrite size_list_to_set by apply NoDup_range.
  unfold range. by rewrite length_fmap, length_seq.
Qed.

Lemma filter_all {A} (P : A -> Prop) `{forall x, Decision (P x)} (l : list A) :
  Forall P l -> filter P l = l.
Proof.
  induction 1 as [|x l Hx _ IH]; [done|]. by rewrite filter_cons_True, IH by done.
Qed.

(** ** Checking a concrete run *)

(** A run that succeeds with a state that passes the test [f]: proved by
    evaluating the test alone, never the state. *)
Definition passes {A} (f : A -> bool) (m : option A) : bool :=
  match m with Some x => f x | None => false end.

Lemma passes_inv {A} (f : A -> bool) (m : option A) :
  passes f m = true -> exists x, m = Some x /\ f x = true.
Proof. destruct m as [x|]; [by exists x|done]. Qed.

(** A loop that appends. *)
Lemma foldl_append {A B} (f : A -> B) (l : list A) : forall acc,
  foldl (fun res w => res ++ [f w]) acc l = acc ++ (f <$> l).
Proof.
  induction l as [|w l IH]; intros acc; [by rewrite app_nil_r|].
  cbn [foldl]. rewrite IH, <- app_assoc. done.
Qed.

(** ** Strings *)

Lemma string_app_nil_r (s : string) : s +:+ "" = s.
Proof. induction s as [|c s IH]; [done|]. exact (f_equal (String c) IH). Qed.

Lemma string_app_assoc (s1 s2 s3 : string) : s1 +:+ (s2 +:+ s3) = (s1 +:+ s2) +:+ s3.
Proof. induction s1 as [|c s1 IH]; [done|]. exact (f_equal (String c) IH). Qed.

(** Go compares strings byte by byte. *)
Definition string_le (s t : string) : Prop := String.leb s t = true.
#[export] Instance string_le_dec : RelDecision string_le.
Proof. intros s t. unfold string_le. apply _. Defined.

(** FNV-1a of [hash/fnv], 32 bits: xor the byte, multiply by the prime. *)
Definition fnv32a_byte (h : Z) (c : ascii) : Z :=
  u32 (Z.lxor h (Z.of_N (N_of_ascii c)) * 16777619).

Definition Sum32 (s : string) : Z := foldl fnv32a_byte 2166136261 (Stdlib.Strings.String.list_ascii_of_string s).

Lemma string_length_app (s1 s2 : string) :
  String.length (s1 +:+ s2) = (String.length s1 + String.length s2)%nat.
Proof. induction s1 as [|c s1 IH]; [done|]. simpl. by rewrite <- IH. Qed.

(** FNV-1a stays in its 32 bits. *)
Lemma Sum32_range s : 0 <= Sum32 s < 2 ^ 32.
Proof.
  unfold Sum32. enough (H : forall l h, 0 <= h < 2 ^ 32 -> 0 <= foldl fnv32a_byte h l < 2 ^ 32)
    by (apply H; lia).
  induction l as [|c l IH]; intros h Hh; [done|]. cbn [foldl]. apply IH.
  unfold fnv32a_byte, u32. apply Z.mod_pos_bound. lia.
Qed.

(** ** Indexing and loops that may panic *)

(** [l[i]]: a panic out of range. *)
Definition at_ {A} (l : list A) (i : nat) : outcome A :=
  match l !! i with Some x => Ret x | None => Panic end.

(** [l[i] = x]. *)
Definition set_at {A} (l : list A) (i : nat) (x : A) : outcome (list A) :=
  match l !! i with Some _ => Ret (<[i := x]> l) | None => Panic end.

(** A loop over the elements of a list. *)
Fixpoint foldM {A S} (f : S -> A -> outcome S) (l : list A) (s : S) : outcome S :=
  match l with
  | [] => Ret s
  | x :: l' => s' ← f s x; foldM f l' s'
  end.

Lemma at_Ret {A} (l : list A) i x : l !! i = Some x -> at_ l i = Ret x.
Proof. unfold at_. by intros ->. Qed.

Lemma foldM_app {A S} (f : S -> A -> outcome S) l1 l2 s :
  foldM f (l1 ++ l2) s = s' ← foldM f l1 s; foldM f l2 s'.
Proof.
  revert s. induction l1 as [|x l1 IH]; intros s; [done|]. simpl.
  destruct (f s x); simpl; [apply IH|done..].
Qed.

(** What every round of a loop preserves, the loop preserves. *)
Lemma foldM_rel {A S} (R : S -> S -> Prop) (f : S -> A -> outcome S) l :
  (forall s, R s s) -> (forall s1 s2 s3, R s1 s2 -> R s2 s3 -> R s1 s3) ->
  (forall s x s', f s x = Ret s' -> R s s') ->
  forall s s', foldM f l s = Ret s' -> R s s'.
Proof.
  intros Hrefl Htrans Hf. induction l as [|x l IH]; intros s s'; simpl; [by intros [= <-]|].
  intros (s1 & H1 & H2)%outcome_bind_inv. eauto.
Qed.

(** A loop whose body always returns is a left fold. *)
Lemma foldM_foldl {A S} (f : S -> A -> outcome S) (g : S -> A -> S) l : forall s,
  (forall s x, x ∈ l -> f s x = Ret (g s x)) -> foldM f l s = Ret (foldl g s l).
Proof.
  induction l as [|x l IH]; intros s H; [done|]. simpl. rewrite H by apply list_elem_of_here.
  apply IH. intros s' y Hy. apply H. by apply list_elem_of_further.
Qed.
