(* ===== verification/Names.v ===== *)
(** Decimal numbers in names: the names of servers, groups and files are numbers joined
    by dashes, and such a name determines its numbers. *)
From S2P Require Import Prelude.
From stdpp Require Import pretty.
Open Scope Z_scope.

Fixpoint all_chars (P : ascii -> bool) (s : string) : bool :=
  match s with EmptyString => true | String c s' => P c && all_chars P s' end.

Definition is_digit (c : ascii) : bool :=
  (48 <=? Z.of_N (N_of_ascii c)) && (Z.of_N (N_of_ascii c) <=? 57).

Definition no_dash (c : ascii) : bool := negb (Ascii.eqb c "-"%char).

Lemma pretty_N_char_digit x : is_digit (pretty_N_char x) = true.
Proof. unfold pretty_N_char. by repeat case_match. Qed.

Lemma pretty_N_go_digits x : forall s,
  all_chars is_digit s = true -> all_chars is_digit (pretty_N_go x s) = true.
Proof.
  induction (N.lt_wf_0 x) as [x _ IH]. intros s Hs.
  destruct (decide (x = 0)%N) as [->|Hx]; [by rewrite pretty_N_go_0|].
  rewrite pretty_N_go_step by lia. apply IH; [apply N.div_lt; lia|].
  cbn [all_chars]. by rewrite pretty_N_char_digit.
Qed.

Lemma pretty_digits i : all_chars is_digit (pretty (Z.of_nat i)) = true.
Proof.
  destruct i as [|i]; [done|].
  change (pretty (Z.of_nat (S i))) with (pretty_N (Npos (Pos.of_succ_nat i))). unfold pretty_N.
  case_decide; [done|]. by apply pretty_N_go_digits.
Qed.

Lemma digits_no_dash s : all_chars is_digit s = true -> all_chars no_dash s = true.
Proof.
  induction s as [|c s IH]; [done|]. simpl. rewrite !andb_true_iff. intros [Hc Hs].
  split; [|by apply IH]. unfold no_dash. destruct (Ascii.eqb_spec c "-"%char) as [->|]; [done|done].
Qed.

Lemma pretty_no_dash i : all_chars no_dash (pretty (Z.of_nat i)) = true.
Proof. apply digits_no_dash, pretty_digits. Qed.

(** A string is split at its first dash in one way. *)
Lemma dash_split s1 : forall s2 t1 t2,
  all_chars no_dash s1 = true -> all_chars no_dash s2 = true ->
  s1 +:+ "-" +:+ t1 = s2 +:+ "-" +:+ t2 -> s1 = s2 /\ t1 = t2.
Proof.
  induction s1 as [|c s1 IH]; intros [|c2 s2] t1 t2 H1 H2 Heq; simpl in *.
  - by simplify_eq.
  - injection Heq as <- _. apply andb_prop in H2 as [H2 _]. discriminate H2.
  - injection Heq as -> _. apply andb_prop in H1 as [H1 _]. discriminate H1.
  - rewrite andb_true_iff in H1, H2. injection Heq as -> Heq.
    destruct (IH s2 t1 t2 (proj2 H1) (proj2 H2) Heq) as [-> ->]. done.
Qed.

Lemma pretty_of_nat_inj i j : pretty (Z.of_nat i) = pretty (Z.of_nat j) -> i = j.
Proof. intros H. apply (inj pretty) in H. lia. Qed.

