(* ===== verification/RandStr.v ===== *)
(** The random names of [tester1/config.go]: [Randstring] takes characters from the
    base64 text of random bytes.  The other files assume that the names drawn in a run
    are different; here is when they are. *)
From S2P Require Import Prelude.
Open Scope Z_scope.

(** [base64.URLEncoding.EncodeToString]: three bytes make four characters of six bits, and
    what is left at the end is padded. *)
Definition alphabet : string := "ABCDEFGHIJKLMNOPQRSTUVWXYZabcdefghijklmnopqrstuvwxyz0123456789-_".
Definition b64 (v : Z) : ascii := default "="%char (String.get (Z.to_nat v) alphabet).

Fixpoint EncodeToString (src : list Z) : list ascii :=
  match src with
  | a :: b :: c :: rest =>
      let val := Z.lor (Z.lor (Z.shiftl a 16) (Z.shiftl b 8)) c in
      b64 (Z.land (Z.shiftr val 18) 63) :: b64 (Z.land (Z.shiftr val 12) 63) ::
      b64 (Z.land (Z.shiftr val 6) 63) :: b64 (Z.land val 63) :: EncodeToString rest
  | [a; b] =>
      let val := Z.lor (Z.shiftl a 16) (Z.shiftl b 8) in
      [b64 (Z.land (Z.shiftr val 18) 63); b64 (Z.land (Z.shiftr val 12) 63);
       b64 (Z.land (Z.shiftr val 6) 63); "="%char]
  | [a] =>
      let val := Z.shiftl a 16 in
      [b64 (Z.land (Z.shiftr val 18) 63); b64 (Z.land (Z.shiftr val 12) 63); "="%char; "="%char]
  | [] => []
  end.

(** [Randstring]; [b] are the [2 * n] bytes that [crand.Read] gives.  A slice of more
    characters than there are panics. *)
Definition Randstring (n : nat) (b : list Z) : outcome (list ascii) :=
  let s := EncodeToString b in
  if decide (n <= length s)%nat then Ret (take n s) else Panic.

(** [makeSeed]: [bigx] is uniform below the bound. *)
Definition seed_max : Z := Z.shiftl 1 62.
Definition makeSeed (bigx : Z) : Z := wrap64 bigx.

Definition is_byte (z : Z) : Prop := 0 <= z < 256.

(** ** Six bits *)

Lemma b64_inj u v : 0 <= u < 64 -> 0 <= v < 64 -> b64 u = b64 v -> u = v.
Proof.
  intros Hu Hv He.
  assert (Hall : forallb (fun u => forallb (fun v => implb (Ascii.eqb (b64 u) (b64 v)) (Z.eqb u v)) (range 64)) (range 64) = true)
    by (vm_compute; reflexivity).
  rewrite forallb_forall in Hall. specialize (Hall u). rewrite <- list_elem_of_In, elem_of_range, forallb_forall in Hall.
  specialize (Hall ltac:(lia) v). rewrite <- list_elem_of_In, elem_of_range in Hall. specialize (Hall ltac:(lia)).
  rewrite He, Ascii.eqb_refl in Hall. by apply Z.eqb_eq.
Qed.

Definition is_b64 (c : ascii) : bool := negb (Ascii.eqb c "="%char).

Lemma b64_char v : 0 <= v < 64 -> is_b64 (b64 v) = true.
Proof.
  intros Hv. assert (Hall : forallb (fun v => is_b64 (b64 v)) (range 64) = true) by (vm_compute; reflexivity).
  rewrite forallb_forall in Hall. apply Hall, list_elem_of_In, elem_of_range. lia.
Qed.

(** The bits of three bytes, as numbers. *)
Lemma val_spec a b c : is_byte a -> is_byte b -> is_byte c ->
  Z.lor (Z.lor (Z.shiftl a 16) (Z.shiftl b 8)) c = a * 65536 + b * 256 + c.
Proof.
  intros Ha Hb Hc. unfold is_byte in *.
  assert (Hs : forall z, Z.shiftl z 8 = z * 256) by (intros z; by rewrite Z.shiftl_mul_pow2).
  assert (H16 : Z.lor (Z.shiftl a 16) (Z.shiftl b 8) = Z.shiftl (a * 256 + b) 8).
  { rewrite lor_shift by (rewrite ?Hs; change (2 ^ 16) with 65536; lia). rewrite !Hs. change (2 ^ 16) with 65536. lia. }
  rewrite H16, lor_shift by (change (2 ^ 8) with 256; lia). change (2 ^ 8) with 256. lia.
Qed.

Lemma bits6_range v : 0 <= Z.land v 63 < 64.
Proof. change 63 with (Z.ones 6). rewrite Z.land_ones by lia. apply Z.mod_pos_bound. lia. Qed.

Lemma group_inj a b c a' b' c' : is_byte a -> is_byte b -> is_byte c -> is_byte a' -> is_byte b' -> is_byte c' ->
  let val := Z.lor (Z.lor (Z.shiftl a 16) (Z.shiftl b 8)) c in
  let val' := Z.lor (Z.lor (Z.shiftl a' 16) (Z.shiftl b' 8)) c' in
  b64 (Z.land (Z.shiftr val 18) 63) = b64 (Z.land (Z.shiftr val' 18) 63) ->
  b64 (Z.land (Z.shiftr val 12) 63) = b64 (Z.land (Z.shiftr val' 12) 63) ->
  b64 (Z.land (Z.shiftr val 6) 63) = b64 (Z.land (Z.shiftr val' 6) 63) ->
  b64 (Z.land val 63) = b64 (Z.land val' 63) -> a = a' /\ b = b' /\ c = c'.
Proof.
  intros Ha Hb Hc Ha' Hb' Hc' val val' E1 E2 E3 E4.
  apply b64_inj in E1, E2, E3, E4; try apply bits6_range.
  rewrite <- (Z.shiftr_0_r val), <- (Z.shiftr_0_r val') in E4. rewrite !bits6 in E1, E2, E3, E4 by lia.
  unfold val, val' in *. rewrite !val_spec in E1, E2, E3, E4 by done.
  change (2 ^ 18) with 262144 in *. change (2 ^ 12) with 4096 in *. change (2 ^ 6) with 64 in *. change (2 ^ 0) with 1 in *.
  unfold is_byte in *.
  Z.div_mod_to_equations. lia.
Qed.

(** ** Names *)

Definition all_bytes (b : list Z) : Prop := forall z, z ∈ b -> is_byte z.

Lemma all_bytes_cons a b : all_bytes (a :: b) -> is_byte a /\ all_bytes b.
Proof. intros H. split; [apply H; left|intros z Hz; apply H; by right]. Qed.

(** The first [4 * m] characters are those of the first [3 * m] bytes. *)
Lemma Encode_prefix m : forall b, (3 * m <= length b)%nat -> all_bytes b ->
  (4 * m <= length (EncodeToString b))%nat /\ (forall c, c ∈ take (4 * m) (EncodeToString b) -> is_b64 c = true).
Proof.
  induction m as [|m IH]; intros b Hl Hb; [split; [lia|intros c Hc; by apply elem_of_nil in Hc]|].
  destruct b as [|x [|y [|z b]]]; simpl in Hl; try lia.
  apply all_bytes_cons in Hb as [_ [_ [_ Hb]%all_bytes_cons]%all_bytes_cons].
  destruct (IH b ltac:(lia) Hb) as [Hle Hc]. replace (4 * S m)%nat with (S (S (S (S (4 * m))))) by lia.
  cbn [EncodeToString length take]. split; [lia|]. intros c Hin.
  do 4 (apply elem_of_cons in Hin as [->|Hin]; [apply b64_char, bits6_range|]). by apply Hc.
Qed.

Lemma Encode_same m : forall b b', (3 * m <= length b)%nat -> (3 * m <= length b')%nat -> all_bytes b -> all_bytes b' ->
  take (4 * m) (EncodeToString b) = take (4 * m) (EncodeToString b') <-> take (3 * m) b = take (3 * m) b'.
Proof.
  induction m as [|m IH]; intros b b' Hl Hl' Hb Hb'; [done|].
  destruct b as [|x [|y [|z b]]]; simpl in Hl; try lia. destruct b' as [|x' [|y' [|z' b']]]; simpl in Hl'; try lia.
  apply all_bytes_cons in Hb as [Hx [Hy [Hz Hb]%all_bytes_cons]%all_bytes_cons].
  apply all_bytes_cons in Hb' as [Hx' [Hy' [Hz' Hb']%all_bytes_cons]%all_bytes_cons].
  replace (4 * S m)%nat with (S (S (S (S (4 * m))))) by lia. replace (3 * S m)%nat with (S (S (S (3 * m)))) by lia.
  cbn [EncodeToString take]. specialize (IH b b' ltac:(lia) ltac:(lia) Hb Hb'). split.
  - intros [= E1 E2 E3 E4 E]. destruct (group_inj x y z x' y' z' Hx Hy Hz Hx' Hy' Hz' E1 E2 E3 E4) as (-> & -> & ->).
    by rewrite (proj1 IH E).
  - intros [= -> -> -> E]. by rewrite (proj2 IH E).
Qed.

(** C39: a name is drawn without a panic, has the length that was asked for and no padding
    in it, and two draws give the same name exactly when their first bytes are the same:
    the [Randstring 20] of an end of the network is 15 bytes of the 40 that are drawn. *)
Theorem Randstring_names m b b' :
  length b = (2 * (4 * m))%nat -> length b' = (2 * (4 * m))%nat -> all_bytes b -> all_bytes b' ->
  exists s s', Randstring (4 * m) b = Ret s /\ Randstring (4 * m) b' = Ret s' /\
    length s = (4 * m)%nat /\ (forall c, c ∈ s -> is_b64 c = true) /\
    (s = s' <-> take (3 * m) b = take (3 * m) b').
Proof.
  intros Hl Hl' Hb Hb'. destruct (Encode_prefix m b ltac:(lia) Hb) as [Hle Hc].
  destruct (Encode_prefix m b' ltac:(lia) Hb') as [Hle' _]. unfold Randstring. rewrite !decide_True by done.
  eexists _, _. split; [done|]. split; [done|]. split; [rewrite length_take; lia|]. split; [exact Hc|].
  apply Encode_same; [lia|lia|done|done].
Qed.

Lemma Randstring_names_witness :
  exists s s', Randstring 4 [7; 200; 31; 0; 0; 0; 0; 0] = Ret s /\ Randstring 4 [7; 200; 31; 9; 9; 9; 9; 9] = Ret s' /\ s = s'.
Proof.
  destruct (Randstring_names 1 [7; 200; 31; 0; 0; 0; 0; 0] [7; 200; 31; 9; 9; 9; 9; 9]) as (s & s' & E & E' & _ & _ & H).
  - reflexivity.
  - reflexivity.
  - intros z Hz. repeat (apply elem_of_cons in Hz as [->|Hz]; [unfold is_byte; lia|]). by apply elem_of_nil in Hz.
  - intros z Hz. repeat (apply elem_of_cons in Hz as [->|Hz]; [unfold is_byte; lia|]). by apply elem_of_nil in Hz.
  - exists s, s'. split; [exact E|]. split; [exact E'|]. apply H. reflexivity.
Defined.
