(* ===== verification/Runes.v ===== *)
(** Text as Go sees it: strings are bytes, [range] and [strings.FieldsFunc] read them as UTF-8,
    and [unicode.IsLetter] says which code points are letters. *)
From S2P Require Import Prelude.
Open Scope Z_scope.
#[local] Ltac Zify.zify_post_hook ::= Z.to_euclidean_division_equations.

(** ** UTF-8 *)

Definition byte_of (c : ascii) : Z := Z.of_N (N_of_ascii c).
Definition ascii_of (b : Z) : ascii := ascii_of_N (Z.to_N b).

(** [utf8.RuneError], the code point that an invalid byte stands for. *)
Definition RuneError : Z := 65533.

Definition in_range (lo hi x : Z) : bool := (lo <=? x) && (x <=? hi).
Definition cont (b : Z) : bool := in_range 128 191 b.

(** The sequences of two, three and four bytes that [utf8.DecodeRune] accepts: no overlong
    ones, no surrogates, nothing beyond U+10FFFF. *)
Definition two (b0 b1 : Z) : bool := in_range 194 223 b0 && cont b1.
Definition three (b0 b1 b2 : Z) : bool :=
  in_range 224 239 b0 && cont b2 &&
  in_range (if b0 =? 224 then 160 else 128) (if b0 =? 237 then 159 else 191) b1.
Definition four (b0 b1 b2 b3 : Z) : bool :=
  in_range 240 244 b0 && cont b2 && cont b3 &&
  in_range (if b0 =? 240 then 144 else 128) (if b0 =? 244 then 143 else 191) b1.

Definition rune2 (b0 b1 : Z) : Z := Z.lor (Z.shiftl (Z.land b0 31) 6) (Z.land b1 63).
Definition rune3 (b0 b1 b2 : Z) : Z :=
  Z.lor (Z.lor (Z.shiftl (Z.land b0 15) 12) (Z.shiftl (Z.land b1 63) 6)) (Z.land b2 63).
Definition rune4 (b0 b1 b2 b3 : Z) : Z :=
  Z.lor (Z.lor (Z.lor (Z.shiftl (Z.land b0 7) 18) (Z.shiftl (Z.land b1 63) 12)) (Z.shiftl (Z.land b2 63) 6))
    (Z.land b3 63).
Definition rune1 (b0 : Z) : Z := if b0 <? 128 then b0 else RuneError.

(** The code points of a string with their bytes, as [for _, r := range s] visits them. *)
Fixpoint runes (s : string) : list (Z * string) :=
  match s with
  | EmptyString => []
  | String c0 s1 =>
      let b0 := byte_of c0 in
      match s1 with
      | String c1 s2 =>
          let b1 := byte_of c1 in
          if two b0 b1 then (rune2 b0 b1, String c0 (String c1 "")) :: runes s2
          else
            match s2 with
            | String c2 s3 =>
                let b2 := byte_of c2 in
                if three b0 b1 b2 then (rune3 b0 b1 b2, String c0 (String c1 (String c2 ""))) :: runes s3
                else
                  match s3 with
                  | String c3 s4 =>
                      let b3 := byte_of c3 in
                      if four b0 b1 b2 b3 then
                        (rune4 b0 b1 b2 b3, String c0 (String c1 (String c2 (String c3 "")))) :: runes s4
                      else (rune1 b0, String c0 "") :: runes s1
                  | EmptyString => (rune1 b0, String c0 "") :: runes s1
                  end
            | EmptyString => (rune1 b0, String c0 "") :: runes s1
            end
      | EmptyString => (rune1 b0, String c0 "") :: runes s1
      end
  end.

(** [utf8.AppendRune]: what [string(r)] holds. *)
Definition valid_rune (r : Z) : bool := in_range 0 55295 r || in_range 57344 1114111 r.

Definition encode_rune (r : Z) : string :=
  if r <? 128 then String (ascii_of r) ""
  else if r <? 2048 then
    String (ascii_of (Z.lor 192 (Z.shiftr r 6))) (String (ascii_of (Z.lor 128 (Z.land r 63))) "")
  else if r <? 65536 then
    String (ascii_of (Z.lor 224 (Z.shiftr r 12)))
      (String (ascii_of (Z.lor 128 (Z.land (Z.shiftr r 6) 63)))
        (String (ascii_of (Z.lor 128 (Z.land r 63))) ""))
  else
    String (ascii_of (Z.lor 240 (Z.shiftr r 18)))
      (String (ascii_of (Z.lor 128 (Z.land (Z.shiftr r 12) 63)))
        (String (ascii_of (Z.lor 128 (Z.land (Z.shiftr r 6) 63)))
          (String (ascii_of (Z.lor 128 (Z.land r 63))) ""))).

Fixpoint encode_runes (rs : list Z) : string :=
  match rs with [] => EmptyString | r :: rs' => encode_rune r +:+ encode_runes rs' end.

(** ** Decoding what was encoded *)

Lemma byte_of_ascii_of b : 0 <= b < 256 -> byte_of (ascii_of b) = b.
Proof. intros Hb. unfold byte_of, ascii_of. rewrite N_ascii_embedding by lia. lia. Qed.

Lemma land63 v : Z.land v 63 = v mod 64.
Proof. change 63 with (Z.ones 6). by rewrite Z.land_ones. Qed.

(** The bytes of a sequence, as numbers. *)
Lemma lead2 x : 0 <= x < 32 -> Z.lor 192 x = 192 + x.
Proof. intros Hx. change 192 with (Z.shiftl 6 5) at 1. rewrite lor_shift by lia. done. Qed.
Lemma lead3 x : 0 <= x < 16 -> Z.lor 224 x = 224 + x.
Proof. intros Hx. change 224 with (Z.shiftl 14 4) at 1. rewrite lor_shift by lia. done. Qed.
Lemma lead4 x : 0 <= x < 8 -> Z.lor 240 x = 240 + x.
Proof. intros Hx. change 240 with (Z.shiftl 30 3) at 1. rewrite lor_shift by lia. done. Qed.
Lemma follow x : 0 <= x < 64 -> Z.lor 128 x = 128 + x.
Proof. intros Hx. change 128 with (Z.shiftl 2 6) at 1. rewrite lor_shift by lia. done. Qed.

Lemma rune2_spec x y : 0 <= x < 32 -> 0 <= y < 64 -> rune2 (192 + x) (128 + y) = x * 64 + y.
Proof.
  intros Hx Hy. unfold rune2. rewrite land63. change 31 with (Z.ones 5). rewrite Z.land_ones by lia.
  replace ((192 + x) mod 2 ^ 5) with x by (change (2 ^ 5) with 32; lia).
  replace ((128 + y) mod 64) with y by lia. by rewrite lor_shift by lia.
Qed.

Lemma rune3_spec x y z :
  0 <= x < 16 -> 0 <= y < 64 -> 0 <= z < 64 -> rune3 (224 + x) (128 + y) (128 + z) = x * 4096 + y * 64 + z.
Proof.
  intros Hx Hy Hz. unfold rune3. rewrite !land63. change 15 with (Z.ones 4). rewrite Z.land_ones by lia.
  replace ((224 + x) mod 2 ^ 4) with x by (change (2 ^ 4) with 16; lia).
  replace ((128 + y) mod 64) with y by lia. replace ((128 + z) mod 64) with z by lia.
  change (Z.shiftl x 12) with (Z.shiftl x (6 + 6)). rewrite <- Z.shiftl_shiftl, <- Z.shiftl_lor by lia.
  rewrite !lor_shift by lia. lia.
Qed.

Lemma rune4_spec w x y z :
  0 <= w < 8 -> 0 <= x < 64 -> 0 <= y < 64 -> 0 <= z < 64 ->
  rune4 (240 + w) (128 + x) (128 + y) (128 + z) = w * 262144 + x * 4096 + y * 64 + z.
Proof.
  intros Hw Hx Hy Hz. unfold rune4. rewrite !land63. change 7 with (Z.ones 3). rewrite Z.land_ones by lia.
  replace ((240 + w) mod 2 ^ 3) with w by (change (2 ^ 3) with 8; lia).
  replace ((128 + x) mod 64) with x by lia. replace ((128 + y) mod 64) with y by lia.
  replace ((128 + z) mod 64) with z by lia.
  change (Z.shiftl w 18) with (Z.shiftl w (6 + 12)). change (Z.shiftl x 12) with (Z.shiftl (Z.shiftl x 0) 12).
  rewrite Z.shiftl_0_r, <- (Z.shiftl_shiftl w 6 12), <- Z.shiftl_lor by lia.
  rewrite (lor_shift w x 6) by lia.
  change (Z.shiftl (w * 2 ^ 6 + x) 12) with (Z.shiftl (w * 2 ^ 6 + x) (6 + 6)).
  rewrite <- Z.shiftl_shiftl, <- Z.shiftl_lor by lia. rewrite !lor_shift by lia. lia.
Qed.

Lemma app_cons c s t : String c s +:+ t = String c (s +:+ t).
Proof. done. Qed.
Lemma app_nil t : "" +:+ t = t.
Proof. done. Qed.

(** The head of a string that starts with an encoded code point. *)
Lemma runes_encode r t : valid_rune r = true -> runes (encode_rune r +:+ t) = (r, encode_rune r) :: runes t.
Proof.
  unfold valid_rune, in_range. intros Hr. unfold encode_rune.
  destruct (Z.ltb_spec r 128) as [H1|H1]; [|destruct (Z.ltb_spec r 2048) as [H2|H2]; [|destruct (Z.ltb_spec r 65536) as [H3|H3]]].
  - assert (Hb : byte_of (ascii_of r) = r) by (apply byte_of_ascii_of; lia).
    assert (E1 : forall b1, two r b1 = false) by (intros b1; unfold two, in_range; lia).
    assert (E2 : forall b1 b2, three r b1 b2 = false) by (intros b1 b2; unfold three, in_range; lia).
    assert (E3 : forall b1 b2 b3, four r b1 b2 b3 = false) by (intros b1 b2 b3; unfold four, in_range; lia).
    assert (E : rune1 r = r) by (unfold rune1; by rewrite (proj2 (Z.ltb_lt _ _))).
    change (String (ascii_of r) "" +:+ t) with (String (ascii_of r) t). cbn [runes]. rewrite Hb, E.
    destruct t as [|c1 [|c2 [|c3 t]]]; rewrite ?E1, ?E2, ?E3; done.
  - rewrite Z.shiftr_div_pow2, land63 by lia. change (2 ^ 6) with 64.
    rewrite lead2, follow by lia. rewrite !app_cons, app_nil. cbn [runes].
    rewrite !byte_of_ascii_of by lia. rewrite rune2_spec by lia.
    assert (two (192 + r / 64) (128 + r mod 64) = true) as -> by (unfold two, cont, in_range; lia).
    f_equal. f_equal. lia.
  - rewrite !Z.shiftr_div_pow2, !land63 by lia. change (2 ^ 6) with 64. change (2 ^ 12) with 4096.
    rewrite lead3, !follow by lia. rewrite !app_cons, app_nil. cbn [runes].
    rewrite !byte_of_ascii_of by lia. rewrite rune3_spec by lia.
    assert (two (224 + r / 4096) (128 + (r / 64) mod 64) = false) as -> by (unfold two, in_range; lia).
    assert (three (224 + r / 4096) (128 + (r / 64) mod 64) (128 + r mod 64) = true) as ->.
    { unfold three, cont, in_range. destruct (Z.eqb_spec (224 + r / 4096) 224), (Z.eqb_spec (224 + r / 4096) 237); lia. }
    f_equal. f_equal. lia.
  - rewrite !Z.shiftr_div_pow2, !land63 by lia. change (2 ^ 6) with 64. change (2 ^ 12) with 4096. change (2 ^ 18) with 262144.
    rewrite lead4, !follow by lia. rewrite !app_cons, app_nil. cbn [runes].
    rewrite !byte_of_ascii_of by lia. rewrite rune4_spec by lia.
    assert (two (240 + r / 262144) (128 + (r / 4096) mod 64) = false) as -> by (unfold two, in_range; lia).
    assert (forall b1 b2, three (240 + r / 262144) b1 b2 = false) as -> by (intros; unfold three, in_range; lia).
    assert (four (240 + r / 262144) (128 + (r / 4096) mod 64) (128 + (r / 64) mod 64) (128 + r mod 64) = true) as ->.
    { unfold four, cont, in_range. destruct (Z.eqb_spec (240 + r / 262144) 240), (Z.eqb_spec (240 + r / 262144) 244); lia. }
    f_equal. f_equal. lia.
Qed.

Lemma runes_encode_runes rs :
  forallb valid_rune rs = true -> runes (encode_runes rs) = (fun r => (r, encode_rune r)) <$> rs.
Proof.
  induction rs as [|r rs IH]; [done|]. simpl. rewrite andb_true_iff. intros [Hr Hrs].
  by rewrite runes_encode, IH.
Qed.

Fixpoint bytes (l : list (Z * string)) : string :=
  match l with [] => EmptyString | (_, bs) :: l' => bs +:+ bytes l' end.

(** No byte is lost, and every code point has some. *)
Lemma runes_bytes s : bytes (runes s) = s.
Proof.
  assert (H : forall n s, (String.length s <= n)%nat -> bytes (runes s) = s); [|by eapply H].
  clear s. induction n as [|n IH]; intros s Hl; destruct s as [|c0 s1]; try done; simpl in Hl; [lia|].
  assert (E1 : bytes (runes s1) = s1) by (apply IH; lia). cbn [runes].
  destruct s1 as [|c1 s2]; [done|]. simpl in Hl.
  destruct (two _ _); [cbn [bytes]; by rewrite IH by lia|].
  destruct s2 as [|c2 s3]; [cbn [bytes]; by rewrite E1|]. simpl in Hl.
  destruct (three _ _ _); [cbn [bytes]; by rewrite IH by lia|].
  destruct s3 as [|c3 s4]; [cbn [bytes]; by rewrite E1|]. simpl in Hl.
  destruct (four _ _ _ _); cbn [bytes]; [by rewrite IH by lia|by rewrite E1].
Qed.

(** ** Text that is valid *)

(** [strings.ToValidUTF8] with [utf8.RuneError] for every byte that is no part of a code
    point: what [encoding/json] makes of a string. *)
Definition ToValid (s : string) : string := encode_runes (runes s).*1.
Definition valid_utf8 (s : string) : Prop := ToValid s = s.

#[export] Instance valid_utf8_dec s : Decision (valid_utf8 s).
Proof. unfold valid_utf8. apply _. Defined.

Lemma valid_encode rs : forallb valid_rune rs = true -> valid_utf8 (encode_runes rs).
Proof.
  intros Hrs. unfold valid_utf8, ToValid. rewrite runes_encode_runes by done. f_equal.
  rewrite <- list_fmap_compose. apply list_fmap_id.
Qed.

Lemma ascii_of_byte_of c : ascii_of (byte_of c) = c.
Proof. unfold ascii_of, byte_of. by rewrite N2Z.id, ascii_N_embedding. Qed.

Lemma encode2 b0 b1 : two b0 b1 = true ->
  valid_rune (rune2 b0 b1) = true /\ encode_rune (rune2 b0 b1) = String (ascii_of b0) (String (ascii_of b1) "").
Proof.
  unfold two, cont, in_range. intros H. replace b0 with (192 + (b0 - 192)) by lia. replace b1 with (128 + (b1 - 128)) by lia.
  assert (Hx : 2 <= b0 - 192 < 32) by lia. assert (Hy : 0 <= b1 - 128 < 64) by lia. clear H.
  revert Hx Hy. generalize (b0 - 192), (b1 - 128). intros x y Hx Hy. rewrite rune2_spec by lia. split; [unfold valid_rune, in_range; lia|].
  unfold encode_rune. rewrite (proj2 (Z.ltb_ge _ _)), (proj2 (Z.ltb_lt _ _)) by lia.
  rewrite Z.shiftr_div_pow2, land63 by lia. change (2 ^ 6) with 64. rewrite lead2, follow by lia.
  by replace ((x * 64 + y) / 64) with x by lia; replace ((x * 64 + y) mod 64) with y by lia.
Qed.

Lemma encode3 b0 b1 b2 : three b0 b1 b2 = true ->
  valid_rune (rune3 b0 b1 b2) = true /\
  encode_rune (rune3 b0 b1 b2) = String (ascii_of b0) (String (ascii_of b1) (String (ascii_of b2) "")).
Proof.
  intros H. assert (Hb : 0 <= b0 - 224 < 16 /\ 0 <= b1 - 128 < 64 /\ 0 <= b2 - 128 < 64 /\
    (b0 - 224 = 0 -> 32 <= b1 - 128) /\ (b0 - 224 = 13 -> b1 - 128 <= 31)).
  { unfold three, cont, in_range in H. destruct (Z.eqb_spec b0 224), (Z.eqb_spec b0 237); lia. }
  clear H. replace b0 with (224 + (b0 - 224)) by lia. replace b1 with (128 + (b1 - 128)) by lia. replace b2 with (128 + (b2 - 128)) by lia.
  revert Hb. generalize (b0 - 224), (b1 - 128), (b2 - 128). intros x y z (Hx & Hy & Hz & Hlo & Hhi).
  rewrite rune3_spec by lia. split; [unfold valid_rune, in_range; lia|]. unfold encode_rune.
  rewrite !(proj2 (Z.ltb_ge _ _)), (proj2 (Z.ltb_lt _ _)) by lia.
  rewrite !Z.shiftr_div_pow2, !land63 by lia. change (2 ^ 6) with 64. change (2 ^ 12) with 4096.
  rewrite lead3, !follow by lia.
  replace ((x * 4096 + y * 64 + z) / 4096) with x by lia.
  replace (((x * 4096 + y * 64 + z) / 64) mod 64) with y by lia.
  by replace ((x * 4096 + y * 64 + z) mod 64) with z by lia.
Qed.

Lemma encode4 b0 b1 b2 b3 : four b0 b1 b2 b3 = true ->
  valid_rune (rune4 b0 b1 b2 b3) = true /\
  encode_rune (rune4 b0 b1 b2 b3) =
    String (ascii_of b0) (String (ascii_of b1) (String (ascii_of b2) (String (ascii_of b3) ""))).
Proof.
  intros H. assert (Hb : 0 <= b0 - 240 < 5 /\ 0 <= b1 - 128 < 64 /\ 0 <= b2 - 128 < 64 /\ 0 <= b3 - 128 < 64 /\
    (b0 - 240 = 0 -> 16 <= b1 - 128) /\ (b0 - 240 = 4 -> b1 - 128 <= 15)).
  { unfold four, cont, in_range in H. destruct (Z.eqb_spec b0 240), (Z.eqb_spec b0 244); lia. }
  clear H. replace b0 with (240 + (b0 - 240)) by lia. replace b1 with (128 + (b1 - 128)) by lia.
  replace b2 with (128 + (b2 - 128)) by lia. replace b3 with (128 + (b3 - 128)) by lia.
  revert Hb. generalize (b0 - 240), (b1 - 128), (b2 - 128), (b3 - 128). intros w x y z (Hw & Hx & Hy & Hz & Hlo & Hhi).
  rewrite rune4_spec by lia. split; [unfold valid_rune, in_range; lia|]. unfold encode_rune.
  rewrite !(proj2 (Z.ltb_ge _ _)) by lia.
  rewrite !Z.shiftr_div_pow2, !land63 by lia. change (2 ^ 6) with 64. change (2 ^ 12) with 4096. change (2 ^ 18) with 262144.
  rewrite lead4, !follow by lia.
  replace ((w * 262144 + x * 4096 + y * 64 + z) / 262144) with w by lia.
  replace (((w * 262144 + x * 4096 + y * 64 + z) / 4096) mod 64) with x by lia.
  replace (((w * 262144 + x * 4096 + y * 64 + z) / 64) mod 64) with y by lia.
  by replace ((w * 262144 + x * 4096 + y * 64 + z) mod 64) with z by lia.
Qed.

(** What decoding yields: an encoded code point, or [RuneError] for a byte that is none. *)
Definition decoded (rb : Z * string) : Prop :=
  rb.1 = RuneError \/ valid_rune rb.1 = true /\ rb.2 = encode_rune rb.1.

Lemma decoded1 c : decoded (rune1 (byte_of c), String c "").
Proof.
  assert (Hb : 0 <= byte_of c) by (unfold byte_of; lia). unfold decoded, rune1. simpl.
  destruct (Z.ltb_spec (byte_of c) 128) as [Hc|Hc]; [right|by left]. split; [unfold valid_rune, in_range; lia|].
  unfold encode_rune. rewrite (proj2 (Z.ltb_lt _ _)) by done. by rewrite ascii_of_byte_of.
Qed.

Lemma runes_decoded s : Forall decoded (runes s).
Proof.
  assert (H : forall n s, (String.length s <= n)%nat -> Forall decoded (runes s)); [|by eapply H].
  clear s. induction n as [|n IH]; intros s Hl; destruct s as [|c0 s1]; try (by constructor); simpl in Hl; [lia|].
  assert (E1 : Forall decoded ((rune1 (byte_of c0), String c0 "") :: runes s1))
    by (constructor; [apply decoded1|apply IH; lia]).
  cbn [runes]. destruct s1 as [|c1 s2]; [exact E1|]. simpl in Hl.
  destruct (two _ _) eqn:E.
  { constructor; [|apply IH; lia]. right. destruct (encode2 _ _ E) as [Hv He].
    rewrite !ascii_of_byte_of in He. by split. }
  destruct s2 as [|c2 s3]; [exact E1|]. simpl in Hl. clear E. destruct (three _ _ _) eqn:E.
  { constructor; [|apply IH; lia]. right. destruct (encode3 _ _ _ E) as [Hv He].
    rewrite !ascii_of_byte_of in He. by split. }
  destruct s3 as [|c3 s4]; [exact E1|]. simpl in Hl. clear E. destruct (four _ _ _ _) eqn:E; [|exact E1].
  constructor; [|apply IH; lia]. right. destruct (encode4 _ _ _ _ E) as [Hv He].
  rewrite !ascii_of_byte_of in He. by split.
Qed.

(** The result of [ToValid] is valid, so that doing it again changes nothing. *)
Lemma ToValid_valid s : valid_utf8 (ToValid s).
Proof.
  apply valid_encode, forallb_forall. intros r Hr. apply list_elem_of_In, list_elem_of_fmap in Hr as (rb & -> & Hin).
  pose proof (runes_decoded s) as H. rewrite Forall_forall in H.
  destruct (H rb Hin) as [->|[Hv _]]; [reflexivity|exact Hv].
Qed.

(** ** [strings.FieldsFunc] *)

(** [cur] is the field being read. *)
Fixpoint FieldsFunc_go (f : Z -> bool) (cur : string) (l : list (Z * string)) : list string :=
  match l with
  | [] => if String.eqb cur "" then [] else [cur]
  | (r, bs) :: l' =>
      if f r then
        if String.eqb cur "" then FieldsFunc_go f "" l' else cur :: FieldsFunc_go f "" l'
      else FieldsFunc_go f (cur +:+ bs) l'
  end.
Definition FieldsFunc (s : string) (f : Z -> bool) : list string := FieldsFunc_go f "" (runes s).

(** The fields of a sequence of code points: its maximal runs for which [f] is false. *)
Definition field (f : Z -> bool) (w : list Z) : Prop := w <> [] /\ Forall (fun r => f r = false) w.
Definition separators (f : Z -> bool) (l : list Z) : Prop := Forall (fun r => f r = true) l.

Inductive fields (f : Z -> bool) : list Z -> list (list Z) -> Prop :=
| fields_none sep : separators f sep -> fields f sep []
| fields_last sep w : separators f sep -> field f w -> fields f (sep ++ w) [w]
| fields_more sep w r rs ws :
    separators f sep -> field f w -> f r = true -> fields f (r :: rs) ws -> fields f (sep ++ w ++ r :: rs) (w :: ws).

Lemma fields_sep f r rs ws : f r = true -> fields f rs ws -> fields f (r :: rs) ws.
Proof.
  intros Hr H. destruct H as [sep Hs|sep w Hs Hw|sep w r' rs ws Hs Hw Hr' H].
  - apply fields_none. by constructor.
  - apply (fields_last f (r :: sep)); [by constructor|done].
  - apply (fields_more f (r :: sep)); [by constructor|done..].
Qed.

Lemma encode_runes_app l1 l2 : encode_runes (l1 ++ l2) = encode_runes l1 +:+ encode_runes l2.
Proof. induction l1 as [|r l1 IH]; [done|]. simpl. by rewrite IH, string_app_assoc. Qed.

Lemma encode_runes_nil l : (encode_runes l =? "")%string = bool_decide (l = []).
Proof.
  destruct l as [|r l]; [done|]. simpl. unfold encode_rune. by repeat case_match.
Qed.

Lemma FieldsFunc_go_fields f rs : forall cur, Forall (fun r => f r = false) cur -> exists ws,
  FieldsFunc_go f (encode_runes cur) ((fun r => (r, encode_rune r)) <$> rs) = encode_runes <$> ws /\
  fields f (cur ++ rs) ws.
Proof.
  induction rs as [|r rs IH]; intros cur Hcur; cbn [fmap list_fmap FieldsFunc_go].
  - rewrite encode_runes_nil, app_nil_r. case_bool_decide as Hn.
    + exists []. split; [done|]. subst. apply fields_none; constructor.
    + exists [cur]. split; [done|]. apply (fields_last f []); [constructor|by split].
  - rewrite encode_runes_nil. destruct (f r) eqn:Hr.
    + destruct (IH []) as (ws & He & Hf); [done|]. simpl in He, Hf. apply (fields_sep f r) in Hf; [|done].
      case_bool_decide as Hn; [subst; by exists ws|]. exists (cur :: ws). rewrite fmap_cons, <- He. split; [done|].
      apply (fields_more f [] cur); [constructor|by split|done|done].
    + destruct (IH (cur ++ [r])) as (ws & He & Hf).
      { apply Forall_app. split; [done|]. by apply Forall_singleton. }
      exists ws. rewrite <- app_assoc in Hf. split; [|done]. rewrite <- He, encode_runes_app. simpl.
      by rewrite string_app_nil_r.
Qed.

(** the words of a text.  For every sequence of code points that UTF-8 can encode, the
    fields that [strings.FieldsFunc] cuts out of its encoding are the encodings of the
    maximal runs of code points for which the function is false, in order: no code point is
    cut in two, lost, or read as another. *)
Theorem FieldsFunc_text rs f :
  forallb valid_rune rs = true ->
  exists ws, FieldsFunc (encode_runes rs) f = encode_runes <$> ws /\ fields f rs ws.
Proof.
  intros Hrs. unfold FieldsFunc. rewrite runes_encode_runes by done.
  by apply (FieldsFunc_go_fields f rs []).
Qed.

(** A byte that is no part of a code point separates: the fields are valid text. *)
Lemma FieldsFunc_go_valid f l : f RuneError = true -> Forall decoded l -> forall cur,
  forallb valid_rune cur = true -> Forall valid_utf8 (FieldsFunc_go f (encode_runes cur) l).
Proof.
  intros Hf. induction 1 as [|[r bs] l Hd _ IH]; intros cur Hcur; cbn [FieldsFunc_go].
  - destruct (String.eqb _ _); constructor; [by apply valid_encode|done].
  - destruct (f r) eqn:Hr.
    + specialize (IH [] eq_refl). destruct (String.eqb _ _); [exact IH|]. constructor; [by apply valid_encode|exact IH].
    + destruct Hd as [Hd|[Hv Hb]]; simpl in *; [congruence|]. subst bs.
      specialize (IH (cur ++ [r])). rewrite encode_runes_app in IH. simpl in IH. rewrite string_app_nil_r in IH.
      apply IH. rewrite forallb_app, Hcur. simpl. by rewrite Hv.
Qed.

Lemma FieldsFunc_valid s f : f RuneError = true -> Forall valid_utf8 (FieldsFunc s f).
Proof. intros Hf. by apply (FieldsFunc_go_valid f _ Hf (runes_decoded s) []). Qed.

(** ** [unicode.IsLetter] *)

(** The letters beyond Latin-1, as the Unicode tables list them; U+FFFD is a symbol. *)
Class Letters := { letter_beyond : Z -> bool; letter_error : letter_beyond RuneError = false }.

Definition latin1_letter (r : Z) : bool :=
  in_range 65 90 r || in_range 97 122 r || (r =? 170) || (r =? 181) || (r =? 186) ||
  in_range 192 214 r || in_range 216 246 r || in_range 248 255 r.

Definition IsLetter `{Letters} (r : Z) : bool := if r <=? 255 then latin1_letter r else letter_beyond r.

(** [Ärger, naïve 世界!]: umlauts are letters of Latin-1, the last word is beyond. *)
Definition demo_text : list Z :=
  [196; 114; 103; 101; 114; 44; 32; 110; 97; 239; 118; 101; 32; 19990; 30028; 33].

Lemma FieldsFunc_text_witness :
  exists ws, FieldsFunc (encode_runes demo_text) (fun r => negb (latin1_letter r || (19968 <=? r))) = encode_runes <$> ws /\
    length ws = 3%nat /\ fields (fun r => negb (latin1_letter r || (19968 <=? r))) demo_text ws.
Proof.
  destruct (FieldsFunc_text demo_text (fun r => negb (latin1_letter r || (19968 <=? r)))) as (ws & He & Hf).
  - vm_compute. reflexivity.
  - exists ws. split; [exact He|]. split; [|exact Hf].
    apply (f_equal length) in He. rewrite length_fmap in He. rewrite <- He. vm_compute. reflexivity.
Defined.
