(* ===== verification/Json.v ===== *)
(** JSON as [encoding/json] of Go's standard library writes and reads it, for the
    data the labs encode: integers, ASCII strings, arrays, objects.  [Marshal]
    prints without white space and escapes what Go escapes; [parse] reads the same
    format back.  Shard configurations ([ShardCodec.v]) and the values of the
    key/value tests ([KvTest.v]) are encoded with it. *)
From S2P Require Import Prelude.
From stdpp Require Import pretty.
Open Scope Z_scope.

Inductive json :=
| JNull
| JBool (b : bool)
| JNum (z : Z)
| JStr (s : string)
| JArr (l : list json)
| JObj (l : list (string * json)).

(** The induction principle that goes through the lists. *)
Section JsonInd.
Variable P : json -> Prop.
Hypothesis Pnull : P JNull.
Hypothesis Pbool : forall b, P (JBool b).
Hypothesis Pnum : forall z, P (JNum z).
Hypothesis Pstr : forall s, P (JStr s).
Hypothesis Parr : forall l, Forall P l -> P (JArr l).
Hypothesis Pobj : forall l, Forall (fun kv => P kv.2) l -> P (JObj l).

Fixpoint json_nested_ind (v : json) : P v :=
  match v with
  | JNull => Pnull
  | JBool b => Pbool b
  | JNum z => Pnum z
  | JStr s => Pstr s
  | JArr l => Parr l
      ((fix go l : Forall P l :=
          match l with
          | [] => Forall_nil_2 P
          | x :: l' => Forall_cons_2 P x l' (json_nested_ind x) (go l')
          end) l)
  | JObj l => Pobj l
      ((fix go l : Forall (fun kv => P kv.2) l :=
          match l with
          | [] => Forall_nil_2 _
          | x :: l' => Forall_cons_2 (fun kv => P kv.2) x l' (json_nested_ind x.2) (go l')
          end) l)
  end.
End JsonInd.

(** ** Characters *)

Definition quote : ascii := Ascii.ascii_of_nat 34.
Definition bslash : ascii := Ascii.ascii_of_nat 92.
Definition code (c : ascii) : nat := Ascii.nat_of_ascii c.

(** [hex] of [encoding/json]: the digits of the escapes. *)
Definition hex_digit (n : nat) : ascii :=
  Ascii.ascii_of_nat (if (n <? 10)%nat then 48 + n else 87 + n).
Definition hex_value (c : ascii) : option nat :=
  let n := code c in
  if ((48 <=? n) && (n <=? 57))%nat then Some (n - 48)%nat
  else if ((97 <=? n) && (n <=? 102))%nat then Some (n - 87)%nat
  else if ((65 <=? n) && (n <=? 70))%nat then Some (n - 55)%nat
  else None.

(** The two-character escapes: the character after the backslash and its meaning. *)
Definition short_escapes : list (ascii * ascii) :=
  [(quote, quote); (bslash, bslash); ("b"%char, Ascii.ascii_of_nat 8);
   ("f"%char, Ascii.ascii_of_nat 12); ("n"%char, Ascii.ascii_of_nat 10);
   ("r"%char, Ascii.ascii_of_nat 13); ("t"%char, Ascii.ascii_of_nat 9)].

Definition escape_of (c : ascii) : option ascii :=
  fst <$> list_find (fun p => p.2 = c) short_escapes ≫= (fun q => Some q.2).
Definition unescape_of (e : ascii) : option ascii :=
  if bool_decide (e = "/"%char) then Some e
  else snd <$> list_find (fun p => p.1 = e) short_escapes ≫= (fun q => Some q.2).

(** Control characters, and with the default [escapeHTML] also [<], [>] and [&]. *)
Definition needs_hex (c : ascii) : bool :=
  (code c <? 32)%nat || bool_decide (c = "<"%char) || bool_decide (c = ">"%char)
  || bool_decide (c = "&"%char).

Definition escape_char (c : ascii) : string :=
  match escape_of c with
  | Some e => String bslash (String e EmptyString)
  | None =>
      if needs_hex c then
        String bslash (String "u" (String "0" (String "0"
          (String (hex_digit (code c / 16)) (String (hex_digit (code c mod 16)) EmptyString)))))
      else String c EmptyString
  end.

Fixpoint escape (s : string) : string :=
  match s with EmptyString => EmptyString | String c s' => escape_char c +:+ escape s' end.

Definition print_str (s : string) : string :=
  String quote (escape s +:+ String quote EmptyString).

(** ** Printing ([json.Marshal]) *)

Fixpoint join (sep : string) (l : list string) : string :=
  match l with
  | [] => ""
  | [s] => s
  | s :: l' => s +:+ sep +:+ join sep l'
  end.

Fixpoint print (v : json) : string :=
  match v with
  | JNull => "null"
  | JBool true => "true"
  | JBool false => "false"
  | JNum z => pretty z
  | JStr s => print_str s
  | JArr l => "[" +:+ join "," (map print l) +:+ "]"
  | JObj l => "{" +:+ join "," (map (fun kv => print_str kv.1 +:+ ":" +:+ print kv.2) l) +:+ "}"
  end.

(** ** Reading ([json.Unmarshal]) *)

(** The rest of a string after its opening quote.  Escapes of characters beyond
    ASCII, which [Marshal] does not write for ASCII strings, are not read. *)
Fixpoint parse_str (s : string) : option (string * string) :=
  match s with
  | EmptyString => None
  | String c s' =>
      if bool_decide (c = quote) then Some (EmptyString, s')
      else if bool_decide (c = bslash) then
        match s' with
        | String e s'' =>
            if bool_decide (e = "u"%char) then
              match s'' with
              | String h1 (String h2 (String h3 (String h4 r))) =>
                  match hex_value h1, hex_value h2, hex_value h3, hex_value h4 with
                  | Some O, Some O, Some a, Some b =>
                      if (16 * a + b <? 128)%nat then
                        match parse_str r with
                        | Some (t, r') => Some (String (Ascii.ascii_of_nat (16 * a + b)) t, r')
                        | None => None
                        end
                      else None
                  | _, _, _, _ => None
                  end
              | _ => None
              end
            else
              match unescape_of e, parse_str s'' with
              | Some u, Some (t, r) => Some (String u t, r)
              | _, _ => None
              end
        | EmptyString => None
        end
      else if (code c <? 32)%nat then None
      else match parse_str s' with Some (t, r) => Some (String c t, r) | None => None end
  end.

Definition digit_value (c : ascii) : option N :=
  let n := code c in
  if ((48 <=? n) && (n <=? 57))%nat then Some (N.of_nat (n - 48)) else None.

Fixpoint parse_digits (acc : N) (s : string) : N * string :=
  match s with
  | String c s' =>
      match digit_value c with
      | Some d => parse_digits (acc * 10 + d)%N s'
      | None => (acc, s)
      end
  | EmptyString => (acc, s)
  end.

(** A number starts with a digit, or a minus sign and a digit. *)
Definition parse_num (s : string) : option (Z * string) :=
  match s with
  | String c s' =>
      if bool_decide (c = "-"%char) then
        match s' with
        | String d _ =>
            match digit_value d with
            | Some _ => let '(n, r) := parse_digits 0 s' in Some (- Z.of_N n, r)
            | None => None
            end
        | EmptyString => None
        end
      else
        match digit_value c with
        | Some _ => let '(n, r) := parse_digits 0 s in Some (Z.of_N n, r)
        | None => None
        end
  | EmptyString => None
  end.

(** [prefix p s]: the rest of [s] after [p]. *)
Fixpoint strip (p s : string) : option string :=
  match p, s with
  | EmptyString, _ => Some s
  | String c p', String d s' => if bool_decide (c = d) then strip p' s' else None
  | String _ _, EmptyString => None
  end.

(** Every call of the three functions reads at least one character before the next,
    so the length of the text is fuel enough ([parse_print]). *)
Fixpoint parse (fuel : nat) (s : string) : option (json * string) :=
  match fuel with
  | O => None
  | S f =>
      match s with
      | String c s' =>
          if bool_decide (c = quote) then '(t, r) ← parse_str s'; Some (JStr t, r)
          else if bool_decide (c = "["%char) then
            match strip "]" s' with
            | Some r => Some (JArr [], r)
            | None => '(l, r) ← parse_elems f s'; Some (JArr l, r)
            end
          else if bool_decide (c = "{"%char) then
            match strip "}" s' with
            | Some r => Some (JObj [], r)
            | None => '(l, r) ← parse_members f s'; Some (JObj l, r)
            end
          else if bool_decide (c = "n"%char) then r ← strip "ull" s'; Some (JNull, r)
          else if bool_decide (c = "t"%char) then r ← strip "rue" s'; Some (JBool true, r)
          else if bool_decide (c = "f"%char) then r ← strip "alse" s'; Some (JBool false, r)
          else '(z, r) ← parse_num s; Some (JNum z, r)
      | EmptyString => None
      end
  end
with parse_elems (fuel : nat) (s : string) : option (list json * string) :=
  match fuel with
  | O => None
  | S f =>
      '(v, r) ← parse f s;
      match strip "]" r with
      | Some r' => Some ([v], r')
      | None => r' ← strip "," r; '(l, r'') ← parse_elems f r'; Some (v :: l, r'')
      end
  end
with parse_members (fuel : nat) (s : string) : option (list (string * json) * string) :=
  match fuel with
  | O => None
  | S f =>
      r0 ← strip (String quote EmptyString) s;
      '(k, r1) ← parse_str r0;
      r2 ← strip ":" r1;
      '(v, r) ← parse f r2;
      match strip "}" r with
      | Some r' => Some ([(k, v)], r')
      | None => r' ← strip "," r; '(l, r'') ← parse_members f r'; Some ((k, v) :: l, r'')
      end
  end.

Definition Marshal (v : json) : string := print v.

(** Trailing text is an error. *)
Definition Unmarshal (s : string) : option json :=
  '(v, r) ← parse (S (String.length s)) s;
  if bool_decide (r = EmptyString) then Some v else None.

(** ** Round trip *)

Definition is_ascii (c : ascii) : bool := (code c <? 128)%nat.
Fixpoint ascii_string (s : string) : bool :=
  match s with EmptyString => true | String c s' => is_ascii c && ascii_string s' end.

(** Values all of whose strings are ASCII. *)
Fixpoint ascii_json (v : json) : bool :=
  match v with
  | JStr s => ascii_string s
  | JArr l => forallb ascii_json l
  | JObj l => forallb (fun kv => ascii_string kv.1 && ascii_json kv.2) l
  | _ => true
  end.

(** What may follow a value. *)
Definition delim (r : string) : Prop :=
  match r with
  | EmptyString => True
  | String c _ => c = ","%char \/ c = "]"%char \/ c = "}"%char
  end.

Lemma parse_escape_char c s :
  is_ascii c = true ->
  parse_str (escape_char c +:+ s) =
    match parse_str s with Some (t, r) => Some (String c t, r) | None => None end.
Proof.
  destruct c as [[] [] [] [] [] [] [] []]; intros H; try discriminate H; reflexivity.
Qed.

Lemma parse_escape s r :
  ascii_string s = true -> parse_str (escape s +:+ String quote r) = Some (s, r).
Proof.
  induction s as [|c s IH]; intros H; [done|]. simpl in H. apply andb_prop in H as [Hc Hs].
  cbn [escape]. rewrite <- string_app_assoc, parse_escape_char by done. by rewrite IH.
Qed.

(** Digits. *)
Lemma digit_value_char x : (x < 10)%N -> digit_value (pretty_N_char x) = Some x.
Proof.
  intros H. assert (x = 0 \/ x = 1 \/ x = 2 \/ x = 3 \/ x = 4 \/ x = 5 \/ x = 6 \/ x = 7 \/ x = 8 \/ x = 9)%N
    as Hx by lia. by repeat destruct Hx as [->|Hx]; subst.
Qed.

Lemma parse_digits_go x : forall s, parse_digits 0 (pretty_N_go x s) = parse_digits x s.
Proof.
  induction (N.lt_wf_0 x) as [x _ IH]. intros s.
  destruct (decide (x = 0)%N) as [->|Hx]; [by rewrite pretty_N_go_0|].
  rewrite pretty_N_go_step by lia. rewrite IH by (apply N.div_lt; lia).
  cbn [parse_digits]. rewrite digit_value_char by (by apply N.mod_lt). f_equal.
  rewrite N.mul_comm. symmetry. by apply N.div_mod.
Qed.

Lemma pretty_N_go_app x : forall s r, pretty_N_go x s +:+ r = pretty_N_go x (s +:+ r).
Proof.
  induction (N.lt_wf_0 x) as [x _ IH]. intros s r.
  destruct (decide (x = 0)%N) as [->|Hx]; [by rewrite !pretty_N_go_0|].
  rewrite !(pretty_N_go_step x) by lia. by rewrite IH by (apply N.div_lt; lia).
Qed.

Lemma parse_digits_delim n r : delim r -> parse_digits n r = (n, r).
Proof. destruct r as [|c r]; [done|]. by intros [->|[->| ->]]. Qed.

Lemma parse_digits_pretty (n : N) r : delim r -> parse_digits 0 (pretty n +:+ r) = (n, r).
Proof.
  intros Hr. unfold pretty, pretty_N. case_decide as Hn.
  - subst. change (parse_digits 0 r = (0%N, r)). by apply parse_digits_delim.
  - rewrite pretty_N_go_app, parse_digits_go. by apply parse_digits_delim.
Qed.

(** A decimal number starts with a digit. *)
Lemma pretty_N_go_head x : forall s, (x <> 0)%N ->
  exists d t, pretty_N_go x s = String (pretty_N_char d) t /\ (d < 10)%N.
Proof.
  induction (N.lt_wf_0 x) as [x _ IH]. intros s Hx. rewrite pretty_N_go_step by lia.
  destruct (decide (x / 10 = 0)%N) as [->|Hd].
  - rewrite pretty_N_go_0. eexists _, _. split; [done|]. by apply N.mod_lt.
  - apply IH; [apply N.div_lt; lia|done].
Qed.

Lemma pretty_N_head (n : N) : exists d t, pretty n = String (pretty_N_char d) t /\ (d < 10)%N.
Proof.
  unfold pretty, pretty_N. case_decide as Hn; [|by apply pretty_N_go_head].
  by exists 0%N, EmptyString.
Qed.

Lemma digit_not_special d :
  (d < 10)%N -> forall c, pretty_N_char d = c ->
  c <> quote /\ c <> "["%char /\ c <> "{"%char /\ c <> "n"%char /\ c <> "t"%char /\ c <> "f"%char
  /\ c <> "-"%char /\ c <> "]"%char /\ c <> "}"%char.
Proof.
  intros H c <-. unfold pretty_N_char. by repeat case_match.
Qed.

Lemma pretty_Z_N (z : Z) : (0 <= z)%Z -> pretty z = pretty (Z.to_N z).
Proof. by destruct z. Qed.
Lemma pretty_Z_neg (z : Z) : (z < 0)%Z -> pretty z = String "-" (pretty (Z.to_N (- z))).
Proof. by destruct z. Qed.

Lemma parse_num_pretty (z : Z) r : delim r -> parse_num (pretty z +:+ r) = Some (z, r).
Proof.
  intros Hr. destruct (decide (0 <= z)%Z) as [Hz|Hz].
  - rewrite pretty_Z_N by done. pose proof (parse_digits_pretty (Z.to_N z) r Hr) as Hp.
    destruct (pretty_N_head (Z.to_N z)) as (d & t & E & Hd). rewrite E in *.
    change (String (pretty_N_char d) t +:+ r) with (String (pretty_N_char d) (t +:+ r)) in *.
    destruct (digit_not_special d Hd _ eq_refl) as (_ & _ & _ & _ & _ & _ & Hm & _).
    unfold parse_num. rewrite bool_decide_eq_false_2, digit_value_char, Hp by done.
    by rewrite Z2N.id.
  - rewrite pretty_Z_neg by lia. pose proof (parse_digits_pretty (Z.to_N (- z)) r Hr) as Hp.
    destruct (pretty_N_head (Z.to_N (- z))) as (d & t & E & Hd). rewrite E in *.
    change (String "-" (String (pretty_N_char d) t) +:+ r)
      with (String "-" (String (pretty_N_char d) (t +:+ r))).
    change (String (pretty_N_char d) t +:+ r) with (String (pretty_N_char d) (t +:+ r)) in Hp.
    unfold parse_num. rewrite bool_decide_eq_true_2, digit_value_char, Hp by done.
    rewrite Z2N.id by lia. f_equal. f_equal. lia.
Qed.

(** The first character of a value. *)
Lemma pretty_Z_head (z : Z) : exists c t, pretty z = String c t /\
  c <> quote /\ c <> "["%char /\ c <> "{"%char /\ c <> "n"%char /\ c <> "t"%char /\ c <> "f"%char
  /\ c <> "]"%char /\ c <> "}"%char.
Proof.
  destruct (decide (0 <= z)%Z).
  - rewrite pretty_Z_N by done. destruct (pretty_N_head (Z.to_N z)) as (d & t & -> & Hd).
    exists (pretty_N_char d), t. destruct (digit_not_special d Hd _ eq_refl) as (? & ? & ? & ? & ? & ? & ? & ? & ?).
    by repeat split.
  - rewrite pretty_Z_neg by lia. by eexists _, _.
Qed.

Lemma print_head v : exists c t, print v = String c t /\ c <> "]"%char /\ c <> "}"%char.
Proof.
  destruct v as [|[]|z|s|l|l]; cbn [print]; try by eexists _, _.
  destruct (pretty_Z_head z) as (c & t & -> & Hc). exists c, t. tauto.
Qed.

Lemma print_pos v : (0 < String.length (print v))%nat.
Proof. destruct (print_head v) as (c & t & -> & _). simpl. lia. Qed.

(** Reading back what was printed, with enough fuel and before a delimiter. *)
Definition reads (v : json) : Prop :=
  ascii_json v = true -> forall fuel r, (String.length (print v) < fuel)%nat -> delim r ->
    parse fuel (print v +:+ r) = Some (v, r).

Lemma strip_head_ne c d t : c <> d -> strip (String c EmptyString) (String d t) = None.
Proof. intros H. simpl. by rewrite bool_decide_eq_false_2. Qed.

Lemma strip_close c t : strip (String c EmptyString) (String c t) = Some t.
Proof. simpl. by rewrite bool_decide_eq_true_2. Qed.

Lemma join_cons sep s l :
  join sep (s :: l) = s +:+ match l with [] => "" | _ => sep +:+ join sep l end.
Proof. destruct l; [|done]. symmetry. apply string_app_nil_r. Qed.

Lemma parse_elems_print l : Forall reads l -> forall fuel r,
  l <> [] -> forallb ascii_json l = true ->
  (S (String.length (join "," (map print l))) < fuel)%nat ->
  parse_elems fuel (join "," (map print l) +:+ String "]" r) = Some (l, r).
Proof.
  induction 1 as [|v l Hv _ IH]; intros fuel r Hne Ha Hf; [done|].
  simpl in Ha. apply andb_prop in Ha as [Hav Hal].
  cbn [map] in *. rewrite join_cons in *. rewrite string_length_app in Hf.
  destruct fuel as [|f]; [lia|]. rewrite <- string_app_assoc. cbn [parse_elems].
  destruct l as [|v2 l].
  - cbn [map]. rewrite (Hv Hav) by (simpl in Hf; (lia || by right; left)).
    step_bind. change ("" +:+ String "]" r) with (String "]" r). by rewrite strip_close.
  - cbn [map] in *. set (js := join "," (print v2 :: map print l)) in *.
    change (String.length ("," +:+ js)) with (S (String.length js)) in Hf.
    change (("," +:+ js) +:+ String "]" r) with (String "," (js +:+ String "]" r)).
    rewrite (Hv Hav) by (lia || by left). step_bind. rewrite strip_head_ne by done.
    rewrite strip_close. step_bind. rewrite (IH f) by (done || (pose proof (print_pos v); lia)).
    done.
Qed.

Lemma parse_members_print (l : list (string * json)) :
  Forall (fun kv => reads kv.2) l -> forall fuel r,
  let ps := map (fun kv : string * json => print_str kv.1 +:+ ":" +:+ print kv.2) l in
  l <> [] -> forallb (fun kv : string * json => ascii_string kv.1 && ascii_json kv.2) l = true ->
  (S (String.length (join "," ps)) < fuel)%nat ->
  parse_members fuel (join "," ps +:+ String "}" r) = Some (l, r).
Proof.
  induction 1 as [|[k v] l Hv _ IH]; intros fuel r ps Hne Ha Hf; [done|]. subst ps.
  simpl in Ha. apply andb_prop in Ha as [Hakv Hal]. apply andb_prop in Hakv as [Hak Hav].
  simpl in Hv. cbn [map fst snd] in *. rewrite join_cons in *. rewrite !string_length_app in Hf.
  destruct fuel as [|f]; [lia|]. rewrite <- !string_app_assoc. cbn [parse_members].
  unfold print_str at 1.
  change (String quote (escape k +:+ String quote EmptyString) +:+ ?x)
    with (String quote ((escape k +:+ String quote EmptyString) +:+ x)).
  rewrite strip_close. step_bind. rewrite <- string_app_assoc.
  change (String quote EmptyString +:+ ?x) with (String quote x).
  rewrite parse_escape by done. step_bind.
  change (":" +:+ ?x) with (String ":" x). rewrite strip_close. step_bind.
  destruct l as [|kv2 l].
  - cbn [map]. rewrite (Hv Hav) by (simpl in Hf; (lia || by right; right)).
    step_bind. change ("" +:+ String "}" r) with (String "}" r). by rewrite strip_close.
  - set (js := join "," (map _ (kv2 :: l))) in *. cbn [map] in Hf. cbn [map] in *.
    change (String.length ("," +:+ js)) with (S (String.length js)) in Hf.
    change (("," +:+ js) +:+ String "}" r) with (String "," (js +:+ String "}" r)).
    rewrite (Hv Hav) by (lia || by left). step_bind. rewrite strip_head_ne by done.
    rewrite strip_close. step_bind. rewrite (IH f) by (done || (cbn [String.length print_str String.app] in Hf; lia)).
    done.
Qed.

Lemma reads_all v : reads v.
Proof.
  induction v as [| |z|s|l IH|l IH] using json_nested_ind; intros Ha fuel r Hf Hr;
    (destruct fuel as [|f]; [lia|]).
  - done.
  - by destruct b.
  - cbn [print] in *. pose proof (parse_num_pretty z r Hr) as Hp.
    destruct (pretty_Z_head z) as (c & t & E & H1 & H2 & H3 & H4 & H5 & H6 & _). rewrite E in *.
    change (String c t +:+ r) with (String c (t +:+ r)) in *. cbn [parse].
    rewrite !bool_decide_eq_false_2 by done. by rewrite Hp.
  - cbn [print]. unfold print_str.
    change (parse (S f) (String quote ((escape s +:+ String quote EmptyString) +:+ r)) = Some (JStr s, r)).
    rewrite <- string_app_assoc. cbn [parse]. rewrite bool_decide_eq_true_2 by done.
    change (String quote EmptyString +:+ r) with (String quote r). by rewrite parse_escape.
  - cbn [print] in *. rewrite string_length_app in Hf.
    change (("[" +:+ join "," (map print l) +:+ "]") +:+ r)
      with (String "[" ((join "," (map print l) +:+ "]") +:+ r)).
    rewrite <- string_app_assoc. change ("]" +:+ r) with (String "]" r). cbn [parse].
    rewrite (bool_decide_eq_false_2 ("["%char = quote)), bool_decide_eq_true_2 by done.
    destruct l as [|v l]; [done|]. rewrite string_length_app in Hf. cbn [String.length] in Hf.
    assert (exists c t, join "," (map print (v :: l)) +:+ String "]" r = String c t /\ c <> "]"%char)
      as (c & t & E & Hc).
    { cbn [map]. rewrite join_cons. destruct (print_head v) as (c & t & -> & Hc & _).
      by eexists _, _. }
    rewrite E, strip_head_ne by congruence. rewrite <- E.
    rewrite (parse_elems_print (v :: l) IH) by (done || lia). done.
  - cbn [print] in *. rewrite string_length_app in Hf.
    set (ps := map _ l) in *.
    change (("{" +:+ join "," ps +:+ "}") +:+ r) with (String "{" ((join "," ps +:+ "}") +:+ r)).
    rewrite <- string_app_assoc. change ("}" +:+ r) with (String "}" r). cbn [parse].
    rewrite (bool_decide_eq_false_2 ("{"%char = quote)), (bool_decide_eq_false_2 ("{"%char = "["%char)),
      bool_decide_eq_true_2 by done.
    destruct l as [|[k v] l]; [done|]. rewrite string_length_app in Hf. cbn [String.length] in Hf.
    assert (exists t, join "," ps +:+ String "}" r = String quote t) as (t & E).
    { subst ps. cbn [map]. rewrite join_cons. by eexists _. }
    rewrite E, strip_head_ne by done. rewrite <- E.
    rewrite (parse_members_print ((k, v) :: l) IH) by (done || (fold ps; lia)). done.
Qed.

(** What [Marshal] writes [Unmarshal] reads. *)
Lemma Unmarshal_Marshal v : ascii_json v = true -> Unmarshal (Marshal v) = Some v.
Proof.
  intros H. unfold Unmarshal, Marshal. pose proof (reads_all v H (S (String.length (print v))) "") as Hp.
  rewrite string_app_nil_r in Hp. by rewrite Hp by (lia || done).
Qed.

(** ** Reading into Go variables *)

(** [Unmarshal] into a variable that holds [old]: [null] leaves it alone, a value of
    another type, or an integer out of range, is an error. *)
Definition into_int (lo hi : Z) (old : Z) (v : json) : option Z :=
  match v with
  | JNull => Some old
  | JNum z => if (lo <=? z) && (z <=? hi) then Some z else None
  | _ => None
  end.

Definition into_string (old : string) (v : json) : option string :=
  match v with JNull => Some old | JStr s => Some s | _ => None end.

(** A slice; elements are read into fresh variables, [null] makes it nil. *)
Definition into_slice {A} (elem : json -> option A) (v : json) : option (list A) :=
  match v with JNull => Some [] | JArr l => mapM elem l | _ => None end.

(** The name of an object member matches a field exactly or up to case. *)
Definition lower (c : ascii) : ascii :=
  if ((65 <=? code c) && (code c <=? 90))%nat then Ascii.ascii_of_nat (code c + 32) else c.
Fixpoint to_lower (s : string) : string :=
  match s with EmptyString => EmptyString | String c s' => String (lower c) (to_lower s') end.
Definition is_field (field name : string) : bool := String.eqb (to_lower field) (to_lower name).

(** A struct: the members in order, each into its field; others are ignored. *)
Definition into_struct {A} (member : A -> string * json -> option A) (old : A) (v : json)
  : option A :=
  match v with
  | JNull => Some old
  | JObj kvs => foldl (fun acc kv => acc ≫= (fun a => member a kv)) (Some old) kvs
  | _ => None
  end.

Lemma mapM_map {A B C} (f : A -> option B) (g : C -> A) (h : C -> B) l :
  Forall (fun x => f (g x) = Some (h x)) l -> mapM f (map g l) = Some (map h l).
Proof. induction 1 as [|x l Hx _ IH]; [done|]. simpl. by rewrite Hx, IH. Qed.

Lemma into_int_in lo hi old z : lo <= z <= hi -> into_int lo hi old (JNum z) = Some z.
Proof.
  intros [H1 H2]. unfold into_int. apply Z.leb_le in H1, H2. by rewrite H1, H2.
Qed.

Lemma forallb_map_true {A B} (p : B -> bool) (f : A -> B) l :
  (forall x, x ∈ l -> p (f x) = true) -> forallb p (map f l) = true.
Proof.
  induction l as [|x l IH]; intros H; [done|]. simpl. rewrite H, IH; [done| |by left].
  intros y Hy. apply H. by right.
Qed.

Lemma map_id_ext {A} (f : A -> A) l : (forall x, f x = x) -> map f l = l.
Proof. intros H. induction l as [|x l IH]; [done|]. simpl. by rewrite H, IH. Qed.

Lemma pretty_N_go_ascii x : forall s, ascii_string s = true -> ascii_string (pretty_N_go x s) = true.
Proof.
  induction (N.lt_wf_0 x) as [x _ IH]. intros s Hs.
  destruct (decide (x = 0)%N) as [->|Hx]; [by rewrite pretty_N_go_0|].
  rewrite pretty_N_go_step by lia. apply IH; [apply N.div_lt; lia|]. cbn [ascii_string].
  rewrite Hs, andb_true_r. unfold pretty_N_char. by repeat case_match.
Qed.

Lemma pretty_ascii (z : Z) : ascii_string (pretty z) = true.
Proof.
  assert (H : forall n : N, ascii_string (pretty n) = true).
  { intros n. unfold pretty, pretty_N. case_decide; [done|]. by apply pretty_N_go_ascii. }
  destruct (decide (0 <= z)); [rewrite pretty_Z_N by done; apply H|].
  rewrite pretty_Z_neg by lia. apply H.
Qed.
