(* ===== verification/KvSrv.v ===== *)
(** The versioned key/value service: the RPC types of [kvsrv1/rpc/rpc.go], the
    server of [kvsrv1/server.go], the clerk's retry loops of
    [kvsrv1/client.go] and the interface [VersionedKV] through which the
    lock uses the service.  A field [F] of a Go struct [T] is [T_F]. *)
From S2P Require Import Prelude.

(** ** RPC types ([kvsrv1/rpc/rpc.go]) *)

Definition Err : Type := string.
Definition OK : Err := "OK".
Definition ErrNoKey : Err := "ErrNoKey".
Definition ErrVersion : Err := "ErrVersion".
Definition ErrMaybe : Err := "ErrMaybe".
Definition ErrWrongLeader : Err := "ErrWrongLeader".
Definition ErrWrongGroup : Err := "ErrWrongGroup".

(** [Tversion] is a [uint64]. *)
Definition Tversion : Type := Z.

Record PutArgs := mkPutArgs
  { PutArgs_Key : string; PutArgs_Value : string; PutArgs_Version : Tversion }.
Record PutReply := mkPutReply { PutReply_Err : Err }.
Record GetArgs := mkGetArgs { GetArgs_Key : string }.
Record GetReply := mkGetReply
  { GetReply_Value : string; GetReply_Version : Tversion; GetReply_Err : Err }.

(** ** The server ([kvsrv1/server.go]) *)

Record KeyValue := mkKeyValue
  { KeyValue_Value : string; KeyValue_Version : Tversion }.

(** The mutex is elided: each handler holds it from its first to its last
    statement, so a handler is one atomic step. *)
Record KVServer := mkKVServer { KVServer_data : gmap string KeyValue }.

Definition MakeKVServer : KVServer := mkKVServer ∅.

Definition KVServer_Get (kv : KVServer) (args : GetArgs) : GetReply :=
  match KVServer_data kv !! GetArgs_Key args with
  | Some kvdata => mkGetReply (KeyValue_Value kvdata) (KeyValue_Version kvdata) OK
  | None => mkGetReply "" 0 ErrNoKey
  end.

Definition KVServer_Put (kv : KVServer) (args : PutArgs) : KVServer * PutReply :=
  match KVServer_data kv !! PutArgs_Key args with
  | Some currentKV =>
      if PutArgs_Version args =? KeyValue_Version currentKV then
        (mkKVServer (<[PutArgs_Key args :=
            mkKeyValue (PutArgs_Value args) (u64 (KeyValue_Version currentKV + 1))]>
            (KVServer_data kv)),
         mkPutReply OK)
      else (kv, mkPutReply ErrVersion)
  | None =>
      if PutArgs_Version args =? 0 then
        (mkKVServer (<[PutArgs_Key args := mkKeyValue (PutArgs_Value args) 1]>
            (KVServer_data kv)),
         mkPutReply OK)
      else (kv, mkPutReply ErrNoKey)
  end.

(** ** The clerk ([kvsrv1/client.go]) *)

(** One iteration of a retry loop sees the outcome of [clnt.Call]: [None] for
    [ok == false], [Some reply] otherwise.  It either returns to the caller
    ([inl]) or goes round the loop with a new [isFirstAttempt] ([inr]). *)
Definition Clerk_Put_iter (isFirstAttempt : bool) (call : option PutReply) : Err + bool :=
  match call with
  | Some reply =>
      if bool_decide (PutReply_Err reply = ErrVersion) then
        if isFirstAttempt then inl ErrVersion else inl ErrMaybe
      else inl (PutReply_Err reply)
  | None => inr false
  end.

(** [Put] runs the loop on the outcomes of successive calls; [None] while it is
    still retrying. *)
Fixpoint Clerk_Put_loop (isFirstAttempt : bool) (calls : list (option PutReply)) : option Err :=
  match calls with
  | [] => None
  | call :: calls' =>
      match Clerk_Put_iter isFirstAttempt call with
      | inl err => Some err
      | inr first' => Clerk_Put_loop first' calls'
      end
  end.

Definition Clerk_Put (calls : list (option PutReply)) : option Err :=
  Clerk_Put_loop true calls.

Definition Clerk_Get_iter (call : option GetReply) : option (string * Tversion * Err) :=
  match call with
  | Some reply => Some (GetReply_Value reply, GetReply_Version reply, GetReply_Err reply)
  | None => None
  end.

Fixpoint Clerk_Get (calls : list (option GetReply)) : option (string * Tversion * Err) :=
  match calls with
  | [] => None
  | call :: calls' =>
      match Clerk_Get_iter call with
      | Some res => Some res
      | None => Clerk_Get calls'
      end
  end.

(** ** What the network does with one attempt of a [Put] *)

(** [labrpc] loses the request (the handler does not run), loses the reply
    (it runs, the clerk sees [false]), or delivers both. *)
Inductive attempt := ReqLost | ReplyLost | Delivered.

#[export] Instance attempt_eq_dec : EqDecision attempt.
Proof. solve_decision. Defined.

(** A clerk's Put against the server, with no other client in between: the
    attempts in order. *)
Fixpoint put_run (first : bool) (kv : KVServer) (args : PutArgs) (atts : list attempt)
  : KVServer * option Err :=
  match atts with
  | [] => (kv, None)
  | ReqLost :: atts' =>
      match Clerk_Put_iter first None with
      | inl e => (kv, Some e)
      | inr f => put_run f kv args atts'
      end
  | ReplyLost :: atts' =>
      let '(kv', _) := KVServer_Put kv args in
      match Clerk_Put_iter first None with
      | inl e => (kv', Some e)
      | inr f => put_run f kv' args atts'
      end
  | Delivered :: atts' =>
      let '(kv', reply) := KVServer_Put kv args in
      match Clerk_Put_iter first (Some reply) with
      | inl e => (kv', Some e)
      | inr f => put_run f kv' args atts'
      end
  end.

(** ** The interface *)

(** The version a client must present to overwrite the key: 0 when absent. *)
Definition cur_version (o : option (string * Tversion)) : Tversion :=
  match o with Some (_, v) => v | None => 0 end.
Definition cur_value (o : option (string * Tversion)) : string :=
  match o with Some (x, _) => x | None => "" end.

(** A versioned key/value store: conditional [put] and [get], as the clients of
    [IKVClerk] ([kvtest1/kvtest.go]) rely on it. *)
Class VersionedKV (S : Type) := {
  vkv_init : S;
  vkv_get : S -> string -> string * Tversion * Err;
  vkv_put : S -> string -> string -> Tversion -> S * Err;
  vkv_view : S -> string -> option (string * Tversion);
  vkv_init_view k : vkv_view vkv_init k = None;
  vkv_get_view s k :
    (vkv_get s k).1 = (cur_value (vkv_view s k), cur_version (vkv_view s k));
  vkv_put_ok s k x v : (vkv_put s k x v).2 = OK <-> v = cur_version (vkv_view s k);
  vkv_put_view s k x v :
    (vkv_put s k x v).2 = OK ->
    vkv_view (vkv_put s k x v).1 k = Some (x, u64 (v + 1));
  vkv_put_fail s k x v : (vkv_put s k x v).2 <> OK -> (vkv_put s k x v).1 = s;
  vkv_put_frame s k x v k' : k <> k' -> vkv_view (vkv_put s k x v).1 k' = vkv_view s k'
}.

(** ** Facts about the server *)

#[export] Instance KeyValue_eq_dec : EqDecision KeyValue.
Proof. solve_decision. Defined.
#[export] Instance PutReply_eq_dec : EqDecision PutReply.
Proof. solve_decision. Defined.

Definition kv_view (kv : KVServer) (k : string) : option (string * Tversion) :=
  (fun d => (KeyValue_Value d, KeyValue_Version d)) <$> KVServer_data kv !! k.

(** Well-formed stores hold versions of the [uint64] range, and a stored key has
    been put at least once. *)
Definition kv_wf (bound : Z) (kv : KVServer) : Prop :=
  map_Forall (fun _ d => 1 <= KeyValue_Version d <= bound) (KVServer_data kv).

Lemma kv_wf_init b : kv_wf b MakeKVServer.
Proof. apply map_Forall_empty. Qed.

Lemma kv_wf_mono b b' kv : b <= b' -> kv_wf b kv -> kv_wf b' kv.
Proof. intros Hb H k d Hk. specialize (H k d Hk). simpl in H. lia. Qed.

Lemma kv_wf_put b kv args :
  0 <= b < uint64_max -> kv_wf b kv -> kv_wf (b + 1) (KVServer_Put kv args).1.
Proof.
  intros Hb H. unfold KVServer_Put.
  destruct (KVServer_data kv !! PutArgs_Key args) as [d|] eqn:Hd;
    case_match; simpl; try (eapply kv_wf_mono; [|exact H]; lia).
  - apply map_Forall_insert_2; [|eapply kv_wf_mono; [|exact H]; lia].
    simpl. specialize (H _ _ Hd). simpl in H. rewrite u64_id; lia.
  - apply map_Forall_insert_2; [simpl; lia|eapply kv_wf_mono; [|exact H]; lia].
Qed.

(** The three answers of [Put], by the view of the key. *)
Lemma Put_cases kv args :
  let cur := kv_view kv (PutArgs_Key args) in
  KVServer_Put kv args =
    if PutArgs_Version args =? cur_version cur then
      (mkKVServer (<[PutArgs_Key args := mkKeyValue (PutArgs_Value args)
           (match cur with Some (_, v) => u64 (v + 1) | None => 1 end)]> (KVServer_data kv)),
       mkPutReply OK)
    else (kv, mkPutReply (match cur with Some _ => ErrVersion | None => ErrNoKey end)).
Proof.
  unfold KVServer_Put, kv_view.
  destruct (KVServer_data kv !! PutArgs_Key args); simpl; by case_match.
Qed.

Lemma kv_view_insert kv k k' d :
  kv_view (mkKVServer (<[k := d]> (KVServer_data kv))) k' =
    if decide (k = k') then Some (KeyValue_Value d, KeyValue_Version d) else kv_view kv k'.
Proof.
  unfold kv_view; simpl. rewrite lookup_insert. by case_decide.
Qed.

Lemma Put_ok_iff kv args :
  PutReply_Err (KVServer_Put kv args).2 = OK <->
  PutArgs_Version args = cur_version (kv_view kv (PutArgs_Key args)).
Proof.
  rewrite Put_cases; simpl. destruct (Z.eqb_spec (PutArgs_Version args)
    (cur_version (kv_view kv (PutArgs_Key args)))) as [He|He]; simpl; split; try done.
  destruct (kv_view kv (PutArgs_Key args)) as [[??]|]; discriminate.
Qed.

Lemma Put_fail_id kv args :
  PutReply_Err (KVServer_Put kv args).2 <> OK -> (KVServer_Put kv args).1 = kv.
Proof. rewrite Put_cases. simpl. by case_match. Qed.

Lemma Put_frame kv args k :
  PutArgs_Key args <> k -> kv_view (KVServer_Put kv args).1 k = kv_view kv k.
Proof.
  intros Hk. rewrite Put_cases. simpl. case_match; [|done]. simpl.
  rewrite kv_view_insert. by rewrite decide_False.
Qed.

Lemma u64_succ_zero : u64 (0 + 1) = 1.
Proof. reflexivity. Qed.

Lemma Put_ok_view kv args :
  PutReply_Err (KVServer_Put kv args).2 = OK ->
  kv_view (KVServer_Put kv args).1 (PutArgs_Key args) =
    Some (PutArgs_Value args, u64 (PutArgs_Version args + 1)).
Proof.
  intros H. pose proof (proj1 (Put_ok_iff _ _) H) as Hv. revert H.
  rewrite Put_cases. simpl. rewrite (proj2 (Z.eqb_eq _ _) Hv). intros _. simpl.
  rewrite kv_view_insert, decide_True by done. simpl. rewrite Hv.
  destruct (kv_view kv (PutArgs_Key args)) as [[??]|]; simpl; by rewrite ?u64_succ_zero.
Qed.

Lemma Get_view kv k :
  let r := KVServer_Get kv (mkGetArgs k) in
  (GetReply_Value r, GetReply_Version r) =
    (cur_value (kv_view kv k), cur_version (kv_view kv k)).
Proof.
  unfold KVServer_Get, kv_view; simpl. by destruct (KVServer_data kv !! k).
Qed.

(** The server implements the interface. *)
#[refine, export] Instance KVServer_VersionedKV : VersionedKV KVServer := {
  vkv_init := MakeKVServer;
  vkv_get s k := let r := KVServer_Get s (mkGetArgs k) in
                 (GetReply_Value r, GetReply_Version r, GetReply_Err r);
  vkv_put s k x v := let '(s', r) := KVServer_Put s (mkPutArgs k x v) in (s', PutReply_Err r);
  vkv_view := kv_view
}.
Proof.
  - intros k. unfold kv_view. simpl. by rewrite lookup_empty.
  - intros s k. apply Get_view.
  - intros s k x v. pose proof (Put_ok_iff s (mkPutArgs k x v)) as H.
    destruct (KVServer_Put s (mkPutArgs k x v)); simpl in *. done.
  - intros s k x v. pose proof (Put_ok_view s (mkPutArgs k x v)) as H.
    destruct (KVServer_Put s (mkPutArgs k x v)); simpl in *. done.
  - intros s k x v. pose proof (Put_fail_id s (mkPutArgs k x v)) as H.
    destruct (KVServer_Put s (mkPutArgs k x v)); simpl in *. done.
  - intros s k x v k' Hk. pose proof (Put_frame s (mkPutArgs k x v) k' Hk) as H.
    destruct (KVServer_Put s (mkPutArgs k x v)); simpl in *. done.
Defined.

(** ** Properties of the server and of the clerk *)

(** the complete functional behaviour of [Put], on every branch and from any
    store: it answers [OK] exactly when the presented version is the key's
    current one (0 for an absent key), then the key holds the value with the
    next version; otherwise it answers [ErrVersion] for a present and
    [ErrNoKey] for an absent key and the store is unchanged; no other key is
    ever touched. *)
Theorem Put_spec kv args :
  let k := PutArgs_Key args in
  let v := PutArgs_Version args in
  let '(kv', reply) := KVServer_Put kv args in
  (forall k', k' <> k -> kv_view kv' k' = kv_view kv k') /\
  (if decide (v = cur_version (kv_view kv k))
   then PutReply_Err reply = OK /\
  kv_view kv' k = Some (PutArgs_Value args, u64 (v + 1))
   else kv' = kv /\
  PutReply_Err reply = match kv_view kv k with Some _ => ErrVersion | None => ErrNoKey end).
Proof.
  simpl. pose proof (Put_ok_iff kv args) as Hok. pose proof (Put_ok_view kv args) as Hview.
  pose proof (Put_frame kv args) as Hfr. pose proof (Put_cases kv args) as Hc. simpl in Hc.
  destruct (KVServer_Put kv args) as [kv' reply] eqn:E. simpl in *.
  split; [intros k' Hk; by apply Hfr|]. case_decide as Hd.
  - split; [by apply Hok|]. apply Hview. by apply Hok.
  - rewrite (proj2 (Z.eqb_neq _ _) Hd) in Hc. injection Hc as -> ->. by split.
Qed.

(** What a delivered reply makes the clerk return. *)
Definition put_answer (first : bool) (reply : PutReply) : Err :=
  if decide (PutReply_Err reply = ErrVersion /\ first = false) then ErrMaybe
  else PutReply_Err reply.

Lemma Clerk_Put_iter_reply first reply :
  Clerk_Put_iter first (Some reply) = inl (put_answer first reply).
Proof.
  unfold Clerk_Put_iter, put_answer.
  case_bool_decide as H; case_decide as H'; destruct first; intuition congruence.
Qed.

Lemma Clerk_Put_loop_reply first n reply rest :
  Clerk_Put_loop first (replicate n None ++ Some reply :: rest) =
    Some (put_answer (first && bool_decide (n = 0%nat)) reply).
Proof.
  revert first. induction n as [|n IH]; intros first; cbn [replicate app Clerk_Put_loop].
  - rewrite Clerk_Put_iter_reply. by destruct first.
  - simpl. rewrite IH. by destruct first.
Qed.

Lemma Clerk_Put_loop_cases first calls :
  Clerk_Put_loop first calls = None \/
  exists n reply rest, calls = replicate n None ++ Some reply :: rest.
Proof.
  revert first. induction calls as [|[reply|] calls IH]; intros first; [by left| |].
  - right. by exists 0%nat, reply, calls.
  - destruct (IH false) as [H|(n & r & rest & ->)]; [by left|].
    right. by exists (S n), r, rest.
Qed.

(** the clerk's retry loop returns at the first attempt that gets a reply, and
    what it returns is the server's error, except that [ErrVersion] after at
    least one lost attempt becomes [ErrMaybe]. *)
Theorem Clerk_Put_spec calls e :
  Clerk_Put calls = Some e <->
  exists n reply rest,
    calls = replicate n None ++ Some reply :: rest /\
    e = if decide (PutReply_Err reply = ErrVersion /\ n <> 0%nat) then ErrMaybe
        else PutReply_Err reply.
Proof.
  unfold Clerk_Put. split.
  - intros H. destruct (Clerk_Put_loop_cases true calls) as [H'|(n & r & rest & ->)];
      [congruence|].
    exists n, r, rest. split; [done|]. rewrite Clerk_Put_loop_reply in H.
    injection H as <-. unfold put_answer. simpl.
    destruct n; simpl; repeat case_decide; intuition congruence.
  - intros (n & r & rest & -> & ->). rewrite Clerk_Put_loop_reply. f_equal.
    unfold put_answer. destruct n; simpl; repeat case_decide; intuition congruence.
Qed.

(** Attempts before the one whose reply arrives. *)
Definition undelivered (atts : list attempt) : Prop := Forall (fun a => a <> Delivered) atts.

Lemma put_run_stale first kv args atts :
  undelivered atts ->
  PutArgs_Version args <> cur_version (kv_view kv (PutArgs_Key args)) ->
  put_run first kv args (atts ++ [Delivered]) =
    (kv, Some (match kv_view kv (PutArgs_Key args) with
               | Some _ => if first && bool_decide (atts = []) then ErrVersion else ErrMaybe
               | None => ErrNoKey end)).
Proof.
  intros Hu Hv. revert first.
  assert (HP : KVServer_Put kv args =
    (kv, mkPutReply (match kv_view kv (PutArgs_Key args) with
                     | Some _ => ErrVersion | None => ErrNoKey end))).
  { rewrite Put_cases. simpl. by rewrite (proj2 (Z.eqb_neq _ _) Hv). }
  induction Hu as [|a atts Ha Hu IH]; intros first; simpl.
  - rewrite HP. unfold Clerk_Put_iter; simpl.
    destruct (kv_view kv (PutArgs_Key args)), first; done.
  - destruct a; [| |done].
    + rewrite IH. by destruct first.
    + rewrite HP, IH. by destruct first.
Qed.

(** A Put that presents the current version, undisturbed: executed once. *)
Lemma put_run_current b kv args atts first :
  0 <= b < uint64_max -> kv_wf b kv -> undelivered atts ->
  PutArgs_Version args = cur_version (kv_view kv (PutArgs_Key args)) ->
  put_run first kv args (atts ++ [Delivered]) =
    ((KVServer_Put kv args).1,
     Some (if bool_decide (ReplyLost ∈ atts) then ErrMaybe else OK)) /\
  kv_view (KVServer_Put kv args).1 (PutArgs_Key args) =
    Some (PutArgs_Value args, PutArgs_Version args + 1).
Proof.
  intros Hb Hwf Hu Hv.
  pose proof (Put_ok_view kv args (proj2 (Put_ok_iff kv args) Hv)) as Hview.
  assert (Hr : 0 <= PutArgs_Version args <= b).
  { rewrite Hv. unfold kv_view. destruct (KVServer_data kv !! PutArgs_Key args) eqn:Hd; simpl.
    - specialize (Hwf _ _ Hd). simpl in Hwf. lia.
    - lia. }
  rewrite u64_id in Hview by lia. split; [|done]. revert first.
  induction Hu as [|a atts Ha Hu IH]; intros first; simpl.
  - destruct (KVServer_Put kv args) as [kv' r] eqn:E; simpl.
    pose proof (proj2 (Put_ok_iff kv args) Hv) as Hok. rewrite E in Hok. simpl in Hok.
    unfold Clerk_Put_iter. rewrite Hok. by destruct first.
  - destruct a; [| |done].
    + rewrite IH, (bool_decide_ext (ReplyLost ∈ atts) (ReplyLost ∈ ReqLost :: atts)); [done|].
      rewrite elem_of_cons. intuition congruence.
    + destruct (KVServer_Put kv args) as [kv' r] eqn:E; simpl in *.
      rewrite put_run_stale; [|done|rewrite Hview; simpl; lia].
      rewrite Hview. done.
Qed.

(** exactly-once effect.  A clerk whose version matches, undisturbed by other
    clients, over a network that loses any finite number of requests and
    replies before one exchange succeeds: the value is installed once, with
    the version advanced by exactly one, and the clerk reports [OK] if no
    executed attempt lost its reply and [ErrMaybe] otherwise. *)
Theorem Put_exactly_once b kv args atts :
  0 <= b < uint64_max -> kv_wf b kv -> undelivered atts ->
  PutArgs_Version args = cur_version (kv_view kv (PutArgs_Key args)) ->
  put_run true kv args (atts ++ [Delivered]) =
    ((KVServer_Put kv args).1,
     Some (if bool_decide (ReplyLost ∈ atts) then ErrMaybe else OK)) /\
  kv_view (KVServer_Put kv args).1 (PutArgs_Key args) =
    Some (PutArgs_Value args, PutArgs_Version args + 1).
Proof. apply put_run_current. Qed.

Lemma Put_exactly_once_witness :
  put_run true MakeKVServer (mkPutArgs "x" "1" 0) ([ReqLost; ReplyLost; ReqLost] ++ [Delivered]) =
    (mkKVServer {["x" := mkKeyValue "1" 1]}, Some ErrMaybe).
Proof.
  refine (eq_trans (proj1 (Put_exactly_once 0 MakeKVServer (mkPutArgs "x" "1" 0)
    [ReqLost; ReplyLost; ReqLost] _ _ _ _)) _).
  - unfold uint64_max; lia.
  - apply kv_wf_init.
  - unfold undelivered. repeat constructor; discriminate.
  - reflexivity.
  - reflexivity.
Defined.
