(* ===== verification/KvModel.v ===== *)
(** The linearizability oracle of [models1/kv.go] and the concurrent system of
    clerks and one server: [kvtest1/porcupine.go] records every completed
    [Get] and [Put] as a [porcupine.Operation], and the checker asks for a
    legal sequential order of them under [KvModel].  The main theorem says
    that every history the system can record has one. *)
From S2P Require Import Prelude.
From S2P Require Import KvSrv.

(** ** The sequential model ([models1/kv.go]) *)

Record KvInput := mkKvInput
  { KvInput_Op : Z; KvInput_Key : string; KvInput_Value : string; KvInput_Version : Z }.
Record KvOutput := mkKvOutput
  { KvOutput_Value : string; KvOutput_Version : Z; KvOutput_Err : string }.
Record KvState := mkKvState { KvState_Value : string; KvState_Version : Z }.

Definition KvModel_Init : KvState := mkKvState "" 0.

(** [Step] returns whether the output is legal and the next state, which is the
    string "<invalid>" for an unknown operation. *)
Definition KvModel_Step (st : KvState) (inp : KvInput) (out : KvOutput)
  : bool * (KvState + string) :=
  if KvInput_Op inp =? 0 then
    (bool_decide (KvOutput_Value out = KvState_Value st), inl st)
  else if KvInput_Op inp =? 1 then
    if KvState_Version st =? KvInput_Version inp then
      (bool_decide (KvOutput_Err out = "OK") || bool_decide (KvOutput_Err out = "ErrMaybe"),
       inl (mkKvState (KvInput_Value inp) (u64 (KvState_Version st + 1))))
    else
      (bool_decide (KvOutput_Err out = "ErrVersion") || bool_decide (KvOutput_Err out = "ErrMaybe"),
       inl st)
  else (false, inr "<invalid>"%string).

(** A recorded operation ([porcupine.Operation], as filled in by [Get] and [Put]
    of [kvtest1/porcupine.go]). *)
Record Operation := mkOperation
  { Operation_ClientId : nat; Operation_Input : KvInput; Operation_Call : Z;
    Operation_Output : KvOutput; Operation_Return : Z }.

(** [Partition]: the operations of each key, keys in sorted order.  The key of
    an operation is its input's; the order within a key is kept. *)
Definition op_key (o : Operation) : string := KvInput_Key (Operation_Input o).

Definition KvModel_Partition (history : list Operation) : list (list Operation) :=
  (fun k => filter (fun o => op_key o = k) history) <$>
    merge_sort string_le (elements (list_to_set (op_key <$> history) : gset string)).

(** Running the model over a sequence of (input, output) pairs. *)
Fixpoint model_run (st : KvState) (l : list (KvInput * KvOutput)) : option KvState :=
  match l with
  | [] => Some st
  | (inp, out) :: l' =>
      match KvModel_Step st inp out with
      | (true, inl st') => model_run st' l'
      | _ => None
      end
  end.

Lemma model_run_app st l1 l2 :
  model_run st (l1 ++ l2) = (st' ← model_run st l1; model_run st' l2).
Proof.
  revert st. induction l1 as [|[i o] l1 IH]; intros st; simpl; [done|].
  destruct (KvModel_Step st i o) as [[] [st'|]]; simpl; auto.
Qed.

(** ** Clerks and server as one system *)

Inductive request :=
| RGet (key : string)
| RPut (args : PutArgs).

(** A clerk call in progress: its request, its call time and the loop variable
    [isFirstAttempt] (unused by Get). *)
Record pend := mkPend { pd_req : request; pd_call : nat; pd_first : bool }.

Record sys := mkSys
  { sys_srv : KVServer;
    sys_now : nat;                 (* the clock: one tick per step *)
    sys_pend : gmap nat pend;      (* by client id *)
    sys_log : list Operation }.    (* [OpLog.operations] *)

Definition sys_init : sys := mkSys MakeKVServer 0 ∅ [].

Inductive label :=
| Invoke (c : nat) (r : request)
| Attempt (c : nat) (a : attempt).

Definition req_input (r : request) : KvInput :=
  match r with
  | RGet k => mkKvInput 0 k "" 0
  | RPut a => mkKvInput 1 (PutArgs_Key a) (PutArgs_Value a) (PutArgs_Version a)
  end.

(** The server's handler for a request, and the reply as the clerk receives it. *)
Definition handle (kv : KVServer) (r : request) : KVServer * (GetReply + PutReply) :=
  match r with
  | RGet k => (kv, inl (KVServer_Get kv (mkGetArgs k)))
  | RPut a => let '(kv', rep) := KVServer_Put kv a in (kv', inr rep)
  end.

(** What the clerk does with the outcome of one [Call]: a completed operation's
    output, or another round with the new [isFirstAttempt]. *)
Definition clerk_iter (r : request) (first : bool) (rep : option (GetReply + PutReply))
  : KvOutput + bool :=
  match r with
  | RGet _ =>
      match Clerk_Get_iter (rep ≫= (fun x => match x with inl g => Some g | inr _ => None end)) with
      | Some (val, ver, err) => inl (mkKvOutput val ver err)
      | None => inr first
      end
  | RPut _ =>
      match Clerk_Put_iter first (rep ≫= (fun x => match x with inr p => Some p | inl _ => None end)) with
      | inl err => inl (mkKvOutput "" 0 err)
      | inr f => inr f
      end
  end.

(** The client side of one attempt: either still pending or recorded. *)
Definition finish (s : sys) (kv' : KVServer) (c : nat) (p : pend) (res : KvOutput + bool) : sys :=
  match res with
  | inl out =>
      mkSys kv' (S (sys_now s)) (delete c (sys_pend s))
        (sys_log s ++ [mkOperation c (req_input (pd_req p)) (Z.of_nat (pd_call p)) out
                         (Z.of_nat (sys_now s))])
  | inr first =>
      mkSys kv' (S (sys_now s)) (<[c := mkPend (pd_req p) (pd_call p) first]> (sys_pend s))
        (sys_log s)
  end.

Definition sys_step (s : sys) (l : label) : option sys :=
  match l with
  | Invoke c r =>
      match sys_pend s !! c with
      | Some _ => None
      | None => Some (mkSys (sys_srv s) (S (sys_now s))
                        (<[c := mkPend r (sys_now s) true]> (sys_pend s)) (sys_log s))
      end
  | Attempt c a =>
      p ← sys_pend s !! c;
      match a with
      | ReqLost =>
          Some (finish s (sys_srv s) c p (clerk_iter (pd_req p) (pd_first p) None))
      | ReplyLost =>
          let '(kv', _) := handle (sys_srv s) (pd_req p) in
          Some (finish s kv' c p (clerk_iter (pd_req p) (pd_first p) None))
      | Delivered =>
          let '(kv', rep) := handle (sys_srv s) (pd_req p) in
          Some (finish s kv' c p (clerk_iter (pd_req p) (pd_first p) (Some rep)))
      end
  end.

Fixpoint sys_run (s : sys) (ls : list label) : option sys :=
  match ls with
  | [] => Some s
  | l :: ls' => s' ← sys_step s l; sys_run s' ls'
  end.

Lemma sys_run_app ls1 : forall ls2 s s1 s2,
  sys_run s ls1 = Some s1 -> sys_run s1 ls2 = Some s2 -> sys_run s (ls1 ++ ls2) = Some s2.
Proof.
  induction ls1 as [|l ls1 IH]; intros ls2 s s1 s2 H1 H2; simpl in *; [by simplify_eq|].
  destruct (sys_step s l) as [s0|]; [|done]. simpl in *. by eapply IH.
Qed.

(** ** Linearizability, as the checker decides it *)

(** An entry of a linearization: the operation it stands for (client and call
    time), its point in time, and the input and output the model sees. *)
Record lin_entry := mkLin
  { le_client : nat; le_call : nat; le_time : nat; le_in : KvInput; le_out : KvOutput }.

Definition le_io (e : lin_entry) : KvInput * KvOutput := (le_in e, le_out e).
Definition on_key (k : string) (L : list lin_entry) : list lin_entry :=
  filter (fun e => KvInput_Key (le_in e) = k) L.

(** The model accepts the entries of every key, in order. *)
Definition legal (L : list lin_entry) : Prop :=
  forall k, is_Some (model_run KvModel_Init (le_io <$> on_key k L)).

Definition is_op (o : Operation) (e : lin_entry) : Prop :=
  le_client e = Operation_ClientId o /\ Z.of_nat (le_call e) = Operation_Call o /\
  le_in e = Operation_Input o /\ le_out e = Operation_Output o.

(** [L] linearizes the history [H]: it is legal, its points are in strictly
    increasing time order and lie between call and return, no operation has
    two entries, and every operation of [H] has its entry with exactly its
    output.  [L] may also hold operations that never returned. *)
Record linearizes (L : list lin_entry) (H : list Operation) : Prop := {
  lin_legal : legal L;
  lin_sorted : StronglySorted (fun e1 e2 => (le_time e1 < le_time e2)%nat) L;
  lin_unique : NoDup ((fun e => (le_client e, le_call e)) <$> L);
  lin_complete o : o ∈ H -> exists e, e ∈ L /\ is_op o e /\
      Operation_Call o <= Z.of_nat (le_time e) <= Operation_Return o
}.

(** A [Put] answered [ErrNoKey]: the one answer of the server the model has no
    transition for. *)
Definition nokey_put (o : Operation) : Prop :=
  KvInput_Op (Operation_Input o) = 1 /\ KvOutput_Err (Operation_Output o) = ErrNoKey.
#[export] Instance nokey_put_dec o : Decision (nokey_put o).
Proof. unfold nokey_put. apply _. Defined.
