(* ===== verification/KvLin.v ===== *)
(** Linearizability of the key/value service: every history of completed clerk
    operations that the system of [KvModel.v] can record, over a network that
    loses requests and replies, is accepted by [models.KvModel].  The proof
    carries an inductive invariant between the server, the pending calls, the
    recorded operations and a linearization built step by step. *)
From S2P Require Import Prelude.
From S2P Require Import KvSrv.
From S2P Require Import KvModel.

(** ** The abstraction from the server to the model, key by key *)

Definition abs_key (kv : KVServer) (k : string) : KvState :=
  mkKvState (cur_value (kv_view kv k)) (cur_version (kv_view kv k)).

Definition put_input (a : PutArgs) : KvInput := req_input (RPut a).
Definition put_output (err : Err) : KvOutput := mkKvOutput "" 0 err.

Lemma cur_version_bound b kv k : 0 <= b -> kv_wf b kv -> 0 <= cur_version (kv_view kv k) <= b.
Proof.
  intros Hb Hwf. unfold kv_view. destruct (KVServer_data kv !! k) eqn:Hd; simpl; [|lia].
  specialize (Hwf _ _ Hd). simpl in Hwf. lia.
Qed.

(** A successful [Put] is the model's transition on its key. *)
Lemma step_put_ok kv a err :
  err = OK \/ err = ErrMaybe ->
  PutReply_Err (KVServer_Put kv a).2 = OK ->
  KvModel_Step (abs_key kv (PutArgs_Key a)) (put_input a) (put_output err) =
    (true, inl (abs_key (KVServer_Put kv a).1 (PutArgs_Key a))).
Proof.
  intros Herr Hok. unfold abs_key at 2. rewrite Put_ok_view by done.
  apply Put_ok_iff in Hok. unfold KvModel_Step; simpl. rewrite Hok, Z.eqb_refl.
  by destruct Herr as [-> | ->].
Qed.

(** A [Put] with another version than the current one leaves the model's state. *)
Lemma step_put_stale kv a err :
  err = ErrVersion \/ err = ErrMaybe ->
  PutArgs_Version a <> cur_version (kv_view kv (PutArgs_Key a)) ->
  KvModel_Step (abs_key kv (PutArgs_Key a)) (put_input a) (put_output err) =
    (true, inl (abs_key kv (PutArgs_Key a))).
Proof.
  intros Herr Hv. unfold KvModel_Step; simpl.
  rewrite (proj2 (Z.eqb_neq _ _)) by congruence. by destruct Herr as [-> | ->].
Qed.

Lemma step_get kv k :
  let r := KVServer_Get kv (mkGetArgs k) in
  KvModel_Step (abs_key kv k) (req_input (RGet k))
      (mkKvOutput (GetReply_Value r) (GetReply_Version r) (GetReply_Err r)) =
    (true, inl (abs_key kv k)).
Proof.
  simpl. pose proof (Get_view kv k) as [= Hval _]. unfold KvModel_Step; simpl.
  by rewrite bool_decide_eq_true_2.
Qed.

(** ** The invariant *)

Definition lin_id (e : lin_entry) : nat * nat := (le_client e, le_call e).

Record core (now : nat) (kv : KVServer) (L : list lin_entry) : Prop := {
  core_wf : kv_wf (Z.of_nat now) kv;
  core_keys k : model_run KvModel_Init (le_io <$> on_key k L) = Some (abs_key kv k);
  core_sorted : StronglySorted (fun e1 e2 => (le_time e1 < le_time e2)%nat) L;
  core_time e : e ∈ L -> (le_call e <= le_time e < now)%nat;
  core_unique : NoDup (lin_id <$> L)
}.

(** A call that has taken effect without its clerk knowing: its entry answers
    [ErrMaybe] and the key has moved past its version. *)
Definition applied (kv : KVServer) (L : list lin_entry) (c : nat) (p : pend) : Prop :=
  exists a e x v,
    pd_req p = RPut a /\ pd_first p = false /\
    e ∈ L /\ lin_id e = (c, pd_call p) /\
    le_in e = put_input a /\ le_out e = put_output ErrMaybe /\
    kv_view kv (PutArgs_Key a) = Some (x, v) /\ PutArgs_Version a < v.

Definition pend_ok (now : nat) (kv : KVServer) (L : list lin_entry) (c : nat) (p : pend) : Prop :=
  (pd_call p < now)%nat /\ ((c, pd_call p) ∉ (lin_id <$> L) \/ applied kv L c p).

Definition op_ok (L : list lin_entry) (o : Operation) : Prop :=
  ~ nokey_put o ->
  exists e, e ∈ L /\ is_op o e /\ Operation_Call o <= Z.of_nat (le_time e) <= Operation_Return o.

(** Every entry stands for a recorded operation or for a call that is still pending. *)
Definition entry_ok (s : sys) (e : lin_entry) : Prop :=
  (exists o, o ∈ sys_log s /\ ~ nokey_put o /\ is_op o e) \/
  (exists p, sys_pend s !! le_client e = Some p /\ le_call e = pd_call p /\ le_in e = req_input (pd_req p)).

Record inv (s : sys) (L : list lin_entry) : Prop := {
  inv_core : core (sys_now s) (sys_srv s) L;
  inv_entry e : e ∈ L -> entry_ok s e;
  inv_pend c p : sys_pend s !! c = Some p -> pend_ok (sys_now s) (sys_srv s) L c p;
  inv_log o : o ∈ sys_log s -> op_ok L o
}.

Lemma on_key_app k L1 L2 : on_key k (L1 ++ L2) = on_key k L1 ++ on_key k L2.
Proof. apply filter_app. Qed.

Lemma StronglySorted_snoc {A} (R : A -> A -> Prop) l x :
  StronglySorted R l -> Forall (fun y => R y x) l -> StronglySorted R (l ++ [x]).
Proof.
  induction 1 as [|y l Hl IH Hy]; intros Hx; simpl; [repeat constructor|].
  inversion Hx; subst. constructor; [by apply IH|].
  apply Forall_app; split; [done|by repeat constructor].
Qed.

Lemma core_init : core 0 MakeKVServer [].
Proof.
  split; [apply kv_wf_init|intros k|constructor|set_solver|constructor].
  unfold abs_key, kv_view; simpl. by rewrite lookup_empty.
Qed.

Lemma core_tick now kv L : core now kv L -> core (S now) kv L.
Proof.
  intros [H1 H2 H3 H4 H5]. split; try done.
  - eapply kv_wf_mono; [|done]. lia.
  - intros e He. specialize (H4 e He). lia.
Qed.

(** Adding the entry of an operation that takes effect now. *)
Lemma core_add now kv kv' L e :
  core now kv L ->
  le_time e = now -> (le_call e < now)%nat -> lin_id e ∉ (lin_id <$> L) ->
  kv_wf (Z.of_nat (S now)) kv' ->
  KvModel_Step (abs_key kv (KvInput_Key (le_in e))) (le_in e) (le_out e) =
    (true, inl (abs_key kv' (KvInput_Key (le_in e)))) ->
  (forall k, k <> KvInput_Key (le_in e) -> kv_view kv' k = kv_view kv k) ->
  core (S now) kv' (L ++ [e]).
Proof.
  intros [H1 H2 H3 H4 H5] Ht Hc Hid Hwf Hstep Hframe. split; [done|intros k| | |].
  - rewrite on_key_app, fmap_app, model_run_app, H2. simpl. unfold on_key; simpl.
    rewrite filter_cons, filter_nil.
    destruct (decide (KvInput_Key (le_in e) = k)) as [<-|Hk]; simpl.
    + by rewrite Hstep.
    + unfold abs_key. rewrite Hframe by done. done.
  - apply StronglySorted_snoc; [done|]. apply Forall_forall. intros e' He'.
    specialize (H4 e' He'). lia.
  - intros e' [He'|He']%elem_of_app; [specialize (H4 e' He'); lia|].
    apply list_elem_of_singleton in He' as ->. lia.
  - rewrite fmap_app. apply NoDup_app. split; [done|]. split; [|apply NoDup_singleton].
    intros i Hi Hi'. apply list_elem_of_singleton in Hi' as ->. done.
Qed.

(** Pending calls and records survive other clients' steps. *)
Lemma pend_ok_mono now kv kv' L e c p :
  pend_ok now kv L c p ->
  le_client e <> c ->
  (forall k x v, kv_view kv k = Some (x, v) -> exists x' v', kv_view kv' k = Some (x', v') /\ v <= v') ->
  pend_ok (S now) kv' L c p /\ pend_ok (S now) kv' (L ++ [e]) c p.
Proof.
  intros [Hc Hp] He Hmono. unfold pend_ok.
  assert (Hc' : (pd_call p < S now)%nat) by lia.
  destruct Hp as [Hf | (a & e' & x & v & H1 & H2 & H3 & H4 & H5 & H6 & H7 & H8)].
  - split; (split; [done|left]); [done|]. rewrite fmap_app, elem_of_app.
    intros [?|Hin]; [done|]. apply list_elem_of_singleton in Hin. unfold lin_id in Hin. congruence.
  - destruct (Hmono _ _ _ H7) as (x' & v' & H7' & Hv).
    split; (split; [done|right]); exists a, e', x', v'; repeat split; try done; try lia.
    apply elem_of_app. by left.
Qed.

Lemma op_ok_app L L' o : op_ok L o -> op_ok (L ++ L') o.
Proof.
  intros H Hn. destruct (H Hn) as (e & He & ?). exists e. split; [|done].
  apply elem_of_app. by left.
Qed.

(** What one attempt must establish: a linearization extended by at most one
    entry, of this client, that covers the outcome. *)
Record attempt_ok (now : nat) (kv : KVServer) (L : list lin_entry) (c : nat) (p : pend)
    (kv' : KVServer) (res : KvOutput + bool) (L' : list lin_entry) : Prop := {
  at_core : core (S now) kv' L';
  at_ext : L' = L \/ exists e, L' = L ++ [e] /\ lin_id e = (c, pd_call p);
  at_mono k x v : kv_view kv k = Some (x, v) ->
    exists x' v', kv_view kv' k = Some (x', v') /\ v <= v';
  at_res : match res with
           | inl out => let o := mkOperation c (req_input (pd_req p)) (Z.of_nat (pd_call p)) out
                                   (Z.of_nat now) in
               op_ok L' o /\ (nokey_put o -> (c, pd_call p) ∉ (lin_id <$> L'))
           | inr first => pend_ok (S now) kv' L' c (mkPend (pd_req p) (pd_call p) first)
           end
}.

Lemma lin_id_inj L e e' : NoDup (lin_id <$> L) -> e ∈ L -> e' ∈ L -> lin_id e = lin_id e' -> e = e'.
Proof.
  intros Hnd [i Hi]%list_elem_of_lookup [j Hj]%list_elem_of_lookup Heq.
  assert (Hij : i = j); [|congruence].
  eapply (NoDup_lookup (lin_id <$> L) i j (lin_id e)); [done|by rewrite list_lookup_fmap, Hi|].
  by rewrite list_lookup_fmap, Hj, Heq.
Qed.

(** The entry of the call that was attempted. *)
Lemma attempt_entry s L c p kv' res L' e :
  attempt_ok (sys_now s) (sys_srv s) L c p kv' res L' -> e ∈ L' -> lin_id e = (c, pd_call p) ->
  entry_ok (finish s kv' c p res) e.
Proof.
  intros [Ac _ _ Ar] He Hid. assert (Hin : (c, pd_call p) ∈ (lin_id <$> L')).
  { rewrite <- Hid. by apply list_elem_of_fmap_2. }
  pose proof Hid as Hid2. unfold lin_id in Hid2. injection Hid2 as Hcl Hca.
  destruct res as [out|first]; unfold finish.
  - left. eexists. split; [apply elem_of_app; right; by apply list_elem_of_singleton|].
    destruct Ar as [Hop Hnk]. assert (Hn : ~ nokey_put
      (mkOperation c (req_input (pd_req p)) (Z.of_nat (pd_call p)) out (Z.of_nat (sys_now s))))
      by (intros H; by apply Hnk in H).
    split; [exact Hn|]. destruct (Hop Hn) as (e' & He' & Ho & _).
    assert (e = e') as ->; [|done]. apply (lin_id_inj L'); [apply (core_unique _ _ _ Ac)|done|done|].
    rewrite Hid. destruct Ho as (H1 & H2 & _). simpl in H1, H2. unfold lin_id. f_equal; [done|lia].
  - right. eexists. simpl. rewrite Hcl, lookup_insert_eq. split; [done|]. simpl. split; [done|].
    destruct Ar as [_ [Hf|(a & e' & x & v & H1 & _ & H3 & H4 & H5 & _)]]; [done|]. simpl in H1, H4.
    assert (e = e') as ->; [|by rewrite H5, H1].
    apply (lin_id_inj L'); [apply (core_unique _ _ _ Ac)|done|done|]. by rewrite Hid, H4.
Qed.

Lemma inv_finish s L c p kv' res L' :
  inv s L -> sys_pend s !! c = Some p ->
  attempt_ok (sys_now s) (sys_srv s) L c p kv' res L' ->
  inv (finish s kv' c p res) L'.
Proof.
  intros [Hcore Hent Hpend Hlog] Hc Hatt. pose proof Hatt as [Ac Ae Am Ar].
  assert (Hoth : forall c' p', c' <> c -> sys_pend s !! c' = Some p' ->
            pend_ok (S (sys_now s)) kv' L' c' p').
  { intros c' p' Hne Hp'. specialize (Hpend _ _ Hp').
    destruct Ae as [-> | (e & -> & He)].
    - by apply (pend_ok_mono _ _ _ _ (mkLin c 0 0 (req_input (pd_req p)) (mkKvOutput "" 0 ""))
                  _ _ Hpend).
    - apply (pend_ok_mono _ _ _ _ e _ _ Hpend); [|done]. unfold lin_id in He. congruence. }
  assert (Hops : forall o, o ∈ sys_log s -> op_ok L' o).
  { intros o Ho. destruct Ae as [-> | (e & -> & _)]; [by apply Hlog|by apply op_ok_app, Hlog]. }
  assert (Hall : forall e, e ∈ L' -> entry_ok (finish s kv' c p res) e).
  { intros e He. destruct (decide (lin_id e = (c, pd_call p))) as [Hid|Hid]; [by eapply attempt_entry|].
    assert (HeL : e ∈ L).
    { destruct Ae as [-> | (e0 & -> & He0)]; [done|]. apply elem_of_app in He as [He|He]; [done|].
      apply list_elem_of_singleton in He as ->. done. }
    destruct (Hent e HeL) as [(o & Ho & ?)|(p' & Hp' & Hcall & ?)].
    - left. exists o. split; [|done]. destruct res; simpl; [apply elem_of_app; by left|done].
    - right. exists p'. split; [|done]. assert (Hne : c <> le_client e).
      { intros ->. rewrite Hc in Hp'. injection Hp' as ->. apply Hid. unfold lin_id. by rewrite Hcall. }
      destruct res; simpl; [by rewrite lookup_delete_ne|by rewrite lookup_insert_ne]. }
  destruct res as [out|first]; simpl in Ar; split; simpl; try done.
  - intros c' p' Hp'. apply lookup_delete_Some in Hp' as [Hne Hp']. by apply Hoth.
  - intros o [Ho|Ho]%elem_of_app; [by apply Hops|]. apply list_elem_of_singleton in Ho as ->. apply Ar.
  - intros c' p' Hp'. destruct (decide (c' = c)) as [->|Hne].
    + rewrite lookup_insert_eq in Hp'. by injection Hp' as <-.
    + rewrite lookup_insert_ne in Hp' by done. by apply Hoth.
Qed.

Lemma put_mono b kv a k x v :
  0 <= b < uint64_max -> kv_wf b kv -> kv_view kv k = Some (x, v) ->
  exists x' v', kv_view (KVServer_Put kv a).1 k = Some (x', v') /\ v <= v'.
Proof.
  intros Hb Hwf Hk. pose proof (cur_version_bound b kv k (proj1 Hb) Hwf) as Hcv.
  rewrite Hk in Hcv. simpl in Hcv.
  destruct (decide (PutReply_Err (KVServer_Put kv a).2 = OK)) as [Hok|Hok].
  - destruct (decide (PutArgs_Key a = k)) as [<-|Hne].
    + rewrite Put_ok_view by done. apply Put_ok_iff in Hok. rewrite Hk in Hok. simpl in Hok.
      rewrite u64_id by lia. eexists _, _. split; [done|lia].
    + rewrite Put_frame by done. eauto with lia.
  - rewrite Put_fail_id by done. exists x, v. split; [done|lia].
Qed.

Lemma attempt_same now kv L c p first :
  core now kv L -> pend_ok now kv L c (mkPend (pd_req p) (pd_call p) first) ->
  attempt_ok now kv L c p kv (inr first) L.
Proof.
  intros Hc [Ht Hp]. split; [by apply core_tick|by left|eauto with lia|].
  split; [simpl in *; lia|done].
Qed.

(** After an attempt whose clerk saw no reply, a call already applied stays so. *)
Lemma pend_ok_first now kv L c p :
  pend_ok now kv L c p ->
  pend_ok now kv L c (mkPend (pd_req p) (pd_call p) (match pd_req p with RGet _ => pd_first p | RPut _ => false end)).
Proof.
  intros [Ht [Hf|(a & e & x & v & H1 & H2 & ?)]]; (split; [done|]); [by left|right].
  exists a, e, x, v. simpl. rewrite H1. tauto.
Qed.

Lemma attempt_get now kv L c k call first out :
  core now kv L -> pend_ok now kv L c (mkPend (RGet k) call first) ->
  clerk_iter (RGet k) first (Some (inl (KVServer_Get kv (mkGetArgs k)))) = inl out ->
  attempt_ok now kv L c (mkPend (RGet k) call first) kv (inl out)
    (L ++ [mkLin c call now (req_input (RGet k)) out]).
Proof.
  intros Hc [Ht Hp] [= <-]. simpl in Ht.
  assert (Hf : (c, call) ∉ (lin_id <$> L)).
  { destruct Hp as [Hf|(a & e & x & v & [=] & _)]. done. }
  split.
  - apply (core_add _ kv); try done; [|apply step_get].
    eapply kv_wf_mono; [|apply Hc]. lia.
  - right. by eexists.
  - eauto with lia.
  - split; [|by intros [[=] _]]. intros _. eexists. split; [apply elem_of_app; right; by apply list_elem_of_singleton|].
    split; [done|simpl; lia].
Qed.

Lemma applied_put_stale kv L c p a :
  applied kv L c p -> pd_req p = RPut a ->
  exists x v, kv_view kv (PutArgs_Key a) = Some (x, v) /\ PutArgs_Version a < v /\
    KVServer_Put kv a = (kv, mkPutReply ErrVersion).
Proof.
  intros (a' & e & x & v & H1 & _ & _ & _ & _ & _ & H7 & H8) Ha.
  rewrite H1 in Ha. injection Ha as ->. exists x, v. split; [done|]. split; [done|].
  rewrite Put_cases. simpl. rewrite H7. simpl.
  by rewrite (proj2 (Z.eqb_neq _ _)) by lia.
Qed.

(** A [Put] that takes effect now, answered or not. *)
Lemma attempt_put_ok now kv L c a call first (lost : bool) :
  Z.of_nat now < uint64_max -> core now kv L -> (call < now)%nat ->
  (c, call) ∉ (lin_id <$> L) ->
  PutReply_Err (KVServer_Put kv a).2 = OK ->
  attempt_ok now kv L c (mkPend (RPut a) call first) (KVServer_Put kv a).1
    (if lost then inr false else inl (put_output OK))
    (L ++ [mkLin c call now (put_input a) (put_output (if lost then ErrMaybe else OK))]).
Proof.
  intros Hnow Hc Ht Hf Hok.
  assert (Hw : 0 <= Z.of_nat now < uint64_max) by lia. pose proof (core_wf _ _ _ Hc) as Hwf.
  set (e := mkLin c call now (put_input a) (put_output (if lost then ErrMaybe else OK))).
  assert (He : e ∈ L ++ [e]) by (apply elem_of_app; right; by apply list_elem_of_singleton).
  split.
  - apply (core_add _ kv); try done.
    + replace (Z.of_nat (S now)) with (Z.of_nat now + 1) by lia. by apply kv_wf_put.
    + simpl. apply step_put_ok; [destruct lost; auto|done].
    + simpl. intros k Hk. apply Put_frame. congruence.
  - right. by exists e.
  - intros k x v Hk. by eapply (put_mono (Z.of_nat now)).
  - destruct lost.
    + split; [simpl; lia|right]. pose proof (Put_ok_view kv a Hok) as Hv.
      apply Put_ok_iff in Hok.
      pose proof (cur_version_bound _ _ (PutArgs_Key a) (proj1 Hw) Hwf).
      rewrite u64_id in Hv by lia. exists a, e, (PutArgs_Value a), (PutArgs_Version a + 1).
      repeat split; try done. lia.
    + split; [|by intros [_ [=]]]. intros _. exists e. split; [done|]. split; [done|]. simpl. lia.
Qed.

(** A delivered stale answer of a call that has not taken effect. *)
Lemma attempt_put_stale now kv L c a call first :
  core now kv L -> (call < now)%nat -> (c, call) ∉ (lin_id <$> L) ->
  PutReply_Err (KVServer_Put kv a).2 <> OK ->
  exists L',
    attempt_ok now kv L c (mkPend (RPut a) call first) kv
      (inl (put_output (put_answer first (KVServer_Put kv a).2))) L'.
Proof.
  intros Hc Ht Hf Hok.
  assert (Hne : PutArgs_Version a <> cur_version (kv_view kv (PutArgs_Key a))).
  { intros Heq. by apply Hok, Put_ok_iff. }
  assert (Hrep : (KVServer_Put kv a).2 =
    mkPutReply (match kv_view kv (PutArgs_Key a) with Some _ => ErrVersion | None => ErrNoKey end)).
  { rewrite Put_cases. simpl. by rewrite (proj2 (Z.eqb_neq _ _) Hne). }
  rewrite Hrep. destruct (kv_view kv (PutArgs_Key a)) as [xv|] eqn:Hview.
  - set (e := mkLin c call now (put_input a) (put_output (put_answer first (mkPutReply ErrVersion)))).
    exists (L ++ [e]). split.
    + apply (core_add _ kv); try done; [eapply kv_wf_mono; [|apply Hc]; lia|].
      apply step_put_stale; [destruct first; auto|by rewrite Hview].
    + right. by exists e.
    + eauto with lia.
    + split; [|by destruct first; intros [_ [=]]].
      intros _. exists e. split; [apply elem_of_app; right; by apply list_elem_of_singleton|].
      split; [done|simpl; lia].
  - exists L. split; [by apply core_tick|by left|eauto with lia|].
    split; [|done]. intros Hnk. exfalso. apply Hnk. done.
Qed.

(** A delivered answer of a call that took effect in an earlier attempt. *)
Lemma attempt_put_applied now kv L c a call first :
  core now kv L -> pend_ok now kv L c (mkPend (RPut a) call first) ->
  applied kv L c (mkPend (RPut a) call first) ->
  attempt_ok now kv L c (mkPend (RPut a) call first) kv
    (inl (put_output (put_answer first (KVServer_Put kv a).2))) L.
Proof.
  intros Hc [Ht _] Happ.
  destruct (applied_put_stale _ _ _ _ a Happ eq_refl) as (x & v & Hv & Hlt & ->).
  split; [by apply core_tick|by left|eauto with lia|].
  split; [|by destruct first; intros [_ [=]]]. intros _.
  destruct Happ as (a' & e & x' & v' & [= <-] & Hfst & He & Hid & Hin & Hout & _).
  simpl in Hfst, Hid, Ht. exists e. split; [done|]. rewrite Hfst in *.
  injection Hid as Hcl Hca. pose proof (core_time _ _ _ Hc e He).
  repeat split; simpl; try done; try lia.
Qed.

(** ** Every step keeps the invariant *)

Lemma step_attempt s L c p a s' :
  Z.of_nat (sys_now s) < uint64_max -> inv s L -> sys_pend s !! c = Some p ->
  sys_step s (Attempt c a) = Some s' -> exists L', inv s' L'.
Proof.
  intros Hnow Hinv Hc Hstep. pose proof (inv_core _ _ Hinv) as Hcore.
  pose proof (inv_pend _ _ Hinv _ _ Hc) as Hp.
  assert (Hfin : forall kv' res, (exists L', attempt_ok (sys_now s) (sys_srv s) L c p kv' res L') ->
            s' = finish s kv' c p res -> exists L', inv s' L').
  { intros kv' res (L' & HL') ->. exists L'. by eapply inv_finish. }
  unfold sys_step in Hstep. rewrite Hc in Hstep. simpl in Hstep.
  destruct p as [r call first]. cbn [pd_req pd_first] in Hstep.
  destruct a.
  - (* request lost *)
    injection Hstep as <-. eapply Hfin; [|done].
    pose proof (pend_ok_first _ _ _ _ _ Hp) as Hp'.
    destruct r; simpl in *; eexists; by apply attempt_same.
  - (* reply lost *)
    destruct r as [k|a]; cbn [handle pd_req pd_first] in Hstep.
    + injection Hstep as <-. apply (Hfin (sys_srv s) (inr first)); [|done]. eexists. exact (attempt_same _ _ _ c (mkPend (RGet k) call first) first Hcore Hp).
    + destruct (KVServer_Put (sys_srv s) a) as [kv' rep] eqn:E. injection Hstep as <-.
      apply (Hfin kv' (inr false)); [|done].
      destruct (decide (PutReply_Err (KVServer_Put (sys_srv s) a).2 = OK)) as [Hok|Hok].
      * destruct Hp as [Ht [Hf|Happ]]; simpl in Ht.
        -- eexists. pose proof (attempt_put_ok _ _ _ c a call first true Hnow Hcore Ht Hf Hok) as H.
           rewrite E in H. exact H.
        -- destruct (applied_put_stale _ _ _ _ a Happ eq_refl) as (x & v & _ & _ & HP).
           rewrite HP in Hok. discriminate.
      * pose proof (Put_fail_id _ _ Hok) as Hid. rewrite E in Hid. simpl in Hid. subst kv'.
        eexists. apply attempt_same; [done|]. apply (pend_ok_first _ _ _ _ _ Hp).
  - (* delivered *)
    destruct r as [k|a]; cbn [handle pd_req pd_first] in Hstep.
    + injection Hstep as <-. eapply (Hfin (sys_srv s) (clerk_iter (RGet k) first (Some (inl (KVServer_Get (sys_srv s) (mkGetArgs k))))));
        [|done]. eexists. by apply attempt_get.
    + destruct (KVServer_Put (sys_srv s) a) as [kv' rep] eqn:E.
      cbn [clerk_iter mbind option_bind] in Hstep. rewrite Clerk_Put_iter_reply in Hstep.
      injection Hstep as <-. apply (Hfin kv' (inl (put_output (put_answer first rep)))); [|done]. clear Hfin.
      destruct Hp as [Ht [Hf|Happ]].
      * destruct (decide (PutReply_Err (KVServer_Put (sys_srv s) a).2 = OK)) as [Hok|Hok].
        -- eexists. pose proof (attempt_put_ok _ _ _ c a call first false Hnow Hcore Ht Hf Hok) as H.
           rewrite E in H, Hok. simpl in H, Hok. unfold put_answer.
           rewrite Hok. case_decide as Hd; [destruct Hd; discriminate|exact H].
        -- destruct (attempt_put_stale _ _ _ c a call first Hcore Ht Hf Hok) as [L' HL'].
           exists L'. pose proof (Put_fail_id _ _ Hok) as Hid. rewrite E in Hid, HL'.
           simpl in Hid, HL'. subst kv'. exact HL'.
      * exists L. destruct (applied_put_stale _ _ _ _ a Happ eq_refl) as (x & v & _ & _ & HP).
        pose proof (attempt_put_applied _ _ _ c a call first Hcore (conj Ht (or_intror Happ)) Happ) as H.
        rewrite HP in E. injection E as <- <-. rewrite HP in H. exact H.
Qed.

Lemma step_invoke s L c r s' :
  inv s L -> sys_step s (Invoke c r) = Some s' -> inv s' L.
Proof.
  intros [Hcore Hent Hpend Hlog] Hstep. simpl in Hstep.
  destruct (sys_pend s !! c) eqn:Hc; [done|]. injection Hstep as <-.
  split; simpl; [by apply core_tick| | |done].
  { intros e He. destruct (Hent e He) as [?|(p & Hp & ?)]; [by left|right]. exists p. simpl.
    split; [|done]. rewrite lookup_insert_ne; [done|congruence]. }
  intros c' p' Hp'. destruct (decide (c' = c)) as [->|Hne].
  - rewrite lookup_insert_eq in Hp'. injection Hp' as <-. split; [simpl; lia|left]. simpl.
    intros (e & Hid & He)%list_elem_of_fmap. unfold lin_id in Hid. injection Hid as _ Hca.
    pose proof (core_time _ _ _ Hcore e He). lia.
  - rewrite lookup_insert_ne in Hp' by done. specialize (Hpend _ _ Hp').
    destruct Hpend as [Ht Hp]. split; [lia|done].
Qed.

Lemma sys_step_now s l s' : sys_step s l = Some s' -> sys_now s' = S (sys_now s).
Proof.
  destruct l as [c r|c a]; simpl.
  - case_match; [done|]. by intros [= <-].
  - destruct (sys_pend s !! c) as [p|]; simpl; [|done].
    destruct a; repeat case_match; intros [= <-]; unfold finish; by case_match.
Qed.

Lemma run_inv ls : forall s L s',
  Z.of_nat (sys_now s) + Z.of_nat (length ls) <= uint64_max ->
  inv s L -> sys_run s ls = Some s' -> exists L', inv s' L'.
Proof.
  induction ls as [|l ls IH]; intros s L s' Hb Hinv Hrun; simpl in *.
  - injection Hrun as <-. by exists L.
  - destruct (sys_step s l) as [s1|] eqn:E; [|done]. simpl in Hrun.
    pose proof (sys_step_now _ _ _ E) as Hn.
    assert (exists L1, inv s1 L1) as [L1 H1].
    { destruct l as [c r|c a]; [exists L; by eapply step_invoke|].
      destruct (sys_pend s !! c) as [p|] eqn:Hp; [|simpl in E; by rewrite Hp in E].
      eapply step_attempt; try done. lia. }
    eapply IH; [|exact H1|exact Hrun]. lia.
Qed.

Lemma inv_init : inv sys_init [].
Proof. split; simpl; [apply core_init|..]; set_solver. Qed.

Lemma inv_linearizes s L :
  inv s L -> linearizes L (filter (fun o => ~ nokey_put o) (sys_log s)).
Proof.
  intros [Hcore _ _ Hlog]. split.
  - intros k. rewrite (core_keys _ _ _ Hcore). by eexists.
  - apply (core_sorted _ _ _ Hcore).
  - apply (core_unique _ _ _ Hcore).
  - intros o [Hn Ho]%list_elem_of_filter. by apply Hlog.
Qed.

(** What a linearization may hold: the entries of recorded operations and, for each call
    that has not returned, at most one with its input. *)
Definition only_issued (s : sys) (L : list lin_entry) : Prop := forall e, e ∈ L -> entry_ok s e.

Lemma run_linearizes ls s :
  Z.of_nat (length ls) <= uint64_max -> sys_run sys_init ls = Some s ->
  exists L, linearizes L (filter (fun o => ~ nokey_put o) (sys_log s)) /\ only_issued s L.
Proof.
  intros Hb Hrun. destruct (run_inv ls sys_init [] s Hb inv_init Hrun) as [L HL].
  exists L. split; [by apply inv_linearizes|]. intros e. by apply HL.
Qed.

(** C4: linearizability of the key/value service.  Take any number of clerks
    issuing any Gets and Puts to the one server, interleaved attempt by
    attempt, over a network that loses any requests and replies.  The history
    that [kvtest1/porcupine.go] has recorded at any moment, without the Puts
    answered [ErrNoKey], can be linearized under [models1.KvModel]: there is a
    legal sequential order, consistent with real time, in which every recorded
    operation gets its recorded output, and which holds nothing else than recorded
    operations and calls that are still pending, each at most once.  The bound says that
    no version can have wrapped round its [uint64]. *)
Theorem history_linearizable ls s :
  Z.of_nat (length ls) <= uint64_max ->
  sys_run sys_init ls = Some s ->
  exists L, linearizes L (filter (fun o => ~ nokey_put o) (sys_log s)) /\ only_issued s L.
Proof. apply run_linearizes. Qed.

(** Two clerks on one key: clerk 0's Put is executed but its reply is lost, clerk 1
    reads the new value, and clerk 0's retry is answered [ErrMaybe]. *)
Definition demo_run : list label :=
  [Invoke 0 (RPut (mkPutArgs "x" "a" 0)); Attempt 0 ReplyLost;
   Invoke 1 (RGet "x"); Attempt 1 ReqLost; Attempt 1 Delivered; Attempt 0 Delivered].

Lemma history_linearizable_witness :
  exists s L, sys_run sys_init demo_run = Some s /\
    (KvOutput_Err ∘ Operation_Output <$> sys_log s) = [OK; ErrMaybe] /\
    linearizes L (filter (fun o => ~ nokey_put o) (sys_log s)).
Proof.
  eexists. destruct (history_linearizable demo_run _ ltac:(vm_compute; discriminate) eq_refl)
    as [L [HL _]].
  exists L. split; [reflexivity|]. split; [reflexivity|]. exact HL.
Defined.

(** the server and the checker's model disagree on one answer.  A Put with a
    non-zero version on an absent key is answered [ErrNoKey] by the server,
    with [ErrVersion] or [ErrMaybe] the only outputs the model accepts, so a
    history that contains one is judged not linearizable. *)
Theorem KvModel_rejects_ErrNoKey a :
  PutArgs_Version a <> 0 ->
  PutReply_Err (KVServer_Put MakeKVServer a).2 = ErrNoKey /\
  forall out, KvOutput_Err out = ErrNoKey ->
    (KvModel_Step KvModel_Init (put_input a) out).1 = false.
Proof.
  intros Hv. split.
  - rewrite Put_cases. simpl. unfold kv_view; simpl. rewrite lookup_empty; simpl.
    by rewrite (proj2 (Z.eqb_neq _ _) Hv).
  - intros out Ho. unfold KvModel_Step; simpl. rewrite Ho. by repeat case_match.
Qed.

Lemma KvModel_rejects_ErrNoKey_witness :
  PutReply_Err (KVServer_Put MakeKVServer (mkPutArgs "x" "1" 7)).2 = ErrNoKey.
Proof. apply (KvModel_rejects_ErrNoKey (mkPutArgs "x" "1" 7)). discriminate. Defined.
