(* ===== verification/KvTest.v ===== *)
(** The clients and checks of the key/value tests ([kvtest1/kvtest.go]): concurrent
    puts, concurrent appends, puts over many keys.  A client of a test is a
    program that is waiting for one clerk call, or at its [select] between two
    rounds; the clients run against one server over a network that loses requests
    and replies, interleaved attempt by attempt. *)
From S2P Require Import Prelude.
From S2P Require Import Json.
From S2P Require Import KvSrv.
From S2P Require Import KvModel.
From stdpp Require Import pretty.
Open Scope Z_scope.

(** ** Helpers *)

Definition letterBytes : string := "abcdefghijklmnopqrstuvwxyzABCDEFGHIJKLMNOPQRSTUVWXYZ".

(** [RandValue]: one random number per byte; the index is a panic out of range. *)
Fixpoint RandValue (draws : list Z) : outcome string :=
  match draws with
  | [] => Ret EmptyString
  | r :: draws' =>
      c ← at_ (String.list_ascii_of_string letterBytes)
              (Z.to_nat (Z.rem r (Z.of_nat (String.length letterBytes))));
      s ← RandValue draws'; Ret (String c s)
  end.

Definition MakeKeys (n : nat) : list string := (fun i => "k" +:+ pretty i) <$> range n.

Record ClntRes := mkClntRes { Nok : Z; Nmaybe : Z }.
#[export] Instance ClntRes_eq_dec : EqDecision ClntRes.
Proof. solve_decision. Defined.

(** ** The JSON values *)

Record EntryV := mkEntryV { EntryV_Id : Z; EntryV_V : Tversion }.
Record EntryN := mkEntryN { EntryN_Id : Z; EntryN_N : Z }.

Definition EntryV_json (e : EntryV) : json :=
  JObj [("Id", JNum (EntryV_Id e)); ("V", JNum (EntryV_V e))].
Definition EntryN_json (e : EntryN) : json :=
  JObj [("Id", JNum (EntryN_Id e)); ("N", JNum (EntryN_N e))].
Definition entries_json (es : list EntryN) : json := JArr (map EntryN_json es).

Definition into_EntryV : json -> option EntryV :=
  into_struct (fun e kv =>
    if is_field "Id" kv.1 then
      i ← into_int int_min int_max (EntryV_Id e) kv.2; Some (mkEntryV i (EntryV_V e))
    else if is_field "V" kv.1 then
      v ← into_int 0 uint64_max (EntryV_V e) kv.2; Some (mkEntryV (EntryV_Id e) v)
    else Some e) (mkEntryV 0 0).
Definition into_EntryN : json -> option EntryN :=
  into_struct (fun e kv =>
    if is_field "Id" kv.1 then
      i ← into_int int_min int_max (EntryN_Id e) kv.2; Some (mkEntryN i (EntryN_N e))
    else if is_field "N" kv.1 then
      n ← into_int int_min int_max (EntryN_N e) kv.2; Some (mkEntryN (EntryN_Id e) n)
    else Some e) (mkEntryN 0 0).
Definition into_entries : json -> option (list EntryN) := into_slice into_EntryN.

(** [GetJson] after its Get: [ts.Fatalf] on an error or a value that cannot be read. *)
Definition GetJson {A} (into : json -> option A) (val : string) (ver : Tversion) (err : Err)
  : outcome (A * Tversion) :=
  if bool_decide (err = OK) then
    match v ← Unmarshal val; into v with
    | Some a => Ret (a, ver)
    | None => Panic
    end
  else Panic.

(** ** Clients that run together *)

Section Drivers.
(** The program of a client: the call it waits for, what it does with the answer
    (a failed test is [Panic]), and what it does at its [select], where [done] says
    that the stop signal is received and [rand] is the next random number. *)
Context {P : Type}.
Variable op : nat -> P -> option request.
Variable resume : nat -> P -> KvOutput -> outcome P.
Variable select : P -> bool -> Z -> option P.

(** [d_first c] is [isFirstAttempt] of client [c]'s call. *)
Record dsys := mkDsys { d_srv : KVServer; d_prog : nat -> P; d_first : nat -> bool }.

Inductive dlabel :=
| DSelect (c : nat) (done : bool) (rand : Z)
| DAttempt (c : nat) (a : attempt).

(** One attempt of client [c]'s call: the server afterwards and what the clerk makes
    of the outcome. *)
Definition one_attempt (kv : KVServer) (r : request) (first : bool) (a : attempt)
  : KVServer * (KvOutput + bool) :=
  match a with
  | ReqLost => (kv, clerk_iter r first None)
  | ReplyLost => let '(kv', _) := handle kv r in (kv', clerk_iter r first None)
  | Delivered => let '(kv', rep) := handle kv r in (kv', clerk_iter r first (Some rep))
  end.

(** A label that is not enabled does nothing. *)
Definition dstep (s : dsys) (l : dlabel) : outcome dsys :=
  match l with
  | DSelect c dn rand =>
      match select (d_prog s c) dn rand with
      | Some p => Ret (mkDsys (d_srv s) (<[c := p]> (d_prog s)) (<[c := true]> (d_first s)))
      | None => Ret s
      end
  | DAttempt c a =>
      match op c (d_prog s c) with
      | Some r =>
          let '(kv', res) := one_attempt (d_srv s) r (d_first s c) a in
          match res with
          | inl out =>
              p ← resume c (d_prog s c) out;
              Ret (mkDsys kv' (<[c := p]> (d_prog s)) (<[c := true]> (d_first s)))
          | inr first => Ret (mkDsys kv' (d_prog s) (<[c := first]> (d_first s)))
          end
      | None => Ret s
      end
  end.

Fixpoint drun (s : dsys) (ls : list dlabel) : outcome dsys :=
  match ls with
  | [] => Ret s
  | l :: ls' => s' ← dstep s l; drun s' ls'
  end.

(** [SpawnClientsAndWait]: [nclnt] clients that start with [p0]; the labels of the
    others are not enabled. *)
Definition spawned (nclnt : nat) (l : dlabel) : Prop :=
  match l with DSelect c _ _ | DAttempt c _ => (c < nclnt)%nat end.
Definition spawn (kv : KVServer) (p0 : P) : dsys := mkDsys kv (fun _ => p0) (fun _ => true).
End Drivers.
Arguments dsys : clear implicits.
Arguments dlabel : clear implicits.

(** ** [OneClientAppend] *)

(** [i] is the loop variable; [es] of [APut] is the list with the own entry. *)
Inductive aprog :=
| ASelect (i nok nmay : Z)
| AGet (i nok nmay : Z)
| APut (i nok nmay : Z) (es : list EntryN) (ver : Tversion)
| ADone (res : ClntRes).

Definition append_op (me : nat) (p : aprog) : option request :=
  match p with
  | AGet _ _ _ => Some (RGet "k")
  | APut _ _ _ es ver => Some (RPut (mkPutArgs "k" (Marshal (entries_json es)) ver))
  | _ => None
  end.

Definition append_resume (me : nat) (p : aprog) (out : KvOutput) : outcome aprog :=
  match p with
  | AGet i nok nmay =>
      '(es, ver) ← GetJson into_entries (KvOutput_Value out) (KvOutput_Version out) (KvOutput_Err out);
      Ret (APut i nok nmay (es ++ [mkEntryN (Z.of_nat me) i]) ver)
  | APut i nok nmay es ver =>
      if bool_decide (KvOutput_Err out = OK) then Ret (ASelect (wrap64 (i + 1)) (wrap64 (nok + 1)) nmay)
      else if bool_decide (KvOutput_Err out = ErrMaybe) then
        Ret (ASelect (wrap64 (i + 1)) nok (wrap64 (nmay + 1)))
      else Ret (AGet i nok nmay)
  | _ => Ret p
  end.

Definition append_select (p : aprog) (dn : bool) (rand : Z) : option aprog :=
  match p with
  | ASelect i nok nmay => Some (if dn then ADone (mkClntRes nok nmay) else AGet i nok nmay)
  | _ => None
  end.

(** ** [OneClientPut] *)

(** [verm] and [res] are the locals of the loop; [k] and [ver] those of [OnePut], [err]
    the answer of its Put. *)
Inductive pprog :=
| PSelect (verm : gmap string Tversion) (res : ClntRes)
| PPut (verm : gmap string Tversion) (res : ClntRes) (k : string) (ver : Tversion)
| PGet (verm : gmap string Tversion) (res : ClntRes) (k : string) (ver : Tversion) (err : Err)
| PDone (res : ClntRes).

Definition put_op (me : nat) (p : pprog) : option request :=
  match p with
  | PPut _ _ k ver => Some (RPut (mkPutArgs k (Marshal (EntryV_json (mkEntryV (Z.of_nat me) ver))) ver))
  | PGet _ _ k _ _ => Some (RGet k)
  | _ => None
  end.

(** The end of a round of [OnePut]: back to [OneClientPut], or another round. *)
Definition OnePut_end (me : nat) (verm : gmap string Tversion) (res : ClntRes) (k : string)
    (ver : Tversion) (err : Err) (e : EntryV) (ver0 : Tversion) : outcome pprog :=
  if bool_decide (err = OK) && (ver0 =? u64 (ver + 1)) &&
     negb (EntryV_Id e =? Z.of_nat me) && negb (EntryV_V e =? ver) then Panic
  else if bool_decide (err = OK) then
    Ret (PSelect (<[k := ver0]> verm) (mkClntRes (wrap64 (Nok res + 1)) (Nmaybe res)))
  else if bool_decide (err = ErrMaybe) then
    Ret (PSelect (<[k := ver0]> verm) (mkClntRes (Nok res) (wrap64 (Nmaybe res + 1))))
  else Ret (PPut verm res k ver0).

Definition put_resume (me : nat) (p : pprog) (out : KvOutput) : outcome pprog :=
  match p with
  | PPut verm res k ver =>
      let err := KvOutput_Err out in
      if bool_decide (err = OK \/ err = ErrVersion \/ err = ErrMaybe) then Ret (PGet verm res k ver err)
      else Panic
  | PGet verm res k ver err =>
      '(e, ver0) ← GetJson into_EntryV (KvOutput_Value out) (KvOutput_Version out) (KvOutput_Err out);
      OnePut_end me verm res k ver err e ver0
  | _ => Ret p
  end.

(** The key of the next round: [ka[0]], or a random one. *)
Definition put_select (ka : list string) (randomkeys : bool) (p : pprog) (dn : bool) (rand : Z)
  : option pprog :=
  match p with
  | PSelect verm res =>
      if dn then Some (PDone res)
      else
        k ← ka !! (if randomkeys then Z.to_nat (Z.rem rand (Z.of_nat (length ka))) else 0%nat);
        Some (PPut verm res k (default 0 (verm !! k)))
  | _ => None
  end.

Definition put_init (ka : list string) : pprog :=
  PSelect (foldl (fun m k => <[k := 0]> m) ∅ ka) (mkClntRes 0 0).

(** ** Checks of the results *)

(** The loop of [CheckAppends] over the entries; [m[k]] of a Go map is 0 when absent. *)
Definition zero_get (m : gmap Z Z) (k : Z) : Z := default 0 (m !! k).

Definition check_entry (acc : gmap Z Z * gmap Z Z) (e : EntryN) : outcome (gmap Z Z * gmap Z Z) :=
  let '(expect, skipped) := acc in
  let x := zero_get expect (EntryN_Id e) in
  if x >? EntryN_N e then Panic
  else if x =? EntryN_N e then Ret (<[EntryN_Id e := wrap64 (x + 1)]> expect, skipped)
  else
    let s := wrap64 (EntryN_N e - x) in
    Ret (<[EntryN_Id e := wrap64 (EntryN_N e + 1)]> expect,
         <[EntryN_Id e := wrap64 (zero_get skipped (EntryN_Id e) + s)]> skipped).

(** [rs[c]]: a panic out of range. *)
Definition res_at (rs : list ClntRes) (c : Z) : outcome ClntRes :=
  if 0 <=? c then at_ rs (Z.to_nat c) else Panic.

Definition check_client (skipped : gmap Z Z) (rs : list ClntRes) (_ : unit) (cn : Z * Z) : outcome unit :=
  let '(c, n) := cn in
  r ← res_at rs c;
  if zero_get skipped c >? Nmaybe r then Panic
  else if n >? wrap64 (Nok r + Nmaybe r) then Panic else Ret tt.

(** [int(ver)] converts a [uint64]. *)
Definition CheckAppends (es : list EntryN) (nclnt : nat) (rs : list ClntRes) (ver : Tversion)
  : outcome unit :=
  let zeros := foldl (fun m i => <[i := 0]> m) (∅ : gmap Z Z) (range nclnt) in
  '(expect, skipped) ← foldM check_entry es (zeros, zeros);
  if negb (Z.of_nat (length es) + 1 =? wrap64 ver) then Panic
  else foldM (check_client skipped rs) (map_to_list expect) tt.

(** [res] is updated in place. *)
Definition add_res (res r : ClntRes) : ClntRes :=
  mkClntRes (wrap64 (Nok res + Nok r)) (wrap64 (Nmaybe res + Nmaybe r)).

(** [CheckPutConcurrent], from the answer of its Get. *)
Definition CheckPutConcurrent (got : KvOutput) (rs : list ClntRes) (res : ClntRes) (reliable : bool)
  : outcome ClntRes :=
  '(_, ver0) ← GetJson into_EntryV (KvOutput_Value got) (KvOutput_Version got) (KvOutput_Err got);
  let res := foldl add_res res rs in
  if reliable then
    if negb (ver0 =? u64 (Nok res)) then Panic else Ret res
  else if ver0 >? u64 (wrap64 (Nok res + Nmaybe res)) then Panic else Ret res.

(** The answer of a Get that gets through. *)
Definition get_output (kv : KVServer) (k : string) : KvOutput :=
  let r := KVServer_Get kv (mkGetArgs k) in
  mkKvOutput (GetReply_Value r) (GetReply_Version r) (GetReply_Err r).

(** [CheckGet]. *)
Definition CheckGet (kv : KVServer) (key value : string) (version : Tversion) : outcome unit :=
  let r := get_output kv key in
  if negb (bool_decide (KvOutput_Err r = OK)) then Panic
  else if negb (bool_decide (KvOutput_Value r = value)) || negb (KvOutput_Version r =? version) then Panic
  else Ret tt.

(** ** One client alone *)

(** A clerk's Put with the outcomes of its attempts; still retrying is [Blocked]. *)
Definition clerk_put (kv : KVServer) (k value : string) (ver : Tversion) (atts : list attempt)
  : outcome (KVServer * Err) :=
  match put_run true kv (mkPutArgs k value ver) atts with
  | (kv', Some e) => Ret (kv', e)
  | (_, None) => Blocked
  end.

(** [PutAtLeastOnce]; a list of attempts per round, [Blocked] when it would go on. *)
Fixpoint PutAtLeastOnce (kv : KVServer) (key value : string) (ver : Tversion)
    (rounds : list (list attempt)) : outcome (KVServer * Tversion) :=
  match rounds with
  | [] => Blocked
  | atts :: rounds' =>
      '(kv', err) ← clerk_put kv key value ver atts;
      if bool_decide (err = OK) then Ret (kv', u64 (ver + 1))
      else if bool_decide (err = ErrMaybe \/ err = ErrVersion) then
        PutAtLeastOnce kv' key value (u64 (ver + 1)) rounds'
      else if negb (ver =? 0) then Panic
      else PutAtLeastOnce kv' key value ver rounds'
  end.

(** [PutAtLeastOnceJson]: every round presents version 0; [ver] counts the rounds that
    ended in [ErrMaybe]. *)
Fixpoint PutAtLeastOnceJson (kv : KVServer) (key : string) (value : json) (ver : Tversion)
    (rounds : list (list attempt)) : outcome (KVServer * Tversion) :=
  match rounds with
  | [] => Blocked
  | atts :: rounds' =>
      '(kv', err) ← clerk_put kv key (Marshal value) 0 atts;
      if bool_decide (err = ErrMaybe) then PutAtLeastOnceJson kv' key value (u64 (ver + 1)) rounds'
      else Ret (kv', ver)
  end.

(** The first loop of [SpreadPutsSize]: the results of the Puts are ignored. *)
Fixpoint spread_puts (kv : KVServer) (kvs : list (string * string)) (net : list (list attempt))
  : outcome KVServer :=
  match kvs, net with
  | [], _ => Ret kv
  | _ :: _, [] => Blocked
  | (k, v) :: kvs', atts :: net' => '(kv', _) ← clerk_put kv k v 0 atts; spread_puts kv' kvs' net'
  end.

(** [SpreadPutsSize] with the random values [va]; [SpreadPuts] has values of 20 bytes. *)
Definition SpreadPutsSize (kv : KVServer) (va : list string) (net : list (list attempt))
  : outcome (KVServer * (list string * list string)) :=
  let ka := MakeKeys (length va) in
  kv' ← spread_puts kv (zip ka va) net;
  _ ← foldM (fun (_ : unit) (p : string * string) => CheckGet kv' p.1 p.2 1) (zip ka va) tt;
  Ret (kv', (ka, va)).

(** ** Facts about clients that run together *)

(** What the [n] clients of a run report. *)
Definition reports {P} (n : nat) (done : P -> option ClntRes) (s : dsys P) (rs : list ClntRes) : Prop :=
  length rs = n /\ forall c r, rs !! c = Some r -> done (d_prog s c) = Some r.

(** Only client [c] moves. *)
Definition others_same {P} (c : nat) (s s' : dsys P) : Prop :=
  forall d, d <> c -> d_prog s' d = d_prog s d /\ d_first s' d = d_first s d.

Lemma others_same_both {P} c (s : dsys P) kv p f :
  others_same c s (mkDsys kv (<[c := p]> (d_prog s)) (<[c := f]> (d_first s))).
Proof. intros d Hd. simpl. by rewrite !fn_lookup_insert_ne. Qed.

Lemma others_same_first {P} c (s : dsys P) kv f :
  others_same c s (mkDsys kv (d_prog s) (<[c := f]> (d_first s))).
Proof. intros d Hd. simpl. by rewrite fn_lookup_insert_ne. Qed.

Ltac solve_others := (apply others_same_first || apply others_same_both).

(** An invariant that counts the steps: each step keeps it, the run has it at its end. *)
Lemma drun_invariant {P} op resume select (ok : dlabel -> Prop) (I : Z -> dsys P -> Prop) (max : Z) :
  (forall k s l, k < max -> I k s -> ok l ->
     exists s', dstep op resume select s l = Ret s' /\ I (k + 1) s') ->
  forall ls k s, k + Z.of_nat (length ls) <= max -> I k s -> Forall ok ls ->
  exists s', drun op resume select s ls = Ret s' /\ I (k + Z.of_nat (length ls)) s'.
Proof.
  intros Hstep. induction ls as [|l ls IH]; intros k s Hk H Hls.
  - exists s. split; [done|]. by rewrite Z.add_0_r.
  - apply Forall_cons in Hls as [Hl Hls]. cbn [length] in *.
    destruct (Hstep k s l) as (s1 & Hs1 & H1); [lia|done..|].
    destruct (IH (k + 1) s1) as (s2 & Hs2 & H2); [lia|done..|].
    exists s2. split; [by simpl; rewrite Hs1|].
    by replace (k + Z.of_nat (S (length ls))) with (k + 1 + Z.of_nat (length ls)) by lia.
Qed.
