(* ===== verification/KvAppend.v ===== *)
(** The append test of [kvtest1/kvtest.go] on the server of [kvsrv1]: whatever the
    clients' appends interleave and the network loses, [OneClientAppend] never fails
    and the final [CheckAppends] passes. *)
From S2P Require Import Prelude.
From S2P Require Import Json.
From S2P Require Import KvSrv.
From S2P Require Import KvModel.
From S2P Require Import KvTest.
Open Scope Z_scope.

(** ** The entries of a list, client by client *)

(** One more than the last [N] of client [c], 0 when it has no entry. *)
Definition next (es : list EntryN) (c : Z) : Z :=
  foldl (fun x e => if EntryN_Id e =? c then EntryN_N e + 1 else x) 0 es.
Definition count (es : list EntryN) (c : Z) : Z :=
  Z.of_nat (length (filter (fun e => EntryN_Id e = c) es)).
(** Every client's entries have increasing [N]. *)
Definition ordered (es : list EntryN) : Prop :=
  forall l1 e l2, es = l1 ++ e :: l2 -> next l1 (EntryN_Id e) <= EntryN_N e.
Definition entry_ok (n : nat) (k : Z) (e : EntryN) : Prop :=
  0 <= EntryN_Id e < Z.of_nat n /\ 0 <= EntryN_N e <= k.

Lemma next_snoc es e c :
  next (es ++ [e]) c = if EntryN_Id e =? c then EntryN_N e + 1 else next es c.
Proof. unfold next. by rewrite foldl_app. Qed.

Lemma count_snoc es e c : count (es ++ [e]) c = count es c + if EntryN_Id e =? c then 1 else 0.
Proof.
  unfold count. rewrite filter_app, length_app, Nat2Z.inj_add. f_equal.
  rewrite filter_cons. destruct (Z.eqb_spec (EntryN_Id e) c); by case_decide.
Qed.

Lemma ordered_snoc es e : ordered es -> next es (EntryN_Id e) <= EntryN_N e -> ordered (es ++ [e]).
Proof.
  intros Ho Hn l1 e' l2 Heq. destruct l2 as [|e2 l2 _] using rev_ind.
  - apply app_inj_tail in Heq as [-> ->]. done.
  - rewrite app_comm_cons, app_assoc in Heq. apply app_inj_tail in Heq as [-> _]. by eapply Ho.
Qed.

Lemma ordered_prefix es e : ordered (es ++ [e]) -> ordered es /\ next es (EntryN_Id e) <= EntryN_N e.
Proof.
  intros Ho. split; [|by apply (Ho es e [])].
  intros l1 e' l2 ->. apply (Ho l1 e' (l2 ++ [e])). by rewrite <- app_assoc.
Qed.

(** ** The stored value *)

Lemma into_EntryN_json e :
  int_min <= EntryN_Id e <= int_max -> int_min <= EntryN_N e <= int_max ->
  into_EntryN (EntryN_json e) = Some e.
Proof.
  destruct e as [i m]. cbn [EntryN_Id EntryN_N]. intros Hi Hm.
  unfold into_EntryN, EntryN_json, into_struct. cbn [foldl fst snd]. step_bind.
  change (is_field "Id" "Id") with true. change (is_field "Id" "N") with false.
  change (is_field "N" "N") with true. cbv iota. cbn [EntryN_Id EntryN_N].
  rewrite into_int_in by done. step_bind. cbn [EntryN_Id EntryN_N].
  by rewrite into_int_in by done.
Qed.

Lemma entries_roundtrip n k es :
  Z.of_nat n <= int_max -> k <= int_max -> Forall (entry_ok n k) es ->
  (v ← Unmarshal (Marshal (entries_json es)); into_entries v) = Some es.
Proof.
  intros Hn Hk Hes. rewrite Unmarshal_Marshal.
  - step_bind. unfold into_entries, entries_json. cbn [into_slice].
    rewrite (mapM_map _ _ (fun e => e)); [by rewrite map_id_ext|].
    eapply Forall_impl; [exact Hes|]. intros [i m] [Hi Hm]. simpl in Hi, Hm.
    assert (int_min <= i <= int_max /\ int_min <= m <= int_max) as [Hi' Hm'] by (unfold int_min; lia).
    by apply into_EntryN_json.
  - unfold entries_json. change (forallb ascii_json (map EntryN_json es) = true).
    by apply forallb_map_true.
Qed.

(** [n] clients that run [OneClientAppend] against one server. *)
Definition append_step : dsys aprog -> dlabel -> outcome (dsys aprog) :=
  dstep append_op append_resume append_select.
Definition append_run : dsys aprog -> list dlabel -> outcome (dsys aprog) :=
  drun append_op append_resume append_select.

Definition append_done (p : aprog) : option ClntRes :=
  match p with ADone r => Some r | _ => None end.

Section AppendTest.
(** The number of clients. *)
Variable n : nat.
Hypothesis Hn : Z.of_nat n <= int_max.

Definition base (k : Z) (es : list EntryN) (c : nat) (i nok nmay : Z) : Prop :=
  0 <= nok /\ 0 <= nmay /\ i = nok + nmay /\ i <= k /\ next es (Z.of_nat c) <= i /\
  nok <= count es (Z.of_nat c).

(** What client [c] knows.  A Put whose version is the current one has not been
    executed and holds the stored list with the own entry; a Put that may have been
    executed has been sent before. *)
Definition client_ok (k : Z) (es : list EntryN) (c : nat) (p : aprog) (first : bool) : Prop :=
  match p with
  | ASelect i nok nmay | AGet i nok nmay => base k es c i nok nmay
  | APut i nok nmay es' ver =>
      0 <= nok /\ 0 <= nmay /\ i = nok + nmay /\ i <= k /\ nok <= count es (Z.of_nat c) /\
      next es (Z.of_nat c) <= i + 1 /\ 1 <= ver <= Z.of_nat (length es) + 1 /\
      (ver = Z.of_nat (length es) + 1 \/ first = true -> next es (Z.of_nat c) <= i) /\
      (ver = Z.of_nat (length es) + 1 -> es' = es ++ [mkEntryN (Z.of_nat c) i])
  | ADone r => exists i, base k es c i (Nok r) (Nmaybe r)
  end.

Record ainv (k : Z) (es : list EntryN) (s : dsys aprog) : Prop := {
  ai_srv : KVServer_data (d_srv s) !! "k" =
    Some (mkKeyValue (Marshal (entries_json es)) (Z.of_nat (length es) + 1));
  ai_ok : Forall (entry_ok n k) es;
  ai_ord : ordered es;
  ai_len : Z.of_nat (length es) <= k;
  ai_clients c : (c < n)%nat -> client_ok k es c (d_prog s c) (d_first s c)
}.

Lemma client_ok_mono k k' es c p first :
  k <= k' -> client_ok k es c p first -> client_ok k' es c p first.
Proof.
  intros Hk. unfold client_ok, base. destruct p; try (intros H; intuition lia).
  intros (i & H). exists i. intuition lia.
Qed.

(** Another client's entry does not disturb. *)
Lemma client_ok_snoc k es c d i p first :
  c <> d -> client_ok k es d p first -> client_ok k (es ++ [mkEntryN (Z.of_nat c) i]) d p first.
Proof.
  intros Hcd. unfold client_ok, base. rewrite length_app, next_snoc, count_snoc. simpl.
  destruct (Z.eqb_spec (Z.of_nat c) (Z.of_nat d)) as [|_]; [lia|]. rewrite Z.add_0_r.
  destruct p; try done. intros (? & ? & ? & ? & ? & ? & ? & H1 & H2).
  do 6 (split; [done|]). split; [lia|]. split; [|lia].
  intros [?|?]; [lia|]. apply H1. by right.
Qed.

(** One client moves and the list stays. *)
Lemma ainv_move k es s s' c :
  ainv k es s -> KVServer_data (d_srv s') = KVServer_data (d_srv s) -> others_same c s s' ->
  client_ok (k + 1) es c (d_prog s' c) (d_first s' c) -> ainv (k + 1) es s'.
Proof.
  intros [H1 H2 H3 H4 H5] Hkv Ho Hc. split; try done.
  - by rewrite Hkv.
  - eapply Forall_impl; [exact H2|]. intros e [? ?]. split; [done|lia].
  - lia.
  - intros d Hd. destruct (decide (d = c)) as [->|Hne]; [done|].
    destruct (Ho d Hne) as [-> ->]. eapply client_ok_mono; [|by apply H5]. lia.
Qed.

(** Client [c]'s Put is executed. *)
Lemma ainv_append k es s s' c i :
  ainv k es s -> (c < n)%nat -> 0 <= i <= k -> next es (Z.of_nat c) <= i ->
  KVServer_data (d_srv s') =
    <["k" := mkKeyValue (Marshal (entries_json (es ++ [mkEntryN (Z.of_nat c) i])))
                        (Z.of_nat (length es) + 2)]> (KVServer_data (d_srv s)) ->
  others_same c s s' ->
  client_ok (k + 1) (es ++ [mkEntryN (Z.of_nat c) i]) c (d_prog s' c) (d_first s' c) ->
  ainv (k + 1) (es ++ [mkEntryN (Z.of_nat c) i]) s'.
Proof.
  intros [H1 H2 H3 H4 H5] Hcn Hi Hnx Hkv Ho Hc. split.
  - rewrite Hkv, lookup_insert_eq, length_app. simpl. do 2 f_equal. lia.
  - apply Forall_app. split; [|apply Forall_singleton; split; simpl; lia].
    eapply Forall_impl; [exact H2|]. intros e [? ?]. split; [done|lia].
  - by apply ordered_snoc.
  - rewrite length_app. simpl. lia.
  - intros d Hd. destruct (decide (d = c)) as [->|Hne]; [done|].
    destruct (Ho d Hne) as [-> ->]. apply client_ok_snoc; [done|].
    eapply client_ok_mono; [|by apply H5]. lia.
Qed.

Lemma ainv_same k es s : ainv k es s -> ainv (k + 1) es s.
Proof.
  intros [H1 H2 H3 H4 H5]. split; try done.
  - eapply Forall_impl; [exact H2|]. intros e [? ?]. split; [done|lia].
  - lia.
  - intros d Hd. eapply client_ok_mono; [|by apply H5]. lia.
Qed.

Lemma ainv_init kv :
  KVServer_data kv !! "k" = Some (mkKeyValue (Marshal (entries_json [])) 1) ->
  ainv 0 [] (spawn kv (ASelect 0 0 0)).
Proof.
  intros Hkv. split; simpl; try done.
  intros l1 e l2 Heq. by destruct l1.
Qed.

(** The Get of a client reads the list and its version. *)
Lemma append_get k es s c i nok nmay :
  k <= int_max -> ainv k es s ->
  append_resume c (AGet i nok nmay) (get_output (d_srv s) "k") =
    Ret (APut i nok nmay (es ++ [mkEntryN (Z.of_nat c) i]) (Z.of_nat (length es) + 1)).
Proof.
  intros Hk H. unfold get_output, KVServer_Get. cbn [GetArgs_Key].
  rewrite (ai_srv _ _ _ H). cbn [GetReply_Value GetReply_Version GetReply_Err KeyValue_Value
    KeyValue_Version append_resume KvOutput_Value KvOutput_Version KvOutput_Err].
  unfold GetJson. rewrite bool_decide_eq_true_2 by done.
  by rewrite (entries_roundtrip n k es Hn Hk (ai_ok _ _ _ H)).
Qed.

(** An attempt of a Put whose version is out of date. *)
Lemma put_stale k es s first a v ver :
  ainv k es s -> ver <> Z.of_nat (length es) + 1 ->
  one_attempt (d_srv s) (RPut (mkPutArgs "k" v ver)) first a =
    (d_srv s, match a with
              | Delivered => inl (mkKvOutput "" 0 (if first then ErrVersion else ErrMaybe))
              | _ => inr false end).
Proof.
  intros H Hv. unfold one_attempt. simpl. unfold KVServer_Put. simpl. rewrite (ai_srv _ _ _ H).
  simpl. rewrite (proj2 (Z.eqb_neq _ _) Hv). by destruct a, first.
Qed.

(** An attempt of a Put whose version is the current one. *)
Lemma put_current k es s first a v :
  k < uint64_max - 1 -> ainv k es s ->
  exists kv, KVServer_data kv = <["k" := mkKeyValue v (Z.of_nat (length es) + 2)]> (KVServer_data (d_srv s)) /\
    one_attempt (d_srv s) (RPut (mkPutArgs "k" v (Z.of_nat (length es) + 1))) first a =
      match a with
      | ReqLost => (d_srv s, inr false)
      | ReplyLost => (kv, inr false)
      | Delivered => (kv, inl (mkKvOutput "" 0 OK))
      end.
Proof.
  intros Hk H. pose proof (ai_len _ _ _ H) as Hl. eexists. split; cycle 1.
  - unfold one_attempt. simpl. unfold KVServer_Put. simpl. rewrite (ai_srv _ _ _ H). simpl.
    rewrite Z.eqb_refl. simpl. by destruct a, first.
  - simpl. rewrite u64_id by lia. do 2 f_equal. lia.
Qed.

Lemma append_attempt_get k es s c a i nok nmay :
  k <= int_max -> ainv k es s -> (c < n)%nat -> d_prog s c = AGet i nok nmay ->
  exists s', append_step s (DAttempt c a) = Ret s' /\ ainv (k + 1) es s'.
Proof.
  intros Hk H Hc Ep. pose proof (ai_clients _ _ _ H c Hc) as Hcl. rewrite Ep in Hcl.
  pose proof (append_get k es s c i nok nmay Hk H) as Hget.
  unfold append_step, dstep. rewrite Ep. cbn [append_op].
  destruct a; cbn [one_attempt handle clerk_iter Clerk_Get_iter mbind option_bind];
    [| |change (mkKvOutput _ _ _) with (get_output (d_srv s) "k"); rewrite Hget];
    (eexists; split; [done|]);
    (eapply ainv_move; [done|done|apply others_same_first || apply others_same_both|]);
    cbn [d_prog d_first]; rewrite ?Ep, ?fn_lookup_insert; unfold client_ok, base in *; try lia.
  intuition lia.
Qed.

(** The end of a step: what the client knows now follows by arithmetic. *)
Ltac solve_client Ep :=
  cbn [d_prog d_first]; rewrite ?Ep, ?fn_lookup_insert; unfold client_ok, base in *;
  rewrite ?length_app, ?next_snoc, ?count_snoc; cbn [EntryN_Id EntryN_N length];
  rewrite ?Z.eqb_refl, ?Nat2Z.inj_add, ?wrap64_id by (unfold int_min; lia);
  first [lia|intuition lia].

Lemma append_attempt_put k es s c a i nok nmay es' ver :
  k + 1 < int_max -> ainv k es s -> (c < n)%nat -> d_prog s c = APut i nok nmay es' ver ->
  exists s' es2, append_step s (DAttempt c a) = Ret s' /\ ainv (k + 1) es2 s'.
Proof.
  intros Hk H Hc Ep. pose proof (ai_clients _ _ _ H c Hc) as Hcl. rewrite Ep in Hcl.
  unfold append_step, dstep. rewrite Ep. cbn [append_op].
  destruct (decide (ver = Z.of_nat (length es) + 1)) as [->|Hv].
  - assert (Hes : es' = es ++ [mkEntryN (Z.of_nat c) i]) by (by apply Hcl). subst es'.
    destruct (put_current k es s (d_first s c) a (Marshal (entries_json (es ++ [mkEntryN (Z.of_nat c) i]))))
      as (kv & Hkv & ->); [unfold int_max, uint64_max in *; lia|done|].
    simpl in Hcl. destruct a.
    + exists (mkDsys (d_srv s) (d_prog s) (<[c := false]> (d_first s))), es. split; [done|].
      eapply ainv_move; [done|done|solve_others|]. solve_client Ep.
    + exists (mkDsys kv (d_prog s) (<[c := false]> (d_first s))), (es ++ [mkEntryN (Z.of_nat c) i]).
      split; [done|]. eapply ainv_append; [done|done|lia|intuition lia|done|solve_others|].
      solve_client Ep.
    + eexists _, (es ++ [mkEntryN (Z.of_nat c) i]). split; [done|].
      eapply ainv_append; [done|done|lia|intuition lia|done|solve_others|]. solve_client Ep.
  - rewrite (put_stale k es s) by done. simpl in Hcl. destruct a; [| |destruct (d_first s c) eqn:Ef].
    + exists (mkDsys (d_srv s) (d_prog s) (<[c := false]> (d_first s))), es. split; [done|].
      eapply ainv_move; [done|done|solve_others|]. solve_client Ep.
    + exists (mkDsys (d_srv s) (d_prog s) (<[c := false]> (d_first s))), es. split; [done|].
      eapply ainv_move; [done|done|solve_others|]. solve_client Ep.
    + eexists _, es. split; [done|]. eapply ainv_move; [done|done|solve_others|]. solve_client Ep.
    + eexists _, es. split; [done|]. eapply ainv_move; [done|done|solve_others|]. solve_client Ep.
Qed.

Lemma append_step_inv k es s l :
  k + 1 < int_max -> ainv k es s -> spawned n l ->
  exists s' es', append_step s l = Ret s' /\ ainv (k + 1) es' s'.
Proof.
  intros Hk H Hl. destruct l as [c dn rand|c a]; simpl in Hl.
  - pose proof (ai_clients _ _ _ H c Hl) as Hcl. unfold append_step, dstep.
    destruct (d_prog s c) as [i nok nmay|i nok nmay|i nok nmay es' ver|r] eqn:Ep; cbn [append_select].
    2-4: by exists s, es; split; [|apply ainv_same].
    eexists _, es. split; [done|]. eapply ainv_move; [done|done|solve_others|].
    cbn [d_prog d_first]. rewrite !fn_lookup_insert. simpl in Hcl. unfold base in Hcl.
    destruct dn; cbn [client_ok Nok Nmaybe]; [exists i|]; unfold base; intuition lia.
  - destruct (d_prog s c) as [i nok nmay|i nok nmay|i nok nmay es' ver|r] eqn:Ep.
    + exists s, es. split; [|by apply ainv_same]. unfold append_step, dstep. by rewrite Ep.
    + destruct (append_attempt_get k es s c a i nok nmay) as (s' & ? & ?); [lia|done..|]. by exists s', es.
    + by eapply append_attempt_put.
    + exists s, es. split; [|by apply ainv_same]. unfold append_step, dstep. by rewrite Ep.
Qed.

Lemma append_run_inv ls s :
  Z.of_nat (length ls) < int_max -> ainv 0 [] s -> Forall (spawned n) ls ->
  exists s' es', append_run s ls = Ret s' /\ ainv (Z.of_nat (length ls)) es' s'.
Proof.
  intros Hk H Hls.
  destruct (drun_invariant append_op append_resume append_select (spawned n)
    (fun k s => exists es, ainv k es s) (int_max - 1)) with (ls := ls) (k := 0) (s := s)
    as (s' & Hs' & es & H'); [|lia|by exists []|done|by exists s', es].
  intros k s0 l Hk0 [es H0] Hl. destruct (append_step_inv k es s0 l) as (s1 & es1 & ? & ?);
    [lia|done..|]. exists s1. split; [done|by exists es1].
Qed.

(** ** The check of the final list *)

Lemma count_bounds es c : 0 <= count es c <= Z.of_nat (length es).
Proof. unfold count. pose proof (length_filter (fun e => EntryN_Id e = c) es). lia. Qed.

Lemma next_bounds k es c : Forall (entry_ok n k) es -> ordered es -> count es c <= next es c <= Z.max 0 (k + 1).
Proof.
  induction es as [|e es IH] using rev_ind; [unfold count, next; simpl; lia|].
  rewrite Forall_app, Forall_singleton. intros [Hes [Hi Hm]] Ho.
  apply ordered_prefix in Ho as [Ho Hn']. specialize (IH Hes Ho).
  rewrite next_snoc, count_snoc. destruct (Z.eqb_spec (EntryN_Id e) c) as [<-|]; lia.
Qed.

Definition tables_ok (es : list EntryN) (acc : gmap Z Z * gmap Z Z) : Prop :=
  (forall c m, acc.1 !! c = Some m <-> 0 <= c < Z.of_nat n /\ m = next es c) /\
  (forall c, zero_get acc.2 c = next es c - count es c).

Lemma zero_get_insert m i x c :
  zero_get (<[i := x]> m) c = if i =? c then x else zero_get m c.
Proof.
  unfold zero_get. destruct (Z.eqb_spec i c) as [->|Hne].
  - by rewrite lookup_insert_eq.
  - by rewrite lookup_insert_ne.
Qed.

Lemma check_entry_ok k es e acc :
  k < int_max -> Forall (entry_ok n k) (es ++ [e]) -> ordered (es ++ [e]) ->
  Z.of_nat (length es) <= k -> tables_ok es acc ->
  exists acc', check_entry acc e = Ret acc' /\ tables_ok (es ++ [e]) acc'.
Proof.
  intros Hk Hok Ho Hlen [H1 H2]. apply ordered_prefix in Ho as [Ho Hle].
  apply Forall_app in Hok as [Hes [Hi Hm]%Forall_singleton].
  pose proof (next_bounds k es (EntryN_Id e) Hes Ho) as Hb.
  pose proof (count_bounds es (EntryN_Id e)) as Hc.
  destruct acc as [expect skipped]. simpl in H1, H2. unfold check_entry.
  assert (Hx : zero_get expect (EntryN_Id e) = next es (EntryN_Id e)).
  { unfold zero_get. by rewrite (proj2 (H1 _ _) (conj Hi eq_refl)). }
  rewrite Hx, H2, Z.gtb_ltb, (proj2 (Z.ltb_ge _ _)) by done.
  assert (Hins : forall c m, <[EntryN_Id e := EntryN_N e + 1]> expect !! c = Some m <->
    0 <= c < Z.of_nat n /\ m = next (es ++ [e]) c).
  { intros c m. rewrite next_snoc, lookup_insert.
    destruct (Z.eqb_spec (EntryN_Id e) c) as [<-|Hne]; [rewrite decide_True by done|rewrite decide_False by done; apply H1].
    split; [intros [= <-]; split; [done|lia]|by intros [_ ->]]. }
  destruct (Z.eqb_spec (next es (EntryN_Id e)) (EntryN_N e)) as [He|Hne];
    (eexists; split; [done|]); split; cbn [fst snd].
  - rewrite He, wrap64_id by (unfold int_min, int_max in *; lia). done.
  - intros c. rewrite H2, next_snoc, count_snoc. destruct (Z.eqb_spec (EntryN_Id e) c) as [<-|]; lia.
  - rewrite wrap64_id by (unfold int_min, int_max in *; lia). done.
  - intros c. rewrite zero_get_insert, next_snoc, count_snoc.
    destruct (Z.eqb_spec (EntryN_Id e) c) as [<-|]; [|rewrite H2; lia].
    rewrite !wrap64_id by (unfold int_min, int_max in *; rewrite ?wrap64_id by (unfold int_min, int_max in *; lia); lia).
    lia.
Qed.

Lemma check_entries_ok k es acc :
  k < int_max -> Forall (entry_ok n k) es -> ordered es -> Z.of_nat (length es) <= k ->
  tables_ok [] acc -> exists acc', foldM check_entry es acc = Ret acc' /\ tables_ok es acc'.
Proof.
  intros Hk. induction es as [|e es IH] using rev_ind; intros Hok Ho Hlen H0; [by exists acc|].
  rewrite length_app in Hlen. simpl in Hlen.
  destruct IH as (a1 & Ha1 & H1); [by apply Forall_app in Hok as [? _]|by apply ordered_prefix in Ho as [? _]|lia|done|].
  destruct (check_entry_ok k es e a1) as (a2 & Ha2 & H2); [done..|lia|done|].
  exists a2. split; [|done]. rewrite foldM_app, Ha1. step_bind. simpl. by rewrite Ha2.
Qed.

Lemma zeros_lookup l (m : gmap Z Z) c x :
  foldl (fun m i => <[i := 0]> m) m l !! c = Some x <-> (c ∈ l /\ x = 0) \/ (c ∉ l /\ m !! c = Some x).
Proof.
  revert m. induction l as [|i l IH]; intros m; simpl; [set_solver|].
  rewrite IH, elem_of_cons. destruct (decide (c = i)) as [->|Hne].
  - rewrite lookup_insert_eq. destruct (decide (i ∈ l)); naive_solver.
  - rewrite lookup_insert_ne by done. naive_solver.
Qed.

Lemma zeros_ok :
  let zeros := foldl (fun m i => <[i := 0]> m) (∅ : gmap Z Z) (range n) in tables_ok [] (zeros, zeros).
Proof.
  intros zeros. assert (Hz : forall c m, zeros !! c = Some m <-> 0 <= c < Z.of_nat n /\ m = 0).
  { intros c m. unfold zeros. rewrite zeros_lookup, elem_of_range, lookup_empty. naive_solver. }
  split; [done|]. intros c. simpl. unfold zero_get, next, count. simpl.
  destruct (zeros !! c) as [m|] eqn:E; [|done]. by apply Hz in E as [_ ->].
Qed.

Lemma CheckAppends_ok k es s rs :
  k < int_max -> ainv k es s -> reports n append_done s rs ->
  CheckAppends es n rs (Z.of_nat (length es) + 1) = Ret tt.
Proof.
  intros Hk H [Hlen Hrs]. unfold CheckAppends.
  destruct (check_entries_ok k es _ Hk (ai_ok _ _ _ H) (ai_ord _ _ _ H) (ai_len _ _ _ H) zeros_ok)
    as ([expect skipped] & -> & H1 & H2). step_bind. cbn [fst snd] in H1, H2.
  pose proof (ai_len _ _ _ H). rewrite wrap64_id by (unfold int_min, int_max in *; lia).
  rewrite Z.eqb_refl. cbn [negb]. rewrite (foldM_foldl _ (fun _ _ => tt)); [by destruct foldl|].
  intros [] [c m] [Hc ->]%elem_of_map_to_list%H1. unfold check_client, res_at.
  rewrite (proj2 (Z.leb_le 0 c)) by lia.
  destruct (lookup_lt_is_Some_2 rs (Z.to_nat c)) as [r Hr]; [lia|].
  rewrite (at_Ret _ _ _ Hr). step_bind. rewrite H2.
  pose proof (ai_clients _ _ _ H (Z.to_nat c) ltac:(lia)) as Hcl. specialize (Hrs _ _ Hr).
  destruct (d_prog s (Z.to_nat c)) as [| | |r']; try discriminate. injection Hrs as ->.
  destruct Hcl as (i & Hb). unfold base in Hb. rewrite Z2Nat.id in Hb by lia.
  rewrite !Z.gtb_ltb, (proj2 (Z.ltb_ge _ _)) by lia.
  by rewrite wrap64_id, (proj2 (Z.ltb_ge _ _)) by (unfold int_min, int_max in *; lia).
Qed.

Lemma append_reports_bound k es s c r :
  ainv k es s -> (c < n)%nat -> append_done (d_prog s c) = Some r ->
  Nok r <= count es (Z.of_nat c) <= Nok r + Nmaybe r.
Proof.
  intros H Hc Hr. pose proof (ai_clients _ _ _ H c Hc) as Hcl.
  destruct (d_prog s c) as [| | |r']; try discriminate. injection Hr as ->.
  destruct Hcl as (i & Hb). unfold base in Hb.
  pose proof (next_bounds k es (Z.of_nat c) (ai_ok _ _ _ H) (ai_ord _ _ _ H)). lia.
Qed.
End AppendTest.

(** the append test passes.  [n] clients run [OneClientAppend] against the server,
    from an empty list under "k", in any interleaving of their attempts and with any
    requests and replies lost: no client ever fails, the stored value always decodes
    to a list whose length is the version less one, a client that reports has between
    [Nok] and [Nok + Nmaybe] entries in it, and when all have reported the final
    [CheckAppends] passes. *)
Theorem append_test_passes n kv ls :
  Z.of_nat n <= int_max -> Z.of_nat (length ls) < int_max -> Forall (spawned n) ls ->
  KVServer_data kv !! "k" = Some (mkKeyValue (Marshal (entries_json [])) 1) ->
  exists s es,
    append_run (spawn kv (ASelect 0 0 0)) ls = Ret s /\
    (let got := get_output (d_srv s) "k" in
     GetJson into_entries (KvOutput_Value got) (KvOutput_Version got) (KvOutput_Err got) =
       Ret (es, Z.of_nat (length es) + 1)) /\
    (forall c r, (c < n)%nat -> append_done (d_prog s c) = Some r ->
       Nok r <= count es (Z.of_nat c) <= Nok r + Nmaybe r) /\
    (forall rs, reports n append_done s rs ->
       CheckAppends es n rs (Z.of_nat (length es) + 1) = Ret tt).
Proof.
  intros Hn Hls Hsp Hkv. pose proof (ainv_init n kv Hkv) as H0.
  destruct (append_run_inv n Hn ls _ Hls H0 Hsp) as (s & es & Hs & H).
  exists s, es. split; [done|]. split; [|split].
  - unfold get_output, KVServer_Get. cbn [GetArgs_Key]. rewrite (ai_srv _ _ _ _ H).
    unfold GetJson. cbn -[entries_json Marshal Unmarshal into_entries Z.add Z.of_nat].
    rewrite bool_decide_eq_true_2 by done.
    by rewrite (entries_roundtrip n (Z.of_nat (length ls)) es Hn ltac:(lia) (ai_ok _ _ _ _ H)).
  - intros c r Hc Hr. by eapply append_reports_bound.
  - intros rs Hrs. apply (CheckAppends_ok n Hn (Z.of_nat (length ls)) es s); [lia|done|done].
Qed.

(** Two clients: client 1 gets between client 0's Get and Put; the reply of client 1's
    Put is lost once and it reports one maybe. *)
Definition witness_labels : list dlabel :=
  [DSelect 0 false 0; DSelect 1 false 0; DAttempt 0 Delivered; DAttempt 1 Delivered;
   DAttempt 1 ReplyLost; DAttempt 0 Delivered; DAttempt 1 Delivered; DAttempt 0 ReqLost;
   DAttempt 0 Delivered; DAttempt 0 Delivered; DSelect 0 true 0; DSelect 1 true 0].
Definition witness_server : KVServer := mkKVServer {["k" := mkKeyValue "[]" 1]}.
Definition witness_check (m : outcome (dsys aprog)) : bool :=
  match m with
  | Ret s => bool_decide (append_done (d_prog s 0%nat) = Some (mkClntRes 1 0) /\
                          append_done (d_prog s 1%nat) = Some (mkClntRes 0 1))
  | _ => false
  end.

Lemma append_test_passes_witness :
  exists s es, append_run (spawn witness_server (ASelect 0 0 0)) witness_labels = Ret s /\
    CheckAppends es 2 [mkClntRes 1 0; mkClntRes 0 1] (Z.of_nat (length es) + 1) = Ret tt.
Proof.
  assert (Hc : witness_check (append_run (spawn witness_server (ASelect 0 0 0)) witness_labels) = true)
    by (vm_compute; reflexivity).
  destruct (append_test_passes 2 witness_server witness_labels) as (s & es & Hs & _ & _ & Hck);
    [done|done|by repeat constructor|reflexivity|].
  exists s, es. split; [exact Hs|]. rewrite Hs in Hc. apply bool_decide_eq_true_1 in Hc as [Hc0 Hc1].
  apply Hck. split; [reflexivity|]. intros [|[|c]] r Hr; [| |discriminate Hr];
    injection Hr as <-; assumption.
Defined.
