(* ===== verification/KvPut.v ===== *)
(** The put tests of [kvtest1/kvtest.go] on the server of [kvsrv1]: concurrent clients
    that put to one key ([OneClientPut], [CheckPutConcurrent]), puts spread over many
    keys ([SpreadPutsSize]), one client that puts until it succeeds
    ([PutAtLeastOnce]), and the random values. *)
From S2P Require Import Prelude.
From S2P Require Import Json.
From S2P Require Import KvSrv.
From S2P Require Import KvModel.
From S2P Require Import KvTest.
From stdpp Require Import pretty.
Open Scope Z_scope.

Lemma into_EntryV_json e :
  int_min <= EntryV_Id e <= int_max -> 0 <= EntryV_V e <= uint64_max ->
  (v ← Unmarshal (Marshal (EntryV_json e)); into_EntryV v) = Some e.
Proof.
  destruct e as [i m]. cbn [EntryV_Id EntryV_V]. intros Hi Hm.
  rewrite Unmarshal_Marshal by done. step_bind.
  unfold into_EntryV, EntryV_json, into_struct. cbn [foldl fst snd]. step_bind.
  change (is_field "Id" "Id") with true. change (is_field "Id" "V") with false.
  change (is_field "V" "V") with true. cbv iota. cbn [EntryV_Id EntryV_V].
  rewrite into_int_in by done. step_bind. cbn [EntryV_Id EntryV_V].
  by rewrite into_int_in by done.
Qed.

(** ** Sums over the clients *)

Definition total (f : nat -> Z) (n : nat) : Z := foldr Z.add 0 (f <$> seq 0 n).

Lemma total_S f n : total f (S n) = total f n + f n.
Proof.
  unfold total. rewrite seq_S, fmap_app, foldr_app. simpl. rewrite Z.add_0_r.
  enough (H : forall l x, foldr Z.add x l = foldr Z.add 0 l + x) by apply H.
  induction l as [|y l IH]; intros x; simpl; [lia|]. rewrite IH. lia.
Qed.

Lemma total_insert f n c x :
  (c < n)%nat -> total (<[c := x]> f) n = total f n - f c + x.
Proof.
  assert (Hout : forall m, (m <= c)%nat -> total (<[c := x]> f) m = total f m).
  { induction m as [|m IH]; intros Hm; [done|]. rewrite !total_S, IH, fn_lookup_insert_ne by lia. done. }
  induction n as [|n IH]; [lia|]. intros Hc. rewrite !total_S.
  destruct (decide (c = n)) as [->|Hne].
  - rewrite fn_lookup_insert, Hout by lia. lia.
  - rewrite IH, fn_lookup_insert_ne by lia. lia.
Qed.

Lemma total_le f g n : (forall c, (c < n)%nat -> f c <= g c) -> total f n <= total g n.
Proof.
  induction n as [|n IH]; intros H; [done|]. rewrite !total_S.
  specialize (IH ltac:(intros; apply H; lia)). specialize (H n ltac:(lia)). lia.
Qed.

Lemma total_ext f g n : (forall c, (c < n)%nat -> f c = g c) -> total f n = total g n.
Proof. intros H. apply Z.le_antisymm; apply total_le; intros c Hc; rewrite H; lia. Qed.

Lemma total_add f g n : total (fun c => f c + g c) n = total f n + total g n.
Proof. induction n as [|n IH]; [done|]. rewrite !total_S, IH. lia. Qed.

Lemma total_bound f n m : (forall c, (c < n)%nat -> 0 <= f c <= m) -> 0 <= total f n <= Z.of_nat n * m.
Proof.
  induction n as [|n IH]; intros H; [done|]. rewrite total_S.
  specialize (IH ltac:(intros; apply H; lia)). specialize (H n ltac:(lia)). lia.
Qed.

Lemma total_pos f n c : (forall c, (c < n)%nat -> 0 <= f c) -> (c < n)%nat -> f c <= total f n.
Proof.
  induction n as [|n IH]; intros H Hc; [lia|]. rewrite total_S.
  destruct (decide (c = n)) as [->|].
  - enough (0 <= total f n) by lia. etrans; [|apply total_le; intros d Hd; apply (H d); lia].
    clear. induction n as [|n IH]; [done|]. rewrite total_S. lia.
  - specialize (IH ltac:(intros; apply H; lia) ltac:(lia)). specialize (H n ltac:(lia)). lia.
Qed.

(** ** [OneClientPut] *)

Definition put_step (ka : list string) (randomkeys : bool) : dsys pprog -> dlabel -> outcome (dsys pprog) :=
  dstep put_op put_resume (put_select ka randomkeys).
Definition put_run_clients (ka : list string) (randomkeys : bool)
  : dsys pprog -> list dlabel -> outcome (dsys pprog) :=
  drun put_op put_resume (put_select ka randomkeys).
Definition put_done (p : pprog) : option ClntRes := match p with PDone r => Some r | _ => None end.

(** A network that loses nothing. *)
Definition loss_free (l : dlabel) : Prop :=
  match l with DAttempt _ a => a = Delivered | DSelect _ _ _ => True end.

Section PutTest.
Variables (n : nat) (key : string) (randomkeys reliable : bool).
Hypothesis Hn : Z.of_nat n <= int_max.

Definition label_ok (l : dlabel) : Prop := spawned n l /\ (reliable = true -> loss_free l).

(** The server after [V] executed Puts: the last one's entry, with the version it
    presented. *)
Definition srv_ok (V : Z) (kv : KVServer) : Prop :=
  match KVServer_data kv !! key with
  | None => V = 0
  | Some d => exists i, 0 <= i < Z.of_nat n /\ 1 <= V /\
                d = mkKeyValue (Marshal (EntryV_json (mkEntryV i (V - 1)))) V
  end.

Definition counts (k V : Z) (res : ClntRes) : Prop :=
  0 <= Nok res /\ 0 <= Nmaybe res /\ Nok res + Nmaybe res <= k /\
  (reliable = true -> Nmaybe res = 0) /\ (0 < Nok res + Nmaybe res -> 1 <= V).

(** [a] Puts of the client are executed: between [Nok] and [Nok + Nmaybe], not
    counting the one under way. *)
Definition pclient_ok (k V a : Z) (p : pprog) (first : bool) : Prop :=
  match p with
  | PSelect verm res =>
      counts k V res /\ 0 <= default 0 (verm !! key) <= V /\ Nok res <= a <= Nok res + Nmaybe res
  | PPut verm res k' ver =>
      counts k V res /\ k' = key /\ 0 <= ver <= V /\
      Nok res <= a <= Nok res + Nmaybe res + 1 /\ (reliable = true -> first = true) /\
      (ver = V \/ first = true -> a <= Nok res + Nmaybe res)
  | PGet verm res k' ver err =>
      counts k V res /\ k' = key /\ 0 <= ver < V /\ (reliable = true -> err <> ErrMaybe) /\
      ((err = OK /\ Nok res + 1 <= a <= Nok res + Nmaybe res + 1) \/
       (err = ErrVersion /\ Nok res <= a <= Nok res + Nmaybe res) \/
       (err = ErrMaybe /\ Nok res <= a <= Nok res + Nmaybe res + 1))
  | PDone res => counts k V res /\ Nok res <= a <= Nok res + Nmaybe res
  end.

Record pinv (k V : Z) (a : nat -> Z) (s : dsys pprog) : Prop := {
  pi_srv : srv_ok V (d_srv s);
  pi_total : V = total a n;
  pi_range : 0 <= V <= k;
  pi_clients c : (c < n)%nat -> pclient_ok k V (a c) (d_prog s c) (d_first s c)
}.

Lemma pclient_ok_mono k k' V V' a p first :
  k <= k' -> V <= V' -> pclient_ok k V a p first -> pclient_ok k' V' a p first.
Proof. intros Hk HV. unfold pclient_ok, counts. destruct p; intuition lia. Qed.

(** Client [c] moves; [x] is 1 when its Put is executed. *)
Lemma pinv_move k V a s s' c x :
  pinv k V a s -> (c < n)%nat -> 0 <= x <= 1 -> srv_ok (V + x) (d_srv s') -> others_same c s s' ->
  pclient_ok (k + 1) (V + x) (a c + x) (d_prog s' c) (d_first s' c) ->
  pinv (k + 1) (V + x) (<[c := a c + x]> a) s'.
Proof.
  intros [H1 H2 H3 H4] Hc Hx Hsrv Ho Hcl. split; [done| |lia|].
  - rewrite total_insert by done. lia.
  - intros d Hd. destruct (decide (d = c)) as [->|Hne]; [by rewrite fn_lookup_insert|].
    rewrite fn_lookup_insert_ne by done. destruct (Ho d Hne) as [-> ->].
    eapply pclient_ok_mono; [| |by apply H4]; lia.
Qed.

Lemma pinv_same k V a s : pinv k V a s -> pinv (k + 1) V a s.
Proof.
  intros [H1 H2 H3 H4]. split; [done|done|lia|].
  intros d Hd. eapply pclient_ok_mono; [| |by apply H4]; lia.
Qed.

Lemma pinv_init kv :
  KVServer_data kv !! key = None -> pinv 0 0 (fun _ => 0) (spawn kv (put_init [key])).
Proof.
  intros Hkv. split; simpl.
  - unfold srv_ok. by rewrite Hkv.
  - clear. induction n as [|m IH]; [done|]. rewrite total_S. lia.
  - lia.
  - intros c _. rewrite lookup_insert_eq. unfold counts. simpl. lia.
Qed.

(** An attempt of a Put that presents [ver]. *)
Lemma put_attempt_cases V kv c ver first a :
  srv_ok V kv -> (c < n)%nat -> 0 <= ver <= V -> V < uint64_max ->
  let r := RPut (mkPutArgs key (Marshal (EntryV_json (mkEntryV (Z.of_nat c) ver))) ver) in
  if decide (ver = V) then
    exists kv', srv_ok (V + 1) kv' /\
      one_attempt kv r first a =
        match a with
        | ReqLost => (kv, inr false)
        | ReplyLost => (kv', inr false)
        | Delivered => (kv', inl (mkKvOutput "" 0 OK))
        end
  else
    one_attempt kv r first a =
      (kv, match a with
           | Delivered => inl (mkKvOutput "" 0 (if first then ErrVersion else ErrMaybe))
           | _ => inr false end).
Proof.
  intros Hs Hc Hv HV r. unfold srv_ok in Hs.
  assert (Hput : KVServer_Put kv (mkPutArgs key (Marshal (EntryV_json (mkEntryV (Z.of_nat c) ver))) ver) =
    if decide (ver = V) then
      (mkKVServer (<[key := mkKeyValue (Marshal (EntryV_json (mkEntryV (Z.of_nat c) ver))) (V + 1)]>
         (KVServer_data kv)), mkPutReply OK)
    else (kv, mkPutReply ErrVersion)).
  { unfold KVServer_Put. cbn [PutArgs_Key PutArgs_Version PutArgs_Value].
    destruct (KVServer_data kv !! key) as [d|].
    - destruct Hs as (i & ? & ? & ->). cbn [KeyValue_Version]. rewrite u64_id by lia.
      destruct (Z.eqb_spec ver V); by case_decide.
    - subst V. replace ver with 0 by lia. done. }
  unfold one_attempt, r. cbn [handle]. rewrite Hput. case_decide as Hd.
  - eexists. split; cycle 1; [by destruct a, first|]. unfold srv_ok. cbn [KVServer_data].
    rewrite lookup_insert_eq. exists (Z.of_nat c). split; [lia|]. split; [lia|].
    by replace (V + 1 - 1) with ver by lia.
  - by destruct a, first.
Qed.

(** The Get of a client that has put reads the last executed Put. *)
Lemma put_get V kv c verm res ver err :
  srv_ok V kv -> 0 <= ver < V -> V <= uint64_max ->
  put_resume c (PGet verm res key ver err) (get_output kv key) =
    if bool_decide (err = OK) then
      Ret (PSelect (<[key := V]> verm) (mkClntRes (wrap64 (Nok res + 1)) (Nmaybe res)))
    else if bool_decide (err = ErrMaybe) then
      Ret (PSelect (<[key := V]> verm) (mkClntRes (Nok res) (wrap64 (Nmaybe res + 1))))
    else Ret (PPut verm res key V).
Proof.
  intros Hs Hv HV. unfold srv_ok in Hs. unfold get_output, KVServer_Get. cbn [GetArgs_Key].
  destruct (KVServer_data kv !! key) as [d|]; [|lia]. destruct Hs as (i & Hi & HV1 & ->).
  cbn [GetReply_Value GetReply_Version GetReply_Err KeyValue_Value KeyValue_Version put_resume
    KvOutput_Value KvOutput_Version KvOutput_Err].
  unfold GetJson. rewrite bool_decide_eq_true_2 by done.
  rewrite into_EntryV_json by (unfold int_min in *; simpl; lia). step_bind.
  unfold OnePut_end. cbn [EntryV_V EntryV_Id].
  destruct (bool_decide (err = OK)) eqn:Eo; [|by destruct (bool_decide (err = ErrMaybe))].
  rewrite u64_id by (unfold uint64_max in *; lia). cbn [andb].
  destruct (Z.eqb_spec V (ver + 1)) as [->|]; [|done].
  replace (ver + 1 - 1) with ver by lia. rewrite Z.eqb_refl. cbn [negb]. by rewrite andb_false_r.
Qed.

Ltac solve_pclient :=
  cbn [d_prog d_first]; rewrite ?fn_lookup_insert; unfold pclient_ok, counts in *;
  cbn [Nok Nmaybe]; rewrite ?lookup_insert_eq; cbn [from_option id];
  rewrite ?wrap64_id by (unfold int_min, int_max in *; lia);
  first [lia|intuition (first [lia|congruence|discriminate])
        |intuition (first [lia|discriminate|left; split; [done|lia]
                          |right; left; split; [done|lia]|right; right; split; [done|lia]])].

Lemma put_attempt_put k V a s c at_ verm res k' ver :
  k + 1 < int_max -> pinv k V a s -> (c < n)%nat -> (reliable = true -> at_ = Delivered) ->
  d_prog s c = PPut verm res k' ver ->
  exists s', put_step [key] randomkeys s (DAttempt c at_) = Ret s' /\
    exists V' a', pinv (k + 1) V' a' s'.
Proof.
  intros Hk H Hc Hrel Ep. pose proof (pi_clients _ _ _ _ H c Hc) as Hcl. rewrite Ep in Hcl.
  assert (k' = key) as -> by apply Hcl.
  pose proof (pi_range _ _ _ _ H) as HV.
  pose proof (put_attempt_cases V (d_srv s) c ver (d_first s c) at_ (pi_srv _ _ _ _ H) Hc ltac:(apply Hcl)
    ltac:(unfold int_max, uint64_max in *; lia)) as Hat. cbv zeta in Hat.
  unfold put_step, dstep. rewrite Ep. cbn [put_op]. case_decide as Hd.
  - destruct Hat as (kv' & Hkv' & ->). subst ver. destruct at_; (eexists; split; [done|]).
    + exists (V + 0), (<[c := a c + 0]> a). eapply pinv_move; [done..|lia| |solve_others|].
      * rewrite Z.add_0_r. apply (pi_srv _ _ _ _ H).
      * cbn [d_prog]. rewrite Ep. solve_pclient.
    + exists (V + 1), (<[c := a c + 1]> a). eapply pinv_move; [done..|lia|done|solve_others|].
      cbn [d_prog]. rewrite Ep. solve_pclient.
    + exists (V + 1), (<[c := a c + 1]> a). eapply pinv_move; [done..|lia|done|solve_others|].
      solve_pclient.
  - rewrite Hat. destruct at_; [| |destruct (d_first s c) eqn:Ef]; (eexists; split; [done|]);
      exists (V + 0), (<[c := a c + 0]> a);
      (eapply pinv_move; [done..|lia|rewrite Z.add_0_r; apply (pi_srv _ _ _ _ H)|solve_others|]);
      cbn [d_prog]; rewrite ?Ep; solve_pclient.
Qed.

Lemma put_attempt_get k V a s c at_ verm res k' ver err :
  k + 1 < int_max -> pinv k V a s -> (c < n)%nat -> d_prog s c = PGet verm res k' ver err ->
  exists s', put_step [key] randomkeys s (DAttempt c at_) = Ret s' /\
    exists V' a', pinv (k + 1) V' a' s'.
Proof.
  intros Hk H Hc Ep. pose proof (pi_clients _ _ _ _ H c Hc) as Hcl. rewrite Ep in Hcl.
  assert (k' = key) as -> by apply Hcl. pose proof (pi_range _ _ _ _ H) as HV.
  pose proof (put_get V (d_srv s) c verm res ver err (pi_srv _ _ _ _ H) ltac:(apply Hcl)
    ltac:(unfold int_max, uint64_max in *; lia)) as Hget.
  assert (Hm : forall s', KVServer_data (d_srv s') = KVServer_data (d_srv s) -> others_same c s s' ->
    pclient_ok (k + 1) (V + 0) (a c + 0) (d_prog s' c) (d_first s' c) ->
    exists V' a', pinv (k + 1) V' a' s').
  { intros s' Hkv Ho Hp. exists (V + 0), (<[c := a c + 0]> a). eapply pinv_move; [done..|lia| |done|done].
    rewrite Z.add_0_r. unfold srv_ok. rewrite Hkv. apply (pi_srv _ _ _ _ H). }
  unfold put_step, dstep. rewrite Ep. cbn [put_op].
  destruct at_; cbn [one_attempt handle clerk_iter Clerk_Get_iter mbind option_bind].
  1,2: eexists; split; [done|]; apply Hm; [done|solve_others|]; cbn [d_prog]; rewrite Ep; solve_pclient.
  change (mkKvOutput _ _ _) with (get_output (d_srv s) key). rewrite Hget.
  destruct Hcl as (Hco & _ & Hver & Hrel & [[-> Ha]|[[-> Ha]|[-> Ha]]]);
    (eexists; split; [done|]; apply Hm; [done|solve_others|]);
    solve_pclient.
Qed.

Lemma put_select_key verm res rand :
  put_select [key] randomkeys (PSelect verm res) false rand =
    Some (PPut verm res key (default 0 (verm !! key))).
Proof.
  unfold put_select. simpl. destruct randomkeys; [|done]. by rewrite Z.rem_1_r.
Qed.

Lemma put_step_inv k V a s l :
  k + 1 < int_max -> pinv k V a s -> label_ok l ->
  exists s', put_step [key] randomkeys s l = Ret s' /\ exists V' a', pinv (k + 1) V' a' s'.
Proof.
  intros Hk H [Hl Hrel]. destruct l as [c dn rand|c at_]; simpl in Hl.
  - pose proof (pi_clients _ _ _ _ H c Hl) as Hcl. unfold put_step, dstep.
    destruct (d_prog s c) as [verm res|verm res k' ver|verm res k' ver err|r] eqn:Ep.
    2-4: exists s; split; [done|]; exists V, a; by apply pinv_same.
    pose proof (pi_range _ _ _ _ H) as HV.
    destruct dn; [cbn [put_select]|rewrite put_select_key]; (eexists; split; [done|]);
      exists (V + 0), (<[c := a c + 0]> a);
      (eapply pinv_move; [done..|lia|rewrite Z.add_0_r; apply (pi_srv _ _ _ _ H)|solve_others|]);
      solve_pclient.
  - destruct (d_prog s c) as [verm res|verm res k' ver|verm res k' ver err|r] eqn:Ep.
    + exists s. split; [|exists V, a; by apply pinv_same]. unfold put_step, dstep. by rewrite Ep.
    + by eapply put_attempt_put.
    + by eapply put_attempt_get.
    + exists s. split; [|exists V, a; by apply pinv_same]. unfold put_step, dstep. by rewrite Ep.
Qed.

Lemma put_run_inv ls s :
  Z.of_nat (length ls) < int_max -> pinv 0 0 (fun _ => 0) s -> Forall label_ok ls ->
  exists s' V a, put_run_clients [key] randomkeys s ls = Ret s' /\ pinv (Z.of_nat (length ls)) V a s'.
Proof.
  intros Hk H Hls.
  destruct (drun_invariant put_op put_resume (put_select [key] randomkeys) label_ok
    (fun k s => exists V a, pinv k V a s) (int_max - 1)) with (ls := ls) (k := 0) (s := s)
    as (s' & Hs' & V & a & H'); [|lia|by exists 0, (fun _ => 0)|done|by exists s', V, a].
  intros k s0 l Hk0 (V & a & H0) Hl. eapply put_step_inv; [lia|done|done].
Qed.

(** ** The check of the number of puts *)

Definition result (rs : list ClntRes) (c : nat) : ClntRes := default (mkClntRes 0 0) (rs !! c).
Definition sum_results (f : ClntRes -> Z) (rs : list ClntRes) : Z :=
  total (fun c => f (result rs c)) (length rs).

Lemma sum_results_snoc f rs r : sum_results f (rs ++ [r]) = sum_results f rs + f r.
Proof.
  unfold sum_results. rewrite length_app. simpl. rewrite Nat.add_1_r, total_S. f_equal.
  - apply total_ext. intros c Hc. unfold result. by rewrite lookup_app_l.
  - unfold result. rewrite lookup_app_r by done. by rewrite Nat.sub_diag.
Qed.

Lemma add_results K rs :
  0 <= K -> Z.of_nat (length rs) * K <= int_max ->
  Forall (fun r => 0 <= Nok r /\ 0 <= Nmaybe r /\ Nok r + Nmaybe r <= K) rs ->
  foldl add_res (mkClntRes 0 0) rs = mkClntRes (sum_results Nok rs) (sum_results Nmaybe rs) /\
  0 <= sum_results Nok rs /\ 0 <= sum_results Nmaybe rs /\
  sum_results Nok rs + sum_results Nmaybe rs <= Z.of_nat (length rs) * K.
Proof.
  intros HK. induction rs as [|r rs IH] using rev_ind; intros Hb Hrs; [done|].
  rewrite Forall_app, Forall_singleton in Hrs. destruct Hrs as [Hrs Hr]. rewrite length_app in *.
  cbn [length] in *. rewrite Nat2Z.inj_add, Z.mul_add_distr_r in *.
  destruct IH as (He & H1 & H2 & H3); [lia|done|].
  rewrite foldl_app, He, !sum_results_snoc. simpl. unfold add_res. cbn [Nok Nmaybe].
  rewrite !wrap64_id by (unfold int_min; lia). split; [done|]. lia.
Qed.

Lemma put_reports k V a s rs c :
  pinv k V a s -> reports n put_done s rs -> (c < n)%nat ->
  counts k V (result rs c) /\ Nok (result rs c) <= a c <= Nok (result rs c) + Nmaybe (result rs c).
Proof.
  intros H [Hlen Hrs] Hc. destruct (lookup_lt_is_Some_2 rs c) as [r Hr]; [lia|].
  specialize (Hrs _ _ Hr). pose proof (pi_clients _ _ _ _ H c Hc) as Hcl.
  unfold result. rewrite Hr. cbn [from_option id].
  destruct (d_prog s c); try discriminate. injection Hrs as ->. done.
Qed.

Lemma CheckPutConcurrent_ok k V a s rs :
  Z.of_nat n * k < int_max -> pinv k V a s -> reports n put_done s rs ->
  0 < sum_results Nok rs + sum_results Nmaybe rs ->
  CheckPutConcurrent (get_output (d_srv s) key) rs (mkClntRes 0 0) reliable =
    Ret (mkClntRes (sum_results Nok rs) (sum_results Nmaybe rs)) /\
  (KvOutput_Version (get_output (d_srv s) key) = V /\
   sum_results Nok rs <= V <= sum_results Nok rs + sum_results Nmaybe rs) /\
  (reliable = true -> sum_results Nmaybe rs = 0).
Proof.
  intros Hk H Hrs Hpos. pose proof (pi_range _ _ _ _ H) as HV.
  assert (Hrep := fun c => put_reports k V a s rs c H Hrs). pose proof (proj1 Hrs) as Hlen.
  destruct (add_results k rs) as (Hadd & Hs1 & Hs2 & Hs3); [lia|rewrite Hlen; lia| |].
  { apply Forall_lookup. intros c r Hr. pose proof (lookup_lt_Some _ _ _ Hr) as Hc.
    destruct (Hrep c ltac:(lia)) as [Hco _]. unfold result in Hco. rewrite Hr in Hco.
    unfold counts in Hco. simpl in Hco. lia. }
  rewrite Hlen in Hs3.
  assert (Hsum : sum_results Nok rs <= V <= sum_results Nok rs + sum_results Nmaybe rs).
  { rewrite (pi_total _ _ _ _ H). unfold sum_results. rewrite Hlen, <- total_add.
    split; apply total_le; intros c Hc; apply Hrep, Hc. }
  assert (Hrel : reliable = true -> sum_results Nmaybe rs = 0).
  { intros Hr. unfold sum_results. rewrite Hlen.
    rewrite (total_ext _ (fun _ => 0)); [|intros c Hc; destruct (Hrep c Hc) as [Hco _]; by apply Hco].
    clear. induction n as [|m IH]; [done|]. rewrite total_S. lia. }
  assert (HV1 : 1 <= V).
  { destruct (decide (1 <= V)) as [|HV1]; [done|]. exfalso.
    enough (sum_results Nok rs + sum_results Nmaybe rs <= 0) by lia.
    unfold sum_results. rewrite Hlen, <- total_add, (total_ext _ (fun _ => 0)).
    - clear. induction n as [|m IH]; [done|]. rewrite total_S. lia.
    - intros c Hc. destruct (Hrep c Hc) as [Hco _]. unfold counts in Hco. lia. }
  pose proof (pi_srv _ _ _ _ H) as Hsrv. unfold srv_ok in Hsrv.
  unfold get_output, KVServer_Get. cbn [GetArgs_Key].
  destruct (KVServer_data (d_srv s) !! key) as [d|]; [|lia].
  destruct Hsrv as (i & Hi & _ & ->).
  cbn [GetReply_Value GetReply_Version GetReply_Err KeyValue_Value KeyValue_Version
    KvOutput_Value KvOutput_Version KvOutput_Err].
  split; [|by split].
  unfold CheckPutConcurrent, GetJson. cbn [KvOutput_Value KvOutput_Version KvOutput_Err].
  rewrite bool_decide_eq_true_2 by done.
  rewrite into_EntryV_json by (unfold int_min, int_max, uint64_max in *; simpl; lia). step_bind.
  rewrite Hadd. cbn [Nok Nmaybe].
  rewrite wrap64_id, !u64_id by (unfold int_min, int_max, uint64_max in *; lia).
  destruct reliable.
  - rewrite Hrel in Hsum by done. by rewrite (proj2 (Z.eqb_eq _ _)) by lia.
  - by rewrite Z.gtb_ltb, (proj2 (Z.ltb_ge _ _)) by lia.
Qed.
End PutTest.

(** the put test passes.  [n] clients run [OneClientPut] on one fresh key, in any
    interleaving of their attempts over a network that may lose requests and replies:
    no client ever fails, and when all have reported at least one put the final
    [CheckPutConcurrent] passes; the server's version lies between the sum of the
    [Nok] and that of [Nok + Nmaybe], and over a network that loses nothing no put is
    a maybe, so that the version is exactly the number of acknowledged puts. *)
Theorem put_test_passes n key randomkeys reliable kv ls :
  Z.of_nat n <= int_max -> Z.of_nat (length ls) < int_max ->
  Z.of_nat n * Z.of_nat (length ls) < int_max ->
  Forall (fun l => spawned n l /\ (reliable = true -> loss_free l)) ls ->
  KVServer_data kv !! key = None ->
  exists s,
    put_run_clients [key] randomkeys (spawn kv (put_init [key])) ls = Ret s /\
    forall rs, reports n put_done s rs -> 0 < sum_results Nok rs + sum_results Nmaybe rs ->
      let got := get_output (d_srv s) key in
      CheckPutConcurrent got rs (mkClntRes 0 0) reliable =
        Ret (mkClntRes (sum_results Nok rs) (sum_results Nmaybe rs)) /\
      sum_results Nok rs <= KvOutput_Version got <= sum_results Nok rs + sum_results Nmaybe rs /\
      (reliable = true -> sum_results Nmaybe rs = 0).
Proof.
  intros Hn Hls Hk Hl Hkv.
  destruct (put_run_inv n key randomkeys reliable Hn ls _ Hls (pinv_init n key reliable kv Hkv) Hl)
    as (s & V & a & Hs & H).
  exists s. split; [done|]. intros rs Hrs Hpos got.
  destruct (CheckPutConcurrent_ok n key reliable Hn _ V a s rs Hk H Hrs Hpos) as (Hc & [Hv ?] & ?).
  subst got. split; [done|]. split; [lia|done].
Qed.

(** Two clients; client 1 loses a reply and must count a maybe. *)
Definition put_witness_labels : list dlabel :=
  [DSelect 0 false 0; DSelect 1 false 0; DAttempt 0 Delivered; DAttempt 1 Delivered;
   DAttempt 0 Delivered; DAttempt 1 ReqLost; DAttempt 1 Delivered; DAttempt 1 ReplyLost;
   DAttempt 1 Delivered; DAttempt 1 Delivered; DSelect 0 true 0; DSelect 1 true 0].
Definition put_witness_check (m : outcome (dsys pprog)) : bool :=
  match m with
  | Ret s => bool_decide (put_done (d_prog s 0%nat) = Some (mkClntRes 1 0) /\
                          put_done (d_prog s 1%nat) = Some (mkClntRes 0 1))
  | _ => false
  end.

Lemma put_test_passes_witness :
  exists s, put_run_clients ["k"] false (spawn MakeKVServer (put_init ["k"])) put_witness_labels = Ret s /\
    CheckPutConcurrent (get_output (d_srv s) "k") [mkClntRes 1 0; mkClntRes 0 1] (mkClntRes 0 0) false =
      Ret (mkClntRes 1 1).
Proof.
  assert (Hc : put_witness_check (put_run_clients ["k"] false (spawn MakeKVServer (put_init ["k"]))
    put_witness_labels) = true) by (vm_compute; reflexivity).
  destruct (put_test_passes 2 "k" false false MakeKVServer put_witness_labels) as (s & Hs & Hck);
    [done|done|done|by repeat constructor|reflexivity|].
  exists s. split; [exact Hs|]. rewrite Hs in Hc. apply bool_decide_eq_true_1 in Hc as [Hc0 Hc1].
  apply (Hck [mkClntRes 1 0; mkClntRes 0 1]); [|reflexivity].
  split; [reflexivity|]. intros [|[|c]] r Hr; [| |discriminate Hr]; injection Hr as <-; assumption.
Defined.

(** ** Random values and keys *)

(** the random values: any sequence of non-negative random numbers gives one byte
    each, never an index out of range, and every byte is a letter. *)
Theorem RandValue_bounds draws :
  Forall (fun r => 0 <= r <= int_max) draws ->
  exists s, RandValue draws = Ret s /\ String.length s = length draws /\
    Forall (fun c => c ∈ String.list_ascii_of_string letterBytes) (String.list_ascii_of_string s).
Proof.
  induction 1 as [|r draws Hr _ (s & Hs & Hlen & Hall)]; [by exists EmptyString|].
  cbn [RandValue]. unfold at_.
  destruct (lookup_lt_is_Some_2 (String.list_ascii_of_string letterBytes)
    (Z.to_nat (Z.rem r (Z.of_nat (String.length letterBytes))))) as [c Hc].
  { change (length (String.list_ascii_of_string letterBytes)) with 52%nat.
    change (Z.of_nat (String.length letterBytes)) with 52.
    pose proof (Z.rem_bound_pos r 52 ltac:(lia) ltac:(lia)). lia. }
  rewrite Hc. step_bind. rewrite Hs. exists (String c s). split; [done|]. simpl.
  split; [by rewrite Hlen|]. constructor; [by eapply list_elem_of_lookup_2|done].
Qed.

Lemma RandValue_bounds_witness :
  RandValue [0; 51; 52] = Ret "aZa" /\ exists s, RandValue [0; 51; 52] = Ret s /\ String.length s = 3%nat.
Proof.
  split; [reflexivity|].
  destruct (RandValue_bounds [0; 51; 52]) as (s & Hs & Hl & _); [by repeat constructor|].
  by exists s.
Defined.

Lemma MakeKeys_NoDup n : NoDup (MakeKeys n).
Proof.
  unfold MakeKeys. apply NoDup_fmap_2; [|apply NoDup_range].
  intros i j H. injection H as H. by apply pretty_Z_inj in H.
Qed.

(** ** [SpreadPutsSize] *)

(** Rounds of attempts that end with a reply. *)
Definition replied (atts : list attempt) : Prop := exists u, undelivered u /\ atts = u ++ [Delivered].

Lemma spread_puts_ok kvs : forall b kv net,
  0 <= b -> b + Z.of_nat (length kvs) < uint64_max -> kv_wf b kv ->
  NoDup kvs.*1 -> (forall k, k ∈ kvs.*1 -> kv_view kv k = None) ->
  length net = length kvs -> Forall replied net ->
  exists kv', spread_puts kv kvs net = Ret kv' /\ kv_wf (b + Z.of_nat (length kvs)) kv' /\
    (forall k v, (k, v) ∈ kvs -> kv_view kv' k = Some (v, 1)) /\
    (forall k, k ∉ kvs.*1 -> kv_view kv' k = kv_view kv k).
Proof.
  induction kvs as [|[k v] kvs IH]; intros b kv net Hb0 Hb Hwf Hnd Hnone Hlen Hnet.
  - exists kv. rewrite Z.add_0_r. split; [done|]. split; [done|]. set_solver.
  - destruct net as [|atts net]; [done|]. apply Forall_cons in Hnet as [(u & Hu & ->) Hnet].
    cbn [length fmap list_fmap fst] in *. apply NoDup_cons in Hnd as [Hk Hnd].
    assert (Hv : kv_view kv k = None) by (apply Hnone; set_solver).
    destruct (put_run_current b kv (mkPutArgs k v 0) u true) as [Hrun Hview];
      [lia|done|done|by cbn [PutArgs_Key]; rewrite Hv|].
    pose proof (Put_frame kv (mkPutArgs k v 0)) as Hfr. cbn [PutArgs_Key PutArgs_Value PutArgs_Version] in *.
    destruct (IH (b + 1) (KVServer_Put kv (mkPutArgs k v 0)).1 net) as (kv' & Hkv' & Hwf' & Hin & Hout);
      [lia|lia|by apply kv_wf_put; [lia|]|done| |lia|done|].
    { intros k' Hk'. rewrite Hfr by set_solver. apply Hnone. set_solver. }
    exists kv'. split; [|split; [|split]].
    + cbn [spread_puts]. unfold clerk_put. rewrite Hrun. step_bind. done.
    + by replace (b + Z.of_nat (S (length kvs))) with (b + 1 + Z.of_nat (length kvs)) by lia.
    + intros k' v' [[= -> ->]|H']%elem_of_cons; [|by apply Hin]. by rewrite Hout.
    + intros k' Hk'. rewrite Hout, Hfr by set_solver. done.
Qed.

Lemma CheckGet_view kv k v ver :
  kv_view kv k = Some (v, ver) -> CheckGet kv k v ver = Ret tt.
Proof.
  unfold kv_view, CheckGet, get_output, KVServer_Get. cbn [GetArgs_Key].
  destruct (KVServer_data kv !! k) as [[v' ver']|]; simpl; [|done]. intros [= -> ->].
  rewrite !bool_decide_eq_true_2 by done. by rewrite Z.eqb_refl.
Qed.

(** puts spread over many keys.  On a store that holds none of the keys, over a
    network that loses any finite number of requests and replies of every Put,
    [SpreadPutsSize] passes its checks: it returns the keys and values, every key then
    holds its value with version 1, and no other key is touched. *)
Theorem SpreadPutsSize_passes b kv va net :
  0 <= b -> b + Z.of_nat (length va) < uint64_max -> kv_wf b kv ->
  (forall k, k ∈ MakeKeys (length va) -> kv_view kv k = None) ->
  length net = length va -> Forall replied net ->
  exists kv', SpreadPutsSize kv va net = Ret (kv', (MakeKeys (length va), va)) /\
    (forall i k v, MakeKeys (length va) !! i = Some k -> va !! i = Some v ->
       kv_view kv' k = Some (v, 1)) /\
    (forall k, k ∉ MakeKeys (length va) -> kv_view kv' k = kv_view kv k).
Proof.
  intros Hb0 Hb Hwf Hnone Hlen Hnet.
  assert (Hl : length (MakeKeys (length va)) = length va)
    by (unfold MakeKeys, range; by rewrite !length_fmap, length_seq).
  assert (Hfst : (zip (MakeKeys (length va)) va).*1 = MakeKeys (length va)) by (apply fst_zip; lia).
  assert (Hz : length (zip (MakeKeys (length va)) va) = length va) by (rewrite length_zip_with; lia).
  destruct (spread_puts_ok (zip (MakeKeys (length va)) va) b kv net) as (kv' & Hrun & _ & Hin & Hout);
    rewrite ?Hfst, ?Hz; [lia|lia|done|apply MakeKeys_NoDup|done|done|done|].
  exists kv'. split; [|split].
  - unfold SpreadPutsSize. rewrite Hrun. step_bind.
    rewrite (foldM_foldl _ (fun _ _ => tt)); [done|].
    intros [] [k v] Hkv. cbn [fst snd]. by rewrite (CheckGet_view _ _ _ _ (Hin k v Hkv)).
  - intros i k v Hk Hv. apply Hin, list_elem_of_lookup. exists i.
    rewrite lookup_zip_with, Hk. step_bind. by rewrite Hv.
  - intros k Hk. apply Hout. by rewrite Hfst.
Qed.

Lemma SpreadPutsSize_passes_witness :
  SpreadPutsSize MakeKVServer ["x"; "y"] [[ReplyLost; Delivered]; [ReqLost; Delivered]] =
    Ret (mkKVServer {["k0" := mkKeyValue "x" 1; "k1" := mkKeyValue "y" 1]}, (["k0"; "k1"], ["x"; "y"])) /\
  exists kv', kv_view kv' "k1" = Some ("y", 1) /\
    SpreadPutsSize MakeKVServer ["x"; "y"] [[ReplyLost; Delivered]; [ReqLost; Delivered]] =
      Ret (kv', (["k0"; "k1"], ["x"; "y"])).
Proof.
  split; [vm_compute; reflexivity|].
  destruct (SpreadPutsSize_passes 0 MakeKVServer ["x"; "y"] [[ReplyLost; Delivered]; [ReqLost; Delivered]])
    as (kv' & Hrun & Hview & _); [lia|reflexivity|apply kv_wf_init|reflexivity|reflexivity| |].
  - constructor; [exists [ReplyLost]; split; [repeat constructor; discriminate|reflexivity]|].
    constructor; [exists [ReqLost]; split; [repeat constructor; discriminate|reflexivity]|constructor].
  - exists kv'. split; [apply (Hview 1%nat); reflexivity|exact Hrun].
Defined.

(** ** [PutAtLeastOnce] *)

(** Rounds in which the Put is executed and its reply is lost. *)
Definition lost_reply (atts : list attempt) : Prop :=
  exists u, undelivered u /\ ReplyLost ∈ u /\ atts = u ++ [Delivered].
Definition clean (atts : list attempt) : Prop :=
  exists u, undelivered u /\ ReplyLost ∉ u /\ atts = u ++ [Delivered].

Lemma clerk_put_current b kv k v ver u :
  0 <= b < uint64_max -> kv_wf b kv -> undelivered u -> ver = cur_version (kv_view kv k) ->
  exists kv', clerk_put kv k v ver (u ++ [Delivered]) =
    Ret (kv', if bool_decide (ReplyLost ∈ u) then ErrMaybe else OK) /\
    kv_wf (b + 1) kv' /\ kv_view kv' k = Some (v, ver + 1) /\
    (forall k', k' <> k -> kv_view kv' k' = kv_view kv k') /\ 0 <= ver <= b.
Proof.
  intros Hb Hwf Hu Hv. exists (KVServer_Put kv (mkPutArgs k v ver)).1.
  destruct (put_run_current b kv (mkPutArgs k v ver) u true) as [Hrun Hview]; [done..|].
  cbn [PutArgs_Key PutArgs_Value PutArgs_Version] in *.
  split; [unfold clerk_put; by rewrite Hrun|]. split; [by apply kv_wf_put|]. split; [done|].
  split; [intros k' Hk'; by apply Put_frame|].
  rewrite Hv. unfold kv_view. destruct (KVServer_data kv !! k) as [d|] eqn:Hd; simpl; [|lia].
  specialize (Hwf _ _ Hd). simpl in Hwf. lia.
Qed.

Lemma PutAtLeastOnce_current k v lost : forall b kv ver last rest,
  0 <= b -> b + Z.of_nat (length lost) < uint64_max -> kv_wf b kv -> ver = cur_version (kv_view kv k) ->
  Forall lost_reply lost -> clean last ->
  exists kv', PutAtLeastOnce kv k v ver (lost ++ last :: rest) =
      Ret (kv', ver + Z.of_nat (length lost) + 1) /\
    kv_view kv' k = Some (v, ver + Z.of_nat (length lost) + 1) /\
    (forall k', k' <> k -> kv_view kv' k' = kv_view kv k').
Proof.
  induction lost as [|atts lost IH]; intros b kv ver last rest Hb0 Hb Hwf Hv Hlost Hlast.
  - destruct Hlast as (u & Hu & Hn & ->). cbn [length] in *.
    destruct (clerk_put_current b kv k v ver u) as (kv' & Hrun & _ & Hview & Hfr & Hle); [lia|done..|].
    exists kv'. cbn [app PutAtLeastOnce]. rewrite Hrun, bool_decide_eq_false_2 by done. step_bind.
    rewrite bool_decide_eq_true_2 by done. rewrite Z.add_0_r.
    by rewrite u64_id by (simpl in Hb; lia).
  - apply Forall_cons in Hlost as [(u & Hu & Hin & ->) Hlost]. cbn [length] in *.
    destruct (clerk_put_current b kv k v ver u) as (kv1 & Hrun & Hwf1 & Hview & Hfr & Hle); [lia|done..|].
    destruct (IH (b + 1) kv1 (ver + 1) last rest) as (kv' & Hrun' & Hview' & Hfr');
      [lia|lia|done|by rewrite Hview|done|done|].
    exists kv'. cbn [app PutAtLeastOnce]. rewrite Hrun, bool_decide_eq_true_2 by done. step_bind.
    rewrite bool_decide_eq_false_2, bool_decide_eq_true_2 by (done || by left).
    rewrite u64_id by lia. rewrite Hrun'.
    replace (ver + 1 + Z.of_nat (length lost) + 1) with (ver + Z.of_nat (S (length lost)) + 1) in * by lia.
    split; [done|]. split; [done|]. intros k' Hk'. by rewrite Hfr', Hfr.
Qed.

(** A round that presents an old version of a present key. *)
Lemma clerk_put_old kv k v ver x V atts :
  kv_view kv k = Some (x, V) -> ver <> V -> replied atts ->
  exists e, clerk_put kv k v ver atts = Ret (kv, e) /\ (e = ErrMaybe \/ e = ErrVersion).
Proof.
  intros Hk Hv (u & Hu & ->). unfold clerk_put.
  rewrite put_run_stale; [|done|cbn [PutArgs_Key PutArgs_Version]; by rewrite Hk].
  cbn [PutArgs_Key]. rewrite Hk. eexists. split; [done|]. destruct (_ && _); auto.
Qed.

(** [PutAtLeastOnce] ends and reports the truth.  Alone on its key, with a presented
    version not above the current one: each round with an old version raises it by one,
    each round whose executed Put lost its reply puts once more, and the first round
    whose Put is known to be executed ends the call; the value is then installed with
    exactly the returned version and no other key is touched. *)
Theorem PutAtLeastOnce_spec b kv k v ver old lost last rest :
  0 <= b -> b + Z.of_nat (length lost) < uint64_max -> kv_wf b kv ->
  0 <= ver -> ver + Z.of_nat (length old) = cur_version (kv_view kv k) ->
  Forall replied old -> Forall lost_reply lost -> clean last ->
  let ver' := ver + Z.of_nat (length old) + Z.of_nat (length lost) + 1 in
  exists kv', PutAtLeastOnce kv k v ver (old ++ lost ++ last :: rest) = Ret (kv', ver') /\
    kv_view kv' k = Some (v, ver') /\ (forall k', k' <> k -> kv_view kv' k' = kv_view kv k').
Proof.
  intros Hb0 Hb Hwf. revert ver.
  induction old as [|atts old IH]; intros ver Hver Hcur Hold Hlost Hlast ver'; cbn [length app] in *.
  - subst ver'. rewrite Z.add_0_r in *. by apply (PutAtLeastOnce_current k v lost b).
  - apply Forall_cons in Hold as [Ho Hold].
    destruct (kv_view kv k) as [[x V]|] eqn:Hk; cbn [cur_version] in Hcur; [|lia].
    destruct (clerk_put_old kv k v ver x V atts Hk ltac:(lia) Ho) as (e & Hrun & He).
    assert (Hle : V <= b).
    { unfold kv_view in Hk. destruct (KVServer_data kv !! k) as [d|] eqn:Hd; [|discriminate].
      specialize (Hwf _ _ Hd). injection Hk as <- <-. simpl in Hwf. lia. }
    destruct (IH (ver + 1)) as (kv' & H1 & H2 & H3); [lia|simpl; lia|done..|].
    exists kv'. subst ver'.
    replace (ver + Z.of_nat (S (length old))) with (ver + 1 + Z.of_nat (length old)) by lia.
    split; [|by split]. cbn [PutAtLeastOnce]. rewrite Hrun. step_bind.
    rewrite bool_decide_eq_false_2 by (destruct He as [-> | ->]; done).
    rewrite bool_decide_eq_true_2 by done. by rewrite u64_id by lia.
Qed.

Lemma PutAtLeastOnce_spec_witness :
  let kv := mkKVServer {["a" := mkKeyValue "0" 1]} in
  exists kv', PutAtLeastOnce kv "a" "1" 0 ([[Delivered]] ++ [[ReplyLost; Delivered]] ++ [[ReqLost; Delivered]]) =
      Ret (kv', 3) /\ kv_view kv' "a" = Some ("1", 3).
Proof.
  intros kv.
  destruct (PutAtLeastOnce_spec 1 kv "a" "1" 0 [[Delivered]] [[ReplyLost; Delivered]] [ReqLost; Delivered] [])
    as (kv' & H1 & H2 & _); [lia|reflexivity| |lia|reflexivity|..].
  - intros k d Hd. unfold kv in Hd. simpl in Hd. apply lookup_singleton_Some in Hd as [_ <-]. simpl. lia.
  - constructor; [exists []; split; [constructor|reflexivity]|constructor].
  - constructor; [|constructor]. exists [ReplyLost].
    split; [repeat constructor; discriminate|]. split; [apply list_elem_of_here|reflexivity].
  - exists [ReqLost]. split; [repeat constructor; discriminate|]. split; [|reflexivity].
    intros Hx%list_elem_of_singleton. discriminate.
  - exists kv'. split; [exact H1|exact H2].
Defined.

(** [PutAtLeastOnceJson] presents version 0 whatever version it is given: on a present
    key it never puts the value, and returns. *)
Lemma PutAtLeastOnceJson_present_key kv k v ver x V rest :
  kv_view kv k = Some (x, V) -> V <> 0 ->
  PutAtLeastOnceJson kv k v ver ([Delivered] :: rest) = Ret (kv, ver).
Proof.
  intros Hk HV. cbn [PutAtLeastOnceJson]. unfold clerk_put.
  change [Delivered] with ([] ++ [Delivered]).
  rewrite put_run_stale; [|constructor|cbn [PutArgs_Key PutArgs_Version]; rewrite Hk; simpl; lia].
  cbn [PutArgs_Key]. by rewrite Hk.
Qed.
