(* ===== verification/Lock.v ===== *)
(** The lock of [kvsrv1/lock/lock.go], built on any implementation of the
    [VersionedKV] interface through the clerk's retry loops: client programs
    as state machines whose steps are single RPC attempts, and mutual
    exclusion over a network that loses requests and replies. *)
From S2P Require Import Prelude.
From S2P Require Import KvSrv.

Section Lock.
Context {St : Type} `{VersionedKV St}.

(** The lock's key ([Lock.l]) and each client's [Lock.clientId], which
    [MakeLock] draws at random. *)
Variable l : string.
Variable clientId : nat -> string.

(** Where a client is inside [Acquire] and [Release].  The [ver] of a pending
    Put is the version its preceding Get returned. *)
Inductive pc :=
| Idle
| AcqGet
| AcqPut (ver : Tversion) (isFirstAttempt : bool)
| Held
| RelGet
| RelPut (ver : Tversion) (isFirstAttempt : bool).

(** [Acquire], lines after the Get: put our id if the lock is free or already
    ours, else sleep and read again. *)
Definition acquire_after_get (c : nat) (res : string * Tversion * Err) : pc :=
  let '(currentValue, currentVersion, _) := res in
  if bool_decide (currentValue = ""%string) || bool_decide (currentValue = clientId c)
  then AcqPut currentVersion true
  else AcqGet.

(** [Acquire], after the Put returned. *)
Definition acquire_after_put (putErr : Err) : pc :=
  if bool_decide (putErr = OK) then Held else AcqGet.

(** [Release], after the Get: give up the lock only if it is ours. *)
Definition release_after_get (c : nat) (res : string * Tversion * Err) : pc :=
  let '(currentValue, currentVersion, _) := res in
  if bool_decide (currentValue = clientId c) then RelPut currentVersion true else Idle.

(** One attempt of the clerk's Put loop: the store afterwards, and where the
    client goes ([again] while the loop retries). *)
Definition put_attempt (s : St) (value : string) (ver : Tversion) (first : bool) (a : attempt)
    (again : bool -> pc) (done : Err -> pc) : St * pc :=
  let '(s', call) :=
    match a with
    | ReqLost => (s, None)
    | ReplyLost => ((vkv_put s l value ver).1, None)
    | Delivered => let '(s', err) := vkv_put s l value ver in (s', Some (mkPutReply err))
    end in
  match Clerk_Put_iter first call with
  | inl err => (s', done err)
  | inr first' => (s', again first')
  end.

(** One attempt of the clerk's Get loop. *)
Definition get_attempt (s : St) (a : attempt) (again : pc)
    (done : string * Tversion * Err -> pc) : pc :=
  match a with
  | Delivered => done (vkv_get s l)
  | _ => again
  end.

Record lsys := mkLsys { ls_store : St; ls_pc : nat -> pc }.

Definition lsys_init : lsys := mkLsys vkv_init (fun _ => Idle).

Inductive llabel :=
| CallAcquire (c : nat)
| CallRelease (c : nat)
| Net (c : nat) (a : attempt).

Definition lstep (s : lsys) (lab : llabel) : option lsys :=
  match lab with
  | CallAcquire c =>
      match ls_pc s c with
      | Idle => Some (mkLsys (ls_store s) (<[c := AcqGet]> (ls_pc s)))
      | _ => None
      end
  | CallRelease c =>
      match ls_pc s c with
      | Idle | Held => Some (mkLsys (ls_store s) (<[c := RelGet]> (ls_pc s)))
      | _ => None
      end
  | Net c a =>
      match ls_pc s c with
      | AcqGet =>
          Some (mkLsys (ls_store s)
                  (<[c := get_attempt (ls_store s) a AcqGet (acquire_after_get c)]> (ls_pc s)))
      | AcqPut ver first =>
          let '(st', p) :=
            put_attempt (ls_store s) (clientId c) ver first a (AcqPut ver) acquire_after_put in
          Some (mkLsys st' (<[c := p]> (ls_pc s)))
      | RelGet =>
          Some (mkLsys (ls_store s)
                  (<[c := get_attempt (ls_store s) a RelGet (release_after_get c)]> (ls_pc s)))
      | RelPut ver first =>
          let '(st', p) :=
            put_attempt (ls_store s) "" ver first a (RelPut ver) (fun _ => Idle) in
          Some (mkLsys st' (<[c := p]> (ls_pc s)))
      | Idle | Held => None
      end
  end.

Fixpoint lrun (s : lsys) (labs : list llabel) : option lsys :=
  match labs with
  | [] => Some s
  | lab :: labs' => s' ← lstep s lab; lrun s' labs'
  end.

(** ** The invariant *)

Definition held_value (s : St) : string := cur_value (vkv_view s l).
Definition held_version (s : St) : Tversion := cur_version (vkv_view s l).

Definition pc_ok (s : St) (c : nat) (p : pc) : Prop :=
  match p with
  | Idle | AcqGet | RelGet => True
  | Held => held_value s = clientId c
  | AcqPut ver _ =>
      ver <= held_version s /\
      (ver = held_version s -> held_value s = ""%string \/ held_value s = clientId c)
  | RelPut ver _ =>
      ver <= held_version s /\ (ver = held_version s -> held_value s = clientId c)
  end.

Definition linv (n : nat) (s : lsys) : Prop :=
  0 <= held_version (ls_store s) <= Z.of_nat n /\
  forall c, pc_ok (ls_store s) c (ls_pc s c).

Hypothesis clientId_inj : forall c d, clientId c = clientId d -> c = d.
Hypothesis clientId_nonempty : forall c, clientId c <> ""%string.

(** What a Put by client [c] that read a free or own lock may do. *)
Definition may_put (s : St) (c : nat) (ver : Tversion) : Prop :=
  ver = held_version s -> held_value s = ""%string \/ held_value s = clientId c.

Lemma put_effect n s x ver :
  0 <= held_version s <= Z.of_nat n -> Z.of_nat n < uint64_max ->
  let s' := (vkv_put s l x ver).1 in
  ((vkv_put s l x ver).2 = OK /\ ver = held_version s /\ held_value s' = x /\
     held_version s' = held_version s + 1) \/
  ((vkv_put s l x ver).2 <> OK /\ s' = s).
Proof.
  intros Hv Hn. simpl. destruct (decide ((vkv_put s l x ver).2 = OK)) as [Hok|Hok].
  - left. pose proof (proj1 (vkv_put_ok _ _ _ _) Hok) as Hver.
    pose proof (vkv_put_view _ _ _ _ Hok) as Hview. unfold held_value, held_version in *. rewrite Hview. simpl.
    rewrite u64_id by lia. repeat split; try done; lia.
  - right. split; [done|]. by apply vkv_put_fail.
Qed.

(** A successful Put by [c] leaves every other client's knowledge true. *)
Lemma pc_ok_put n s c d x ver :
  0 <= held_version s <= Z.of_nat n -> Z.of_nat n < uint64_max ->
  d <> c -> may_put s c ver ->
  forall p, pc_ok s d p -> pc_ok (vkv_put s l x ver).1 d p.
Proof.
  intros Hv Hn Hne Hmay p Hp.
  destruct (put_effect n s x ver Hv Hn) as [(_ & -> & Hval & Hver) | [_ ->]]; [|done].
  destruct p as [| |v first| | |v first]; simpl in *; try done.
  - rewrite Hver. split; [lia|]. lia.
  - destruct (Hmay eq_refl) as [He|He]; rewrite Hp in He.
    + by apply clientId_nonempty in He.
    + by apply clientId_inj in He.
  - rewrite Hver. split; [lia|]. lia.
Qed.

Lemma linv_local n s c p :
  linv n s -> pc_ok (ls_store s) c p ->
  linv (S n) (mkLsys (ls_store s) (<[c := p]> (ls_pc s))).
Proof.
  intros [Hv Hpc] Hp. split; [simpl in *; lia|]. intros d. simpl.
  destruct (decide (d = c)) as [->|Hd]; [by rewrite fn_lookup_insert|rewrite fn_lookup_insert_ne by done; apply Hpc].
Qed.

(** The effect on the invariant of one attempt of a Put. *)
Lemma linv_put n s c x ver first a again done st' p :
  Z.of_nat n < uint64_max -> linv n s -> may_put (ls_store s) c ver ->
  put_attempt (ls_store s) x ver first a again done = (st', p) ->
  (forall st, (st = ls_store s \/ held_version (ls_store s) < held_version st) ->
     forall f, pc_ok st c (again f)) ->
  (forall err, err <> OK -> forall st, pc_ok st c (done err)) ->
  (forall st, held_value st = x -> pc_ok st c (done OK)) ->
  linv (S n) (mkLsys st' (<[c := p]> (ls_pc s))).
Proof.
  intros Hn [Hv Hpc] Hmay Hput Hagain Herr Hok.
  destruct (put_effect n (ls_store s) x ver Hv Hn) as
    [(Hres & Hver & Hval & Hver') | [Hres Hsame]].
  - assert (Hst : st' = ls_store s /\ p = again false \/
                  st' = (vkv_put (ls_store s) l x ver).1 /\ (p = again false \/ p = done OK)).
    { unfold put_attempt in Hput. destruct a; simpl in Hput.
      - injection Hput as <- <-. by left.
      - injection Hput as <- <-. right. split; [done|by left].
      - destruct (vkv_put (ls_store s) l x ver) as [st2 err]; simpl in *. subst err.
        injection Hput as <- <-. right. split; [done|by right]. }
    destruct Hst as [[-> ->]|[-> Hp]].
    + apply linv_local; [done|]. apply Hagain. by left.
    + split; [simpl; lia|]. intros d. simpl. destruct (decide (d = c)) as [->|Hd].
      * rewrite fn_lookup_insert. destruct Hp as [-> | ->]; [|by apply Hok].
        apply Hagain. right. lia.
      * rewrite fn_lookup_insert_ne by done. by apply (pc_ok_put n _ c).
  - assert (Hst : st' = ls_store s /\ (p = again false \/ exists err, err <> OK /\ p = done err)).
    { unfold put_attempt in Hput. destruct a.
      - injection Hput as <- <-. auto.
      - injection Hput as <- <-. auto.
      - destruct (vkv_put (ls_store s) l x ver) as [st2 err]. simpl in Hres, Hsame. subst st2.
        rewrite Clerk_Put_iter_reply in Hput. injection Hput as <- <-. split; [done|right].
        eexists. split; [|done]. unfold put_answer. by case_decide. }
    destruct Hst as [-> Hp]. apply linv_local; [done|].
    destruct Hp as [->|(err & Herr' & ->)]; [apply Hagain; by left|by apply Herr].
Qed.

Lemma get_result s : exists err, vkv_get s l = (held_value s, held_version s, err).
Proof.
  pose proof (vkv_get_view s l) as Hg. destruct (vkv_get s l) as [[x v] e]. simpl in Hg.
  injection Hg as -> ->. by exists e.
Qed.

Lemma lstep_inv n s lab s' :
  Z.of_nat n < uint64_max -> linv n s -> lstep s lab = Some s' -> linv (S n) s'.
Proof.
  intros Hn Hinv Hstep. pose proof Hinv as [Hv Hpc].
  destruct lab as [c|c|c a]; simpl in Hstep; specialize (Hpc c);
    destruct (ls_pc s c) as [| |ver first| | |ver first] eqn:Ep; simplify_eq;
    try (by apply linv_local).
  - (* Acquire: Get *)
    apply linv_local; [done|]. destruct a; try done. simpl.
    destruct (get_result (ls_store s)) as [e ->]. simpl.
    repeat case_bool_decide; simpl; try done; split; try lia; auto.
  - (* Acquire: Put *)
    destruct (put_attempt _ _ _ _ _ _ _) as [st' p] eqn:E. simplify_eq.
    simpl in Hpc. destruct Hpc as [Hle Hmay].
    eapply linv_put; [done|done|exact Hmay|exact E| | |].
    + intros st [->|Hlt] f; simpl; [done|]. split; lia.
    + intros err Herr st. unfold acquire_after_put. by rewrite bool_decide_eq_false_2.
    + intros st Hst. unfold acquire_after_put. by rewrite bool_decide_eq_true_2.
  - (* Release: Get *)
    apply linv_local; [done|]. destruct a; try done. simpl.
    destruct (get_result (ls_store s)) as [e ->]. simpl.
    case_bool_decide; simpl; try done; split; try lia; auto.
  - (* Release: Put *)
    destruct (put_attempt _ _ _ _ _ _ _) as [st' p] eqn:E. simplify_eq.
    simpl in Hpc. destruct Hpc as [Hle Hmay].
    eapply linv_put; [done|done| |exact E| | |]; try done.
    + intros Heq. right. by apply Hmay.
    + intros st [->|Hlt] f; simpl; [done|]. split; lia.
Qed.

Lemma lrun_inv labs : forall n s s',
  Z.of_nat n + Z.of_nat (length labs) <= uint64_max ->
  linv n s -> lrun s labs = Some s' -> linv (n + length labs) s'.
Proof.
  induction labs as [|lab labs IH]; intros n s s' Hb Hinv Hrun; simpl in *.
  - injection Hrun as <-. by rewrite Nat.add_0_r.
  - destruct (lstep s lab) as [s1|] eqn:E; [|done]. simpl in Hrun.
    replace (n + S (length labs))%nat with (S n + length labs)%nat by lia.
    eapply IH; [|eapply lstep_inv; [|exact Hinv|exact E]; lia|exact Hrun]. lia.
Qed.

Lemma linv_init : linv 0 lsys_init.
Proof.
  split; [|done]. simpl. unfold held_version. rewrite vkv_init_view. simpl. lia.
Qed.

(** C9: mutual exclusion.  However clients call [Acquire] and [Release] and
    however the network loses requests and replies of their Gets and Puts,
    two different clients are never both between a returned [Acquire] and
    their next [Release]; and the holder's id is the value stored under the
    lock's key.  It needs what [MakeLock] arranges, distinct non-empty client
    ids, and fewer than 2^64 steps so that the key's version does not wrap. *)
Theorem mutual_exclusion labs s c d :
  Z.of_nat (length labs) <= uint64_max ->
  lrun lsys_init labs = Some s ->
  ls_pc s c = Held -> ls_pc s d = Held ->
  c = d /\ cur_value (vkv_view (ls_store s) l) = clientId c.
Proof.
  intros Hb Hrun Hc Hd.
  destruct (lrun_inv labs 0 lsys_init s Hb linv_init Hrun) as [_ Hpc].
  pose proof (Hpc c) as Pc. pose proof (Hpc d) as Pd. rewrite Hc in Pc. rewrite Hd in Pd.
  simpl in Pc, Pd. split; [|done]. apply clientId_inj. by rewrite <- Pc, <- Pd.
Qed.

(** [Acquire] succeeds on a free lock as soon as one Get and then one Put get
    through, and also when the client's own id is already stored, as after an
    earlier Put of its own that was answered [ErrMaybe]. *)
Theorem acquire_free_lock s c :
  ls_pc s c = AcqGet ->
  cur_value (vkv_view (ls_store s) l) = ""%string \/
    cur_value (vkv_view (ls_store s) l) = clientId c ->
  exists s', lrun s [Net c Delivered; Net c Delivered] = Some s' /\ ls_pc s' c = Held.
Proof.
  intros Hc Hfree. simpl. rewrite Hc. simpl.
  destruct (get_result (ls_store s)) as [e He]. rewrite He. unfold acquire_after_get.
  assert (bool_decide (held_value (ls_store s) = ""%string) ||
          bool_decide (held_value (ls_store s) = clientId c) = true) as ->.
  { apply orb_true_iff. rewrite !bool_decide_eq_true. done. }
  rewrite fn_lookup_insert. unfold put_attempt. simpl.
  pose proof (proj2 (vkv_put_ok (ls_store s) l (clientId c) _) eq_refl) as Hok.
  unfold held_version. destruct (vkv_put _ _ _ _) as [st' err]; simpl in Hok. subst err.
  simpl. eexists. split; [done|]. simpl. by rewrite fn_lookup_insert.
Qed.
End Lock.

(** ** The lock over the server of [kvsrv1/server.go] *)

(** Ids of distinct lengths, to instantiate the section at a concrete point. *)
Fixpoint demo_id (c : nat) : string :=
  match c with O => "a" | S c' => String.String "a"%char (demo_id c') end.

Lemma demo_id_inj c d : demo_id c = demo_id d -> c = d.
Proof.
  revert d. induction c as [|c IH]; intros [|d]; simpl; try done.
  - destruct d; done.
  - destruct c; done.
  - intros [= Hcd]. f_equal. by apply IH.
Qed.

Lemma demo_id_nonempty c : demo_id c <> ""%string.
Proof. by destruct c. Qed.

(** Client 0 acquires over a lossy network while client 1 keeps trying. *)
Definition demo_labs : list llabel :=
  [CallAcquire 0; CallAcquire 1; Net 1 Delivered; Net 0 ReqLost; Net 0 Delivered;
   Net 0 ReplyLost; Net 0 Delivered; Net 1 Delivered; Net 0 Delivered; Net 0 Delivered].

Lemma mutual_exclusion_witness :
  exists s : lsys (St := KVServer),
    lrun "l" demo_id lsys_init demo_labs = Some s /\ ls_pc s 0%nat = Held /\
    cur_value (vkv_view (ls_store s) "l") = demo_id 0.
Proof.
  eexists. split; [reflexivity|]. split; [reflexivity|].
  eapply (mutual_exclusion "l" demo_id demo_id_inj demo_id_nonempty demo_labs _ 0 0);
    [vm_compute; discriminate|reflexivity|reflexivity|reflexivity].
Defined.

Lemma acquire_free_lock_witness :
  exists s', lrun "l" demo_id (mkLsys (vkv_init : KVServer) (fun _ => AcqGet))
                  [Net 3 Delivered; Net 3 Delivered] = Some s' /\ ls_pc s' 3%nat = Held.
Proof.
  apply (acquire_free_lock "l" demo_id (mkLsys vkv_init (fun _ => AcqGet)) 3);
    [reflexivity|left; reflexivity].
Defined.
