(* ===== verification/Raft.v ===== *)
(** One Raft peer: the data of [raft1/raft.go] and every function of it as a
    state transformer on the peer's record.  Each definition is one critical
    section of [rf.mu]; [time.Now] and [rand] are arguments.  The network of
    peers is in [RaftNet.v], the log handling of [AppendEntries] is proved
    correct in [RaftLog.v]. *)
From S2P Require Import Prelude.

Inductive State := Leader | Candidate | Follower.
#[export] Instance State_eq_dec : EqDecision State.
Proof. solve_decision. Defined.

Section Raft.
Context {Cmd : Type}.

(** [Command] is an [interface{}], nil in the sentinel. *)
Record LogEntry := mkLogEntry { LogEntry_Term : Z; LogEntry_Command : option Cmd }.

(** [struct Raft].  [peers] is kept as its length; the persister is written by
    no function ([persist] and [readPersist] have empty bodies). *)
Record Raft := mkRaft {
  rf_peers : nat;
  rf_me : Z;
  rf_dead : Z;
  rf_state : State;
  rf_currentTerm : Z;
  rf_votedFor : Z;
  rf_logs : gmap Z LogEntry;
  rf_commitIndex : Z;
  rf_lastApplied : Z;
  rf_nextIndex : gmap Z Z;
  rf_matchIndex : gmap Z Z;
  rf_lastReceivedHeartbeat : Z
}.

Record RequestVoteArgs := mkRequestVoteArgs {
  RequestVoteArgs_Term : Z;
  RequestVoteArgs_CandidateId : Z;
  RequestVoteArgs_LastLogIndex : Z;
  RequestVoteArgs_LastLogTerm : Z
}.
Record RequestVoteReply := mkRequestVoteReply {
  RequestVoteReply_Term : Z;
  RequestVoteReply_VoteGranted : bool
}.
Record AppendEntriesArgs := mkAppendEntriesArgs {
  AppendEntriesArgs_Term : Z;
  AppendEntriesArgs_LeaderId : Z;
  AppendEntriesArgs_PrevLogIndex : Z;
  AppendEntriesArgs_PrevLogTerm : Z;
  AppendEntriesArgs_Entries : list LogEntry;
  AppendEntriesArgs_LeaderCommit : Z
}.
Record AppendEntriesReply := mkAppendEntriesReply {
  AppendEntriesReply_Term : Z;
  AppendEntriesReply_Success : bool
}.

(** Field assignments. *)
Definition set_election (rf : Raft) (st : State) (term vote : Z) : Raft :=
  mkRaft (rf_peers rf) (rf_me rf) (rf_dead rf) st term vote (rf_logs rf) (rf_commitIndex rf)
    (rf_lastApplied rf) (rf_nextIndex rf) (rf_matchIndex rf) (rf_lastReceivedHeartbeat rf).
Definition set_logs (rf : Raft) (logs : gmap Z LogEntry) : Raft :=
  mkRaft (rf_peers rf) (rf_me rf) (rf_dead rf) (rf_state rf) (rf_currentTerm rf) (rf_votedFor rf)
    logs (rf_commitIndex rf) (rf_lastApplied rf) (rf_nextIndex rf) (rf_matchIndex rf)
    (rf_lastReceivedHeartbeat rf).
Definition set_commitIndex (rf : Raft) (ci : Z) : Raft :=
  mkRaft (rf_peers rf) (rf_me rf) (rf_dead rf) (rf_state rf) (rf_currentTerm rf) (rf_votedFor rf)
    (rf_logs rf) ci (rf_lastApplied rf) (rf_nextIndex rf) (rf_matchIndex rf)
    (rf_lastReceivedHeartbeat rf).
Definition set_heartbeat (rf : Raft) (now : Z) : Raft :=
  mkRaft (rf_peers rf) (rf_me rf) (rf_dead rf) (rf_state rf) (rf_currentTerm rf) (rf_votedFor rf)
    (rf_logs rf) (rf_commitIndex rf) (rf_lastApplied rf) (rf_nextIndex rf) (rf_matchIndex rf) now.
Definition set_leader (rf : Raft) (next match_ : gmap Z Z) : Raft :=
  mkRaft (rf_peers rf) (rf_me rf) (rf_dead rf) Leader (rf_currentTerm rf) (rf_votedFor rf)
    (rf_logs rf) (rf_commitIndex rf) (rf_lastApplied rf) next match_ (rf_lastReceivedHeartbeat rf).
Definition set_dead (rf : Raft) (d : Z) : Raft :=
  mkRaft (rf_peers rf) (rf_me rf) d (rf_state rf) (rf_currentTerm rf) (rf_votedFor rf)
    (rf_logs rf) (rf_commitIndex rf) (rf_lastApplied rf) (rf_nextIndex rf) (rf_matchIndex rf)
    (rf_lastReceivedHeartbeat rf).

Definition GetState (rf : Raft) : Z * bool :=
  (rf_currentTerm rf, bool_decide (rf_state rf = Leader)).

(** [persist], [readPersist] and [Snapshot] have no effect in the code. *)
Definition persist (rf : Raft) : Raft := rf.
Definition readPersist (rf : Raft) (data : list Byte.byte) : Raft := rf.
Definition Snapshot (rf : Raft) (index : Z) (snapshot : list Byte.byte) : Raft := rf.

(** [len(rf.logs)] of the Go map. *)
Definition len_logs (rf : Raft) : Z := Z.of_nat (size (rf_logs rf)).

(** [rf.logs[len(rf.logs)].Term], 0 when there is no such entry: written twice in
    the code, in [ticker] and in [isLogUpToDate]. *)
Definition lastLogTerm (rf : Raft) : Z :=
  if 0 <? len_logs rf then
    match rf_logs rf !! len_logs rf with Some entry => LogEntry_Term entry | None => 0 end
  else 0.

Definition isLogUpToDate (rf : Raft) (lastLogIndex lastLogTerm_ : Z) : bool :=
  let lastEntryIndex := len_logs rf in
  let lastEntryTerm := lastLogTerm rf in
  if lastLogTerm_ >? lastEntryTerm then true
  else (lastLogTerm_ =? lastEntryTerm) && (lastLogIndex >=? lastEntryIndex).

Definition RequestVote (rf : Raft) (args : RequestVoteArgs) : Raft * RequestVoteReply :=
  let reply_Term := rf_currentTerm rf in
  if RequestVoteArgs_Term args <? rf_currentTerm rf then
    (rf, mkRequestVoteReply reply_Term false)
  else
    let '(rf, reply_Term) :=
      if RequestVoteArgs_Term args >? rf_currentTerm rf
      then (set_election rf Follower (RequestVoteArgs_Term args) (-1), RequestVoteArgs_Term args)
      else (rf, reply_Term) in
    let canVote :=
      ((rf_votedFor rf =? -1) || (rf_votedFor rf =? RequestVoteArgs_CandidateId args)) &&
      isLogUpToDate rf (RequestVoteArgs_LastLogIndex args) (RequestVoteArgs_LastLogTerm args) in
    if canVote then
      (set_election rf (rf_state rf) (rf_currentTerm rf) (RequestVoteArgs_CandidateId args),
       mkRequestVoteReply reply_Term true)
    else (rf, mkRequestVoteReply reply_Term false).

Definition min (a b : Z) : Z := if a <? b then a else b.

(** The loop [for j := index; ; j++] that deletes until the first missing index.
    Every round deletes an entry, so [S (size logs)] rounds are enough
    ([RaftLog.delete_loop_total]). *)
Fixpoint delete_loop (fuel : nat) (logs : gmap Z LogEntry) (j : Z) : gmap Z LogEntry :=
  match fuel with
  | O => logs
  | S fuel' =>
      match logs !! j with
      | Some _ => delete_loop fuel' (delete j logs) (wrap64 (j + 1))
      | None => logs
      end
  end.

Definition delete_from (logs : gmap Z LogEntry) (index : Z) : gmap Z LogEntry :=
  delete_loop (S (size logs)) logs index.

(** The loop over [args.Entries]; [i] is the loop index. *)
Fixpoint append_loop (logs : gmap Z LogEntry) (prev i : Z) (entries : list LogEntry)
  : gmap Z LogEntry :=
  match entries with
  | [] => logs
  | entry :: entries' =>
      let index := wrap64 (wrap64 (prev + i) + 1) in
      let logs1 :=
        match logs !! index with
        | Some existingEntry =>
            if LogEntry_Term existingEntry =? LogEntry_Term entry then logs
            else delete_from logs index
        | None => logs
        end in
      append_loop (<[index := mkLogEntry (LogEntry_Term entry) (LogEntry_Command entry)]> logs1)
        prev (i + 1) entries'
  end.

Definition AppendEntries (now : Z) (rf : Raft) (args : AppendEntriesArgs)
  : Raft * AppendEntriesReply :=
  let reply_Term := rf_currentTerm rf in
  if rf_currentTerm rf >? AppendEntriesArgs_Term args then
    (rf, mkAppendEntriesReply reply_Term false)
  else
    let '(rf, reply_Term) :=
      if AppendEntriesArgs_Term args >? rf_currentTerm rf
      then (set_election rf Follower (AppendEntriesArgs_Term args) (-1),
            AppendEntriesArgs_Term args)
      else (rf, reply_Term) in
    let rf := set_heartbeat rf now in
    let prev := AppendEntriesArgs_PrevLogIndex args in
    let mismatch :=
      if prev >? 0 then
        match rf_logs rf !! prev with
        | Some existingEntry =>
            negb (LogEntry_Term existingEntry =? AppendEntriesArgs_PrevLogTerm args)
        | None => true
        end
      else false in
    if mismatch then (rf, mkAppendEntriesReply reply_Term false)
    else
      let rf := set_logs rf (append_loop (rf_logs rf) prev 0 (AppendEntriesArgs_Entries args)) in
      let rf :=
        if AppendEntriesArgs_LeaderCommit args >? rf_commitIndex rf then
          let lastNewIndex :=
            wrap64 (prev + Z.of_nat (length (AppendEntriesArgs_Entries args))) in
          set_commitIndex rf (min (AppendEntriesArgs_LeaderCommit args) lastNewIndex)
        else rf in
      (rf, mkAppendEntriesReply reply_Term true).

(** [Start] returns (index, term, isLeader). *)
Definition Start (rf : Raft) (command : option Cmd) : Raft * (Z * Z * bool) :=
  if bool_decide (rf_state rf = Leader) then
    let index := len_logs rf + 1 in
    let term := rf_currentTerm rf in
    (persist (set_logs rf (<[index := mkLogEntry term command]> (rf_logs rf))),
     (index, term, true))
  else (rf, (-1, -1, false)).

Definition Kill (rf : Raft) : Raft := set_dead rf 1.
Definition killed (rf : Raft) : bool := rf_dead rf =? 1.

(** ** [ticker] *)

(** First critical section of an iteration: start an election unless leader, when
    the time since the local [lastElectionTime] has reached the random timeout.
    Returns the peer, the new [lastElectionTime] and the election's
    parameters (currentTerm, lastLogIndex, lastLogTerm). *)
Definition ticker_election (now electionTimeout : Z) (rf : Raft) (lastElectionTime : Z)
  : Raft * Z * option (Z * Z * Z) :=
  let elapsed := now - lastElectionTime in
  if negb (bool_decide (rf_state rf = Leader)) && (elapsed >=? electionTimeout) then
    let rf := persist (set_election rf Candidate (wrap64 (rf_currentTerm rf + 1)) (rf_me rf)) in
    (rf, now, Some (rf_currentTerm rf, len_logs rf, lastLogTerm rf))
  else (rf, lastElectionTime, None).

(** The peers other than [me], in loop order. *)
Definition others (rf : Raft) : list Z :=
  filter (fun i => i <> rf_me rf) (range (rf_peers rf)).

(** [requestVotes]: the RPCs it starts. *)
Definition requestVotes (rf : Raft) (currentTerm lastLogIndex lastLogTerm_ : Z)
  : list (Z * RequestVoteArgs) :=
  let args := mkRequestVoteArgs currentTerm (rf_me rf) lastLogIndex lastLogTerm_ in
  (fun i => (i, args)) <$> others rf.

(** Second critical section: a leader sends an empty AppendEntries to every other
    peer and restarts its timer. *)
Definition ticker_heartbeat (now : Z) (rf : Raft) (lastElectionTime : Z)
  : list (Z * AppendEntriesArgs) * Z :=
  if bool_decide (rf_state rf = Leader) then
    ((fun i => (i, mkAppendEntriesArgs (rf_currentTerm rf) (rf_me rf) 0 0 []
                     (rf_commitIndex rf))) <$> others rf,
     now)
  else ([], lastElectionTime).

(** The goroutine of a heartbeat, on its reply. *)
Definition heartbeat_reply (rf : Raft) (reply : AppendEntriesReply) : Raft :=
  if AppendEntriesReply_Term reply >? rf_currentTerm rf then
    persist (set_election rf Follower (AppendEntriesReply_Term reply) (-1))
  else rf.

(** [nextIndex] and [matchIndex] for a new leader. *)
Definition init_index (m : gmap Z Z) (js : list Z) (v : Z) : gmap Z Z :=
  foldl (fun m j => <[j := v]> m) m js.

(** The goroutine of a vote request, on its reply.  [votesReceived] is the counter
    shared by the goroutines of one election. *)
Definition vote_reply (rf : Raft) (args : RequestVoteArgs) (votesReceived : Z)
    (reply : RequestVoteReply) : Raft * Z :=
  if negb (bool_decide (rf_state rf = Candidate)) ||
     negb (rf_currentTerm rf =? RequestVoteArgs_Term args) then (rf, votesReceived)
  else if RequestVoteReply_Term reply >? rf_currentTerm rf then
    (persist (set_election rf Follower (RequestVoteReply_Term reply) (-1)), votesReceived)
  else if RequestVoteReply_VoteGranted reply then
    let votesReceived := votesReceived + 1 in
    if votesReceived >? Z.of_nat (rf_peers rf) / 2 then
      (set_leader rf (init_index (rf_nextIndex rf) (others rf) (len_logs rf + 1))
                     (init_index (rf_matchIndex rf) (others rf) 0), votesReceived)
    else (rf, votesReceived)
  else (rf, votesReceived).

Definition resetElectionTimer (now : Z) (rf : Raft) : Raft := set_heartbeat rf now.

(** [Make]: [peers] servers, this one being [me]. *)
Definition Make (now : Z) (peers : nat) (me : Z) : Raft :=
  readPersist
    (mkRaft peers me 0 Follower 0 (-1) {[0 := mkLogEntry 0 None]} 0 0 ∅ ∅ now) [].

End Raft.
Arguments LogEntry : clear implicits.
Arguments Raft : clear implicits.
Arguments AppendEntriesArgs : clear implicits.
