(* ===== verification/RaftLog.v ===== *)
(** The log of [raft1/raft.go]: what the loops of [AppendEntries] do to the
    [map[int]LogEntry], as a refinement of the textbook operation on a list,
    and what the code's index conventions give. *)
From S2P Require Import Prelude.
From S2P Require Import Raft.

Section RaftLog.
Context {Cmd : Type}.
Implicit Types (logs : gmap Z (LogEntry Cmd)) (entries l : list (LogEntry Cmd)).

(** ** The delete loop *)

Lemma wrap64_succ j : int_min <= j < int_max -> wrap64 (j + 1) = j + 1.
Proof. intros H. apply wrap64_id. unfold int_min, int_max in *. lia. Qed.

(** [m] consecutive entries from [j], then a gap. *)
Definition run_from logs (j : Z) (m : nat) : Prop :=
  (forall k, j <= k < j + Z.of_nat m -> is_Some (logs !! k)) /\ logs !! (j + Z.of_nat m) = None.

Lemma run_from_S logs j m : run_from logs j (S m) -> run_from (delete j logs) (j + 1) m.
Proof.
  intros [H1 H2]. split.
  - intros k Hk. rewrite lookup_delete_ne by lia. apply H1. lia.
  - replace (j + 1 + Z.of_nat m) with (j + Z.of_nat (S m)) by lia.
    by rewrite lookup_delete_ne by lia.
Qed.

Lemma run_from_size logs j m : run_from logs j m -> (m <= size logs)%nat.
Proof.
  revert logs j. induction m as [|m IH]; intros logs j H; [lia|].
  pose proof (IH _ _ (run_from_S _ _ _ H)) as Hs.
  destruct (proj1 H j ltac:(lia)) as [e He].
  rewrite (map_size_delete_Some _ _ (mk_is_Some _ _ He)) in Hs.
  assert (size logs <> 0%nat) by (intros H0; apply map_size_empty_iff in H0; by subst).
  lia.
Qed.

(** What the loop computes, given enough rounds for the run to delete. *)
Lemma delete_loop_spec fuel logs j m :
  int_min <= j -> j + Z.of_nat m <= int_max -> run_from logs j m -> (m < fuel)%nat ->
  forall k, delete_loop fuel logs j !! k =
    if decide (j <= k < j + Z.of_nat m) then None else logs !! k.
Proof.
  revert logs j m. induction fuel as [|fuel IH]; intros logs j m Hj Hm Hrun Hf k; [lia|].
  simpl. destruct m as [|m].
  - destruct Hrun as [_ Hgap]. rewrite Z.add_0_r in Hgap. rewrite Hgap.
    by rewrite decide_False by lia.
  - destruct (proj1 Hrun j ltac:(lia)) as [e ->].
    rewrite wrap64_succ by (unfold int_max in *; lia).
    rewrite (IH _ _ m); [|lia|lia|by apply run_from_S|lia].
    rewrite lookup_delete. repeat case_decide; try done; try lia.
Qed.

Lemma run_exists logs j : exists m, run_from logs j m.
Proof.
  remember (size logs) as n eqn:En. revert logs j En.
  induction n as [|n IH]; intros logs j En.
  - symmetry in En. apply map_size_empty_iff in En. subst. exists 0%nat.
    split; [lia|]. apply lookup_empty.
  - destruct (logs !! j) as [e|] eqn:Hj.
    + destruct (IH (delete j logs) (j + 1)) as [m [H1 H2]].
      { rewrite (map_size_delete_Some _ _ (mk_is_Some _ _ Hj)). lia. }
      exists (S m). split.
      * intros k Hk. destruct (decide (k = j)) as [->|Hne]; [by rewrite Hj|].
        specialize (H1 k ltac:(lia)). by rewrite lookup_delete_ne in H1 by lia.
      * replace (j + Z.of_nat (S m)) with (j + 1 + Z.of_nat m) by lia.
        by rewrite lookup_delete_ne in H2 by lia.
    + exists 0%nat. split; [lia|]. by rewrite Z.add_0_r.
Qed.

(** the delete loop of [AppendEntries] terminates on every log, and what it
    deletes is exactly the run of consecutive entries from its start: some
    [m] no larger than the log has the first missing index at
    [index + m], every larger number of rounds gives the same result, and
    entries beyond the first gap survive.  The bound keeps [j++] in [int]. *)
Theorem delete_loop_total logs index :
  int_min <= index -> index + Z.of_nat (size logs) <= int_max ->
  exists m, (m <= size logs)%nat /\ run_from logs index m /\
    (forall fuel, (m < fuel)%nat -> delete_loop fuel logs index = delete_from logs index) /\
    (forall k, delete_from logs index !! k =
       if decide (index <= k < index + Z.of_nat m) then None else logs !! k).
Proof.
  intros Hmin Hmax. destruct (run_exists logs index) as [m Hm].
  pose proof (run_from_size _ _ _ Hm) as Hs. exists m. split; [done|]. split; [done|].
  assert (Hd : forall fuel, (m < fuel)%nat -> forall k, delete_loop fuel logs index !! k =
    if decide (index <= k < index + Z.of_nat m) then None else logs !! k).
  { intros fuel Hf. apply delete_loop_spec; try done. lia. }
  split; [|unfold delete_from; apply Hd; lia].
  intros fuel Hf. apply map_eq. intros k. unfold delete_from. rewrite !Hd by lia. done.
Qed.

(** ** Logs as lists *)

(** [l] is the log, its sentinel at position 0: no gaps, no negative keys. *)
Definition log_rep l logs : Prop :=
  forall k, logs !! k = if decide (0 <= k) then l !! Z.to_nat k else None.

(** The textbook operation on the entries after the previous one: keep what
    agrees, truncate at the first conflict, append the rest. *)
Fixpoint merge l entries {struct entries} : list (LogEntry Cmd) :=
  match entries, l with
  | [], _ => l
  | _, [] => entries
  | e :: entries', x :: l' =>
      if LogEntry_Term x =? LogEntry_Term e then e :: merge l' entries' else e :: entries'
  end.

Definition raft_append l (prev : nat) entries : list (LogEntry Cmd) :=
  take (S prev) l ++ merge (drop (S prev) l) entries.

Lemma LogEntry_eta (e : LogEntry Cmd) : mkLogEntry (LogEntry_Term e) (LogEntry_Command e) = e.
Proof. by destruct e. Qed.

Lemma log_rep_run l logs i :
  log_rep l logs -> (i <= length l)%nat ->
  run_from logs (Z.of_nat i) (length l - i).
Proof.
  intros Hr Hi. split.
  - intros k Hk. rewrite Hr, decide_True by lia. apply lookup_lt_is_Some. lia.
  - rewrite Hr. case_decide; [|done]. apply lookup_ge_None. lia.
Qed.

Lemma log_rep_size l logs : log_rep l logs -> (length l <= size logs)%nat.
Proof.
  intros Hr. pose proof (log_rep_run l logs 0 Hr ltac:(lia)) as H.
  rewrite Nat.sub_0_r in H. by eapply run_from_size.
Qed.

(** Deleting from an index of a gap-free log truncates it. *)
Lemma delete_from_take l logs i :
  log_rep l logs -> (i <= length l)%nat -> Z.of_nat (length l) <= int_max ->
  log_rep (take i l) (delete_from logs (Z.of_nat i)).
Proof.
  intros Hr Hi Hl k. unfold delete_from.
  rewrite (delete_loop_spec _ _ _ (length l - i)).
  - rewrite Hr. destruct (decide (0 <= k)) as [Hk|Hk].
    + case_decide as Hd.
      * symmetry. apply lookup_ge_None. rewrite length_take. lia.
      * destruct (decide (k < Z.of_nat i)).
        -- by rewrite lookup_take_lt by lia.
        -- rewrite (proj2 (lookup_ge_None l _)) by lia. symmetry.
           apply lookup_ge_None. rewrite length_take. lia.
    + by case_decide.
  - unfold int_min. lia.
  - lia.
  - by apply log_rep_run.
  - pose proof (log_rep_size _ _ Hr). lia.
Qed.

Lemma log_rep_insert l logs i e :
  log_rep l logs -> (i <= length l)%nat ->
  log_rep (take i l ++ e :: drop (S i) l) (<[Z.of_nat i := e]> logs).
Proof.
  intros Hr Hi k. rewrite lookup_insert. case_decide as Hk.
  - subst k. rewrite decide_True by lia. rewrite Nat2Z.id.
    rewrite lookup_app_r by (rewrite length_take; lia).
    rewrite length_take, Nat.min_l, Nat.sub_diag by lia. done.
  - rewrite Hr. case_decide; [|done].
    destruct (decide (Z.to_nat k < i)%nat).
    + rewrite lookup_app_l by (rewrite length_take; lia). by rewrite lookup_take_lt by lia.
    + rewrite lookup_app_r by (rewrite length_take; lia).
      rewrite length_take, Nat.min_l by lia.
      replace (Z.to_nat k - i)%nat with (S (Z.to_nat k - S i)) by lia. simpl.
      rewrite lookup_drop. f_equal. lia.
Qed.

(** Splitting a list after the position that was written. *)
Lemma split_after_insert {A} (l : list A) n e :
  (n <= length l)%nat ->
  let l' := take n l ++ e :: drop (S n) l in
  take (S n) l' = take n l ++ [e] /\ drop (S n) l' = drop (S n) l /\
  length l' = Nat.max (S n) (length l).
Proof.
  intros Hn l'. subst l'. assert (Hl : length (take n l) = n) by (rewrite length_take; lia).
  split; [|split].
  - rewrite take_app_ge, Hl by lia. replace (S n - n)%nat with 1%nat by lia. done.
  - rewrite drop_app_ge, Hl by lia. replace (S n - n)%nat with 1%nat by lia. done.
  - rewrite length_app, Hl. simpl. rewrite length_drop. lia.
Qed.

(** The entries loop on a gap-free log refines [merge], from any position. *)
Lemma append_loop_merge entries : forall l logs prev i,
  log_rep l logs -> 0 <= prev -> 0 <= i ->
  (Z.to_nat (prev + i + 1) <= length l)%nat ->
  prev + i + Z.of_nat (length entries) < int_max -> Z.of_nat (length l) <= int_max ->
  log_rep (take (Z.to_nat (prev + i + 1)) l ++ merge (drop (Z.to_nat (prev + i + 1)) l) entries)
    (append_loop logs prev i entries).
Proof.
  induction entries as [|e entries IH]; intros l logs prev i Hr Hp Hi Hle Hb Hl; simpl.
  - by rewrite take_drop.
  - simpl in Hb. set (n := Z.to_nat (prev + i + 1)) in *.
    rewrite (wrap64_id (prev + i)) by (unfold int_min; lia).
    rewrite wrap64_succ by (unfold int_min; lia).
    replace (prev + i + 1) with (Z.of_nat n) by lia.
    rewrite LogEntry_eta.
    assert (Hnext : forall l0 logs0, log_rep l0 logs0 -> (length l0 <= length l)%nat ->
              (n <= length l0)%nat ->
              log_rep (take n l0 ++ e :: merge (drop (S n) l0) entries)
                (append_loop (<[Z.of_nat n := e]> logs0) prev (i + 1) entries)).
    { intros l0 logs0 Hr0 Hlen Hn0.
      pose proof (log_rep_insert _ _ n e Hr0 Hn0) as Hi0.
      destruct (split_after_insert l0 n e Hn0) as (Ht & Hd & Hll).
      specialize (IH _ _ prev (i + 1) Hi0 Hp ltac:(lia)).
      replace (Z.to_nat (prev + (i + 1) + 1)) with (S n) in IH by lia.
      rewrite Ht, Hd, Hll, <- app_assoc in IH. by apply IH; lia. }
    destruct (drop n l) as [|x l'] eqn:Ed.
    + assert (Hn : length l = n).
      { apply (f_equal length) in Ed. rewrite length_drop in Ed. simpl in Ed. lia. }
      assert (logs !! Z.of_nat n = None) as ->.
      { rewrite Hr, decide_True by lia. apply lookup_ge_None. lia. }
      specialize (Hnext l logs Hr ltac:(lia) ltac:(lia)).
      rewrite (drop_ge l (S n)) in Hnext by lia.
      by destruct entries.
    + assert (Hx : l !! n = Some x).
      { rewrite <- (Nat.add_0_r n), <- lookup_drop, Ed. done. }
      assert (Hlt : (n < length l)%nat) by (by eapply lookup_lt_Some).
      assert (Hd : drop (S n) l = l').
      { replace (S n) with (n + 1)%nat by lia. rewrite <- drop_drop, Ed. done. }
      assert (logs !! Z.of_nat n = Some x) as ->.
      { rewrite Hr, decide_True by lia. by rewrite Nat2Z.id. }
      destruct (Z.eqb_spec (LogEntry_Term x) (LogEntry_Term e)) as [Ht|Ht].
      * specialize (Hnext l logs Hr ltac:(lia) ltac:(lia)). by rewrite Hd in Hnext.
      * pose proof (delete_from_take l logs n Hr ltac:(lia) Hl) as Hr'.
        assert (Htl : length (take n l) = n) by (rewrite length_take; lia).
        specialize (Hnext _ _ Hr' ltac:(lia) ltac:(lia)).
        rewrite take_take, Nat.min_id, (drop_ge (take n l)) in Hnext by lia.
        by destruct entries.
Qed.

(** ** The textbook operation *)

(** [merge] yields the entries, then what remains of the old log if nothing
    conflicted. *)
Lemma merge_split l entries :
  exists rest, merge l entries = entries ++ rest /\
    (rest = [] \/ (rest = drop (length entries) l /\
       forall i x e, l !! i = Some x -> entries !! i = Some e -> LogEntry_Term x = LogEntry_Term e)).
Proof.
  revert l. induction entries as [|e entries IH]; intros l; simpl.
  - exists l. split; [by destruct l|]. right. by rewrite drop_0.
  - destruct l as [|x l]; [exists []; rewrite app_nil_r; auto|].
    destruct (Z.eqb_spec (LogEntry_Term x) (LogEntry_Term e)) as [Ht|Ht].
    + destruct (IH l) as (rest & -> & Hrest). exists rest. split; [done|].
      destruct Hrest as [->|[-> Hag]]; [by left|right]. split; [done|].
      intros [|i] y f; simpl; [congruence|apply Hag].
    + exists []. rewrite app_nil_r. auto.
Qed.

Lemma merge_idem l entries : merge (merge l entries) entries = merge l entries.
Proof.
  revert l. induction entries as [|e entries IH]; intros l; simpl; [done|].
  destruct l as [|x l].
  - rewrite Z.eqb_refl. f_equal. specialize (IH []). by destruct entries; simpl in *.
  - destruct (Z.eqb_spec (LogEntry_Term x) (LogEntry_Term e)) as [Ht|Ht].
    + by rewrite Z.eqb_refl, IH.
    + rewrite Z.eqb_refl. f_equal. specialize (IH []). by destruct entries; simpl in *.
Qed.

Lemma raft_append_idem l prev entries :
  (prev < length l)%nat ->
  raft_append (raft_append l prev entries) prev entries = raft_append l prev entries.
Proof.
  intros Hp. unfold raft_append.
  rewrite take_app_le, drop_app_le, take_take, Nat.min_id by (rewrite length_take; lia).
  f_equal. rewrite (drop_ge (take (S prev) l)) by (rewrite length_take; lia).
  apply merge_idem.
Qed.

(** The Log Matching property of two logs. *)
Definition matching (l1 l2 : list (LogEntry Cmd)) : Prop :=
  forall i e1 e2, l1 !! i = Some e1 -> l2 !! i = Some e2 ->
    LogEntry_Term e1 = LogEntry_Term e2 -> take (S i) l1 = take (S i) l2.

Lemma raft_append_matching l L prev n :
  (S prev <= length l)%nat -> (S prev + n <= length L)%nat ->
  take (S prev) l = take (S prev) L -> matching l L ->
  let l' := raft_append l prev (take n (drop (S prev) L)) in
  take (S prev + n) l' = take (S prev + n) L /\ matching l' L.
Proof.
  intros Hl HL Htake Hm. simpl. unfold raft_append. rewrite Htake.
  set (entries := take n (drop (S prev) L)).
  assert (Hlen : length entries = n) by (unfold entries; rewrite length_take, length_drop; lia).
  assert (Hcat : take (S prev) L ++ entries = take (S prev + n) L).
  { unfold entries. rewrite take_take_drop. done. }
  destruct (merge_split (drop (S prev) l) entries) as (rest & -> & Hrest).
  rewrite app_assoc, Hcat.
  assert (Htl : length (take (S prev + n) L) = (S prev + n)%nat) by (rewrite length_take; lia).
  split; [by rewrite take_app_le, take_take, Nat.min_id by lia|].
  intros i e1 e2 H1 H2 Ht. destruct (decide (i < S prev + n)%nat) as [Hi|Hi].
  - by rewrite take_app_le, take_take, Nat.min_l by lia.
  - rewrite lookup_app_r in H1 by lia. rewrite Htl in H1.
    destruct Hrest as [->|[-> Hag]]; [done|]. rewrite Hlen in *.
    rewrite drop_drop in *. rewrite lookup_drop in H1.
    replace (S prev + n + (i - (S prev + n)))%nat with i in H1 by lia.
    pose proof (Hm i e1 e2 H1 H2 Ht) as Heq.
    assert (Hli : (i < length l)%nat) by (by eapply lookup_lt_Some).
    assert (Hpre : take (S prev + n) L = take (S prev + n) l).
    { rewrite <- (Nat.min_l (S prev + n) (S i)) by lia. by rewrite <- !take_take, Heq. }
    rewrite Hpre, take_drop. done.
Qed.

(** ** The handler *)

Lemma min_Zmin a b : min a b = Z.min a b.
Proof. unfold min. destruct (Z.ltb_spec a b); lia. Qed.

(** The consistency check of the handler, on a gap-free log. *)
Definition prev_matches l (prev term : Z) : Prop :=
  prev = 0 \/ exists e, l !! Z.to_nat prev = Some e /\ LogEntry_Term e = term.

#[global] Instance prev_matches_dec l prev t : Decision (prev_matches l prev t).
Proof.
  unfold prev_matches. destruct (decide (prev = 0)) as [?|?]; [by left; left|].
  destruct (l !! Z.to_nat prev) as [e|]; [|right; by intros [?|(? & ? & ?)]].
  destruct (decide (LogEntry_Term e = t)); [left; right; eauto|].
  right. intros [?|(? & [= <-] & ?)]; done.
Defined.

(** The code's consistency check decides [prev_matches]. *)
Lemma mismatch_spec l logs prev t :
  log_rep l logs -> 0 <= prev ->
  (if prev >? 0 then match logs !! prev with
     | Some e => negb (LogEntry_Term e =? t)
     | None => true end else false) = negb (bool_decide (prev_matches l prev t)).
Proof.
  intros Hr Hp. rewrite (Hr prev), decide_True, Z.gtb_ltb by done.
  destruct (Z.ltb_spec 0 prev).
  - destruct (l !! Z.to_nat prev) as [e|] eqn:He; simpl.
    + f_equal. apply eq_true_iff_eq. rewrite Z.eqb_eq, bool_decide_eq_true.
      unfold prev_matches. rewrite He. split; [eauto|]. intros [?|(? & [= <-] & ?)]; [lia|done].
    + rewrite bool_decide_eq_false_2; [done|]. unfold prev_matches. rewrite He.
      intros [?|(? & ? & ?)]; [lia|done].
  - rewrite bool_decide_eq_true_2; [done|]. left. lia.
Qed.

(** The three ways [AppendEntries] ends: a stale term, *)
Lemma AppendEntries_stale now rf (args : AppendEntriesArgs Cmd) :
  AppendEntriesArgs_Term args < rf_currentTerm rf ->
  AppendEntries now rf args = (rf, mkAppendEntriesReply (rf_currentTerm rf) false).
Proof. intros Ht. unfold AppendEntries. by rewrite Z.gtb_ltb, (proj2 (Z.ltb_lt _ _) Ht). Qed.

(** a failed consistency check, and a passed one. *)
Lemma AppendEntries_checked now rf (args : AppendEntriesArgs Cmd) l :
  let prev := AppendEntriesArgs_PrevLogIndex args in
  let entries := AppendEntriesArgs_Entries args in
  log_rep l (rf_logs rf) -> 0 <= prev -> rf_currentTerm rf <= AppendEntriesArgs_Term args ->
  exists rf', rf_currentTerm rf' = AppendEntriesArgs_Term args /\
    rf_logs rf' = rf_logs rf /\ rf_commitIndex rf' = rf_commitIndex rf /\
    AppendEntries now rf args =
      if decide (prev_matches l prev (AppendEntriesArgs_PrevLogTerm args)) then
        (let rf2 := set_logs rf' (append_loop (rf_logs rf) prev 0 entries) in
         if rf_commitIndex rf <? AppendEntriesArgs_LeaderCommit args
         then set_commitIndex rf2 (min (AppendEntriesArgs_LeaderCommit args)
                (wrap64 (prev + Z.of_nat (length entries))))
         else rf2, mkAppendEntriesReply (AppendEntriesArgs_Term args) true)
      else (rf', mkAppendEntriesReply (AppendEntriesArgs_Term args) false).
Proof.
  intros prev entries Hr Hp Ht. unfold AppendEntries. fold prev. fold entries.
  rewrite Z.gtb_ltb, (proj2 (Z.ltb_ge _ _) Ht). rewrite Z.gtb_ltb.
  destruct (Z.ltb_spec (rf_currentTerm rf) (AppendEntriesArgs_Term args)) as [Hlt|Hge];
    cbn [set_heartbeat set_election rf_logs rf_commitIndex];
    rewrite (mismatch_spec l) by done;
    (case_decide as Hm; [rewrite bool_decide_eq_true_2 by done|rewrite bool_decide_eq_false_2 by done];
     cbn [negb]; rewrite ?Z.gtb_ltb).
  - eexists (set_heartbeat (set_election rf Follower (AppendEntriesArgs_Term args) (-1)) now). done.
  - eexists (set_heartbeat (set_election rf Follower (AppendEntriesArgs_Term args) (-1)) now). done.
  - exists (set_heartbeat rf now). assert (rf_currentTerm rf = AppendEntriesArgs_Term args) as -> by lia.
    split; [simpl; lia|done].
  - exists (set_heartbeat rf now). assert (rf_currentTerm rf = AppendEntriesArgs_Term args) as -> by lia.
    split; [simpl; lia|done].
Qed.

(** What a successful reply says of the request and leaves in the log. *)
Lemma AppendEntries_success now rf (args : AppendEntriesArgs Cmd) l :
  let prev := AppendEntriesArgs_PrevLogIndex args in
  log_rep l (rf_logs rf) -> 0 <= prev ->
  AppendEntriesReply_Success (AppendEntries now rf args).2 = true <->
  rf_currentTerm rf <= AppendEntriesArgs_Term args /\
  prev_matches l prev (AppendEntriesArgs_PrevLogTerm args).
Proof.
  intros prev Hr Hp.
  destruct (decide (rf_currentTerm rf <= AppendEntriesArgs_Term args)) as [Ht|Ht].
  - destruct (AppendEntries_checked now rf args l Hr Hp Ht) as (rf' & _ & _ & _ & ->).
    fold prev. case_decide; (split; [intros E; simpl in E; split|intros []]); done.
  - rewrite AppendEntries_stale by lia. simpl. split; [done|]. intros []. lia.
Qed.

Lemma prev_matches_lt l prev t :
  l <> [] -> prev_matches l prev t -> (Z.to_nat prev < length l)%nat.
Proof.
  intros Hne [->|(e & He & _)]; [destruct l; [done|simpl; lia]|by eapply lookup_lt_Some].
Qed.

Lemma AppendEntries_appends now rf (args : AppendEntriesArgs Cmd) l :
  let prev := AppendEntriesArgs_PrevLogIndex args in
  let entries := AppendEntriesArgs_Entries args in
  log_rep l (rf_logs rf) -> l <> [] -> Z.of_nat (length l) <= int_max ->
  0 <= prev -> prev + Z.of_nat (length entries) < int_max ->
  AppendEntriesReply_Success (AppendEntries now rf args).2 = true ->
  let rf' := (AppendEntries now rf args).1 in
  log_rep (raft_append l (Z.to_nat prev) entries) (rf_logs rf') /\
  rf_currentTerm rf' = AppendEntriesArgs_Term args /\
  rf_commitIndex rf' =
    if decide (rf_commitIndex rf < AppendEntriesArgs_LeaderCommit args)
    then Z.min (AppendEntriesArgs_LeaderCommit args) (prev + Z.of_nat (length entries))
    else rf_commitIndex rf.
Proof.
  intros prev entries Hr Hne Hl Hp Hb Hs.
  apply (AppendEntries_success now rf args l Hr Hp) in Hs as [Ht Hm].
  destruct (AppendEntries_checked now rf args l Hr Hp Ht) as (rf' & Ht' & Hl' & Hc' & ->).
  rewrite decide_True by done. fold prev. fold entries. pose proof (prev_matches_lt _ _ _ Hne Hm) as Hlt.
  fold prev in Hlt. rewrite wrap64_id by (unfold int_min; lia). rewrite min_Zmin.
  pose proof (append_loop_merge entries l (rf_logs rf) prev 0 Hr Hp ltac:(lia) ltac:(lia)
                ltac:(lia) Hl) as Happ.
  replace (Z.to_nat (prev + 0 + 1)) with (S (Z.to_nat prev)) in Happ by lia.
  destruct (Z.ltb_spec (rf_commitIndex rf) (AppendEntriesArgs_LeaderCommit args)); simpl;
    (split; [exact Happ|]; split; [done|]).
  - by rewrite decide_True.
  - by rewrite decide_False by lia.
Qed.

(** C11: [AppendEntries] refines the textbook receiver rule.  On a gap-free log
    (sentinel at 0), for a request within the [int] range, and whatever the
    request holds: a stale term is refused and changes nothing; otherwise the
    peer's term becomes the request's, a failed consistency check leaves the
    log and the commit index alone, and a passed one leaves the gap-free log
    [raft_append l prev entries], with the commit index advanced as coded. *)
Theorem AppendEntries_refines now rf (args : AppendEntriesArgs Cmd) l :
  let prev := AppendEntriesArgs_PrevLogIndex args in
  let entries := AppendEntriesArgs_Entries args in
  log_rep l (rf_logs rf) -> l <> [] -> Z.of_nat (length l) <= int_max ->
  0 <= prev -> prev + Z.of_nat (length entries) < int_max ->
  let '(rf', reply) := AppendEntries now rf args in
  (AppendEntriesArgs_Term args < rf_currentTerm rf ->
     rf' = rf /\ reply = mkAppendEntriesReply (rf_currentTerm rf) false) /\
  (rf_currentTerm rf <= AppendEntriesArgs_Term args ->
     rf_currentTerm rf' = AppendEntriesArgs_Term args /\
     AppendEntriesReply_Term reply = AppendEntriesArgs_Term args /\
     (prev_matches l prev (AppendEntriesArgs_PrevLogTerm args) ->
        AppendEntriesReply_Success reply = true /\
        log_rep (raft_append l (Z.to_nat prev) entries) (rf_logs rf') /\
        rf_commitIndex rf' =
          if decide (rf_commitIndex rf < AppendEntriesArgs_LeaderCommit args)
          then Z.min (AppendEntriesArgs_LeaderCommit args) (prev + Z.of_nat (length entries))
          else rf_commitIndex rf) /\
     (~ prev_matches l prev (AppendEntriesArgs_PrevLogTerm args) ->
        AppendEntriesReply_Success reply = false /\ rf_logs rf' = rf_logs rf /\
        rf_commitIndex rf' = rf_commitIndex rf)).
Proof.
  intros prev entries Hr Hne Hl Hp Hb. destruct (AppendEntries now rf args) as [rf' reply] eqn:E.
  split; intros Ht.
  { rewrite AppendEntries_stale in E by done. by injection E as <- <-. }
  destruct (AppendEntries_checked now rf args l Hr Hp Ht) as (rf1 & Ht1 & Hl1 & Hc1 & E1).
  rewrite E in E1. fold prev in E1. case_decide as Hm.
  - pose proof (AppendEntries_appends now rf args l Hr Hne Hl Hp Hb) as H.
    assert (Hs : AppendEntriesReply_Success (AppendEntries now rf args).2 = true)
      by (by apply (AppendEntries_success now rf args l)).
    specialize (H Hs) as (H1 & H2 & H3). rewrite E in H1, H2, H3. injection E1 as _ ->. by repeat split.
  - injection E1 as -> ->. by repeat split.
Qed.

Lemma take_S_ext l L i e1 e2 :
  take i l = take i L -> l !! i = Some e1 -> L !! i = Some e2 -> e1 = e2 ->
  take (S i) l = take (S i) L.
Proof.
  intros Ht H1 H2 <-. by rewrite (take_S_r _ _ _ H1), (take_S_r _ _ _ H2), Ht.
Qed.

(** C10: log matching is preserved, and a successful reply means agreement.  If the
    follower's and the leader's logs satisfy Log Matching, share the
    sentinel, and the request carries [n] entries of the leader's log after
    position [prev] with that position's term, then after a successful
    AppendEntries the follower's log agrees with the leader's on everything
    up to the last entry sent, and Log Matching still holds, longer
    surviving suffixes included. *)
Theorem AppendEntries_log_matching now rf (args : AppendEntriesArgs Cmd) l L prev n s e :
  log_rep l (rf_logs rf) -> Z.of_nat (length l) <= int_max ->
  Z.of_nat (prev + n) < int_max ->
  l !! 0%nat = Some s -> L !! 0%nat = Some s -> matching l L ->
  AppendEntriesArgs_PrevLogIndex args = Z.of_nat prev ->
  L !! prev = Some e -> AppendEntriesArgs_PrevLogTerm args = LogEntry_Term e ->
  (S prev + n <= length L)%nat ->
  AppendEntriesArgs_Entries args = take n (drop (S prev) L) ->
  AppendEntriesReply_Success (AppendEntries now rf args).2 = true ->
  exists l', log_rep l' (rf_logs (AppendEntries now rf args).1) /\
    take (S prev + n) l' = take (S prev + n) L /\ matching l' L.
Proof.
  intros Hr Hl Hb Hs HsL Hm Hprev He Hterm HL Hent Hsucc.
  assert (Hne : l <> []) by (by destruct l).
  assert (Hlen : length (AppendEntriesArgs_Entries args) = n)
    by (rewrite Hent, length_take, length_drop; lia).
  destruct (AppendEntries_appends now rf args l Hr Hne Hl ltac:(lia) ltac:(lia) Hsucc) as (Hrep & _).
  apply (AppendEntries_success now rf args l Hr ltac:(lia)) in Hsucc as [_ Hpm].
  rewrite Hprev, Nat2Z.id, Hent in Hrep. rewrite Hprev in Hpm.
  eexists. split; [exact Hrep|]. pose proof (prev_matches_lt _ _ _ Hne Hpm) as Hlt.
  apply raft_append_matching; try done; [lia|].
  destruct Hpm as [Hp0|(x & Hx & Hxt)].
  - replace prev with 0%nat by lia. by apply (take_S_ext l L 0 s s).
  - rewrite Nat2Z.id in Hx. apply (Hm prev x e Hx He). congruence.
Qed.

(** Appending keeps the entry that was checked, and bounds the log. *)
Lemma raft_append_kept l prev entries t :
  l <> [] -> prev_matches l prev t ->
  let l' := raft_append l (Z.to_nat prev) entries in
  prev_matches l' prev t /\ l' <> [] /\
  (length l' <= Nat.max (length l) (S (Z.to_nat prev) + length entries))%nat.
Proof.
  intros Hne Hm. pose proof (prev_matches_lt _ _ _ Hne Hm) as Hlt. unfold raft_append.
  split; [|split].
  - destruct Hm as [->|(x & Hx & Hxt)]; [by left|right]. exists x. split; [|done].
    rewrite lookup_app_l by (rewrite length_take; lia). by rewrite lookup_take_lt by lia.
  - by destruct l.
  - rewrite length_app, length_take.
    destruct (merge_split (drop (S (Z.to_nat prev)) l) entries) as (rest & -> & Hrest).
    rewrite length_app. destruct Hrest as [->|[-> _]]; rewrite ?length_drop; cbn [length]; lia.
Qed.

(** a retransmitted AppendEntries changes nothing: handling the same request
    again leaves the log exactly as the first handling left it, so replies
    lost by the network are harmless. *)
Theorem AppendEntries_idempotent now now' rf (args : AppendEntriesArgs Cmd) l :
  log_rep l (rf_logs rf) -> l <> [] -> Z.of_nat (length l) < int_max ->
  0 <= AppendEntriesArgs_PrevLogIndex args ->
  AppendEntriesArgs_PrevLogIndex args +
    Z.of_nat (length (AppendEntriesArgs_Entries args)) + 1 < int_max ->
  AppendEntriesReply_Success (AppendEntries now rf args).2 = true ->
  let rf1 := (AppendEntries now rf args).1 in
  rf_logs (AppendEntries now' rf1 args).1 = rf_logs rf1 /\
  AppendEntriesReply_Success (AppendEntries now' rf1 args).2 = true.
Proof.
  intros Hr Hne Hl Hp Hb Hsucc rf1.
  destruct (AppendEntries_appends now rf args l Hr Hne ltac:(lia) Hp ltac:(lia) Hsucc)
    as (Hr1 & Ht1 & _). fold rf1 in Hr1, Ht1.
  apply (AppendEntries_success now rf args l Hr Hp) in Hsucc as [_ Hm].
  destruct (raft_append_kept l _ (AppendEntriesArgs_Entries args) _ Hne Hm) as (Hm1 & Hne1 & Hlen).
  assert (Hs1 : AppendEntriesReply_Success (AppendEntries now' rf1 args).2 = true)
    by (apply (AppendEntries_success now' rf1 args _ Hr1 Hp); rewrite Ht1; done).
  destruct (AppendEntries_appends now' rf1 args _ Hr1 Hne1 ltac:(lia) Hp ltac:(lia) Hs1) as (Hr2 & _).
  split; [|done]. rewrite raft_append_idem in Hr2 by (by eapply prev_matches_lt).
  apply map_eq. intros k. by rewrite (Hr2 k), (Hr1 k).
Qed.

(** ** The index conventions *)

(** on a gap-free log the peer computes its last log term as 0, because
    [logs[len(logs)]] is one past the last entry: [isLogUpToDate] then says
    yes to every candidate whose last term is positive, however far behind
    that candidate's log is. *)
Theorem isLogUpToDate_ignores_log (rf : Raft Cmd) l lastIndex lastTerm :
  log_rep l (rf_logs rf) -> size (rf_logs rf) = length l ->
  isLogUpToDate rf lastIndex lastTerm =
    (0 <? lastTerm) || ((lastTerm =? 0) && (Z.of_nat (length l) <=? lastIndex)).
Proof.
  intros Hr Hs. unfold isLogUpToDate, lastLogTerm, len_logs. rewrite Hs.
  assert (rf_logs rf !! Z.of_nat (length l) = None) as ->.
  { rewrite Hr. case_decide; [|done]. apply lookup_ge_None. lia. }
  assert ((if 0 <? Z.of_nat (length l) then 0 else 0) = 0) as -> by (by case_match).
  rewrite Z.gtb_ltb, Z.geb_leb. by destruct (0 <? lastTerm).
Qed.

(** a heartbeat never commits and may un-commit: with no entries and previous
    index 0, an accepted AppendEntries whose leader is ahead sets the
    follower's commit index to 0, whatever it was. *)
Theorem heartbeat_resets_commitIndex now (rf : Raft Cmd) (args : AppendEntriesArgs Cmd) :
  AppendEntriesArgs_PrevLogIndex args = 0 -> AppendEntriesArgs_Entries args = [] ->
  rf_currentTerm rf <= AppendEntriesArgs_Term args ->
  0 <= rf_commitIndex rf < AppendEntriesArgs_LeaderCommit args ->
  rf_commitIndex (AppendEntries now rf args).1 = 0 /\
  rf_logs (AppendEntries now rf args).1 = rf_logs rf.
Proof.
  intros Hp He Ht Hc. unfold AppendEntries. rewrite Hp, He. simpl.
  rewrite !Z.gtb_ltb. destruct (Z.ltb_spec (AppendEntriesArgs_Term args) (rf_currentTerm rf)); [lia|].
  assert (Hlt : (rf_commitIndex rf <? AppendEntriesArgs_LeaderCommit args) = true)
    by (apply Z.ltb_lt; lia).
  assert (Hmin : min (AppendEntriesArgs_LeaderCommit args) (wrap64 (0 + Z.of_nat 0)) = 0)
    by (rewrite min_Zmin; replace (wrap64 (0 + Z.of_nat 0)) with 0 by reflexivity; lia).
  destruct (Z.ltb_spec (rf_currentTerm rf) (AppendEntriesArgs_Term args)); simpl;
    rewrite Z.gtb_ltb, Hlt; simpl; by split.
Qed.
End RaftLog.

(** ** Concrete points *)

Module RaftLogDemo.
Definition e (t : Z) (c : string) : LogEntry string := mkLogEntry t (Some c).
Definition base (logs : gmap Z (LogEntry string)) (ci : Z) : Raft string :=
  mkRaft 3 1 0 Follower 5 (-1) logs ci 0 ∅ ∅ 0.
Definition l : list (LogEntry string) := [mkLogEntry 0 None; e 1 "a"; e 1 "b"; e 2 "c"].
Definition L : list (LogEntry string) := [mkLogEntry 0 None; e 1 "a"; e 3 "d"; e 5 "f"].
Definition logs : gmap Z (LogEntry string) :=
  list_to_map (zip (Z.of_nat <$> seq 0 4) l).
Definition args : AppendEntriesArgs string := mkAppendEntriesArgs 5 0 1 1 [e 3 "d"; e 5 "f"] 3.

Lemma l_rep : log_rep l logs.
Proof.
  intros k. unfold logs. destruct (decide (0 <= k)) as [Hk|Hk].
  - destruct (decide (k < 4)) as [Hk4|Hk4].
    + assert (k = 0 \/ k = 1 \/ k = 2 \/ k = 3) as [->|[->|[->| ->]]] by lia; reflexivity.
    + rewrite (proj2 (lookup_ge_None l _)) by (simpl; lia).
      apply not_elem_of_list_to_map_1. simpl. set_unfold. lia.
  - apply not_elem_of_list_to_map_1. simpl. set_unfold. lia.
Qed.

Lemma l_L_matching : matching l L.
Proof.
  intros i e1 e2 H1 H2 Ht.
  do 4 (destruct i as [|i]; [simpl in *; simplify_eq; done|]). simpl in H1. done.
Qed.
End RaftLogDemo.

Lemma delete_loop_total_witness :
  exists m, (m <= size RaftLogDemo.logs)%nat /\ run_from RaftLogDemo.logs 2 m.
Proof.
  destruct (delete_loop_total RaftLogDemo.logs 2 ltac:(vm_compute; discriminate)
              ltac:(vm_compute; discriminate)) as (m & H1 & H2 & _).
  exists m. by split.
Defined.

Lemma AppendEntries_refines_witness :
  AppendEntriesReply_Success (AppendEntries 9 (RaftLogDemo.base RaftLogDemo.logs 0) RaftLogDemo.args).2 = true /\
  log_rep RaftLogDemo.L (rf_logs (AppendEntries 9 (RaftLogDemo.base RaftLogDemo.logs 0) RaftLogDemo.args).1).
Proof.
  pose proof (AppendEntries_refines 9 (RaftLogDemo.base RaftLogDemo.logs 0) RaftLogDemo.args
    RaftLogDemo.l RaftLogDemo.l_rep ltac:(discriminate) ltac:(vm_compute; discriminate)
    ltac:(vm_compute; discriminate) ltac:(vm_compute; reflexivity)) as H.
  destruct (AppendEntries 9 _ _) as [rf' reply].
  destruct H as [_ H]. destruct (H ltac:(vm_compute; discriminate)) as (_ & _ & Hpass & _).
  destruct (Hpass ltac:(right; eexists; split; reflexivity)) as (Hs & Hr & _).
  split; [exact Hs|exact Hr].
Defined.

Lemma AppendEntries_log_matching_witness :
  exists l', log_rep l' (rf_logs (AppendEntries 9 (RaftLogDemo.base RaftLogDemo.logs 0) RaftLogDemo.args).1) /\
    take 4 l' = take 4 RaftLogDemo.L /\ matching l' RaftLogDemo.L.
Proof.
  apply (AppendEntries_log_matching 9 (RaftLogDemo.base RaftLogDemo.logs 0) RaftLogDemo.args
    RaftLogDemo.l RaftLogDemo.L 1 2 (mkLogEntry 0 None) (RaftLogDemo.e 1 "a"));
    try reflexivity; try (vm_compute; discriminate).
  - apply RaftLogDemo.l_rep.
  - apply RaftLogDemo.l_L_matching.
Defined.

Lemma AppendEntries_idempotent_witness :
  let rf1 := (AppendEntries 9 (RaftLogDemo.base RaftLogDemo.logs 0) RaftLogDemo.args).1 in
  rf_logs (AppendEntries 10 rf1 RaftLogDemo.args).1 = rf_logs rf1 /\
  AppendEntriesReply_Success (AppendEntries 10 rf1 RaftLogDemo.args).2 = true.
Proof.
  apply (AppendEntries_idempotent 9 10 _ RaftLogDemo.args RaftLogDemo.l);
    try reflexivity; try (vm_compute; discriminate). apply RaftLogDemo.l_rep.
Defined.

(** A follower whose log ends in term 2 approves a candidate whose log ends in term 1. *)
Lemma isLogUpToDate_ignores_log_witness :
  isLogUpToDate (RaftLogDemo.base RaftLogDemo.logs 0) 1 1 = true.
Proof.
  rewrite (isLogUpToDate_ignores_log _ RaftLogDemo.l); [reflexivity|apply RaftLogDemo.l_rep|reflexivity].
Defined.

Lemma heartbeat_resets_commitIndex_witness :
  rf_commitIndex (AppendEntries 9 (RaftLogDemo.base RaftLogDemo.logs 2)
                    (mkAppendEntriesArgs 5 0 0 0 [] 3)).1 = 0.
Proof.
  refine (proj1 (heartbeat_resets_commitIndex 9 _ (mkAppendEntriesArgs 5 0 0 0 [] 3) _ _ _ _));
    try reflexivity; simpl; lia.
Defined.

(** ** The leader's log under [Start] *)

Section Starts.
Context {Cmd : Type}.
Implicit Types (rf : Raft Cmd).

(** A sequence of calls of [Start]. *)
Fixpoint starts (rf : Raft Cmd) (commands : list (option Cmd)) : Raft Cmd * list (Z * Z * bool) :=
  match commands with
  | [] => (rf, [])
  | c :: cs =>
      let '(rf1, r) := Start rf c in
      let '(rf2, rs) := starts rf1 cs in
      (rf2, r :: rs)
  end.

(** The log of a leader that has started [m] commands: the sentinel at 0 and the
    commands from index 2 on. *)
Record started (m : nat) (rf : Raft Cmd) : Prop := {
  sd_leader : rf_state rf = Leader;
  sd_size : size (rf_logs rf) = S m;
  sd_gap : rf_logs rf !! 1 = None;
  sd_above j : Z.of_nat m + 1 < j -> rf_logs rf !! j = None
}.

Lemma started_Start m rf c :
  started m rf ->
  exists rf', Start rf c = (rf', (Z.of_nat m + 2, rf_currentTerm rf, true)) /\
    started (S m) rf' /\ rf_currentTerm rf' = rf_currentTerm rf /\
    rf_logs rf' = <[Z.of_nat m + 2 := mkLogEntry (rf_currentTerm rf) c]> (rf_logs rf).
Proof.
  intros [H1 H2 H3 H4]. unfold Start. rewrite bool_decide_true by done.
  unfold len_logs. rewrite H2. replace (Z.of_nat (S m) + 1) with (Z.of_nat m + 2) by lia.
  eexists. split; [reflexivity|]. split; [|done]. split; simpl; [done| | |].
  - rewrite map_size_insert_None by (apply H4; lia). by rewrite H2.
  - by rewrite lookup_insert_ne by lia.
  - intros j Hj. rewrite lookup_insert_ne by lia. apply H4. lia.
Qed.

Lemma started_starts cs : forall m rf, started m rf ->
  exists rf' rs, starts rf cs = (rf', rs) /\ started (m + length cs) rf' /\
    rf_currentTerm rf' = rf_currentTerm rf /\
    (forall j, j < Z.of_nat m + 2 -> rf_logs rf' !! j = rf_logs rf !! j) /\
    (forall i c, cs !! i = Some c ->
      rs !! i = Some (Z.of_nat (m + i) + 2, rf_currentTerm rf, true) /\
      rf_logs rf' !! (Z.of_nat (m + i) + 2) = Some (mkLogEntry (rf_currentTerm rf) c)).
Proof.
  induction cs as [|c0 cs IH]; intros m rf Hm.
  - exists rf, []. simpl. rewrite Nat.add_0_r. repeat split; try done; by apply Hm.
  - destruct (started_Start m rf c0 Hm) as (rf1 & E1 & Hm1 & Ht1 & Hl1).
    destruct (IH (S m) rf1 Hm1) as (rf2 & rs & E2 & Hm2 & Ht2 & Hkeep & Hall).
    exists rf2. eexists. split; [simpl; rewrite E1, E2; reflexivity|].
    rewrite Ht1 in *. split; [|split; [done|split]].
    + replace (m + length (c0 :: cs))%nat with (S m + length cs)%nat by (simpl; lia). done.
    + intros j Hj. rewrite Hkeep, Hl1 by lia. by rewrite lookup_insert_ne by lia.
    + intros [|i] c Hc; simpl in Hc.
      * simplify_eq. rewrite Nat.add_0_r. split; [done|].
        rewrite Hkeep, Hl1 by lia. apply lookup_insert_eq.
      * destruct (Hall i c Hc) as [Hr He]. simpl.
        replace (m + S i)%nat with (S m + i)%nat by lia. done.
Qed.

(** [Start] on a leader appends and never overwrites, and its first command
    gets index 2: the commands of a fresh leader land at 2, 3, ... in call
    order, each return value names the entry that holds the command with the
    current term, and index 1, where Raft's first command belongs, stays empty. *)
Theorem starts_skip_index_one rf cs i c :
  rf_state rf = Leader -> rf_logs rf = {[0 := mkLogEntry 0 None]} -> cs !! i = Some c ->
  let '(rf', rs) := starts rf cs in
  rs !! i = Some (Z.of_nat i + 2, rf_currentTerm rf, true) /\
  rf_logs rf' !! (Z.of_nat i + 2) = Some (mkLogEntry (rf_currentTerm rf) c) /\
  rf_logs rf' !! 1 = None.
Proof.
  intros Hl Hlogs Hc. assert (H0 : started 0 rf).
  { split; [done|..]; rewrite Hlogs; [by rewrite map_size_singleton| |].
    - by rewrite lookup_singleton_ne.
    - intros j Hj. by rewrite lookup_singleton_ne by lia. }
  destruct (started_starts cs 0 rf H0) as (rf' & rs & -> & Hs & _ & _ & Hall).
  destruct (Hall i c Hc) as [Hr He]. split; [exact Hr|]. split; [exact He|]. apply Hs.
Qed.
End Starts.

Lemma starts_skip_index_one_witness :
  let rf := set_leader (Cmd := string) (Make 0 3 0) ∅ ∅ in
  let '(rf', rs) := starts rf [Some "a"; Some "b"] in
  rs !! 1%nat = Some (3, 0, true) /\
  rf_logs rf' !! 3 = Some (mkLogEntry 0 (Some "b")) /\ rf_logs rf' !! 1 = None.
Proof.
  exact (starts_skip_index_one (set_leader (Cmd := string) (Make 0 3 0) ∅ ∅) [Some "a"; Some "b"] 1
    (Some "b") eq_refl eq_refl eq_refl).
Defined.
