(* ===== verification/RaftNet.v ===== *)
(** A cluster of peers of [raft1/raft.go] over the network of
    [labrpc/labrpc.go]: tickers, vote requests, heartbeats, their handlers and
    the goroutines that receive the replies, interleaved arbitrarily.  An RPC
    executes at most once and its reply arrives at most once, later or never,
    so losing, delaying and reordering messages are all runs of this system. *)
From S2P Require Import Prelude.
From S2P Require Import Raft.

Section RaftNet.
Context {Cmd : Type}.

(** The number of peers. *)
Variable n : nat.

(** One call of [requestVotes]: the argument struct and the vote counter its
    goroutines share. *)
Record election := mkElection { el_args : RequestVoteArgs; el_votes : Z }.

(** The life of one RPC: sent, executed with its reply on the way, and over. *)
Inductive call_state (R : Type) := Sent | Replied (r : R) | Over.
Arguments Sent {R}.
Arguments Replied {R} r.
Arguments Over {R}.

(** A RequestVote RPC of election [vc_eid] to peer [vc_to]. *)
Record vote_call := mkVoteCall
  { vc_eid : nat; vc_to : Z; vc_state : call_state RequestVoteReply }.

(** A heartbeat RPC. *)
Record append_call := mkAppendCall
  { ac_from : Z; ac_to : Z; ac_args : AppendEntriesArgs Cmd;
    ac_state : call_state AppendEntriesReply }.

Record net := mkNet {
  net_srv : Z -> Raft Cmd;
  net_timer : Z -> Z;                 (* each ticker's [lastElectionTime] *)
  net_elect : list election;
  net_votes : list vote_call;
  net_appends : list append_call
}.

Definition net_init : net := mkNet (fun i => Make 0 n i) (fun _ => 0) [] [] [].

Inductive nlabel :=
| LElection (i now timeout : Z)
| LHeartbeat (i now : Z)
| LVoteExec (k : nat)
| LVoteReply (k : nat)
| LAppendExec (k : nat) (now : Z)
| LAppendReply (k : nat)
| LStart (i : Z) (command : option Cmd)
| LKill (i : Z).

Definition is_peer (i : Z) : bool := (0 <=? i) && (i <? Z.of_nat n).

Definition with_srv (s : net) (i : Z) (rf : Raft Cmd) : net :=
  mkNet (<[i := rf]> (net_srv s)) (net_timer s) (net_elect s) (net_votes s) (net_appends s).

Definition net_step (s : net) (lab : nlabel) : option net :=
  match lab with
  | LElection i now timeout =>
      (* first critical section of [ticker], then [requestVotes] *)
      if is_peer i && negb (killed (net_srv s i)) && (300 <=? timeout) && (timeout <? 600) then
        let '(rf, last, el) := ticker_election now timeout (net_srv s i) (net_timer s i) in
        match el with
        | None => Some s
        | Some (term, lastIndex, lastTerm) =>
            let reqs := requestVotes rf term lastIndex lastTerm in
            Some (mkNet (<[i := rf]> (net_srv s)) (<[i := last]> (net_timer s))
              (net_elect s ++ [mkElection (mkRequestVoteArgs term i lastIndex lastTerm) 1])
              (net_votes s ++
                 ((fun r => mkVoteCall (length (net_elect s)) r.1 Sent) <$> reqs))
              (net_appends s))
        end
      else None
  | LHeartbeat i now =>
      (* second critical section of [ticker] *)
      if is_peer i then
        let '(sends, last) := ticker_heartbeat now (net_srv s i) (net_timer s i) in
        Some (mkNet (net_srv s) (<[i := last]> (net_timer s)) (net_elect s) (net_votes s)
               (net_appends s ++ ((fun r => mkAppendCall i r.1 r.2 Sent) <$> sends)))
      else None
  | LVoteExec k =>
      vc ← net_votes s !! k;
      el ← net_elect s !! vc_eid vc;
      match vc_state vc with
      | Sent =>
          let '(rf, reply) := RequestVote (net_srv s (vc_to vc)) (el_args el) in
          Some (mkNet (<[vc_to vc := rf]> (net_srv s)) (net_timer s) (net_elect s)
                 (<[k := mkVoteCall (vc_eid vc) (vc_to vc) (Replied reply)]> (net_votes s))
                 (net_appends s))
      | _ => None
      end
  | LVoteReply k =>
      vc ← net_votes s !! k;
      el ← net_elect s !! vc_eid vc;
      match vc_state vc with
      | Replied reply =>
          let i := RequestVoteArgs_CandidateId (el_args el) in
          let '(rf, votes) := vote_reply (net_srv s i) (el_args el) (el_votes el) reply in
          Some (mkNet (<[i := rf]> (net_srv s)) (net_timer s)
                 (<[vc_eid vc := mkElection (el_args el) votes]> (net_elect s))
                 (<[k := mkVoteCall (vc_eid vc) (vc_to vc) Over]> (net_votes s))
                 (net_appends s))
      | _ => None
      end
  | LAppendExec k now =>
      ac ← net_appends s !! k;
      match ac_state ac with
      | Sent =>
          let '(rf, reply) := AppendEntries now (net_srv s (ac_to ac)) (ac_args ac) in
          Some (mkNet (<[ac_to ac := rf]> (net_srv s)) (net_timer s) (net_elect s) (net_votes s)
                 (<[k := mkAppendCall (ac_from ac) (ac_to ac) (ac_args ac) (Replied reply)]>
                    (net_appends s)))
      | _ => None
      end
  | LAppendReply k =>
      ac ← net_appends s !! k;
      match ac_state ac with
      | Replied reply =>
          let rf := heartbeat_reply (net_srv s (ac_from ac)) reply in
          Some (mkNet (<[ac_from ac := rf]> (net_srv s)) (net_timer s) (net_elect s) (net_votes s)
                 (<[k := mkAppendCall (ac_from ac) (ac_to ac) (ac_args ac) Over]> (net_appends s)))
      | _ => None
      end
  | LStart i command =>
      if is_peer i then Some (with_srv s i (Start (net_srv s i) command).1) else None
  | LKill i =>
      if is_peer i then Some (with_srv s i (Kill (net_srv s i))) else None
  end.

Fixpoint net_run (s : net) (labs : list nlabel) : option net :=
  match labs with
  | [] => Some s
  | lab :: labs' => s' ← net_step s lab; net_run s' labs'
  end.

(** A crash and restart of peer [i] ([ShutdownServer] and [StartServer] of
    [tester1/group.go], then [Make]): the new instance starts from what was
    persisted, which is nothing; goroutines of the old one act on the old
    object. *)
Definition crash_restart (s : net) (i now : Z) : net :=
  mkNet (<[i := Make now n i]> (net_srv s)) (<[i := now]> (net_timer s)) (net_elect s)
    ((fun vc => match net_elect s !! vc_eid vc with
                | Some el => if RequestVoteArgs_CandidateId (el_args el) =? i
                             then mkVoteCall (vc_eid vc) (vc_to vc) Over else vc
                | None => vc end) <$> net_votes s)
    ((fun ac => if ac_from ac =? i
                then mkAppendCall (ac_from ac) (ac_to ac) (ac_args ac) Over else ac)
       <$> net_appends s).

(** ** What the handlers do to a peer's term, vote and role *)

Definition peer (i : Z) : Prop := 0 <= i < Z.of_nat n.

Lemma is_peer_iff i : is_peer i = true <-> peer i.
Proof. unfold is_peer, peer. rewrite andb_true_iff, Z.leb_le, Z.ltb_lt. done. Qed.

(** [rf'] is a peer that has moved on to a higher term as an unvoted follower. *)
Definition bumped (rf rf' : Raft Cmd) (t : Z) : Prop :=
  rf_me rf' = rf_me rf /\ rf_peers rf' = rf_peers rf /\
  rf_currentTerm rf < t /\ rf_currentTerm rf' = t /\
  rf_votedFor rf' = -1 /\ rf_state rf' = Follower.

(** [rf'] has the same identity, term, vote and role as [rf]. *)
Definition same_role (rf rf' : Raft Cmd) : Prop :=
  rf_me rf' = rf_me rf /\ rf_peers rf' = rf_peers rf /\
  rf_currentTerm rf' = rf_currentTerm rf /\ rf_votedFor rf' = rf_votedFor rf /\
  rf_state rf' = rf_state rf.

(** [rf'] has just voted for [c] in term [t]. *)
Definition voted (rf rf' : Raft Cmd) (t c : Z) : Prop :=
  rf_me rf' = rf_me rf /\ rf_peers rf' = rf_peers rf /\
  rf_currentTerm rf <= t /\ rf_currentTerm rf' = t /\ rf_votedFor rf' = c /\
  ((rf_currentTerm rf < t /\ rf_state rf' <> Leader) \/
   (rf_currentTerm rf = t /\ (rf_votedFor rf = -1 \/ rf_votedFor rf = c) /\
    rf_state rf' = rf_state rf)).

Lemma RequestVote_cases (rf : Raft Cmd) args :
  let '(rf', reply) := RequestVote rf args in
  (RequestVoteReply_VoteGranted reply = true /\
     voted rf rf' (RequestVoteArgs_Term args) (RequestVoteArgs_CandidateId args) /\
     RequestVoteReply_Term reply = RequestVoteArgs_Term args) \/
  (RequestVoteReply_VoteGranted reply = false /\
     ((same_role rf rf' /\ RequestVoteReply_Term reply = rf_currentTerm rf) \/
      (bumped rf rf' (RequestVoteArgs_Term args) /\
       RequestVoteReply_Term reply = RequestVoteArgs_Term args))).
Proof.
  unfold RequestVote.
  destruct (Z.ltb_spec (RequestVoteArgs_Term args) (rf_currentTerm rf)).
  { right. split; [done|]. left. by repeat split. }
  rewrite Z.gtb_ltb.
  destruct (Z.ltb_spec (rf_currentTerm rf) (RequestVoteArgs_Term args)).
  - destruct (_ && _); simpl.
    + left. split; [done|]. split; [|done]. repeat split; simpl; try lia. left. by split.
    + right. split; [done|]. right. split; [|done]. by repeat split.
  - assert (RequestVoteArgs_Term args = rf_currentTerm rf) as Ht by lia.
    destruct (_ && _) eqn:E; simpl.
    + left. split; [done|]. split; [|done]. repeat split; simpl; try lia.
      right. split; [done|]. split; [|done].
      apply andb_true_iff in E as [E _]. apply orb_true_iff in E.
      destruct E as [E|E]; apply Z.eqb_eq in E; auto.
    + right. split; [done|]. left. by repeat split.
Qed.

Lemma AppendEntries_cases now (rf : Raft Cmd) args :
  let '(rf', reply) := AppendEntries now rf args in
  (same_role rf rf' \/ bumped rf rf' (AppendEntriesArgs_Term args)) /\
  (AppendEntriesReply_Term reply = rf_currentTerm rf \/
   AppendEntriesReply_Term reply = AppendEntriesArgs_Term args).
Proof.
  unfold AppendEntries. rewrite Z.gtb_ltb.
  destruct (Z.ltb_spec (AppendEntriesArgs_Term args) (rf_currentTerm rf)).
  { split; [left; by repeat split|by left]. }
  rewrite Z.gtb_ltb.
  destruct (Z.ltb_spec (rf_currentTerm rf) (AppendEntriesArgs_Term args)); simpl;
    repeat case_match; simplify_eq; simpl; (split; [|auto]);
    (left; by repeat split) || (right; by repeat split).
Qed.

(** ** The invariant on terms and votes *)

(** [hist] holds every vote ever cast, as (term, voter, candidate). *)
Record srv_inv (k : Z) (srv : Z -> Raft Cmd) (hist : gset (Z * Z * Z)) : Prop := {
  si_me i : peer i -> rf_me (srv i) = i /\ rf_peers (srv i) = n;
  si_term i : peer i -> 0 <= rf_currentTerm (srv i) <= k;
  si_fun t v c1 c2 : (t, v, c1) ∈ hist -> (t, v, c2) ∈ hist -> c1 = c2;
  si_vote i : peer i -> rf_votedFor (srv i) <> -1 ->
    (rf_currentTerm (srv i), i, rf_votedFor (srv i)) ∈ hist;
  si_hist t v c : (t, v, c) ∈ hist -> peer v /\ 0 <= c /\ t <= rf_currentTerm (srv v) /\
    (t = rf_currentTerm (srv v) -> rf_votedFor (srv v) = c);
  si_leader i : peer i -> rf_state (srv i) = Leader ->
    exists Q, Q ⊆ range_set n /\ Z.of_nat n / 2 < Z.of_nat (size Q) /\
      forall v, v ∈ Q -> (rf_currentTerm (srv i), v, i) ∈ hist
}.

Lemma srv_inv_init : srv_inv 0 (net_srv net_init) ∅.
Proof. split; simpl; try done; intros; try lia; try set_solver. Qed.

Lemma srv_inv_weaken k k' srv hist : k <= k' -> srv_inv k srv hist -> srv_inv k' srv hist.
Proof.
  intros Hk [H1 H2 H3 H4 H5 H6]. split; try done. intros i Hi. specialize (H2 i Hi). lia.
Qed.

(** Changing one peer: the obligations that are not about it are inherited. *)
Lemma srv_inv_update k srv hist i rf' :
  srv_inv k srv hist -> peer i ->
  rf_me rf' = rf_me (srv i) -> rf_peers rf' = rf_peers (srv i) ->
  rf_currentTerm (srv i) <= rf_currentTerm rf' <= k ->
  (rf_votedFor rf' <> -1 -> (rf_currentTerm rf', i, rf_votedFor rf') ∈ hist) ->
  (forall c, (rf_currentTerm rf', i, c) ∈ hist -> rf_votedFor rf' = c) ->
  (rf_state rf' = Leader -> exists Q, Q ⊆ range_set n /\ Z.of_nat n / 2 < Z.of_nat (size Q) /\
      forall v, v ∈ Q -> (rf_currentTerm rf', v, i) ∈ hist) ->
  srv_inv k (<[i := rf']> srv) hist.
Proof.
  intros [H1 H2 H3 H4 H5 H6] Hi Hme Hpeers Hterm Hvote Hhist Hlead.
  assert (Hsplit : forall j, (j = i /\ <[i := rf']> srv j = rf') \/
                             (j <> i /\ <[i := rf']> srv j = srv j)).
  { intros j. destruct (decide (j = i)) as [->|Hj]; [left|right]; (split; [done|]);
      [apply fn_lookup_insert|by apply fn_lookup_insert_ne]. }
  split; try done.
  - intros j Hj. destruct (Hsplit j) as [[-> ->]|[_ ->]]; [|by apply H1].
    rewrite Hme, Hpeers. by apply H1.
  - intros j Hj. destruct (Hsplit j) as [[-> ->]|[_ ->]]; [|by apply H2].
    specialize (H2 i Hi). lia.
  - intros j Hj. destruct (Hsplit j) as [[-> ->]|[_ ->]]; [done|by apply H4].
  - intros t v c Hin. destruct (H5 _ _ _ Hin) as (Hv & Hc & Ht & Heq).
    split; [done|]. split; [done|].
    destruct (Hsplit v) as [[-> ->]|[_ ->]]; [|done].
    split; [lia|]. intros ->. by apply Hhist.
  - intros j Hj. destruct (Hsplit j) as [[-> ->]|[_ ->]]; [done|by apply H6].
Qed.

Lemma srv_inv_bumped k srv hist i rf' t :
  srv_inv k srv hist -> peer i -> bumped (srv i) rf' t -> t <= k ->
  srv_inv k (<[i := rf']> srv) hist.
Proof.
  intros Hinv Hi (Hme & Hp & Hlt & Ht & Hv & Hs) Hk.
  apply srv_inv_update; try done; try lia.
  - rewrite Ht. intros c Hin. pose proof (si_hist _ _ _ Hinv _ _ _ Hin). lia.
  - by rewrite Hs.
Qed.

Lemma srv_inv_same k srv hist i rf' :
  srv_inv k srv hist -> peer i -> same_role (srv i) rf' ->
  srv_inv k (<[i := rf']> srv) hist.
Proof.
  intros Hinv Hi (Hme & Hp & Ht & Hv & Hs).
  pose proof (si_term _ _ _ Hinv i Hi). apply srv_inv_update; try done; try lia.
  - rewrite Ht, Hv. by apply (si_vote _ _ _ Hinv).
  - rewrite Ht, Hv. intros c Hin. by apply (si_hist _ _ _ Hinv _ _ _ Hin).
  - rewrite Ht, Hs. by apply (si_leader _ _ _ Hinv).
Qed.

(** Casting a vote extends the history by one triple. *)
Lemma srv_inv_voted k srv hist i rf' t c :
  srv_inv k srv hist -> peer i -> voted (srv i) rf' t c -> 0 <= c -> t <= k ->
  srv_inv k (<[i := rf']> srv) ({[(t, i, c)]} ∪ hist).
Proof.
  intros Hinv Hi (Hme & Hp & Hle & Ht & Hv & Hcase) Hc Hk.
  pose proof (si_term _ _ _ Hinv i Hi) as Hti.
  assert (Hold : forall c', (t, i, c') ∈ hist -> c' = c).
  { intros c' Hin. destruct (si_hist _ _ _ Hinv _ _ _ Hin) as (_ & Hc' & Ht' & Heq).
    destruct Hcase as [[Hlt _]|(He & [Hm|Hm] & _)]; [lia| |]; specialize (Heq (eq_sym He)); lia. }
  assert (Hother : forall j, j <> i -> <[i := rf']> srv j = srv j)
    by (intros j Hj; by apply fn_lookup_insert_ne).
  assert (Hself : <[i := rf']> srv i = rf') by apply fn_lookup_insert.
  destruct Hinv as [H1 H2 H3 H4 H5 H6]. split.
  - intros j Hj. destruct (decide (j = i)) as [->|Hne]; [|rewrite Hother by done; by apply H1].
    rewrite Hself, Hme, Hp. by apply H1.
  - intros j Hj. destruct (decide (j = i)) as [->|Hne]; [|rewrite Hother by done; by apply H2].
    rewrite Hself. lia.
  - intros t' v c1 c2 [E1%elem_of_singleton|E1]%elem_of_union [E2%elem_of_singleton|E2]%elem_of_union;
      simplify_eq; try done; [symmetry| |]; [by apply Hold|by apply Hold|by eapply H3].
  - intros j Hj. destruct (decide (j = i)) as [->|Hne].
    + rewrite Hself, Ht, Hv. intros _. apply elem_of_union. left. by apply elem_of_singleton.
    + rewrite Hother by done. intros Hne1. apply elem_of_union. right. by apply H4.
  - intros t' v c' [E%elem_of_singleton|E]%elem_of_union.
    + simplify_eq. rewrite Hself. split; [done|]. split; [done|]. by split; [lia|].
    + destruct (H5 _ _ _ E) as (Hv' & Hc' & Ht' & Heq).
      destruct (decide (v = i)) as [->|Hne].
      * rewrite Hself, Ht, Hv. split; [done|]. split; [done|]. split; [lia|].
        intros ->. symmetry. by apply Hold.
      * rewrite Hother by done. done.
  - intros j Hj. destruct (decide (j = i)) as [->|Hne].
    + rewrite Hself, Ht. intros Hl. destruct Hcase as [[_ Hnl]|(He & _ & Hs)]; [done|].
      rewrite Hs in Hl. destruct (H6 i Hi Hl) as (Q & HQ & Hsz & Hall).
      exists Q. split; [done|]. split; [done|]. intros v Hvq. apply elem_of_union. right.
      rewrite <- He. by apply Hall.
    + rewrite Hother by done. intros Hl. destruct (H6 j Hj Hl) as (Q & HQ & Hsz & Hall).
      exists Q. split; [done|]. split; [done|]. intros v Hvq. apply elem_of_union. right. by apply Hall.
Qed.

(** ** The invariant on elections and messages *)

Implicit Types (hist : gset (Z * Z * Z)) (counted : nat -> gset Z).

Definition el_term (el : election) : Z := RequestVoteArgs_Term (el_args el).
Definition el_cand (el : election) : Z := RequestVoteArgs_CandidateId (el_args el).

(** [counted e] holds the voters whose grants election [e] has counted. *)
Record elect_ok (k : Z) hist (cs : gset Z) (el : election) : Prop := {
  eo_cand : peer (el_cand el);
  eo_term : 0 <= el_term el <= k;
  eo_self : (el_term el, el_cand el, el_cand el) ∈ hist;
  eo_votes : el_votes el = 1 + Z.of_nat (size cs);
  eo_range : cs ⊆ range_set n;
  eo_notself : el_cand el ∉ cs;
  eo_hist v : v ∈ cs -> (el_term el, v, el_cand el) ∈ hist
}.

Record vcall_ok (k : Z) hist (cs : gset Z) (el : election) (vc : vote_call) : Prop := {
  vo_to : peer (vc_to vc);
  vo_notself : vc_to vc <> el_cand el;
  vo_fresh : vc_state vc <> Over -> vc_to vc ∉ cs;
  vo_reply r : vc_state vc = Replied r ->
    RequestVoteReply_Term r <= k /\
    (RequestVoteReply_VoteGranted r = true -> (el_term el, vc_to vc, el_cand el) ∈ hist)
}.

Definition heartbeat_args (args : AppendEntriesArgs Cmd) : Prop :=
  AppendEntriesArgs_PrevLogIndex args = 0 /\ AppendEntriesArgs_Entries args = [] /\
  AppendEntriesArgs_LeaderCommit args = 0.

Record acall_ok (k : Z) (ac : append_call) : Prop := {
  ao_from : peer (ac_from ac);
  ao_to : peer (ac_to ac);
  ao_term : AppendEntriesArgs_Term (ac_args ac) <= k;
  ao_shape : heartbeat_args (ac_args ac);
  ao_reply r : ac_state ac = Replied r -> AppendEntriesReply_Term r <= k
}.

Record net_inv (k : Z) (s : net) hist counted : Prop := {
  ni_srv : srv_inv k (net_srv s) hist;
  ni_elect e el : net_elect s !! e = Some el -> elect_ok k hist (counted e) el;
  ni_future e : (length (net_elect s) <= e)%nat -> counted e = ∅;
  ni_vote j vc : net_votes s !! j = Some vc ->
    exists el, net_elect s !! vc_eid vc = Some el /\ vcall_ok k hist (counted (vc_eid vc)) el vc;
  ni_uniq : NoDup ((fun vc => (vc_eid vc, vc_to vc)) <$> net_votes s);
  ni_append j ac : net_appends s !! j = Some ac -> acall_ok k ac;
  ni_commit i : peer i -> rf_commitIndex (net_srv s i) = 0
}.

Lemma elect_ok_mono k k' hist hist' cs el :
  k <= k' -> hist ⊆ hist' -> elect_ok k hist cs el -> elect_ok k' hist' cs el.
Proof. intros Hk Hh [H1 H2 H3 H4 H5 H6 H7]. split; try done; try lia; auto. Qed.

Lemma vcall_ok_mono k k' hist hist' cs el vc :
  k <= k' -> hist ⊆ hist' -> vcall_ok k hist cs el vc -> vcall_ok k' hist' cs el vc.
Proof.
  intros Hk Hh [H1 H2 H3 H4]. split; try done. intros r Hr. destruct (H4 r Hr) as [Ht Hg].
  split; [lia|auto].
Qed.

Lemma acall_ok_mono k k' ac : k <= k' -> acall_ok k ac -> acall_ok k' ac.
Proof.
  intros Hk [H1 H2 H3 H4 H5]. split; try done; try lia. intros r Hr. specialize (H5 r Hr). lia.
Qed.

Lemma net_inv_weaken k k' s hist counted :
  k <= k' -> net_inv k s hist counted -> net_inv k' s hist counted.
Proof.
  intros Hk [I1 I2 I3 I4 I5 I6 I7]. split; try done.
  - by eapply srv_inv_weaken.
  - intros e el He. eapply elect_ok_mono; [done|done|by apply I2].
  - intros j vc Hj. destruct (I4 j vc Hj) as (el & He & Hv). exists el. split; [done|].
    by eapply vcall_ok_mono.
  - intros j ac Hj. eapply acall_ok_mono; [done|by eapply I6].
Qed.

Lemma net_inv_init : net_inv 0 net_init ∅ (fun _ => ∅).
Proof.
  split; [apply srv_inv_init|try done..]. constructor.
Qed.

(** A step that changes one peer and no election or message. *)
Lemma net_inv_srv k k' s hist hist' counted i rf' timer :
  net_inv k s hist counted -> k <= k' -> hist ⊆ hist' ->
  srv_inv k' (<[i := rf']> (net_srv s)) hist' ->
  rf_commitIndex rf' = 0 ->
  net_inv k' (mkNet (<[i := rf']> (net_srv s)) timer (net_elect s) (net_votes s) (net_appends s))
    hist' counted.
Proof.
  intros [I1 I2 I3 I4 I5 I6 I7] Hk Hh Hs Hci. split; simpl; try done.
  - intros e el He. eapply elect_ok_mono; [done|done|by apply I2].
  - intros j vc Hj. destruct (I4 j vc Hj) as (el & He & Hv). exists el. split; [done|].
    by eapply vcall_ok_mono.
  - intros j ac Hj. eapply acall_ok_mono; [done|by eapply I6].
  - intros j Hj. destruct (decide (j = i)) as [->|Hne];
      [by rewrite fn_lookup_insert|rewrite fn_lookup_insert_ne by done; by apply I7].
Qed.

(** Updating the state of one vote RPC. *)
Lemma net_inv_vcall k s hist counted j vc st' :
  net_inv k s hist counted -> net_votes s !! j = Some vc ->
  (forall el, net_elect s !! vc_eid vc = Some el ->
     vcall_ok k hist (counted (vc_eid vc)) el (mkVoteCall (vc_eid vc) (vc_to vc) st')) ->
  net_inv k (mkNet (net_srv s) (net_timer s) (net_elect s)
    (<[j := mkVoteCall (vc_eid vc) (vc_to vc) st']> (net_votes s)) (net_appends s)) hist counted.
Proof.
  intros [I1 I2 I3 I4 I5 I6 I7] Hj Hok. split; simpl; try done.
  - intros j' vc' Hj'. destruct (decide (j = j')) as [<-|Hne].
    + rewrite list_lookup_insert_eq in Hj' by (by eapply lookup_lt_Some).
      injection Hj' as <-. simpl. destruct (I4 j vc Hj) as (el & He & _). exists el.
      split; [done|by apply Hok].
    + rewrite list_lookup_insert_ne in Hj' by done. by eapply I4.
  - rewrite list_fmap_insert. simpl. rewrite list_insert_id; [done|].
    rewrite list_lookup_fmap, Hj. done.
Qed.

Lemma net_inv_acall k s hist counted j ac st' :
  net_inv k s hist counted -> net_appends s !! j = Some ac ->
  acall_ok k (mkAppendCall (ac_from ac) (ac_to ac) (ac_args ac) st') ->
  net_inv k (mkNet (net_srv s) (net_timer s) (net_elect s) (net_votes s)
    (<[j := mkAppendCall (ac_from ac) (ac_to ac) (ac_args ac) st']> (net_appends s))) hist counted.
Proof.
  intros [I1 I2 I3 I4 I5 I6 I7] Hj Hok. split; simpl; try done.
  intros j' ac' Hj'. destruct (decide (j = j')) as [<-|Hne].
  - rewrite list_lookup_insert_eq in Hj' by (by eapply lookup_lt_Some). by injection Hj' as <-.
  - rewrite list_lookup_insert_ne in Hj' by done. by eapply I6.
Qed.

Lemma set_election_commit (rf : Raft Cmd) st t v :
  rf_commitIndex (set_election rf st t v) = rf_commitIndex rf.
Proof. done. Qed.

Lemma RequestVote_commit (rf : Raft Cmd) args :
  rf_commitIndex (RequestVote rf args).1 = rf_commitIndex rf.
Proof. unfold RequestVote. repeat case_match; simplify_eq; done. Qed.

Lemma AppendEntries_heartbeat_commit now (rf : Raft Cmd) args :
  heartbeat_args args -> rf_commitIndex rf = 0 ->
  rf_commitIndex (AppendEntries now rf args).1 = 0.
Proof.
  intros (Hp & He & Hc) H0. unfold AppendEntries. rewrite Hp, He, Hc. simpl.
  repeat (rewrite ?H0; case_match; simplify_eq; simpl in *; try done); congruence.
Qed.

(** *** Elections *)

Lemma others_spec (rf : Raft Cmd) j :
  rf_peers rf = n -> j ∈ others rf <-> peer j /\ j <> rf_me rf.
Proof.
  intros Hn. unfold others. rewrite list_elem_of_filter, Hn, elem_of_range. unfold peer. tauto.
Qed.

Lemma NoDup_others (rf : Raft Cmd) : NoDup (others rf).
Proof. unfold others. apply NoDup_filter, NoDup_range. Qed.

Lemma fmap_calls_pairs e (js : list Z) :
  ((fun vc => (vc_eid vc, vc_to vc)) <$>
     ((fun j => mkVoteCall e j Sent) <$> js)) = (fun j => (e, j)) <$> js.
Proof. rewrite <- list_fmap_compose. done. Qed.

Lemma net_inv_election k s hist counted i rf' t args timer :
  net_inv k s hist counted -> peer i -> 0 <= t <= k + 1 ->
  RequestVoteArgs_Term args = t -> RequestVoteArgs_CandidateId args = i ->
  voted (net_srv s i) rf' t i -> rf_commitIndex rf' = 0 ->
  net_inv (k + 1)
    (mkNet (<[i := rf']> (net_srv s)) timer (net_elect s ++ [mkElection args 1])
      (net_votes s ++ ((fun j => mkVoteCall (length (net_elect s)) j Sent) <$> others rf'))
      (net_appends s))
    ({[(t, i, i)]} ∪ hist) counted.
Proof.
  intros Hinv Hi Ht Hat Hac Hv Hci.
  pose proof (ni_srv _ _ _ _ Hinv) as Hs.
  destruct (si_me _ _ _ Hs i Hi) as [Hme Hpeers].
  assert (Hoth : forall j, j ∈ others rf' <-> peer j /\ j <> i).
  { intros j. destruct Hv as (Hm & Hp & _). rewrite others_spec by congruence.
    by rewrite Hm, Hme. }
  assert (Hh : hist ⊆ {[(t, i, i)]} ∪ hist) by (apply union_subseteq_r).
  assert (Hs' : srv_inv (k + 1) (<[i := rf']> (net_srv s)) ({[(t, i, i)]} ∪ hist)).
  { apply srv_inv_voted; try done; try (unfold peer in *; lia).
    eapply srv_inv_weaken; [|exact Hs]. lia. }
  pose proof (net_inv_srv k (k + 1) s hist _ counted i rf' timer Hinv ltac:(lia) Hh Hs' Hci)
    as [J1 J2 J3 J4 J5 J6 J7]; simpl in *.
  assert (Hc0 : counted (length (net_elect s)) = ∅) by (by apply J3).
  split; simpl; try done.
  - intros e el He. destruct (decide (e < length (net_elect s))%nat) as [Hlt|Hge].
    + rewrite lookup_app_l in He by done. by apply J2.
    + rewrite lookup_app_r in He by lia.
      apply list_lookup_singleton_Some in He as [He <-].
      replace e with (length (net_elect s)) by lia. rewrite Hc0.
      split; unfold el_cand, el_term; simpl; rewrite ?Hat, ?Hac; try done; try lia.
      apply elem_of_union_l. by apply elem_of_singleton.
  - intros e He. rewrite length_app in He. simpl in He. apply J3. lia.
  - intros j vc Hj. destruct (decide (j < length (net_votes s))%nat) as [Hlt|Hge].
    + rewrite lookup_app_l in Hj by done. destruct (J4 j vc Hj) as (el & He & Hok).
      exists el. split; [|done]. rewrite lookup_app_l; [done|by eapply lookup_lt_Some].
    + rewrite lookup_app_r in Hj by lia. apply list_lookup_fmap_Some in Hj as (x & -> & Hx).
      assert (Hin : x ∈ others rf') by (by eapply list_elem_of_lookup_2).
      apply Hoth in Hin as [Hpx Hne]. exists (mkElection args 1). simpl.
      split; [rewrite lookup_app_r, Nat.sub_diag by done; done|].
      rewrite Hc0. split; unfold el_cand; simpl; rewrite ?Hac; try done.
  - rewrite fmap_app, fmap_calls_pairs. apply NoDup_app. split; [done|]. split.
    + intros [e j] (vc & Heq & Hvc)%list_elem_of_fmap (j' & Heq' & _)%list_elem_of_fmap.
      apply list_elem_of_lookup in Hvc as [m Hm]. destruct (J4 m vc Hm) as (el & He & _).
      apply lookup_lt_Some in He. simplify_eq. lia.
    + apply NoDup_fmap_2; [by intros ?? [= ->]|apply NoDup_others].
Qed.

(** A delivered grant that is counted. *)
Lemma net_inv_count k s hist counted j vc el rf' :
  net_inv k s hist counted -> net_votes s !! j = Some vc ->
  net_elect s !! vc_eid vc = Some el -> vc_state vc <> Over ->
  (el_term el, vc_to vc, el_cand el) ∈ hist ->
  srv_inv k (<[el_cand el := rf']> (net_srv s)) hist -> rf_commitIndex rf' = 0 ->
  net_inv k (mkNet (<[el_cand el := rf']> (net_srv s)) (net_timer s)
      (<[vc_eid vc := mkElection (el_args el) (el_votes el + 1)]> (net_elect s))
      (<[j := mkVoteCall (vc_eid vc) (vc_to vc) Over]> (net_votes s)) (net_appends s))
    hist (<[vc_eid vc := {[vc_to vc]} ∪ counted (vc_eid vc)]> counted).
Proof.
  intros Hinv Hj He Hst Hh Hs Hci.
  pose proof (net_inv_srv k k s hist hist counted (el_cand el) rf' (net_timer s) Hinv
                ltac:(lia) ltac:(done) Hs Hci) as [J1 J2 J3 J4 J5 J6 J7]; simpl in *.
  destruct (J4 j vc Hj) as (el0 & He0 & Hvc).
  assert (el0 = el) as -> by congruence.
  assert (Hfresh : vc_to vc ∉ counted (vc_eid vc)) by (by apply (vo_fresh _ _ _ _ _ Hvc)).
  assert (Hlt : (vc_eid vc < length (net_elect s))%nat) by (by eapply lookup_lt_Some).
  split; simpl; try done.
  - intros e el' He'. destruct (decide (vc_eid vc = e)) as [<-|Hne].
    + rewrite list_lookup_insert_eq in He' by done. injection He' as <-.
      rewrite fn_lookup_insert. destruct (J2 _ _ He) as [E1 E2 E3 E4 E5 E6 E7].
      split; unfold el_cand, el_term in *; simpl; try done.
      * rewrite size_union by (apply disjoint_singleton_l; done). rewrite size_singleton. lia.
      * apply union_subseteq. split; [|done]. apply singleton_subseteq_l, elem_of_range_set.
        apply (vo_to _ _ _ _ _ Hvc).
      * intros [Hc%elem_of_singleton|Hc]%elem_of_union; [|done].
        by apply (vo_notself _ _ _ _ _ Hvc).
      * intros v [->%elem_of_singleton|Hv]%elem_of_union; [done|by apply E7].
    + rewrite list_lookup_insert_ne in He' by done. rewrite fn_lookup_insert_ne by done.
      by apply J2.
  - intros e Hle. rewrite length_insert in Hle. rewrite fn_lookup_insert_ne by lia. by apply J3.
  - intros j' vc' Hj'.
    assert (Hkeep : forall vc0, net_votes s !! j' = Some vc0 -> j <> j' ->
      exists el', <[vc_eid vc := mkElection (el_args el) (el_votes el + 1)]> (net_elect s) !! vc_eid vc0 = Some el' /\
        vcall_ok k hist (<[vc_eid vc := {[vc_to vc]} ∪ counted (vc_eid vc)]> counted (vc_eid vc0)) el' vc0).
    { intros vc0 Hj0 Hne. destruct (J4 j' vc0 Hj0) as (el' & He' & Hok).
      destruct (decide (vc_eid vc = vc_eid vc0)) as [Heq|Hneq].
      - rewrite <- Heq in *. assert (el' = el) as -> by congruence.
        eexists. split; [by rewrite list_lookup_insert_eq by done|]. rewrite fn_lookup_insert.
        destruct Hok as [O1 O2 O3 O4]. split; try done.
        intros Hs0 [Hc%elem_of_singleton|Hc]%elem_of_union; [|by apply O3].
        apply Hne. eapply (NoDup_lookup _ _ _ (vc_eid vc, vc_to vc) J5).
        + rewrite list_lookup_fmap, Hj. done.
        + rewrite list_lookup_fmap, Hj0. simpl. by rewrite Hc, Heq.
      - exists el'. rewrite list_lookup_insert_ne, fn_lookup_insert_ne by done. by split. }
    destruct (decide (j = j')) as [<-|Hne].
    + rewrite list_lookup_insert_eq in Hj' by (by eapply lookup_lt_Some). injection Hj' as <-.
      simpl. eexists. split; [by rewrite list_lookup_insert_eq by done|].
      destruct Hvc as [O1 O2 O3 O4]. split; simpl; try done.
    + rewrite list_lookup_insert_ne in Hj' by done. by apply Hkeep.
  - rewrite list_fmap_insert. simpl. rewrite list_insert_id; [done|].
    rewrite list_lookup_fmap, Hj. done.
Qed.

Lemma vote_reply_cases (rf : Raft Cmd) args votes reply :
  let '(rf', votes') := vote_reply rf args votes reply in
  rf_commitIndex rf' = rf_commitIndex rf /\
  ((same_role rf rf' /\ votes' = votes) \/
   (bumped rf rf' (RequestVoteReply_Term reply) /\ votes' = votes) \/
   (RequestVoteReply_VoteGranted reply = true /\ votes' = votes + 1 /\
    rf_currentTerm rf = RequestVoteArgs_Term args /\
    rf_me rf' = rf_me rf /\ rf_peers rf' = rf_peers rf /\
    rf_currentTerm rf' = rf_currentTerm rf /\ rf_votedFor rf' = rf_votedFor rf /\
    (rf_state rf' <> Leader \/ Z.of_nat (rf_peers rf) / 2 < votes'))).
Proof.
  unfold vote_reply.
  destruct (bool_decide (rf_state rf = Candidate)) eqn:Ec; simpl;
    [|split; [done|left; by repeat split]].
  destruct (Z.eqb_spec (rf_currentTerm rf) (RequestVoteArgs_Term args)) as [Ht|]; simpl;
    [|split; [done|left; by repeat split]].
  rewrite Z.gtb_ltb.
  destruct (Z.ltb_spec (rf_currentTerm rf) (RequestVoteReply_Term reply)); simpl;
    [split; [done|right; left; by repeat split]|].
  destruct (RequestVoteReply_VoteGranted reply) eqn:Eg; simpl;
    [|split; [done|left; by repeat split]].
  rewrite Z.gtb_ltb.
  destruct (Z.ltb_spec (Z.of_nat (rf_peers rf) / 2) (votes + 1)); simpl.
  - split; [done|]. right; right. do 7 (split; [done|]). by right.
  - split; [done|]. right; right. do 7 (split; [done|]). left.
    apply bool_decide_eq_true in Ec. congruence.
Qed.

Lemma mkElection_eta el : mkElection (el_args el) (el_votes el) = el.
Proof. by destruct el. Qed.

Lemma step_election k s hist counted i now timeout s' :
  k + 1 <= int_max -> net_inv k s hist counted ->
  net_step s (LElection i now timeout) = Some s' ->
  exists hist' counted', hist ⊆ hist' /\ net_inv (k + 1) s' hist' counted'.
Proof.
  intros Hk Hinv Hstep. simpl in Hstep.
  destruct (is_peer i && _ && _ && _) eqn:Eg; [|done].
  rewrite !andb_true_iff in Eg. destruct Eg as [[[Hi _] _] _]. apply is_peer_iff in Hi.
  pose proof (si_term _ _ _ (ni_srv _ _ _ _ Hinv) i Hi) as Ht.
  destruct (si_me _ _ _ (ni_srv _ _ _ _ Hinv) i Hi) as [Hme Hp].
  unfold ticker_election in Hstep.
  destruct (negb _ && _) eqn:Ee.
  - injection Hstep as <-. unfold requestVotes. rewrite <- list_fmap_compose.
    rewrite wrap64_id by (unfold int_min; lia).
    exists ({[(rf_currentTerm (net_srv s i) + 1, i, i)]} ∪ hist), counted.
    split; [apply union_subseteq_r|].
    eapply (net_inv_election k s hist counted i _ (rf_currentTerm (net_srv s i) + 1));
      try done; try lia.
    + repeat split; simpl; try done; try lia. left. split; [lia|done].
    + apply (ni_commit _ _ _ _ Hinv i Hi).
  - injection Hstep as <-. exists hist, counted. split; [done|].
    eapply net_inv_weaken; [|done]. lia.
Qed.

(** A peer handling something that leaves its role or bumps its term. *)
Lemma net_inv_local k s hist counted i rf' t timer :
  net_inv k s hist counted -> peer i -> t <= k + 1 ->
  same_role (net_srv s i) rf' \/ bumped (net_srv s i) rf' t -> rf_commitIndex rf' = 0 ->
  net_inv (k + 1) (mkNet (<[i := rf']> (net_srv s)) timer (net_elect s) (net_votes s)
                     (net_appends s)) hist counted.
Proof.
  intros Hinv Hi Ht Hcase Hci.
  apply (net_inv_srv k (k + 1) s hist hist); try done; try lia.
  pose proof (srv_inv_weaken k (k + 1) _ _ ltac:(lia) (ni_srv _ _ _ _ Hinv)) as Hs.
  destruct Hcase; [by apply srv_inv_same|by eapply srv_inv_bumped].
Qed.

Lemma step_vote_exec k s hist counted j s' :
  net_inv k s hist counted -> net_step s (LVoteExec j) = Some s' ->
  exists hist' counted', hist ⊆ hist' /\ net_inv (k + 1) s' hist' counted'.
Proof.
  intros Hinv Hstep. simpl in Hstep.
  destruct (net_votes s !! j) as [vc|] eqn:Hj; [|done]. simpl in Hstep.
  destruct (ni_vote _ _ _ _ Hinv j vc Hj) as (el & He & Hok). rewrite He in Hstep. simpl in Hstep.
  destruct (vc_state vc) eqn:Est; try done.
  pose proof (RequestVote_cases (net_srv s (vc_to vc)) (el_args el)) as Hc.
  pose proof (RequestVote_commit (net_srv s (vc_to vc)) (el_args el)) as Hci.
  destruct (RequestVote _ _) as [rf' reply]. simpl in Hci. injection Hstep as <-.
  pose proof (ni_elect _ _ _ _ Hinv _ _ He) as Hel.
  pose proof (vo_to _ _ _ _ _ Hok) as Hpeer. pose proof (eo_term _ _ _ _ Hel) as Hterm.
  pose proof (si_term _ _ _ (ni_srv _ _ _ _ Hinv) _ Hpeer) as Hvt.
  rewrite (ni_commit _ _ _ _ Hinv _ Hpeer) in Hci.
  assert (Hfin : forall hist', hist ⊆ hist' ->
    net_inv (k + 1) (mkNet (<[vc_to vc := rf']> (net_srv s)) (net_timer s) (net_elect s)
      (net_votes s) (net_appends s)) hist' counted ->
    (RequestVoteReply_Term reply <= k + 1) ->
    (RequestVoteReply_VoteGranted reply = true -> (el_term el, vc_to vc, el_cand el) ∈ hist') ->
    exists hist' counted', hist ⊆ hist' /\ net_inv (k + 1)
      (mkNet (<[vc_to vc := rf']> (net_srv s)) (net_timer s) (net_elect s)
        (<[j := mkVoteCall (vc_eid vc) (vc_to vc) (Replied reply)]> (net_votes s))
        (net_appends s)) hist' counted').
  { intros hist' Hsub Hi' Ht' Hg'. exists hist', counted. split; [done|].
    apply (net_inv_vcall (k + 1) _ hist' counted j vc _ Hi'); [done|].
    intros el0 He0. simpl in He0. assert (el0 = el) as -> by congruence.
    destruct Hok as [O1 O2 O3 O4]. split; simpl; try done.
    - intros _. apply O3. by rewrite Est.
    - by intros r [= <-]. }
  destruct Hc as [(Hg & Hv & Ht)|(Hg & [(Hsame & Ht)|(Hb & Ht)])].
  - apply (Hfin ({[(el_term el, vc_to vc, el_cand el)]} ∪ hist)); [apply union_subseteq_r|..].
    + apply (net_inv_srv k (k + 1) s hist); try done; try lia; [apply union_subseteq_r|].
      apply srv_inv_voted; try done.
      * eapply srv_inv_weaken; [|apply (ni_srv _ _ _ _ Hinv)]. lia.
      * pose proof (eo_cand _ _ _ _ Hel). unfold peer in *. lia.
      * lia.
    + unfold el_term in *. lia.
    + intros _. apply elem_of_union_l. by apply elem_of_singleton.
  - apply (Hfin hist); [done| |lia|congruence].
    apply (net_inv_local k s hist counted _ _ (k + 1)); try done. by left.
  - apply (Hfin hist); [done| |unfold el_term in *; lia|congruence].
    apply (net_inv_local k s hist counted _ _ (el_term el)); try done; [lia|by right].
Qed.

(** One more vote for an election gives a majority of recorded votes. *)
Lemma elect_quorum k hist cs el vc :
  elect_ok k hist cs el -> vcall_ok k hist cs el vc -> vc_state vc <> Over ->
  (el_term el, vc_to vc, el_cand el) ∈ hist -> Z.of_nat n / 2 < el_votes el + 1 ->
  exists Q, Q ⊆ range_set n /\ Z.of_nat n / 2 < Z.of_nat (size Q) /\
    forall v, v ∈ Q -> (el_term el, v, el_cand el) ∈ hist.
Proof.
  intros [E1 E2 E3 E4 E5 E6 E7] [O1 O2 O3 O4] Hst Hin Hmaj. specialize (O3 Hst).
  exists ({[el_cand el]} ∪ ({[vc_to vc]} ∪ cs)). split; [|split].
  - repeat apply union_least; try done; by apply singleton_subseteq_l, elem_of_range_set.
  - rewrite size_union, size_union, !size_singleton.
    + lia.
    + by apply disjoint_singleton_l.
    + apply disjoint_singleton_l. by intros [Hc%elem_of_singleton|Hc]%elem_of_union.
  - intros v [->%elem_of_singleton|[->%elem_of_singleton|Hv]%elem_of_union]%elem_of_union;
      [done|done|by apply E7].
Qed.

Lemma step_vote_reply k s hist counted j s' :
  net_inv k s hist counted -> net_step s (LVoteReply j) = Some s' ->
  exists hist' counted', hist ⊆ hist' /\ net_inv (k + 1) s' hist' counted'.
Proof.
  intros Hinv Hstep. simpl in Hstep.
  destruct (net_votes s !! j) as [vc|] eqn:Hj; [|done]. simpl in Hstep.
  destruct (ni_vote _ _ _ _ Hinv j vc Hj) as (el & He & Hok). rewrite He in Hstep. simpl in Hstep.
  destruct (vc_state vc) as [|reply|] eqn:Est; try done. fold (el_cand el) in Hstep.
  pose proof (vote_reply_cases (net_srv s (el_cand el)) (el_args el) (el_votes el) reply) as Hc.
  destruct (vote_reply _ _ _ _) as [rf' votes]. injection Hstep as <-.
  pose proof (ni_elect _ _ _ _ Hinv _ _ He) as Hel.
  pose proof (eo_cand _ _ _ _ Hel) as Hpeer.
  destruct (vo_reply _ _ _ _ _ Hok reply Est) as [Hrt Hrg].
  rewrite (ni_commit _ _ _ _ Hinv _ Hpeer) in Hc. destruct Hc as [Hci Hc].
  assert (Hover : forall el0, vcall_ok (k + 1) hist (counted (vc_eid vc)) el0 vc ->
    vcall_ok (k + 1) hist (counted (vc_eid vc)) el0 (mkVoteCall (vc_eid vc) (vc_to vc) Over)).
  { intros el0 [O1 O2 O3 O4]. by split. }
  assert (Hnocount : votes = el_votes el ->
    (same_role (net_srv s (el_cand el)) rf' \/
     bumped (net_srv s (el_cand el)) rf' (RequestVoteReply_Term reply)) ->
    exists hist' counted', hist ⊆ hist' /\ net_inv (k + 1)
      (mkNet (<[el_cand el := rf']> (net_srv s)) (net_timer s)
        (<[vc_eid vc := mkElection (el_args el) votes]> (net_elect s))
        (<[j := mkVoteCall (vc_eid vc) (vc_to vc) Over]> (net_votes s)) (net_appends s))
      hist' counted').
  { intros -> Hrole. rewrite mkElection_eta, (list_insert_id (net_elect s)) by done.
    exists hist, counted. split; [done|].
    pose proof (net_inv_local k s hist counted _ rf' (RequestVoteReply_Term reply) (net_timer s)
                  Hinv Hpeer ltac:(lia) Hrole Hci) as H1.
    apply (net_inv_vcall (k + 1) _ hist counted j vc Over H1); [done|].
    intros el0 He0. apply Hover.
    destruct (ni_vote _ _ _ _ H1 j vc Hj) as (el1 & He1 & Hok1). simpl in *.
    by assert (el0 = el1) as -> by congruence. }
  destruct Hc as [[Hsame Hv]|[[Hb Hv]|(Hg & -> & Hterm & Hme & Hp & Ht & Hvf & Hlead)]].
  - apply Hnocount; [done|by left].
  - apply Hnocount; [done|by right].
  - exists hist, (<[vc_eid vc := {[vc_to vc]} ∪ counted (vc_eid vc)]> counted). split; [done|].
    assert (Hin : (el_term el, vc_to vc, el_cand el) ∈ hist) by (by apply Hrg).
    pose proof (srv_inv_weaken k (k + 1) _ _ ltac:(lia) (ni_srv _ _ _ _ Hinv)) as Hs.
    assert (Hinv1 : net_inv (k + 1) s hist counted)
      by (eapply net_inv_weaken; [|done]; lia).
    apply (net_inv_count (k + 1) s hist counted j vc el rf'); try done; [by rewrite Est|].
    pose proof (si_term _ _ _ Hs _ Hpeer) as Hti.
    apply srv_inv_update; try done; try lia.
    + rewrite Ht, Hvf. by apply (si_vote _ _ _ Hs).
    + rewrite Ht, Hvf. intros c Hc. by apply (si_hist _ _ _ Hs _ _ _ Hc).
    + intros Hl. destruct Hlead as [?|Hmaj]; [done|].
      destruct (si_me _ _ _ Hs _ Hpeer) as [_ Hpn]. rewrite Hpn in Hmaj.
      assert (Htt : rf_currentTerm rf' = el_term el) by (unfold el_term; congruence).
        rewrite Htt. eapply elect_quorum; try done. by rewrite Est.
Qed.

(** *** Heartbeats and the remaining steps *)

Lemma step_append_exec k s hist counted j now s' :
  net_inv k s hist counted -> net_step s (LAppendExec j now) = Some s' ->
  net_inv (k + 1) s' hist counted.
Proof.
  intros Hinv Hstep. simpl in Hstep.
  destruct (net_appends s !! j) as [ac|] eqn:Hj; [|done]. simpl in Hstep.
  destruct (ac_state ac) eqn:Est; try done.
  pose proof (ni_append _ _ _ _ Hinv j ac Hj) as [A1 A2 A3 A4 A5].
  pose proof (AppendEntries_cases now (net_srv s (ac_to ac)) (ac_args ac)) as Hc.
  pose proof (AppendEntries_heartbeat_commit now (net_srv s (ac_to ac)) (ac_args ac) A4
                (ni_commit _ _ _ _ Hinv _ A2)) as Hci.
  pose proof (si_term _ _ _ (ni_srv _ _ _ _ Hinv) _ A2) as Ht.
  destruct (AppendEntries _ _ _) as [rf' reply]. simpl in Hci. injection Hstep as <-.
  destruct Hc as [Hrole Hrep].
  pose proof (net_inv_local k s hist counted _ rf' (AppendEntriesArgs_Term (ac_args ac))
                (net_timer s) Hinv A2 ltac:(lia) Hrole Hci) as H1.
  apply (net_inv_acall _ _ _ _ j ac _ H1); [done|]. split; simpl; try done; try lia.
  intros r [= <-]. destruct Hrep as [->| ->]; lia.
Qed.

Lemma heartbeat_reply_cases (rf : Raft Cmd) reply :
  rf_commitIndex (heartbeat_reply rf reply) = rf_commitIndex rf /\
  (same_role rf (heartbeat_reply rf reply) \/
   bumped rf (heartbeat_reply rf reply) (AppendEntriesReply_Term reply)).
Proof.
  unfold heartbeat_reply. rewrite Z.gtb_ltb.
  destruct (Z.ltb_spec (rf_currentTerm rf) (AppendEntriesReply_Term reply));
    (split; [done|]); [by right; repeat split|by left; repeat split].
Qed.

Lemma step_append_reply k s hist counted j s' :
  net_inv k s hist counted -> net_step s (LAppendReply j) = Some s' ->
  net_inv (k + 1) s' hist counted.
Proof.
  intros Hinv Hstep. simpl in Hstep.
  destruct (net_appends s !! j) as [ac|] eqn:Hj; [|done]. simpl in Hstep.
  destruct (ac_state ac) as [|reply|] eqn:Est; try done. injection Hstep as <-.
  pose proof (ni_append _ _ _ _ Hinv j ac Hj) as [A1 A2 A3 A4 A5].
  pose proof (A5 reply Est) as Hr.
  destruct (heartbeat_reply_cases (net_srv s (ac_from ac)) reply) as [Hci Hrole].
  rewrite (ni_commit _ _ _ _ Hinv _ A1) in Hci.
  pose proof (net_inv_local k s hist counted _ _ (AppendEntriesReply_Term reply)
                (net_timer s) Hinv A1 ltac:(lia) Hrole Hci) as H1.
  apply (net_inv_acall _ _ _ _ j ac _ H1); [done|]. split; simpl; try done; lia.
Qed.

Lemma net_inv_appends k s hist counted timer acs :
  net_inv k s hist counted -> (forall ac, ac ∈ acs -> acall_ok k ac) ->
  net_inv k (mkNet (net_srv s) timer (net_elect s) (net_votes s) (net_appends s ++ acs))
    hist counted.
Proof.
  intros [I1 I2 I3 I4 I5 I6 I7] Hacs. split; simpl; try done.
  intros j ac [Hj|[_ Hj]]%lookup_app_Some; [by eapply I6|].
  apply Hacs. by eapply list_elem_of_lookup_2.
Qed.

Lemma step_heartbeat k s hist counted i now s' :
  net_inv k s hist counted -> net_step s (LHeartbeat i now) = Some s' ->
  net_inv k s' hist counted.
Proof.
  intros Hinv Hstep. simpl in Hstep.
  destruct (is_peer i) eqn:Hi; [|done]. apply is_peer_iff in Hi.
  pose proof (si_term _ _ _ (ni_srv _ _ _ _ Hinv) _ Hi) as Ht.
  destruct (si_me _ _ _ (ni_srv _ _ _ _ Hinv) _ Hi) as [Hme Hp].
  unfold ticker_heartbeat in Hstep. rewrite (ni_commit _ _ _ _ Hinv _ Hi) in Hstep.
  destruct (bool_decide _); injection Hstep as <-; apply net_inv_appends; try done.
  - intros ac (r & -> & Hr)%list_elem_of_fmap.
    apply list_elem_of_fmap in Hr as (j & -> & Hj). apply others_spec in Hj as [Hj _]; [|done].
    by split; simpl; try done; lia.
  - intros ac Hac. simpl in Hac. by apply elem_of_nil in Hac.
Qed.

Lemma Start_cases (rf : Raft Cmd) command :
  same_role rf (Start rf command).1 /\
  rf_commitIndex (Start rf command).1 = rf_commitIndex rf.
Proof. unfold Start. by destruct (bool_decide _). Qed.

Lemma net_step_inv k s hist counted lab s' :
  k + 1 <= int_max -> net_inv k s hist counted -> net_step s lab = Some s' ->
  exists hist' counted', hist ⊆ hist' /\ net_inv (k + 1) s' hist' counted'.
Proof.
  intros Hk Hinv Hstep. destruct lab as [i now tmo|i now|j|j|j now|j|i c|i].
  - by eapply step_election.
  - exists hist, counted. split; [done|]. eapply net_inv_weaken; [|by eapply step_heartbeat]. lia.
  - by eapply step_vote_exec.
  - by eapply step_vote_reply.
  - exists hist, counted. split; [done|]. by eapply step_append_exec.
  - exists hist, counted. split; [done|]. by eapply step_append_reply.
  - simpl in Hstep. destruct (is_peer i) eqn:Hi; [|done]. apply is_peer_iff in Hi.
    injection Hstep as <-. exists hist, counted. split; [done|].
    destruct (Start_cases (net_srv s i) c) as [Hr Hci].
    apply (net_inv_local k s hist counted i _ (k + 1)); try done; [by left|].
    rewrite Hci. by apply (ni_commit _ _ _ _ Hinv).
  - simpl in Hstep. destruct (is_peer i) eqn:Hi; [|done]. apply is_peer_iff in Hi.
    injection Hstep as <-. exists hist, counted. split; [done|].
    apply (net_inv_local k s hist counted i _ (k + 1)); try done; [by left; repeat split|].
    simpl. by apply (ni_commit _ _ _ _ Hinv).
Qed.

Lemma net_run_inv_from k s hist counted labs s' :
  k + Z.of_nat (length labs) <= int_max -> net_inv k s hist counted ->
  net_run s labs = Some s' ->
  exists hist' counted', hist ⊆ hist' /\ net_inv (k + Z.of_nat (length labs)) s' hist' counted'.
Proof.
  revert k s hist counted. induction labs as [|lab labs IH]; intros k s hist counted Hk Hinv Hrun.
  - simplify_eq/=. exists hist, counted. split; [done|]. by rewrite Z.add_0_r.
  - simpl in Hrun, Hk. destruct (net_step s lab) as [s1|] eqn:Hs; [|done]. simpl in Hrun.
    destruct (net_step_inv k s hist counted lab s1 ltac:(lia) Hinv Hs) as (h1 & c1 & Hh1 & Hinv1).
    destruct (IH (k + 1) s1 h1 c1 ltac:(lia) Hinv1 Hrun) as (h2 & c2 & Hh2 & H2).
    exists h2, c2. split; [by etrans|]. simpl. by replace (k + Z.of_nat (S (length labs)))
      with (k + 1 + Z.of_nat (length labs)) by lia.
Qed.

Lemma net_run_inv labs s :
  Z.of_nat (length labs) <= int_max -> net_run net_init labs = Some s ->
  exists hist counted, net_inv (Z.of_nat (length labs)) s hist counted.
Proof.
  intros Hk Hrun. destruct (net_run_inv_from 0 net_init ∅ (fun _ => ∅) labs s Hk net_inv_init Hrun)
    as (hist & counted & _ & H). by exists hist, counted.
Qed.

(** A leader of the past and a leader of now in one term are the same peer. *)
Lemma leaders_agree k k' s s' hist hist' counted counted' i j :
  net_inv k s hist counted -> net_inv k' s' hist' counted' -> hist ⊆ hist' -> peer i -> peer j ->
  rf_state (net_srv s i) = Leader -> rf_state (net_srv s' j) = Leader ->
  rf_currentTerm (net_srv s i) = rf_currentTerm (net_srv s' j) -> i = j.
Proof.
  intros H H' Hh Hi Hj Li Lj Ht. pose proof (ni_srv _ _ _ _ H) as Hs.
  pose proof (ni_srv _ _ _ _ H') as Hs'.
  destruct (si_leader _ _ _ Hs i Hi Li) as (Qi & Hri & Hsi & Hqi).
  destruct (si_leader _ _ _ Hs' j Hj Lj) as (Qj & Hrj & Hsj & Hqj).
  destruct (majority_intersect (range_set n) Qi Qj n Hri Hrj
    (eq_ind_r (fun m => (m <= n)%nat) (le_n n) (size_range_set n)) Hsi Hsj) as (v & Hvi & Hvj).
  apply (si_fun _ _ _ Hs' (rf_currentTerm (net_srv s i)) v); [by apply Hh, Hqi|].
  rewrite Ht. by apply Hqj.
Qed.

(** C5: election safety, across time.  In every run of a cluster that does not restart
    peers, of fewer steps than [int] can count, a peer that believed it was leader of a
    term at some moment and a peer that believes so later, in the same term, are the
    same peer: whatever RPCs are lost, delayed or reordered and whenever the tickers
    fire. *)
Theorem election_safety labs1 labs2 s s' i j :
  Z.of_nat (length labs1 + length labs2) <= int_max ->
  net_run net_init labs1 = Some s -> net_run s labs2 = Some s' ->
  0 <= i < Z.of_nat n -> 0 <= j < Z.of_nat n ->
  rf_state (net_srv s i) = Leader -> rf_state (net_srv s' j) = Leader ->
  rf_currentTerm (net_srv s i) = rf_currentTerm (net_srv s' j) -> i = j.
Proof.
  intros Hlen Hrun1 Hrun2. destruct (net_run_inv labs1 s ltac:(lia) Hrun1) as (hist & cs & Hinv).
  destruct (net_run_inv_from (Z.of_nat (length labs1)) s hist cs labs2 s' ltac:(lia) Hinv Hrun2) as (hist' & cs' & Hh & Hinv').
  by eapply (leaders_agree _ _ s s' hist hist' cs cs').
Qed.

(** nothing is ever committed.  In every reachable state the commit index of
    every peer is 0 and every AppendEntries RPC ever sent carries no entry:
    [ticker] sends empty heartbeats with the leader's own commit index, and no
    code of the leader advances it. *)
Theorem nothing_ever_commits labs s :
  Z.of_nat (length labs) <= int_max -> net_run net_init labs = Some s ->
  (forall i, 0 <= i < Z.of_nat n -> rf_commitIndex (net_srv s i) = 0) /\
  (forall ac, ac ∈ net_appends s -> AppendEntriesArgs_Entries (ac_args ac) = []).
Proof.
  intros Hlen Hrun. destruct (net_run_inv labs s Hlen Hrun) as (hist & cs & Hinv). split.
  - intros i Hi. by apply (ni_commit _ _ _ _ Hinv).
  - intros ac (j & Hj)%list_elem_of_lookup. by apply (ao_shape _ _ (ni_append _ _ _ _ Hinv j ac Hj)).
Qed.

(** *** An election in a quiet network *)

Definition first_args : RequestVoteArgs := mkRequestVoteArgs 1 0 1 0.

(** The state after peer 0 has timed out first and [k] peers have voted for it. *)
Record counting (k : nat) (s : net) : Prop := {
  cn_cand : net_srv s 0 = set_election (Make 0 n 0) Candidate 1 0;
  cn_rest j : Z.of_nat k < j < Z.of_nat n -> net_srv s j = Make 0 n j;
  cn_elect : net_elect s = [mkElection first_args (1 + Z.of_nat k)];
  cn_calls m : (k <= m < n - 1)%nat ->
    net_votes s !! m = Some (mkVoteCall 0 (Z.of_nat m + 1) Sent)
}.

Lemma others_first m (rf : Raft Cmd) :
  rf_peers rf = n -> rf_me rf = 0 -> (m < n - 1)%nat -> others rf !! m = Some (Z.of_nat m + 1).
Proof.
  intros Hp Hme Hm. unfold others. rewrite Hp, Hme. unfold range.
  destruct n as [|n']; [lia|]. change (seq 0 (S n')) with (0%nat :: seq 1 n').
  rewrite fmap_cons, filter_cons_False by (intros Hne; by apply Hne).
  assert (Hall : filter (fun i => i <> 0) (Z.of_nat <$> seq 1 n') = Z.of_nat <$> seq 1 n').
  { apply filter_all, Forall_forall. intros x Hx.
    apply list_elem_of_fmap in Hx as (y & -> & Hy). apply elem_of_seq in Hy. lia. }
  rewrite Hall. rewrite list_lookup_fmap, lookup_seq_lt by lia. simpl. f_equal. lia.
Qed.

Lemma counting_start s :
  (2 <= n)%nat -> net_step net_init (LElection 0 300 300) = Some s -> counting 0 s.
Proof.
  intros Hn Hs. unfold net_step, is_peer in Hs. simpl in Hs.
  assert ((0 <? Z.of_nat n) = true) as H0 by (apply Z.ltb_lt; lia). rewrite H0 in Hs. simpl in Hs.
  injection Hs as <-. split; simpl; try done.
  - intros j Hj. rewrite fn_lookup_insert_ne by lia. done.
  - intros m Hm. unfold requestVotes. rewrite <- list_fmap_compose, list_lookup_fmap.
    rewrite others_first by (done || lia). done.
Qed.

Lemma net_step_vote_exec s k vc el :
  net_votes s !! k = Some vc -> net_elect s !! vc_eid vc = Some el -> vc_state vc = Sent ->
  net_step s (LVoteExec k) =
    let '(rf, reply) := RequestVote (net_srv s (vc_to vc)) (el_args el) in
    Some (mkNet (<[vc_to vc := rf]> (net_srv s)) (net_timer s) (net_elect s)
           (<[k := mkVoteCall (vc_eid vc) (vc_to vc) (Replied reply)]> (net_votes s))
           (net_appends s)).
Proof. intros Hv He Hs. simpl. rewrite Hv. simpl. rewrite He. simpl. by rewrite Hs. Qed.

Lemma net_step_vote_reply s k vc el reply :
  net_votes s !! k = Some vc -> net_elect s !! vc_eid vc = Some el ->
  vc_state vc = Replied reply ->
  net_step s (LVoteReply k) =
    let i := RequestVoteArgs_CandidateId (el_args el) in
    let '(rf, votes) := vote_reply (net_srv s i) (el_args el) (el_votes el) reply in
    Some (mkNet (<[i := rf]> (net_srv s)) (net_timer s)
           (<[vc_eid vc := mkElection (el_args el) votes]> (net_elect s))
           (<[k := mkVoteCall (vc_eid vc) (vc_to vc) Over]> (net_votes s))
           (net_appends s)).
Proof. intros Hv He Hs. simpl. rewrite Hv. simpl. rewrite He. simpl. by rewrite Hs. Qed.

Lemma counting_step k s :
  counting k s -> (k < n - 1)%nat ->
  exists s', net_run s [LVoteExec k; LVoteReply k] = Some s' /\
    (Z.of_nat (S (S k)) <= Z.of_nat n / 2 -> counting (S k) s') /\
    (Z.of_nat n / 2 < Z.of_nat (S (S k)) ->
       rf_state (net_srv s' 0) = Leader /\ rf_currentTerm (net_srv s' 0) = 1).
Proof.
  intros [H1 H2 H3 H4] Hk.
  assert (He : net_elect s !! 0%nat = Some (mkElection first_args (1 + Z.of_nat k)))
    by (by rewrite H3).
  pose proof (H4 k ltac:(lia)) as Hcall.
  cbn [net_run]. rewrite (net_step_vote_exec _ _ _ _ Hcall He eq_refl). simpl vc_to. simpl el_args.
  rewrite (H2 (Z.of_nat k + 1)) by lia.
  replace (RequestVote _ _) with (set_election (Make (Cmd := Cmd) 0 n (Z.of_nat k + 1)) Follower 1 0,
    mkRequestVoteReply 1 true) by reflexivity.
  step_bind.
  erewrite net_step_vote_reply;
    [|apply list_lookup_insert_eq; by eapply lookup_lt_Some|exact He|reflexivity].
  cbn [net_srv net_elect net_votes net_timer net_appends el_args vc_to vc_eid].
  change (RequestVoteArgs_CandidateId first_args) with 0.
  rewrite fn_lookup_insert_ne by lia. rewrite H1.
  cbn [el_votes]. unfold vote_reply. simpl.
  rewrite Z.gtb_ltb. destruct (Z.ltb_spec (Z.of_nat n / 2) (1 + Z.of_nat k + 1)).
  - eexists. split; [reflexivity|]. split; [lia|]. by intros _.
  - eexists. split; [reflexivity|]. split; [|lia]. intros _. split; cbn [net_srv net_elect net_votes].
    + by rewrite fn_lookup_insert.
    + intros j Hj. rewrite 2!fn_lookup_insert_ne by lia. apply H2. lia.
    + rewrite H3. simpl. do 2 f_equal. lia.
    + intros m Hm. rewrite 2!list_lookup_insert_ne by lia. apply H4. lia.
Qed.

(** The labels that deliver the first [k] vote requests and their replies. *)
Definition deliver (k : nat) : list nlabel :=
  concat ((fun m => [LVoteExec m; LVoteReply m]) <$> seq 0 k).

Lemma net_run_app s labs1 labs2 :
  net_run s (labs1 ++ labs2) = s' ← net_run s labs1; net_run s' labs2.
Proof.
  revert s. induction labs1 as [|lab labs1 IH]; intros s; [done|]. simpl.
  destruct (net_step s lab); simpl; [apply IH|done].
Qed.

Lemma counting_run k s :
  counting 0 s -> Z.of_nat (S k) <= Z.of_nat n / 2 ->
  exists s', net_run s (deliver k) = Some s' /\ counting k s'.
Proof.
  intros Hs. induction k as [|k IH]; intros Hk; [by exists s|].
  pose proof (Z.div_mod (Z.of_nat n) 2 ltac:(lia)).
  pose proof (Z.mod_pos_bound (Z.of_nat n) 2 ltac:(lia)).
  destruct IH as (s1 & Hr & Hc); [lia|]. unfold deliver. rewrite seq_S, fmap_app, concat_app.
  rewrite net_run_app. fold (deliver k). rewrite Hr.
  destruct (counting_step k s1 Hc) as (s2 & H2 & Hgo & _); [lia|].
  exists s2. split; [exact H2|by apply Hgo].
Qed.

(** C37: elections can succeed.  In a cluster of two peers or more, when peer 0
    times out first and the network delivers its first [n/2] vote requests and
    their replies, it is the leader of term 1. *)
Theorem election_succeeds :
  (2 <= n)%nat ->
  exists s, net_run net_init (LElection 0 300 300 :: deliver (n / 2)) = Some s /\
    rf_state (net_srv s 0) = Leader /\ rf_currentTerm (net_srv s 0) = 1.
Proof.
  intros Hn. cbn [net_run].
  destruct (net_step net_init (LElection 0 300 300)) as [s0|] eqn:H0; cycle 1.
  { exfalso. simpl in H0. unfold is_peer in H0. simpl in H0.
    rewrite (proj2 (Z.ltb_lt 0 (Z.of_nat n))) in H0 by lia. done. }
  step_bind. pose proof (counting_start s0 Hn H0) as Hc0.
  pose proof (Nat2Z.inj_div n 2) as Hdiv. change (Z.of_nat 2) with 2 in Hdiv.
  pose proof (Nat.div_mod_eq n 2). pose proof (Nat.mod_upper_bound n 2 ltac:(lia)).
  destruct (n / 2)%nat as [|h] eqn:Hh; [lia|].
  destruct (counting_run h s0 Hc0 ltac:(lia)) as (s1 & Hr1 & Hc1).
  destruct (counting_step h s1 Hc1 ltac:(lia)) as (s2 & Hr2 & _ & Hl).
  exists s2. unfold deliver. rewrite seq_S, fmap_app, concat_app, net_run_app.
  fold (deliver h). rewrite Hr1. split; [exact Hr2|]. apply Hl. lia.
Qed.
End RaftNet.

(** ** Concrete runs of three peers *)

(** Peer 0 is elected with peer 1's vote and sends heartbeats, which peer 1
    answers. *)
Definition run_elect_0 : list (nlabel (Cmd := nat)) :=
  [LElection 0 300 300; LVoteExec 0; LVoteReply 0; LHeartbeat 0 310; LAppendExec 0 312;
   LAppendReply 0; LStart 0 (Some 7%nat)].

Definition leads (s : net (Cmd := nat)) (i : Z) : bool :=
  bool_decide (rf_state (net_srv s i) = Leader).

Lemma leads_true s i : leads s i = true -> rf_state (net_srv s i) = Leader.
Proof. apply bool_decide_eq_true. Qed.

Lemma election_safety_witness :
  exists s s', net_run 3 (net_init 3) run_elect_0 = Some s /\ net_run 3 s [LHeartbeat 0 1000] = Some s' /\
    rf_state (net_srv s 0) = Leader /\
    (forall j, 0 <= j < 3 -> rf_state (net_srv s' j) = Leader ->
       rf_currentTerm (net_srv s 0) = rf_currentTerm (net_srv s' j) -> 0 = j).
Proof.
  destruct (passes_inv (fun s => leads s 0 && passes (fun _ => true) (net_run 3 s [LHeartbeat 0 1000]))
    (net_run 3 (net_init 3) run_elect_0)) as (s & Hs & Hl); [by vm_compute|].
  apply andb_true_iff in Hl as [Hl (s' & Hs' & _)%passes_inv]. apply leads_true in Hl.
  exists s, s'. split; [exact Hs|]. split; [exact Hs'|]. split; [exact Hl|]. intros j Hj Hlj Ht.
  apply (election_safety 3 run_elect_0 [LHeartbeat 0 1000] s s' 0 j);
    [by vm_compute|exact Hs|exact Hs'|lia|exact Hj|exact Hl|exact Hlj|exact Ht].
Defined.

Lemma nothing_ever_commits_witness :
  exists s, net_run 3 (net_init 3) run_elect_0 = Some s /\
    leads s 0 = true /\ rf_commitIndex (net_srv s 0) = 0.
Proof.
  destruct (passes_inv (fun s => leads s 0) (net_run 3 (net_init 3) run_elect_0)) as (s & Hs & Hl);
    [by vm_compute|].
  exists s. split; [exact Hs|]. split; [exact Hl|].
  apply (nothing_ever_commits 3 run_elect_0 s); [by vm_compute|exact Hs|lia].
Defined.

Lemma election_succeeds_witness :
  exists s, net_run 3 (net_init 3) (LElection (Cmd := nat) 0 300 300 :: deliver 1) = Some s /\
    rf_state (net_srv s 0) = Leader /\ rf_currentTerm (net_srv s 0) = 1.
Proof. apply (election_succeeds 3). lia. Defined.

(** a restart breaks election safety.  [persist] and [readPersist] are empty,
    so a peer that voted and crashed votes again in the same term: in a
    cluster of three, peer 1 votes for peer 0, restarts, votes for peer 2, and
    peers 0 and 2 both lead term 1. *)
Theorem restart_allows_two_leaders :
  exists s1 s2, net_run 3 (net_init (Cmd := nat) 3) [LElection 0 300 300; LVoteExec 0; LVoteReply 0] = Some s1 /\
    net_run 3 (crash_restart 3 s1 1 320) [LElection 2 330 300; LVoteExec 3; LVoteReply 3] = Some s2 /\
    rf_state (net_srv s2 0) = Leader /\ rf_state (net_srv s2 2) = Leader /\
    rf_currentTerm (net_srv s2 0) = rf_currentTerm (net_srv s2 2).
Proof.
  destruct (passes_inv (fun s1 => passes (fun s2 => leads s2 0 && leads s2 2 &&
      (rf_currentTerm (net_srv s2 0) =? rf_currentTerm (net_srv s2 2)))
      (net_run 3 (crash_restart 3 s1 1 320) [LElection 2 330 300; LVoteExec 3; LVoteReply 3]))
    (net_run 3 (net_init 3) [LElection 0 300 300; LVoteExec 0; LVoteReply 0])) as (s1 & H1 & H2);
    [by vm_compute|].
  apply passes_inv in H2 as (s2 & H2 & H3). rewrite !andb_true_iff in H3.
  destruct H3 as [[L0 L2] Ht]. exists s1, s2. split; [exact H1|]. split; [exact H2|].
  split; [exact (leads_true _ _ L0)|]. split; [exact (leads_true _ _ L2)|]. by apply Z.eqb_eq.
Qed.
