(* ===== verification/MrCoord.v ===== *)
(** The MapReduce coordinator of [mr/coordinator.go] and the data of [mr/rpc.go]:
    its state, the two handlers of the [Schedule] goroutine with the mutex they
    take, and the system of one coordinator with the workers that request and
    report tasks. *)
From S2P Require Import Prelude.
Open Scope go_scope.

Inductive SchedulePhase := MapPhase | ReducePhase | DonePhase.
Inductive TaskStatus := Inited | Running | Completed.
#[export] Instance SchedulePhase_eq_dec : EqDecision SchedulePhase.
Proof. solve_decision. Defined.
#[export] Instance TaskStatus_eq_dec : EqDecision TaskStatus.
Proof. solve_decision. Defined.

(** Times are in nanoseconds; the zero [time.Time] is 0. *)
Record Task := mkTask {
  task_fileName : string; task_startTime : Z; task_id : Z; task_status : TaskStatus
}.

(** [mu] is whether the mutex is held.  The channels only carry messages to the
    [Schedule] goroutine, [doneCh] is never used. *)
Record Coordinator := mkCoordinator {
  c_mu : bool;
  c_files : list string;
  c_nReduce : nat;
  c_nMap : nat;
  c_phase : SchedulePhase;
  c_tasks : list Task
}.

(** [RequestTaskArgs] and [ReportTaskReply] have no fields. *)
Record RequestTaskReply := mkRequestTaskReply {
  rt_TaskType : string; rt_FileName : string; rt_NReduce : Z; rt_NMap : Z; rt_TaskID : Z
}.
Record ReportTaskArgs := mkReportTaskArgs { rp_TaskID : Z; rp_TaskType : string }.

Definition empty_reply : RequestTaskReply := mkRequestTaskReply "" "" 0 0 0.
Definition type_reply (ty : string) : RequestTaskReply := mkRequestTaskReply ty "" 0 0 0.

Definition with_mu (c : Coordinator) (b : bool) : Coordinator :=
  mkCoordinator b (c_files c) (c_nReduce c) (c_nMap c) (c_phase c) (c_tasks c).
Definition with_phase (c : Coordinator) (p : SchedulePhase) : Coordinator :=
  mkCoordinator (c_mu c) (c_files c) (c_nReduce c) (c_nMap c) p (c_tasks c).
Definition with_tasks (c : Coordinator) (ts : list Task) : Coordinator :=
  mkCoordinator (c_mu c) (c_files c) (c_nReduce c) (c_nMap c) (c_phase c) ts.

Definition set_status (t : Task) (st : TaskStatus) : Task :=
  mkTask (task_fileName t) (task_startTime t) (task_id t) st.
Definition start_task (t : Task) (now : Z) : Task :=
  mkTask (task_fileName t) now (task_id t) Running.

(** [c.files[i]] panics when there are fewer files than [nMap]. *)
Definition initMapPhase (c : Coordinator) : outcome Coordinator :=
  if (c_nMap c <=? length (c_files c))%nat then
    Ret (with_tasks (with_phase c MapPhase)
           (imap (fun i f => mkTask f 0 (Z.of_nat i) Inited) (take (c_nMap c) (c_files c))))
  else Panic.

Definition initReducePhase (c : Coordinator) : Coordinator :=
  with_tasks (with_phase c ReducePhase)
    ((fun i => mkTask "" 0 i Inited) <$> range (c_nReduce c)).

(** The first loop of a phase of [handleHeartBeat]: what it stops at. *)
Inductive scan_result := Idle (i : nat) | Expired (i : nat) | NoneIdle.

Definition expired (now : Z) (t : Task) : bool :=
  bool_decide (task_status t = Running) && (now - task_startTime t >? 10 * 10 ^ 9).

(** [n] iterations are left, [i] is the index; [c.tasks[i]] panics out of range. *)
Fixpoint scan (now : Z) (tasks : list Task) (n i : nat) : outcome scan_result :=
  match n with
  | O => Ret NoneIdle
  | S n' =>
      match tasks !! i with
      | None => Panic
      | Some t =>
          if bool_decide (task_status t = Inited) then Ret (Idle i)
          else if expired now t then Ret (Expired i)
          else scan now tasks n' (S i)
      end
  end.

(** The [allCompleted] loops. *)
Fixpoint allCompleted (tasks : list Task) (n i : nat) : outcome bool :=
  match n with
  | O => Ret true
  | S n' =>
      match tasks !! i with
      | None => Panic
      | Some t =>
          if bool_decide (task_status t = Completed) then allCompleted tasks n' (S i)
          else Ret false
      end
  end.

(** [c.tasks[i].status = st] and the like. *)
Definition upd_task (c : Coordinator) (i : nat) (f : Task -> Task) : Coordinator :=
  with_tasks c (alter f i (c_tasks c)).

(** [handleHeartBeat] between [Lock] and the deferred [Unlock]; [rec] is its recursive
    call, made while the mutex is still held. *)
Definition heartBeat_body (rec : Coordinator -> outcome (Coordinator * RequestTaskReply))
    (now : Z) (c : Coordinator) : outcome (Coordinator * RequestTaskReply) :=
  match c_phase c with
  | MapPhase =>
      r ← scan now (c_tasks c) (c_nMap c) 0;
      match r with
      | Idle i =>
          match c_tasks c !! i with
          | Some t => Ret (upd_task c i (fun t => start_task t now),
              mkRequestTaskReply "map" (task_fileName t) (Z.of_nat (c_nReduce c))
                (Z.of_nat (c_nMap c)) (task_id t))
          | None => Panic
          end
      | Expired i => rec (upd_task c i (fun t => set_status t Inited))
      | NoneIdle =>
          all ← allCompleted (c_tasks c) (c_nMap c) 0;
          if all : bool then rec (initReducePhase c)
          else Ret (c, type_reply "wait")
      end
  | ReducePhase =>
      r ← scan now (c_tasks c) (c_nReduce c) 0;
      match r with
      | Idle i =>
          match c_tasks c !! i with
          | Some t => Ret (upd_task c i (fun t => start_task t now),
              mkRequestTaskReply "reduce" "" (Z.of_nat (c_nReduce c))
                (Z.of_nat (c_nMap c)) (task_id t))
          | None => Panic
          end
      | Expired i => rec (upd_task c i (fun t => set_status t Inited))
      | NoneIdle =>
          all ← allCompleted (c_tasks c) (c_nReduce c) 0;
          if all : bool then Ret (with_phase c DonePhase, type_reply "done")
          else Ret (c, type_reply "wait")
      end
  | DonePhase => Ret (c, type_reply "done")
  end.

(** [c.mu.Lock()] of a held mutex never returns ([sync.Mutex] is not reentrant).
    The depth of the recursion is bounded by [fuel]; 2 is enough because the
    recursive call finds the mutex held ([handleHeartBeat_fuel]). *)
Fixpoint handleHeartBeat_rec (fuel : nat) (now : Z) (c : Coordinator)
  : outcome (Coordinator * RequestTaskReply) :=
  match fuel with
  | O => Panic
  | S fuel' =>
      if c_mu c then Blocked
      else
        '(c', reply) ← heartBeat_body (handleHeartBeat_rec fuel' now) now (with_mu c true);
        Ret (with_mu c' false, reply)
  end.

Definition handleHeartBeat (now : Z) (c : Coordinator) : outcome (Coordinator * RequestTaskReply) :=
  handleHeartBeat_rec 2 now c.

(** The assignment [c.tasks[args.TaskID].status = Completed] under its range check. *)
Definition complete_task (c : Coordinator) (id : Z) (n : nat) : outcome Coordinator :=
  if (0 <=? id) && (id <? Z.of_nat n) then
    match c_tasks c !! Z.to_nat id with
    | Some _ => Ret (upd_task c (Z.to_nat id) (fun t => set_status t Completed))
    | None => Panic
    end
  else Ret c.

Definition handleReport (c : Coordinator) (args : ReportTaskArgs) : outcome Coordinator :=
  if c_mu c then Blocked
  else
    let c := with_mu c true in
    c' ←
      (if String.eqb (rp_TaskType args) "map" then
         c ← complete_task c (rp_TaskID args) (c_nMap c);
         all ← allCompleted (c_tasks c) (c_nMap c) 0;
         Ret (if all : bool then initReducePhase c else c)
       else if String.eqb (rp_TaskType args) "reduce" then
         c ← complete_task c (rp_TaskID args) (c_nReduce c);
         all ← allCompleted (c_tasks c) (c_nReduce c) 0;
         Ret (if all : bool then with_phase c DonePhase else c)
       else Ret c);
    Ret (with_mu c' false).

Definition Done (c : Coordinator) : outcome bool :=
  if c_mu c then Blocked else Ret (bool_decide (c_phase c = DonePhase)).

(** [MakeCoordinator] with the first statement of [Schedule], which runs before any
    message is received.  [cleanupOldFiles] passes glob patterns to [os.RemoveAll],
    which does not expand them, and leaves the coordinator alone. *)
Definition MakeCoordinator (files : list string) (nReduce : nat) : outcome Coordinator :=
  initMapPhase (mkCoordinator false files nReduce (length files) MapPhase []).

(** One message received by [Schedule]. *)
Inductive message := HeartBeat (now : Z) | Report (args : ReportTaskArgs).

Definition Schedule_step (c : Coordinator) (m : message)
  : outcome (Coordinator * option RequestTaskReply) :=
  match m with
  | HeartBeat now => '(c', reply) ← handleHeartBeat now c; Ret (c', Some reply)
  | Report args => c' ← handleReport c args; Ret (c', None)
  end.

Fixpoint Schedule_run (c : Coordinator) (ms : list message) : outcome Coordinator :=
  match ms with
  | [] => Ret c
  | m :: ms' => '(c', _) ← Schedule_step c m; Schedule_run c' ms'
  end.

(** ** The workers *)

(** One coordinator and its workers: [m_out] holds the assignments some worker is
    running; [m_assigned] and [m_reported] record every assignment and every
    report, in order.  A worker that crashes never reports. *)
Record mr := mkMr {
  m_coord : Coordinator;
  m_out : list ReportTaskArgs;
  m_assigned : list ReportTaskArgs;
  m_reported : list ReportTaskArgs
}.

Inductive mr_label := LRequest (now : Z) | LReport (k : nat).

(** The report a worker makes for an assignment ([Worker] in [mr/worker.go]). *)
Definition assignment (reply : RequestTaskReply) : option ReportTaskArgs :=
  if String.eqb (rt_TaskType reply) "map" || String.eqb (rt_TaskType reply) "reduce"
  then Some (mkReportTaskArgs (rt_TaskID reply) (rt_TaskType reply)) else None.

Definition mr_step (s : mr) (lab : mr_label) : outcome mr :=
  match lab with
  | LRequest now =>
      '(c, reply) ← handleHeartBeat now (m_coord s);
      Ret (match assignment reply with
           | Some a => mkMr c (m_out s ++ [a]) (m_assigned s ++ [a]) (m_reported s)
           | None => mkMr c (m_out s) (m_assigned s) (m_reported s)
           end)
  | LReport k =>
      match m_out s !! k with
      | Some a =>
          c ← handleReport (m_coord s) a;
          Ret (mkMr c (delete k (m_out s)) (m_assigned s) (m_reported s ++ [a]))
      | None => Ret s
      end
  end.

Fixpoint mr_run (s : mr) (labs : list mr_label) : outcome mr :=
  match labs with
  | [] => Ret s
  | lab :: labs' => s' ← mr_step s lab; mr_run s' labs'
  end.

Definition mr_init (files : list string) (nReduce : nat) : outcome mr :=
  c ← MakeCoordinator files nReduce; Ret (mkMr c [] [] []).

(** ** The handlers, case by case *)

(** The fuel is enough: the recursive call finds the mutex held. *)
Lemma handleHeartBeat_rec_held fuel now c :
  c_mu c = true -> handleHeartBeat_rec (S fuel) now c = Blocked.
Proof. intros H. simpl. by rewrite H. Qed.

Lemma handleHeartBeat_fuel fuel now c :
  handleHeartBeat_rec (S (S fuel)) now c = handleHeartBeat now c.
Proof.
  unfold handleHeartBeat. cbn [handleHeartBeat_rec]. destruct (c_mu c); [done|].
  reflexivity.
Qed.

(** A task that ends the scan of [handleHeartBeat]. *)
Definition stops (now : Z) (t : Task) : Prop :=
  task_status t = Inited \/ expired now t = true.

Lemma scan_spec now tasks n : forall i,
  length tasks = (i + n)%nat ->
  (exists j t, scan now tasks n i = Ret (Idle j) /\ (i <= j)%nat /\ tasks !! j = Some t /\
     task_status t = Inited /\
     forall j' t', (i <= j' < j)%nat -> tasks !! j' = Some t' -> ~ stops now t') \/
  (exists j t, scan now tasks n i = Ret (Expired j) /\ (i <= j)%nat /\ tasks !! j = Some t /\
     expired now t = true /\
     forall j' t', (i <= j' < j)%nat -> tasks !! j' = Some t' -> ~ stops now t') \/
  (scan now tasks n i = Ret NoneIdle /\
     forall j' t', (i <= j')%nat -> tasks !! j' = Some t' -> ~ stops now t').
Proof.
  induction n as [|n IH]; intros i Hlen.
  - right; right. split; [done|]. intros j' t' Hj Hl. apply lookup_lt_Some in Hl. lia.
  - simpl. destruct (lookup_lt_is_Some_2 tasks i) as [t Ht]; [lia|]. rewrite Ht.
    case_bool_decide as Hi; [|destruct (expired now t) eqn:He].
    + left. exists i, t. do 4 (split; [done|]). lia.
    + right; left. exists i, t. do 4 (split; [done|]). lia.
    + assert (Hcons : forall (P : nat -> Prop),
        (forall j' t', (S i <= j')%nat -> P j' -> tasks !! j' = Some t' -> ~ stops now t') ->
        forall j' t', (i <= j')%nat -> P j' -> tasks !! j' = Some t' -> ~ stops now t').
      { intros P HP j' t' Hj HPj Hl. destruct (decide (j' = i)) as [->|]; [|apply (HP j' t'); [lia|done..]].
        simplify_eq. intros [?|?]; congruence. }
      destruct (IH (S i)) as [(j & t' & E & Hj & Hl & Hs & Hall)|[(j & t' & E & Hj & Hl & Hs & Hall)|(E & Hall)]];
        [lia|left|right; left|right; right]; rewrite E.
      * exists j, t'. split; [done|]. split; [lia|]. do 2 (split; [done|]). intros j' t2 [Hj1 Hj2].
        apply (Hcons (fun x => (x < j)%nat)); [|done|done]. intros j2 t3 ? ?. by apply Hall.
      * exists j, t'. split; [done|]. split; [lia|]. do 2 (split; [done|]). intros j' t2 [Hj1 Hj2].
        apply (Hcons (fun x => (x < j)%nat)); [|done|done]. intros j2 t3 ? ?. by apply Hall.
      * split; [done|]. intros j' t2 Hj1. apply (Hcons (fun _ => True)); [|done|done].
        intros j2 t3 ? _. by apply Hall.
Qed.

Lemma allCompleted_spec tasks n : forall i,
  length tasks = (i + n)%nat ->
  exists b, allCompleted tasks n i = Ret b /\
    (b = true <-> forall j t, (i <= j)%nat -> tasks !! j = Some t -> task_status t = Completed).
Proof.
  induction n as [|n IH]; intros i Hlen; simpl.
  - exists true. split; [done|]. split; [|done]. intros _ j t Hj Hl. apply lookup_lt_Some in Hl. lia.
  - destruct (lookup_lt_is_Some_2 tasks i) as [t Ht]; [lia|]. rewrite Ht. case_bool_decide as Hc.
    + destruct (IH (S i)) as (b & E & Hb); [lia|]. exists b. split; [done|]. rewrite Hb. split.
      * intros H j t' Hj Hl. destruct (decide (j = i)) as [->|]; [congruence|]. apply (H j); [lia|done].
      * intros H j t' Hj Hl. apply (H j); [lia|done].
    + exists false. split; [done|]. split; [done|]. intros H. destruct Hc. by apply (H i).
Qed.

(** The number of tasks of the current phase. *)
Definition phase_size (c : Coordinator) : nat :=
  match c_phase c with MapPhase => c_nMap c | _ => c_nReduce c end.

Definition coord_wf (c : Coordinator) : Prop :=
  c_mu c = false /\ length (c_tasks c) = phase_size c.

Definition all_done (c : Coordinator) : Prop :=
  forall i t, c_tasks c !! i = Some t -> task_status t = Completed.

Lemma with_mu_with_mu c b b' : with_mu (with_mu c b) b' = with_mu c b'.
Proof. done. Qed.

Lemma with_mu_id c : c_mu c = false -> with_mu c false = c.
Proof. destruct c; simpl. by intros ->. Qed.

Definition task_reply (c : Coordinator) (t : Task) : RequestTaskReply :=
  match c_phase c with
  | MapPhase => mkRequestTaskReply "map" (task_fileName t) (Z.of_nat (c_nReduce c))
                  (Z.of_nat (c_nMap c)) (task_id t)
  | _ => mkRequestTaskReply "reduce" "" (Z.of_nat (c_nReduce c)) (Z.of_nat (c_nMap c)) (task_id t)
  end.

(** The scan stopped at an expired task. *)
Definition finds_expired (now : Z) (c : Coordinator) : Prop :=
  exists j t, c_tasks c !! j = Some t /\ expired now t = true /\
    forall j' t', (j' < j)%nat -> c_tasks c !! j' = Some t' -> ~ stops now t'.

(** The scan stopped at an idle task. *)
Definition finds_idle (now : Z) (c : Coordinator) (j : nat) (t : Task) : Prop :=
  c_tasks c !! j = Some t /\ task_status t = Inited /\
    forall j' t', (j' < j)%nat -> c_tasks c !! j' = Some t' -> ~ stops now t'.

Definition finds_none (now : Z) (c : Coordinator) : Prop :=
  forall j t, c_tasks c !! j = Some t -> ~ stops now t.

Lemma scan_cases now c :
  length (c_tasks c) = phase_size c ->
  (exists j t, scan now (c_tasks c) (phase_size c) 0 = Ret (Idle j) /\ finds_idle now c j t) \/
  (exists j, scan now (c_tasks c) (phase_size c) 0 = Ret (Expired j) /\ finds_expired now c) \/
  (scan now (c_tasks c) (phase_size c) 0 = Ret NoneIdle /\ finds_none now c).
Proof.
  intros Hlen. destruct (scan_spec now (c_tasks c) (phase_size c) 0 Hlen)
    as [(j & t & E & _ & Hl & Hs & Hall)|[(j & t & E & _ & Hl & Hs & Hall)|(E & Hall)]].
  - left. exists j, t. split; [done|]. repeat split; try done. intros j' t' Hj. apply Hall. lia.
  - right; left. exists j. split; [done|]. exists j, t. do 2 (split; [done|]).
    intros j' t' Hj. apply Hall. lia.
  - right; right. split; [done|]. intros j t. apply Hall. lia.
Qed.

Lemma allCompleted_cases c :
  length (c_tasks c) = phase_size c ->
  (allCompleted (c_tasks c) (phase_size c) 0 = Ret true /\ all_done c) \/
  (allCompleted (c_tasks c) (phase_size c) 0 = Ret false /\ ~ all_done c).
Proof.
  intros Hlen. destruct (allCompleted_spec (c_tasks c) (phase_size c) 0 Hlen) as ([|] & E & Hb).
  - left. split; [done|]. intros i t. apply (proj1 Hb eq_refl). lia.
  - right. split; [done|]. intros H. enough (false = true) by done. apply Hb. intros j t _. apply H.
Qed.

(** The functional behaviour of [handleHeartBeat] on every branch. *)
Lemma handleHeartBeat_cases now c :
  coord_wf c ->
  (c_phase c = DonePhase /\ handleHeartBeat now c = Ret (c, type_reply "done")) \/
  (c_phase c <> DonePhase /\ exists j t, finds_idle now c j t /\
     handleHeartBeat now c = Ret (upd_task c j (fun t => start_task t now), task_reply c t)) \/
  (c_phase c <> DonePhase /\ finds_expired now c /\ handleHeartBeat now c = Blocked) \/
  (c_phase c <> DonePhase /\ finds_none now c /\ ~ all_done c /\
     handleHeartBeat now c = Ret (c, type_reply "wait")) \/
  (c_phase c = MapPhase /\ all_done c /\ handleHeartBeat now c = Blocked) \/
  (c_phase c = ReducePhase /\ all_done c /\
     handleHeartBeat now c = Ret (with_phase c DonePhase, type_reply "done")).
Proof.
  intros [Hmu Hlen]. unfold handleHeartBeat. cbn [handleHeartBeat_rec]. rewrite Hmu.
  unfold heartBeat_body. cbn [with_mu c_mu c_phase c_tasks c_nMap c_nReduce].
  pose proof (scan_cases now c Hlen) as Hscan. pose proof (allCompleted_cases c Hlen) as Hall.
  unfold phase_size in *. destruct (c_phase c) eqn:Hp.
  - right. destruct Hscan as [(j & t & -> & Hf)|[(j & -> & Hf)|(-> & Hf)]].
    + left. split; [done|]. exists j, t. split; [done|].
      simpl. rewrite (proj1 Hf). simpl. unfold task_reply. rewrite Hp. unfold upd_task.
      destruct c; simpl in *. by subst.
    + right; left. by repeat split.
    + right; right. destruct Hall as [[-> Hd]|[-> Hd]]; simpl; [right; left; by repeat split|left].
      rewrite with_mu_with_mu, with_mu_id by done. by repeat split.
  - right. destruct Hscan as [(j & t & -> & Hf)|[(j & -> & Hf)|(-> & Hf)]].
    + left. split; [done|]. exists j, t. split; [done|].
      simpl. rewrite (proj1 Hf). simpl. unfold task_reply. rewrite Hp. unfold upd_task.
      destruct c; simpl in *. by subst.
    + right; left. by repeat split.
    + right; right. destruct Hall as [[-> Hd]|[-> Hd]]; simpl; [right; right|left].
      * split; [done|]. split; [done|]. destruct c; simpl in *. by subst.
      * rewrite with_mu_with_mu, with_mu_id by done. by repeat split.
  - left. split; [done|]. simpl. by rewrite with_mu_with_mu, with_mu_id.
Qed.

(** C38: when the coordinator deadlocks.  A heartbeat never returns exactly when its
    scan meets a task that has run for more than 10 seconds before an idle one,
    or when every map task is complete and the map phase is not over: the
    recursive call of [handleHeartBeat] locks the mutex its caller holds.  So a
    worker that dies stops the whole job instead of having its task run again. *)
Theorem heartbeat_deadlock now c :
  coord_wf c ->
  handleHeartBeat now c = Blocked <->
  (c_phase c <> DonePhase /\ finds_expired now c) \/ (c_phase c = MapPhase /\ all_done c).
Proof.
  intros Hwf. assert (Hex : forall j t, finds_idle now c j t -> ~ finds_expired now c).
  { intros j t (Hl & Hs & Hbefore) (j' & t' & Hl' & He & Hbefore').
    assert (stops now t /\ stops now t') as [S1 S2] by (split; [by left|by right]).
    destruct (decide (j' < j)%nat); [by eapply Hbefore|].
    destruct (decide (j < j')%nat); [by eapply (Hbefore' j)|].
    assert (j' = j) as -> by lia. simplify_eq. unfold expired in He. by rewrite Hs in He. }
  destruct (handleHeartBeat_cases now c Hwf)
    as [[Hp ->]|[(Hp & j & t & Hf & ->)|[(Hp & Hf & ->)|[(Hp & Hf & Hd & ->)|[(Hp & Hd & ->)|(Hp & Hd & ->)]]]]].
  - split; [done|]. rewrite Hp. by intros [[? _]|[? _]].
  - split; [done|]. intros [[_ He]|[_ Hd]].
    + by destruct (Hex j t Hf).
    + destruct Hf as (Hl & Hs & _). specialize (Hd j t Hl). congruence.
  - split; [|done]. intros _. by left.
  - split; [done|]. intros [[_ (j & t & Hl & He & _)]|[_ ?]]; [|done].
    destruct (Hf j t Hl). by right.
  - split; [|done]. intros _. by right.
  - split; [done|]. intros [[_ (j & t & Hl & He & _)]|[? _]]; [|congruence].
    specialize (Hd j t Hl). unfold expired in He. by rewrite Hd in He.
Qed.

(** The report of task [i] of the current phase. *)
Definition report_of (ty : string) (i : nat) : ReportTaskArgs := mkReportTaskArgs (Z.of_nat i) ty.

Definition completed (c : Coordinator) (i : nat) : Coordinator :=
  upd_task c i (fun t => set_status t Completed).

Lemma length_upd_task c i f : length (c_tasks (upd_task c i f)) = length (c_tasks c).
Proof. apply length_alter. Qed.

Lemma complete_task_spec c i :
  (i < length (c_tasks c))%nat ->
  complete_task c (Z.of_nat i) (length (c_tasks c)) = Ret (completed c i).
Proof.
  intros Hi. unfold complete_task.
  rewrite (proj2 (Z.leb_le 0 (Z.of_nat i))), (proj2 (Z.ltb_lt _ _)) by lia.
  rewrite Nat2Z.id. destruct (lookup_lt_is_Some_2 (c_tasks c) i Hi) as [t ->]. done.
Qed.

(** The proof of the two lemmas below: run the handler, then split on its
    [allCompleted] loop. *)
Ltac run_report Hp Hlen :=
  match goal with Hmu : c_mu ?c = false |- context [handleReport ?c (report_of _ ?i)] =>
    unfold phase_size in Hlen; rewrite Hp in Hlen;
    unfold handleReport; rewrite Hmu; cbn [rp_TaskType rp_TaskID report_of];
    change (String.eqb "map" "map") with true; change (String.eqb "reduce" "map") with false;
    change (String.eqb "reduce" "reduce") with true; cbv iota;
    replace (complete_task _ _ _) with (Ret (completed (with_mu c true) i))
      by (rewrite <- (complete_task_spec (with_mu c true)) by (simpl; lia);
          simpl c_tasks; by rewrite Hlen);
    let E := fresh in let Hd := fresh in
    destruct (allCompleted_cases (completed (with_mu c true) i)) as [[E Hd]|[E Hd]];
    [unfold completed, phase_size; rewrite length_upd_task; simpl; by rewrite Hp| |];
    unfold phase_size in E; simpl c_phase in E; rewrite Hp in E; simpl in *; rewrite E; simpl;
    [left|right]; (split; [|exact Hd]); f_equal; destruct c; simpl in *; by subst
  end.

(** A report for the phase the coordinator is in. *)
Lemma handleReport_map c i :
  coord_wf c -> c_phase c = MapPhase -> (i < c_nMap c)%nat ->
  (handleReport c (report_of "map" i) = Ret (initReducePhase (completed c i)) /\
     all_done (completed c i)) \/
  (handleReport c (report_of "map" i) = Ret (completed c i) /\ ~ all_done (completed c i)).
Proof.
  intros [Hmu Hlen] Hp Hi. run_report Hp Hlen.
Qed.

Lemma handleReport_reduce c i :
  coord_wf c -> c_phase c = ReducePhase -> (i < c_nReduce c)%nat ->
  (handleReport c (report_of "reduce" i) = Ret (with_phase (completed c i) DonePhase) /\
     all_done (completed c i)) \/
  (handleReport c (report_of "reduce" i) = Ret (completed c i) /\ ~ all_done (completed c i)).
Proof.
  intros [Hmu Hlen] Hp Hi. run_report Hp Hlen.
Qed.

(** ** The job as a whole *)

#[export] Instance ReportTaskArgs_eq_dec : EqDecision ReportTaskArgs.
Proof. solve_decision. Defined.

#[export] Instance report_of_inj ty : Inj (=) (=) (report_of ty).
Proof. intros i j [= H]. lia. Qed.

(** The task list of a phase agrees with what was assigned and reported. *)
Definition tasks_ok (ty : string) (assigned reported : list ReportTaskArgs) (tasks : list Task) : Prop :=
  forall i t, tasks !! i = Some t ->
    task_id t = Z.of_nat i /\
    (task_status t = Inited <-> report_of ty i ∉ assigned) /\
    (task_status t = Completed <-> report_of ty i ∈ reported).

Lemma tasks_ok_assign ty assigned reported tasks j t now :
  tasks_ok ty assigned reported tasks -> (forall a, a ∈ reported -> a ∈ assigned) ->
  tasks !! j = Some t -> task_status t = Inited ->
  tasks_ok ty (assigned ++ [report_of ty j]) reported (alter (fun t => start_task t now) j tasks).
Proof.
  intros Hok Hsub Hj Hst i t' Hl. destruct (Hok j t Hj) as (Hid & Hi & Hc).
  rewrite elem_of_app, list_elem_of_singleton. destruct (decide (i = j)) as [->|Hne].
  - rewrite list_lookup_alter_eq, Hj in Hl. simplify_eq/=. split; [done|]. split.
    + split; [done|]. intros H. exfalso. apply H. by right.
    + split; [done|]. intros Hin%Hsub. by apply Hi in Hst.
  - rewrite list_lookup_alter_ne in Hl by done. destruct (Hok i t' Hl) as (Hid' & Hi' & Hc').
    split; [done|]. split; [|done]. rewrite Hi'. split; [|tauto]. intros H [?|?%report_of_inj]; done.
Qed.

Lemma tasks_ok_report ty assigned reported tasks j :
  tasks_ok ty assigned reported tasks -> report_of ty j ∈ assigned ->
  tasks_ok ty assigned (reported ++ [report_of ty j])
    (alter (fun t => set_status t Completed) j tasks).
Proof.
  intros Hok Hin i t' Hl. rewrite elem_of_app, list_elem_of_singleton.
  destruct (decide (i = j)) as [->|Hne].
  - destruct (tasks !! j) as [t|] eqn:Hj; rewrite list_lookup_alter_eq, Hj in Hl; [|done].
    simplify_eq/=. destruct (Hok j t Hj) as (Hid & _ & _). split; [done|]. split; [done|].
    split; [|done]. by right.
  - rewrite list_lookup_alter_ne in Hl by done. destruct (Hok i t' Hl) as (Hid' & Hi' & Hc').
    split; [done|]. split; [done|]. rewrite Hc'. split; [tauto|].
    intros [?|?%report_of_inj]; done.
Qed.

Lemma tasks_ok_all_done ty assigned reported c n :
  tasks_ok ty assigned reported (c_tasks c) -> length (c_tasks c) = n -> all_done c ->
  forall i, (i < n)%nat -> report_of ty i ∈ reported.
Proof.
  intros Hok Hlen Hd i Hi. destruct (lookup_lt_is_Some_2 (c_tasks c) i) as [t Ht]; [lia|].
  apply (Hok i t Ht). by apply (Hd i).
Qed.

Lemma tasks_ok_reduce_init c assigned reported :
  (forall i, report_of "reduce" i ∉ assigned) -> (forall a, a ∈ reported -> a ∈ assigned) ->
  tasks_ok "reduce" assigned reported (c_tasks (initReducePhase c)).
Proof.
  intros Hno Hsub i t Hl. simpl in Hl. apply list_lookup_fmap_Some in Hl as (x & -> & Hx).
  apply range_lookup_Some in Hx as [-> _]. simpl. split; [done|]. split; [split; [done|by intros _]|].
  split; [done|]. intros Hin%Hsub. by destruct (Hno i).
Qed.

Definition maps_reported (nMap : nat) (reported : list ReportTaskArgs) : Prop :=
  forall i, (i < nMap)%nat -> report_of "map" i ∈ reported.
Definition reduces_reported (nReduce : nat) (reported : list ReportTaskArgs) : Prop :=
  forall i, (i < nReduce)%nat -> report_of "reduce" i ∈ reported.

Definition is_map (nMap : nat) (a : ReportTaskArgs) : Prop :=
  exists i, (i < nMap)%nat /\ a = report_of "map" i.
Definition is_reduce (nReduce : nat) (a : ReportTaskArgs) : Prop :=
  exists i, (i < nReduce)%nat /\ a = report_of "reduce" i.

Record mr_inv (s : mr) : Prop := {
  mi_wf : coord_wf (m_coord s);
  mi_nodup : NoDup (m_assigned s);
  mi_perm : m_assigned s ≡ₚ m_out s ++ m_reported s;
  mi_map : c_phase (m_coord s) = MapPhase ->
    tasks_ok "map" (m_assigned s) (m_reported s) (c_tasks (m_coord s)) /\
    (forall a, a ∈ m_assigned s -> is_map (c_nMap (m_coord s)) a);
  mi_reduce : c_phase (m_coord s) = ReducePhase ->
    tasks_ok "reduce" (m_assigned s) (m_reported s) (c_tasks (m_coord s));
  mi_after : c_phase (m_coord s) <> MapPhase ->
    maps_reported (c_nMap (m_coord s)) (m_reported s) /\
    (forall a, a ∈ m_assigned s -> is_map (c_nMap (m_coord s)) a \/ is_reduce (c_nReduce (m_coord s)) a);
  mi_done : c_phase (m_coord s) = DonePhase ->
    reduces_reported (c_nReduce (m_coord s)) (m_reported s)
}.

Lemma mr_init_spec files nReduce :
  exists s, mr_init files nReduce = Ret s /\ mr_inv s /\
    c_nMap (m_coord s) = length files /\ c_nReduce (m_coord s) = nReduce.
Proof.
  unfold mr_init, MakeCoordinator, initMapPhase. cbn [c_nMap c_files].
  rewrite Nat.leb_refl. eexists. split; [reflexivity|]. split; [|done].
  split; try done.
  - split; [done|]. simpl. by rewrite length_imap, length_take, Nat.min_id.
  - constructor.
  - intros _. split; [|by intros a ?%elem_of_nil]. intros i t Hl. simpl in Hl. apply list_lookup_imap_Some in Hl as (f & _ & ->). simpl.
    split; [done|]. split; [split; [intros _; apply not_elem_of_nil|done]|].
    split; [done|]. by intros ?%elem_of_nil.
Qed.

Lemma mi_reported_assigned s a : mr_inv s -> a ∈ m_reported s -> a ∈ m_assigned s.
Proof. intros Hinv Ha. rewrite (mi_perm _ Hinv). apply elem_of_app. by right. Qed.

Lemma mi_out_assigned s a : mr_inv s -> a ∈ m_out s -> a ∈ m_assigned s /\ a ∉ m_reported s.
Proof.
  intros Hinv Ha. split.
  - rewrite (mi_perm _ Hinv). apply elem_of_app. by left.
  - pose proof (mi_nodup _ Hinv) as Hnd. rewrite (mi_perm _ Hinv) in Hnd.
    apply NoDup_app in Hnd as (_ & Hdis & _). by apply Hdis.
Qed.

(** An outstanding assignment belongs to the current phase. *)
Lemma mi_out_phase s a :
  mr_inv s -> a ∈ m_out s ->
  (c_phase (m_coord s) = MapPhase /\ is_map (c_nMap (m_coord s)) a) \/
  (c_phase (m_coord s) = ReducePhase /\ is_reduce (c_nReduce (m_coord s)) a).
Proof.
  intros Hinv Ha. destruct (mi_out_assigned s a Hinv Ha) as [Has Hnr].
  destruct (decide (c_phase (m_coord s) = MapPhase)) as [Hp|Hp].
  - left. split; [done|]. by apply (mi_map _ Hinv Hp).
  - right. destruct (mi_after _ Hinv Hp) as [Hmaps Hkind].
    destruct (Hkind a Has) as [(i & Hi & ->)|(i & Hi & ->)].
    + by destruct (Hnr (Hmaps i Hi)).
    + split; [|by exists i]. destruct (c_phase (m_coord s)) eqn:E; try done.
      by destruct (Hnr (mi_done _ Hinv E i Hi)).
Qed.

Lemma delete_out_perm (out reported assigned : list ReportTaskArgs) k a :
  out !! k = Some a -> assigned ≡ₚ out ++ reported ->
  assigned ≡ₚ delete k out ++ (reported ++ [a]).
Proof.
  intros Hk ->. rewrite (delete_Permutation out k a Hk) at 1. simpl.
  rewrite app_assoc. by rewrite <- Permutation_cons_append.
Qed.

(** Assigning an idle task. *)
Lemma mr_inv_assign s now j t :
  mr_inv s -> c_phase (m_coord s) <> DonePhase -> finds_idle now (m_coord s) j t ->
  let c := upd_task (m_coord s) j (fun t => start_task t now) in
  exists a, assignment (task_reply (m_coord s) t) = Some a /\
    mr_inv (mkMr c (m_out s ++ [a]) (m_assigned s ++ [a]) (m_reported s)).
Proof.
  intros Hinv Hp (Hl & Hst & _) c. destruct (mi_wf _ Hinv) as [Hmu Hlen].
  pose proof (lookup_lt_Some _ _ _ Hl) as Hlt. rewrite Hlen in Hlt.
  assert (Hsub : forall a, a ∈ m_reported s -> a ∈ m_assigned s)
    by (intros a; by apply mi_reported_assigned).
  assert (Hwf : coord_wf c) by (split; [done|]; unfold c; by rewrite length_upd_task).
  assert (Hperm : forall a, m_assigned s ++ [a] ≡ₚ (m_out s ++ [a]) ++ m_reported s).
  { intros a. rewrite (mi_perm _ Hinv), <- !app_assoc. by rewrite (Permutation_app_comm (m_reported s)). }
  assert (Hnd : forall a, a ∉ m_assigned s -> NoDup (m_assigned s ++ [a])).
  { intros a Ha. apply NoDup_app. split; [apply (mi_nodup _ Hinv)|].
    split; [intros x Hx ->%list_elem_of_singleton; done|apply NoDup_singleton]. }
  unfold phase_size in Hlt. destruct (c_phase (m_coord s)) eqn:Ep; [| |done].
  - destruct (mi_map _ Hinv Ep) as [Hok Hkind]. destruct (Hok j t Hl) as (Hid & Hi & _).
    exists (report_of "map" j). unfold task_reply. rewrite Ep, Hid. split; [done|].
    split; simpl; try congruence; [by apply Hnd, Hi|apply Hperm|intros _; split].
    + by eapply tasks_ok_assign.
    + intros a [Ha| ->%list_elem_of_singleton]%elem_of_app; [by apply Hkind|by exists j].
  - pose proof (mi_reduce _ Hinv Ep) as Hok. destruct (Hok j t Hl) as (Hid & Hi & _).
    destruct (mi_after _ Hinv ltac:(by rewrite Ep)) as [Hmaps Hkind].
    exists (report_of "reduce" j). unfold task_reply. rewrite Ep, Hid. split; [done|].
    split; simpl; try congruence; [by apply Hnd, Hi|apply Hperm| |].
    + intros _. by eapply tasks_ok_assign.
    + intros _. split; [done|]. intros a [Ha| ->%list_elem_of_singleton]%elem_of_app;
        [by apply Hkind|right; by exists j].
Qed.

(** Delivering the report of an outstanding assignment. *)
Lemma mr_inv_report s k a :
  mr_inv s -> m_out s !! k = Some a ->
  exists c, handleReport (m_coord s) a = Ret c /\
    mr_inv (mkMr c (delete k (m_out s)) (m_assigned s) (m_reported s ++ [a])).
Proof.
  intros Hinv Hk. assert (Ha : a ∈ m_out s) by (by eapply list_elem_of_lookup_2).
  destruct (mi_out_assigned s a Hinv Ha) as [Has Hnr].
  pose proof (delete_out_perm _ _ _ _ _ Hk (mi_perm _ Hinv)) as Hperm.
  pose proof (mi_nodup _ Hinv) as Hnd. pose proof (mi_wf _ Hinv) as Hwf.
  pose proof (proj2 Hwf) as Hlen.
  destruct (mi_out_phase s a Hinv Ha) as [[Hp (i & Hi & ->)]|[Hp (i & Hi & ->)]].
  - destruct (mi_map _ Hinv Hp) as [Hok Hkind].
    assert (Hok' : tasks_ok "map" (m_assigned s) (m_reported s ++ [report_of "map" i])
                     (c_tasks (completed (m_coord s) i))) by (by apply tasks_ok_report).
    assert (Hlen' : length (c_tasks (completed (m_coord s) i)) = c_nMap (m_coord s)).
    { unfold completed. rewrite length_upd_task, Hlen. unfold phase_size. by rewrite Hp. }
    destruct (handleReport_map (m_coord s) i Hwf Hp Hi) as [[-> Hd]|[-> Hd]];
      (eexists; split; [reflexivity|]); split; simpl; try congruence; try done.
    + split; [exact (proj1 Hwf)|]. unfold phase_size. simpl. unfold range. by rewrite !length_fmap, length_seq.
    + intros _. apply tasks_ok_reduce_init.
      * intros i' (? & _ & [=])%Hkind.
      * intros a [?| ->%list_elem_of_singleton]%elem_of_app; [by apply mi_reported_assigned|done].
    + intros _. split; [|by left; apply Hkind].
      intros i' Hi'. by eapply tasks_ok_all_done.
    + split; [exact (proj1 Hwf)|]. unfold phase_size. simpl. rewrite Hp. apply Hlen'.
  - pose proof (mi_reduce _ Hinv Hp) as Hok.
    destruct (mi_after _ Hinv ltac:(by rewrite Hp)) as [Hmaps Hkind].
    assert (Hok' : tasks_ok "reduce" (m_assigned s) (m_reported s ++ [report_of "reduce" i])
                     (c_tasks (completed (m_coord s) i))) by (by apply tasks_ok_report).
    assert (Hlen' : length (c_tasks (completed (m_coord s) i)) = c_nReduce (m_coord s)).
    { unfold completed. rewrite length_upd_task, Hlen. unfold phase_size. by rewrite Hp. }
    assert (Hmaps' : maps_reported (c_nMap (m_coord s)) (m_reported s ++ [report_of "reduce" i])).
    { intros i' Hi'. apply elem_of_app. left. by apply Hmaps. }
    destruct (handleReport_reduce (m_coord s) i Hwf Hp Hi) as [[-> Hd]|[-> Hd]];
      (eexists; split; [reflexivity|]); split; simpl; try congruence; try done.
    + split; [exact (proj1 Hwf)|exact Hlen'].
    + intros _ i' Hi'. by eapply tasks_ok_all_done.
    + split; [exact (proj1 Hwf)|]. unfold phase_size. simpl. rewrite Hp. apply Hlen'.
Qed.

(** The phase changes of a heartbeat. *)
Lemma mr_inv_done s :
  mr_inv s -> c_phase (m_coord s) = ReducePhase -> all_done (m_coord s) ->
  mr_inv (mkMr (with_phase (m_coord s) DonePhase) (m_out s) (m_assigned s) (m_reported s)).
Proof.
  intros Hinv Hp Hd. destruct (mi_wf _ Hinv) as [Hmu Hlen]. unfold phase_size in Hlen.
  rewrite Hp in Hlen. destruct (mi_after _ Hinv ltac:(by rewrite Hp)) as [Hmaps Hkind].
  split; simpl; try congruence; try done; try apply Hinv.
  intros _ i Hi. by eapply (tasks_ok_all_done _ _ _ _ _ (mi_reduce _ Hinv Hp)).
Qed.

Definition mr_sizes (s s' : mr) : Prop :=
  c_nMap (m_coord s') = c_nMap (m_coord s) /\ c_nReduce (m_coord s') = c_nReduce (m_coord s).

Lemma complete_task_sizes c id n c' :
  complete_task c id n = Ret c' -> c_nMap c' = c_nMap c /\ c_nReduce c' = c_nReduce c.
Proof. unfold complete_task. repeat case_match; intros [= <-]; done. Qed.

Lemma handleReport_sizes c args c' :
  handleReport c args = Ret c' -> c_nMap c' = c_nMap c /\ c_nReduce c' = c_nReduce c.
Proof.
  unfold handleReport. destruct (c_mu c); [done|].
  intros (c2 & H & [= <-])%outcome_bind_inv. change (c_nMap (with_mu c2 false)) with (c_nMap c2).
  change (c_nReduce (with_mu c2 false)) with (c_nReduce c2).
  destruct (String.eqb _ "map"); [|destruct (String.eqb _ "reduce"); [|by injection H as <-]];
    apply outcome_bind_inv in H as (c3 & Hc3%complete_task_sizes & H);
    apply outcome_bind_inv in H as ([|] & _ & [= <-]); exact Hc3.
Qed.

(** Every step keeps the invariant; only a request can block, and nothing panics. *)
Lemma mr_step_inv s lab :
  mr_inv s ->
  (exists s', mr_step s lab = Ret s' /\ mr_inv s' /\ mr_sizes s s') \/ mr_step s lab = Blocked.
Proof.
  intros Hinv. destruct lab as [now|k]; simpl.
  - destruct (handleHeartBeat_cases now (m_coord s) (mi_wf _ Hinv))
      as [[Hp ->]|[(Hp & j & t & Hf & ->)|[(Hp & Hf & ->)|[(Hp & Hf & Hd & ->)|[(Hp & Hd & ->)|(Hp & Hd & ->)]]]]];
      simpl; try (by right); left.
    + eexists. split; [reflexivity|]. by destruct s.
    + destruct (mr_inv_assign s now j t Hinv Hp Hf) as (a & -> & Hinv').
      eexists. split; [reflexivity|]. by split.
    + eexists. split; [reflexivity|]. by destruct s.
    + eexists. split; [reflexivity|]. split; [by apply mr_inv_done|done].
  - destruct (m_out s !! k) as [a|] eqn:Hk; [|left; by exists s].
    destruct (mr_inv_report s k a Hinv Hk) as (c & E & Hinv'). rewrite E. simpl. left.
    eexists. split; [reflexivity|]. split; [done|]. by apply handleReport_sizes in E.
Qed.

Lemma mr_run_inv labs : forall s,
  mr_inv s ->
  (exists s', mr_run s labs = Ret s' /\ mr_inv s' /\ mr_sizes s s') \/ mr_run s labs = Blocked.
Proof.
  induction labs as [|lab labs IH]; intros s Hinv; simpl; [left; by exists s|].
  destruct (mr_step_inv s lab Hinv) as [(s1 & -> & H1 & Hs1)| ->]; [|by right]. simpl.
  destruct (IH s1 H1) as [(s2 & E & H2 & Hs2)|E]; [left|by right].
  exists s2. split; [done|]. split; [done|]. unfold mr_sizes in *. by intuition congruence.
Qed.

Lemma mr_reach files nReduce labs s :
  (s0 ← mr_init files nReduce; mr_run s0 labs) ⇓ s ->
  mr_inv s /\ c_nMap (m_coord s) = length files /\ c_nReduce (m_coord s) = nReduce.
Proof.
  destruct (mr_init_spec files nReduce) as (s0 & -> & H0 & Hm & Hr). simpl. intros Hrun.
  destruct (mr_run_inv labs s0 H0) as [(s' & E & Hinv & Hs)|E]; rewrite E in Hrun; [|done].
  simplify_eq. unfold mr_sizes in Hs. by intuition congruence.
Qed.

(** C23: when the job is over.  With workers that report only what they were assigned,
    once per assignment, and in any interleaving of requests and reports with
    any lost workers: if [Done] answers true, every map task and every reduce
    task has been reported complete, every task was assigned once, and no
    assignment is outstanding. *)
Theorem Done_all_reported files nReduce labs s :
  (s0 ← mr_init files nReduce; mr_run s0 labs) ⇓ s -> Done (m_coord s) = Ret true ->
  maps_reported (length files) (m_reported s) /\ reduces_reported nReduce (m_reported s) /\
  NoDup (m_assigned s) /\ m_assigned s ≡ₚ m_reported s /\ m_out s = [].
Proof.
  intros Hrun Hd. destruct (mr_reach _ _ _ _ Hrun) as (Hinv & Hm & Hr).
  assert (Hp : c_phase (m_coord s) = DonePhase).
  { unfold Done in Hd. destruct (c_mu _); [done|]. injection Hd as Hd. by apply bool_decide_eq_true in Hd. }
  assert (Hout : m_out s = []).
  { destruct (m_out s) as [|a l] eqn:E; [done|].
    destruct (mi_out_phase s a Hinv) as [[? _]|[? _]]; [rewrite E; by left|congruence|congruence]. }
  destruct (mi_after _ Hinv ltac:(by rewrite Hp)) as [Hmaps _].
  rewrite <- Hm, <- Hr. split; [done|]. split; [by apply (mi_done _ Hinv)|].
  split; [apply (mi_nodup _ Hinv)|]. split; [|done]. rewrite (mi_perm _ Hinv). by rewrite Hout.
Qed.

(** the barrier between the phases.  In every reachable state, once a reduce task
    has been assigned, every map task has been reported complete, so a reduce
    task never starts before its inputs are written. *)
Theorem reduce_after_all_maps files nReduce labs s j :
  (s0 ← mr_init files nReduce; mr_run s0 labs) ⇓ s ->
  report_of "reduce" j ∈ m_assigned s ->
  maps_reported (length files) (m_reported s).
Proof.
  intros Hrun Hj. destruct (mr_reach _ _ _ _ Hrun) as (Hinv & <- & _).
  apply (mi_after _ Hinv). intros Hp. by destruct (proj2 (mi_map _ Hinv Hp) _ Hj) as (? & _ & [=]).
Qed.

(** no run of such workers makes the coordinator index its task list out of range. *)
Theorem coordinator_never_panics files nReduce labs :
  ~ (s0 ← mr_init files nReduce; mr_run s0 labs) ↯.
Proof.
  destruct (mr_init_spec files nReduce) as (s0 & -> & H0 & _). simpl.
  destruct (mr_run_inv labs s0 H0) as [(s' & -> & _)| ->]; done.
Qed.

(** ** Progress *)

(** Nothing is outstanding and the current phase is not over. *)
Record quiet (s : mr) : Prop := {
  qu_inv : mr_inv s;
  qu_out : m_out s = [];
  qu_live : c_phase (m_coord s) <> DonePhase -> ~ all_done (m_coord s)
}.

(** With nothing outstanding every task is idle or complete. *)
Lemma quiet_tasks s i t :
  quiet s -> c_phase (m_coord s) <> DonePhase -> c_tasks (m_coord s) !! i = Some t ->
  task_status t = Inited \/ task_status t = Completed.
Proof.
  intros [Hinv Hout _] Hp Hl. pose proof (mi_perm _ Hinv) as Hperm. rewrite Hout in Hperm. simpl in Hperm.
  assert (H : exists ty, tasks_ok ty (m_assigned s) (m_reported s) (c_tasks (m_coord s))).
  { destruct (c_phase (m_coord s)) eqn:E; [exists "map"; by apply (mi_map _ Hinv)|
      exists "reduce"; by apply (mi_reduce _ Hinv)|done]. }
  destruct H as [ty Hok]. destruct (Hok i t Hl) as (_ & Hi & Hc).
  destruct (decide (report_of ty i ∈ m_assigned s)) as [Hin|Hin].
  - right. apply Hc. by rewrite <- Hperm.
  - left. by apply Hi.
Qed.

Lemma quiet_expired s now :
  quiet s -> c_phase (m_coord s) <> DonePhase -> ~ finds_expired now (m_coord s).
Proof.
  intros Hq Hp (j & t & Hl & He & _). unfold expired in He.
  destruct (quiet_tasks s j t Hq Hp Hl) as [H|H]; by rewrite H in He.
Qed.

Lemma quiet_none s now :
  quiet s -> c_phase (m_coord s) <> DonePhase -> finds_none now (m_coord s) -> all_done (m_coord s).
Proof.
  intros Hq Hp Hn j t Hl. destruct (quiet_tasks s j t Hq Hp Hl) as [H|H]; [|done].
  destruct (Hn j t Hl). by left.
Qed.

Lemma initReducePhase_live c : (0 < c_nReduce c)%nat -> ~ all_done (initReducePhase c).
Proof.
  intros Hr Hd. unfold all_done in Hd. simpl in Hd. unfold range in Hd.
  destruct (c_nReduce c); [lia|]. specialize (Hd 0%nat _ eq_refl). done.
Qed.

Lemma handleReport_live s k a c :
  mr_inv s -> m_out s !! k = Some a -> (0 < c_nReduce (m_coord s))%nat ->
  handleReport (m_coord s) a = Ret c -> c_phase c <> DonePhase -> ~ all_done c.
Proof.
  intros Hinv Hk Hr H Hp. assert (Ha : a ∈ m_out s) by (by eapply list_elem_of_lookup_2).
  destruct (mi_out_phase s a Hinv Ha) as [[Hph (i & Hi & ->)]|[Hph (i & Hi & ->)]].
  - destruct (handleReport_map _ i (mi_wf _ Hinv) Hph Hi) as [[E Hd]|[E Hd]];
      rewrite E in H; injection H as <-; [|done].
    by apply initReducePhase_live.
  - destruct (handleReport_reduce _ i (mi_wf _ Hinv) Hph Hi) as [[E Hd]|[E Hd]];
      rewrite E in H; injection H as <-; [by destruct Hp|done].
Qed.

(** One worker asks for a task, runs it and reports it. *)
Definition round (now : Z) : list mr_label := [LRequest now; LReport 0].

Lemma quiet_round s now :
  quiet s -> c_phase (m_coord s) <> DonePhase -> (0 < c_nReduce (m_coord s))%nat ->
  exists s', mr_run s (round now) = Ret s' /\ quiet s' /\ mr_sizes s s' /\
    length (m_reported s') = S (length (m_reported s)).
Proof.
  intros Hq Hp Hr. pose proof (qu_inv _ Hq) as Hinv. pose proof (qu_live _ Hq Hp) as Hlive.
  destruct (handleHeartBeat_cases now (m_coord s) (mi_wf _ Hinv))
    as [[? _]|[(_ & j & t & Hf & E)|[(_ & Hf & _)|[(_ & Hf & _)|[(_ & Hd & _)|(_ & Hd & _)]]]]];
    try done; [|by destruct (quiet_expired s now)|by destruct Hlive; eapply quiet_none].
  destruct (mr_inv_assign s now j t Hinv Hp Hf) as (a & Ea & Hinv').
  set (c := upd_task (m_coord s) j (fun t => start_task t now)) in *.
  set (s1 := mkMr c (m_out s ++ [a]) (m_assigned s ++ [a]) (m_reported s)) in *.
  assert (Hk : m_out s1 !! 0%nat = Some a) by (simpl; by rewrite (qu_out _ Hq)).
  destruct (mr_inv_report s1 0 a Hinv' Hk) as (c2 & E2 & Hinv2).
  eexists. split; [|split; [split|split]].
  - unfold round. cbn [mr_run mr_step]. rewrite E. step_bind. rewrite Ea.
    fold c s1. rewrite Hk, E2. step_bind. reflexivity.
  - exact Hinv2.
  - simpl. by rewrite (qu_out _ Hq).
  - intros Hp2. by apply (handleReport_live s1 0 a c2 Hinv' Hk Hr E2).
  - by apply handleReport_sizes in E2.
  - simpl. rewrite length_app. simpl. lia.
Qed.

Lemma done_round s now :
  quiet s -> c_phase (m_coord s) = DonePhase -> mr_run s (round now) = Ret s.
Proof.
  intros Hq Hp. unfold round. cbn [mr_run mr_step].
  destruct (handleHeartBeat_cases now (m_coord s) (mi_wf _ (qu_inv _ Hq)))
    as [[_ ->]|[[? _]|[[? _]|[[? _]|[[? _]|[? _]]]]]]; try done; try congruence.
  simpl. pose proof (qu_out _ Hq) as Ho. destruct s; simpl in *. by subst.
Qed.

Lemma mr_run_app s labs1 labs2 :
  mr_run s (labs1 ++ labs2) = s' ← mr_run s labs1; mr_run s' labs2.
Proof.
  revert s. induction labs1 as [|lab labs1 IH]; intros s; [done|]. simpl.
  destruct (mr_step s lab); simpl; [apply IH|done..].
Qed.

Lemma quiet_rounds nows : forall s,
  quiet s -> (0 < c_nReduce (m_coord s))%nat ->
  exists s', mr_run s (concat (round <$> nows)) = Ret s' /\ quiet s' /\ mr_sizes s s' /\
    (c_phase (m_coord s') = DonePhase \/
     length (m_reported s') = (length nows + length (m_reported s))%nat).
Proof.
  induction nows as [|now nows IH]; intros s Hq Hr; [exists s; do 3 (split; [done|]); by right|].
  cbn [fmap list_fmap concat]. rewrite mr_run_app.
  destruct (decide (c_phase (m_coord s) = DonePhase)) as [Hp|Hp].
  - rewrite done_round by done. simpl.
    assert (Hstay : forall l, mr_run s (concat (round <$> l)) = Ret s).
    { induction l as [|x l IHl]; [done|]. cbn [fmap list_fmap concat].
      rewrite mr_run_app, done_round by done. exact IHl. }
    exists s. split; [apply Hstay|]. do 2 (split; [done|]). by left.
  - destruct (quiet_round s now Hq Hp Hr) as (s1 & -> & Hq1 & [Hm1 Hr1] & Hl1). simpl.
    destruct (IH s1 Hq1 ltac:(lia)) as (s2 & E & Hq2 & [Hm2 Hr2] & Hl2).
    exists s2. split; [exact E|]. split; [done|]. split; [split; congruence|].
    destruct Hl2 as [?|?]; [by left|right]. rewrite Hl1 in *. lia.
Qed.

(** The tasks of a job, and the counting argument on them. *)
Definition all_tasks (nMap nReduce : nat) : list ReportTaskArgs :=
  (report_of "map" <$> seq 0 nMap) ++ (report_of "reduce" <$> seq 0 nReduce).

Lemma length_all_tasks nMap nReduce : length (all_tasks nMap nReduce) = (nMap + nReduce)%nat.
Proof. unfold all_tasks. by rewrite length_app, !length_fmap, !length_seq. Qed.

Lemma quiet_count s :
  quiet s -> (0 < c_nReduce (m_coord s))%nat -> c_phase (m_coord s) <> DonePhase ->
  (length (m_reported s) < c_nMap (m_coord s) + c_nReduce (m_coord s))%nat.
Proof.
  intros Hq Hr Hp. pose proof (qu_inv _ Hq) as Hinv. pose proof (mi_perm _ Hinv) as Hperm.
  rewrite (qu_out _ Hq) in Hperm. simpl in Hperm.
  pose proof (mi_nodup _ Hinv) as Hnd. rewrite Hperm in Hnd.
  assert (Hmaplt : forall a, is_map (c_nMap (m_coord s)) a ->
            a ∈ report_of "map" <$> seq 0 (c_nMap (m_coord s))).
  { intros a (i & Hi & ->). apply list_elem_of_fmap. exists i. split; [done|]. apply elem_of_seq. lia. }
  assert (Hredlt : forall a, is_reduce (c_nReduce (m_coord s)) a ->
            a ∈ report_of "reduce" <$> seq 0 (c_nReduce (m_coord s))).
  { intros a (i & Hi & ->). apply list_elem_of_fmap. exists i. split; [done|]. apply elem_of_seq. lia. }
  destruct (c_phase (m_coord s)) eqn:E; [| |done].
  - destruct (mi_map _ Hinv E) as [_ Hkind].
    assert (Hsub : m_reported s ⊆+ report_of "map" <$> seq 0 (c_nMap (m_coord s))).
    { apply NoDup_submseteq; [done|]. intros a Ha. apply Hmaplt, Hkind. by rewrite Hperm. }
    apply submseteq_length in Hsub. rewrite length_fmap, length_seq in Hsub. lia.
  - destruct (mi_after _ Hinv ltac:(by rewrite E)) as [_ Hkind].
    assert (Hsub : m_reported s ⊆+ all_tasks (c_nMap (m_coord s)) (c_nReduce (m_coord s))).
    { apply NoDup_submseteq; [done|]. intros a Ha. apply elem_of_app.
      destruct (Hkind a) as [?|?]; [by rewrite Hperm|left; by apply Hmaplt|right; by apply Hredlt]. }
    pose proof (submseteq_length _ _ Hsub) as Hle. rewrite length_all_tasks in Hle.
    destruct (decide (length (m_reported s) = c_nMap (m_coord s) + c_nReduce (m_coord s))%nat)
      as [Heq|]; [|lia].
    exfalso. apply (qu_live _ Hq ltac:(by rewrite E)).
    assert (Hall : m_reported s ≡ₚ all_tasks (c_nMap (m_coord s)) (c_nReduce (m_coord s))).
    { apply submseteq_length_Permutation; [done|]. by rewrite length_all_tasks, Heq. }
    intros i t Hl. apply (mi_reduce _ Hinv E i t Hl). rewrite Hall. apply elem_of_app. right.
    apply Hredlt. exists i. split; [|done]. apply lookup_lt_Some in Hl.
    destruct (mi_wf _ Hinv) as [_ Hlen]. unfold phase_size in Hlen. rewrite E in Hlen. lia.
Qed.

(** C24: the job terminates.  With at least one file and one reduce task, a worker that
    keeps requesting, running and reporting finishes the whole job in
    [nMap + nReduce] rounds, whatever the times: [Done] then answers true. *)
Theorem job_terminates files nReduce nows :
  (0 < length files)%nat -> (0 < nReduce)%nat -> (length files + nReduce <= length nows)%nat ->
  exists s, (s0 ← mr_init files nReduce; mr_run s0 (concat (round <$> nows))) ⇓ s /\
    Done (m_coord s) = Ret true.
Proof.
  intros Hf Hr Hn. destruct (mr_init_spec files nReduce) as (s0 & E0 & H0 & Hm0 & Hr0).
  rewrite E0. simpl. unfold mr_init, MakeCoordinator, initMapPhase in E0. cbn [c_nMap c_files] in E0.
  rewrite Nat.leb_refl in E0. simpl in E0. injection E0 as E0. subst s0.
  assert (Hq : quiet (mkMr (with_tasks (with_phase (mkCoordinator false files nReduce (length files) MapPhase []) MapPhase)
    (imap (fun i f => mkTask f 0 (Z.of_nat i) Inited) (take (length files) files))) [] [] [])).
  { split; [done|done|]. intros _ Hd. unfold all_done in Hd. simpl in Hd.
    destruct files as [|f files]; [simpl in Hf; lia|]. specialize (Hd 0%nat _ eq_refl). done. }
  destruct (quiet_rounds nows _ Hq ltac:(simpl; lia)) as (s & E & Hqs & [Hm Hrs] & Hend).
  exists s. split; [exact E|]. simpl in *.
  assert (Hp : c_phase (m_coord s) = DonePhase).
  { destruct Hend as [?|Hlen]; [done|]. destruct (decide (c_phase (m_coord s) = DonePhase)); [done|].
    pose proof (quiet_count s Hqs ltac:(lia) ltac:(done)). lia. }
  unfold Done. destruct (mi_wf _ (qu_inv _ Hqs)) as [-> _]. by rewrite Hp.
Qed.

(** ** Concrete jobs *)

(** Two files and two reduce tasks, run by one worker. *)
Lemma job_terminates_witness :
  exists s, (s0 ← mr_init ["a"; "b"] 2; mr_run s0 (concat (round <$> [1; 2; 3; 4]))) = Ret s /\
    Done (m_coord s) = Ret true.
Proof. apply (job_terminates ["a"; "b"] 2 [1; 2; 3; 4]); simpl; lia. Defined.

Local Abbreviation demo_run :=
  (s0 ← mr_init ["a"; "b"] 2; mr_run s0 (concat (round <$> [1; 2; 3; 4]))).

Definition demo_state : mr := Eval vm_compute in
  match demo_run with Ret s => s | _ => mkMr (mkCoordinator true [] 0 0 MapPhase []) [] [] [] end.

Lemma demo_run_state : demo_run = Ret demo_state.
Proof. vm_compute. reflexivity. Qed.

Lemma Done_all_reported_witness :
  maps_reported 2 (m_reported demo_state) /\ m_out demo_state = [].
Proof.
  destruct (Done_all_reported ["a"; "b"] 2 (concat (round <$> [1; 2; 3; 4])) demo_state
    demo_run_state eq_refl) as (H1 & _ & _ & _ & H2). split; [exact H1|exact H2].
Defined.

Lemma reduce_after_all_maps_witness :
  report_of "reduce" 1 ∈ m_assigned demo_state /\ maps_reported 2 (m_reported demo_state).
Proof.
  assert (H : report_of "reduce" 1 ∈ m_assigned demo_state) by (unfold demo_state; simpl; repeat constructor).
  split; [exact H|].
  exact (reduce_after_all_maps ["a"; "b"] 2 (concat (round <$> [1; 2; 3; 4])) demo_state 1
    demo_run_state H).
Defined.

(** The first map task was given out 11 seconds ago and its worker is gone. *)
Lemma heartbeat_deadlock_witness :
  exists c, MakeCoordinator ["a"] 1 = Ret c /\
    (exists c' r, handleHeartBeat 1 c = Ret (c', r) /\
      handleHeartBeat (11 * 10 ^ 9 + 1) c' = Blocked).
Proof.
  eexists. split; [reflexivity|]. do 2 eexists. split; [reflexivity|].
  apply heartbeat_deadlock; [by split|]. left. split; [done|].
  exists 0%nat. eexists. split; [reflexivity|]. split; [by vm_compute|]. intros j' t' Hj. lia.
Defined.

(** The coordinator after the five messages of the run below. *)
Definition dup_state : Coordinator :=
  mkCoordinator false ["a"; "b"] 2 2 ReducePhase
    [mkTask "" 0 0 Completed; mkTask "" 0 1 Inited].

(** a report received twice corrupts the reduce phase.  [handleReport] does not
    compare the task type with the phase: with two files and two reduce tasks, a
    second report of map task 0 (a worker repeats a report whose call failed)
    marks reduce task 0 complete although nobody was ever assigned it, and the
    job is declared done after reduce task 1 alone; with one reduce task the
    second report of map task 1 panics. *)
Theorem duplicate_report_skips_reduce_task :
  let dup := [HeartBeat 1; HeartBeat 2; Report (report_of "map" 0); Report (report_of "map" 1)] in
  (exists c c' r, (c0 ← MakeCoordinator ["a"; "b"] 2;
      Schedule_run c0 (dup ++ [Report (report_of "map" 0)])) = Ret c /\
    c_phase c = ReducePhase /\ handleHeartBeat 3 c = Ret (c', r) /\
    assignment r = Some (report_of "reduce" 1) /\
    (c'' ← handleReport c' (report_of "reduce" 1); Done c'') = Ret true) /\
  (c0 ← MakeCoordinator ["a"; "b"] 1; Schedule_run c0 (dup ++ [Report (report_of "map" 1)])) = Panic.
Proof.
  intros dup. split; [|by vm_compute].
  exists dup_state, (upd_task dup_state 1 (fun t => start_task t 3)).
  eexists. split; [by vm_compute|]. split; [done|]. split; [by vm_compute|].
  split; by vm_compute.
Qed.
