(* ===== verification/MrWorker.v ===== *)
(** The MapReduce worker of [mr/worker.go], the sequential reference of
    [main/mrsequential.go] and the functions of [mrapps/wc.go]: the map and
    reduce tasks on a store of files, and the proof that the distributed job
    computes what the sequential program computes. *)
From S2P Require Import Prelude.
From S2P Require Import Runes.
From S2P Require Import Names.
From S2P Require Import MrCoord.
From stdpp Require Import pretty.
Open Scope Z_scope.

Record KeyValue := mkKeyValue { Key : string; Value : string }.

#[export] Instance KeyValue_eq_dec : EqDecision KeyValue.
Proof. solve_decision. Defined.

(** [ByKey.Less]: Go compares strings byte by byte. *)
Definition Less (a b : KeyValue) : bool := String.ltb (Key a) (Key b).

(** What [encoding/json] keeps of an entry: strings are made valid UTF-8. *)
Definition coerce_kv (kv : KeyValue) : KeyValue := mkKeyValue (ToValid (Key kv)) (ToValid (Value kv)).
Definition valid_kv (kv : KeyValue) : Prop := valid_utf8 (Key kv) /\ valid_utf8 (Value kv).

Lemma coerce_valid kvs : Forall valid_kv kvs -> coerce_kv <$> kvs = kvs.
Proof.
  induction 1 as [|[k v] kvs [Hk Hv] _ IH]; [done|]. rewrite fmap_cons, IH. unfold coerce_kv. simpl in *. by rewrite Hk, Hv.
Qed.

(** [strconv.Itoa]. *)
Definition Itoa (z : Z) : string := pretty z.

Definition ihash (key : string) : Z := Z.land (Sum32 key) 0x7fffffff.

(** The names of the intermediate and output files. *)
Definition iname (mapID reduceID : Z) : string :=
  "mr-" +:+ Itoa mapID +:+ "-" +:+ Itoa reduceID.
Definition oname (reduceID : Z) : string := "mr-out-" +:+ Itoa reduceID.

#[global] Arguments iname : simpl never.
#[global] Arguments oname : simpl never.

(** File names to contents. *)
Abbreviation fs := (gmap string string).

(** Appending a line per [Fprintf]. *)
Definition newline : string := String (Ascii.ascii_of_nat 10) EmptyString.
Definition line (key output : string) : string := key +:+ " " +:+ output +:+ newline.

Fixpoint cat (lines : list string) : string :=
  match lines with [] => "" | l :: ls => l +:+ cat ls end.

(** The inner loops of [doReduceTask] from index [i + 1] on: the values of the entries
    that have the key of entry [i], and the entries from [j] on. *)
Fixpoint same_key (k : string) (l : list KeyValue) : list string * list KeyValue :=
  match l with
  | kv :: l' =>
      if String.eqb (Key kv) k then
        let '(vs, rest) := same_key k l' in (Value kv :: vs, rest)
      else ([], l)
  | [] => ([], [])
  end.

(** ** File names *)

Lemma Itoa_digits i : all_chars is_digit (Itoa (Z.of_nat i)) = true.
Proof. apply pretty_digits. Qed.

Lemma Itoa_no_dash i : all_chars no_dash (Itoa (Z.of_nat i)) = true.
Proof. apply pretty_no_dash. Qed.

Lemma Itoa_inj i j : Itoa (Z.of_nat i) = Itoa (Z.of_nat j) -> i = j.
Proof. apply pretty_of_nat_inj. Qed.

(** No two intermediate files share a name, nor an intermediate and an output file. *)
Lemma iname_inj i j i' j' :
  iname (Z.of_nat i) (Z.of_nat j) = iname (Z.of_nat i') (Z.of_nat j') -> i = i' /\ j = j'.
Proof.
  unfold iname. intros H. apply (inj (String.app "mr-")) in H.
  apply dash_split in H as [Hi Hj]; [|apply Itoa_no_dash..].
  split; by apply Itoa_inj.
Qed.

Lemma oname_inj r r' : oname (Z.of_nat r) = oname (Z.of_nat r') -> r = r'.
Proof. unfold oname. intros H. apply (inj (String.app "mr-out-")) in H. by apply Itoa_inj. Qed.

Lemma oname_ne_iname r i j : oname (Z.of_nat r) <> iname (Z.of_nat i) (Z.of_nat j).
Proof.
  unfold oname, iname. change "mr-out-" with ("mr-" +:+ "out" +:+ "-"). intros H.
  change (("mr-" +:+ "out" +:+ "-") +:+ Itoa (Z.of_nat r)) with ("mr-" +:+ ("out" +:+ "-" +:+ Itoa (Z.of_nat r))) in H.
  apply (inj (String.app "mr-")) in H.
  apply dash_split in H as [H _]; [|done|apply Itoa_no_dash].
  pose proof (Itoa_digits i) as Hd. by rewrite <- H in Hd.
Qed.

(** The map function emits valid text for every input file. *)
Definition emits_valid (mapf : string -> string -> list KeyValue) (files : list string) (s0 : fs) : Prop :=
  forall f c, f ∈ files -> s0 !! f = Some c -> Forall valid_kv (mapf f c).

Section Worker.
(** The application's functions, [sort.Sort(ByKey(...))], and the stream of
    [encoding/json]: [enc] is what one [Encode] appends, [dec] the values that
    [Decode] returns until its first error. *)
Variable mapf : string -> string -> list KeyValue.
Variable reducef : string -> list string -> string.
Variable sort_ByKey : list KeyValue -> list KeyValue.
Variable enc : KeyValue -> string.
Variable dec : string -> list KeyValue.

(** The loop [for i < len(intermediate)], an output line per key; every round
    consumes an entry, so [length l] rounds are enough. *)
Fixpoint reduce_loop (fuel : nat) (l : list KeyValue) : list string :=
  match fuel, l with
  | S fuel', kv :: l' =>
      let '(vs, rest) := same_key (Key kv) l' in
      line (Key kv) (reducef (Key kv) (Value kv :: vs)) :: reduce_loop fuel' rest
  | _, _ => []
  end.

Definition reduce_lines (l : list KeyValue) : list string := reduce_loop (length l) l.

(** Partitioning: one pass over the entries, appending each to its bucket. *)
Definition partition_step (nReduce : Z) (buckets : outcome (list (list KeyValue))) (kv : KeyValue)
  : outcome (list (list KeyValue)) :=
  bs ← buckets;
  if nReduce =? 0 then Panic
  else
    let bucketIndex := Z.to_nat (Z.rem (ihash (Key kv)) nReduce) in
    match bs !! bucketIndex with
    | Some b => Ret (<[bucketIndex := b ++ [kv]]> bs)
    | None => Panic
    end.

Definition partition (nReduce : Z) (kva : list KeyValue) : outcome (list (list KeyValue)) :=
  foldl (partition_step nReduce) (Ret (replicate (Z.to_nat nReduce) [])) kva.

(** Each bucket is written to a temporary file and renamed into place. *)
Definition write_buckets (taskID : Z) (buckets : list (list KeyValue)) (s : fs) : fs :=
  foldl (fun s '(i, b) => <[iname taskID (Z.of_nat i) := cat (enc <$> b)]> s) s
    (imap (fun i b => (i, b)) buckets).

(** A file that cannot be opened makes the task return without output. *)
Definition doMapTask (reply : RequestTaskReply) (s : fs) : outcome fs :=
  match s !! rt_FileName reply with
  | None => Ret s
  | Some content =>
      buckets ← partition (rt_NReduce reply) (mapf (rt_FileName reply) content);
      Ret (write_buckets (rt_TaskID reply) buckets s)
  end.

(** The loop over [mr-i-TaskID]; a missing file is skipped. *)
Definition read_intermediate (nMap taskID : Z) (s : fs) : list KeyValue :=
  concat ((fun i => match s !! iname i taskID with Some c => dec c | None => [] end)
            <$> range (Z.to_nat nMap)).

Definition doReduceTask (reply : RequestTaskReply) (s : fs) : fs :=
  let intermediate := sort_ByKey (read_intermediate (rt_NMap reply) (rt_TaskID reply) s) in
  <[oname (rt_TaskID reply) := cat (reduce_lines intermediate)]> s.

(** One task of a worker, as the reply of the coordinator says. *)
Definition do_task (reply : RequestTaskReply) (s : fs) : outcome fs :=
  if String.eqb (rt_TaskType reply) "map" then doMapTask reply s
  else if String.eqb (rt_TaskType reply) "reduce" then Ret (doReduceTask reply s)
  else Ret s.

(** [mrsequential]: read every file, map, sort, reduce, all in one process; a file
    that cannot be opened is fatal. *)
Fixpoint seq_map (files : list string) (s : fs) : outcome (list KeyValue) :=
  match files with
  | [] => Ret []
  | f :: files' =>
      match s !! f with
      | None => Panic
      | Some content => rest ← seq_map files' s; Ret (mapf f content ++ rest)
      end
  end.

Definition mrsequential (files : list string) (s : fs) : outcome fs :=
  intermediate ← seq_map files s;
  Ret (<["mr-out-0" := cat (reduce_lines (sort_ByKey intermediate))]> s).

(** ** The reduce loop *)

(** The values of key [k], in list order. *)
Definition values (k : string) (l : list KeyValue) : list string :=
  Value <$> filter (fun kv => Key kv = k) l.

Definition ByKey_sorted : list KeyValue -> Prop :=
  StronglySorted (fun a b => Less b a = false).

Lemma Less_false a b : Less b a = false -> String.le (Key a) (Key b).
Proof.
  unfold Less, String.ltb, String.le, String.leb. intros H.
  rewrite String.compare_antisym. by destruct (String.compare (Key b) (Key a)).
Qed.

Lemma values_cons_eq k kv l : Key kv = k -> values k (kv :: l) = Value kv :: values k l.
Proof. intros H. unfold values. by rewrite filter_cons_True. Qed.

Lemma values_cons_ne k kv l : Key kv <> k -> values k (kv :: l) = values k l.
Proof. intros H. unfold values. by rewrite filter_cons_False. Qed.

Lemma values_app k l1 l2 : values k (l1 ++ l2) = values k l1 ++ values k l2.
Proof. unfold values. by rewrite filter_app, fmap_app. Qed.

Lemma values_nil_notin k l : k ∉ (Key <$> l) -> values k l = [].
Proof.
  induction l as [|kv l IH]; [done|]. rewrite fmap_cons, not_elem_of_cons. intros [Hne Hin].
  rewrite values_cons_ne by done. by apply IH.
Qed.

Lemma le_head_notin k kv l :
  Key kv <> k -> String.le k (Key kv) -> ByKey_sorted (kv :: l) -> k ∉ (Key <$> (kv :: l)).
Proof.
  intros Hne Hle [_ Hall]%StronglySorted_inv. rewrite fmap_cons, not_elem_of_cons. split; [done|].
  intros (kv' & -> & Hin)%list_elem_of_fmap. rewrite Forall_forall in Hall.
  apply Hne. apply (anti_symm String.le); [|done]. apply Less_false. by apply Hall.
Qed.

(** On a sorted list the inner loop collects exactly the values of the key. *)
Lemma same_key_spec k l :
  ByKey_sorted l -> (forall kv, kv ∈ l -> String.le k (Key kv)) ->
  let '(vs, rest) := same_key k l in
  vs = values k l /\ (k ∉ (Key <$> rest)) /\ ByKey_sorted rest /\
  (exists pre, l = pre ++ rest /\ forall kv, kv ∈ pre -> Key kv = k).
Proof.
  induction l as [|kv l IH]; intros Hs Hle; simpl.
  - split; [done|]. split; [apply not_elem_of_nil|]. split; [done|]. exists []. split; [done|].
    by intros kv' ?%elem_of_nil.
  - destruct (String.eqb_spec (Key kv) k) as [Hk|Hk].
    + pose proof (StronglySorted_inv Hs) as [Hs' _].
      specialize (IH Hs' (fun kv' Hin => Hle kv' (list_elem_of_further _ _ _ Hin))).
      destruct (same_key k l) as [vs rest]. destruct IH as (-> & Hn & Hr & pre & -> & Hpre).
      split; [by rewrite values_cons_eq|]. split; [done|]. split; [done|].
      exists (kv :: pre). split; [done|]. by intros kv' [->|?]%elem_of_cons; [|apply Hpre].
    + assert (Hn : k ∉ (Key <$> kv :: l)).
      { apply le_head_notin; [done| |done]. apply Hle. auto with go. }
      split; [by rewrite values_nil_notin|]. split; [done|]. split; [done|]. exists [].
      split; [done|]. by intros kv' ?%elem_of_nil.
Qed.

(** The lines are the reductions of the distinct keys. *)
Lemma reduce_loop_spec fuel : forall l,
  ByKey_sorted l -> (length l <= fuel)%nat ->
  exists ks, NoDup ks /\ (forall k, k ∈ ks <-> k ∈ (Key <$> l)) /\
    reduce_loop fuel l = (fun k => line k (reducef k (values k l))) <$> ks.
Proof.
  induction fuel as [|fuel IH]; intros l Hs Hlen.
  { destruct l; [|simpl in Hlen; lia]. exists []. split; [constructor|done]. }
  destruct l as [|kv l]; [exists []; split; [constructor|done]|]. cbn [reduce_loop].
  pose proof (StronglySorted_inv Hs) as [Hs' Hall]. rewrite Forall_forall in Hall.
  pose proof (same_key_spec (Key kv) l Hs' (fun kv' Hin => Less_false _ _ (Hall kv' Hin))) as Hk.
  destruct (same_key (Key kv) l) as [vs rest]. destruct Hk as (-> & Hn & Hr & pre & -> & Hpre).
  rewrite length_cons, length_app in Hlen.
  destruct (IH rest Hr ltac:(lia)) as (ks & Hnd & Hin & ->).
  exists (Key kv :: ks). split; [|split].
  - constructor; [by rewrite Hin|done].
  - intros k. rewrite fmap_cons, !elem_of_cons, fmap_app, elem_of_app, Hin. split; [tauto|].
    intros [?|[(kv' & -> & Hk%Hpre)%list_elem_of_fmap|?]]; [by left|by left|by right].
  - rewrite fmap_cons. f_equal; [by rewrite values_cons_eq|].
    apply list_fmap_ext. intros i k Hk. apply list_elem_of_lookup_2, Hin in Hk.
    rewrite values_cons_ne by (intros Heq; rewrite <- Heq in Hk; done). rewrite values_app.
    rewrite (values_nil_notin k pre); [done|]. intros (kv' & -> & Hk'%Hpre)%list_elem_of_fmap.
    rewrite Hk' in Hk. done.
Qed.

Lemma reduce_lines_spec l :
  ByKey_sorted l ->
  exists ks, NoDup ks /\ (forall k, k ∈ ks <-> k ∈ (Key <$> l)) /\
    reduce_lines l = (fun k => line k (reducef k (values k l))) <$> ks.
Proof. intros Hs. by apply reduce_loop_spec. Qed.

(** ** Partitioning *)

Definition bucket_of (nReduce : Z) (kv : KeyValue) : Z := Z.rem (ihash (Key kv)) nReduce.

Definition in_bucket (nReduce : nat) (r : nat) (kv : KeyValue) : Prop :=
  bucket_of (Z.of_nat nReduce) kv = Z.of_nat r.
#[local] Instance in_bucket_dec nReduce r kv : Decision (in_bucket nReduce r kv).
Proof. unfold in_bucket. apply _. Defined.

Lemma ihash_range key : 0 <= ihash key < 2 ^ 31.
Proof.
  unfold ihash. change 0x7fffffff with (Z.ones 31). rewrite Z.land_ones by lia.
  apply Z.mod_pos_bound. lia.
Qed.

Lemma bucket_of_range nReduce kv :
  (0 < nReduce)%nat -> 0 <= bucket_of (Z.of_nat nReduce) kv < Z.of_nat nReduce.
Proof.
  intros Hr. unfold bucket_of. pose proof (ihash_range (Key kv)).
  rewrite Z.rem_mod_nonneg by lia. apply Z.mod_pos_bound. lia.
Qed.

Definition buckets (nReduce : nat) (kva : list KeyValue) : list (list KeyValue) :=
  (fun r => filter (in_bucket nReduce r) kva) <$> seq 0 nReduce.

Lemma partition_step_spec nReduce done kv :
  (0 < nReduce)%nat ->
  partition_step (Z.of_nat nReduce) (Ret (buckets nReduce done)) kv =
    Ret (buckets nReduce (done ++ [kv])).
Proof.
  intros Hr. unfold partition_step. step_bind.
  rewrite (proj2 (Z.eqb_neq _ _)) by lia. fold (bucket_of (Z.of_nat nReduce) kv).
  pose proof (bucket_of_range nReduce kv Hr) as Hb.
  set (b := Z.to_nat (bucket_of (Z.of_nat nReduce) kv)).
  assert (Hlt : (b < nReduce)%nat) by (unfold b; lia).
  assert (Hlk : forall d r, (r < nReduce)%nat ->
    buckets nReduce d !! r = Some (filter (in_bucket nReduce r) d)).
  { intros d r Hlt'. unfold buckets. by rewrite list_lookup_fmap, lookup_seq_lt. }
  rewrite (Hlk done b Hlt). f_equal. apply list_eq. intros r.
  destruct (decide (r < nReduce)%nat) as [Hlt'|Hge].
  - rewrite (Hlk (done ++ [kv]) r Hlt'), filter_app. destruct (decide (b = r)) as [<-|Hne].
    + rewrite list_lookup_insert_eq by (unfold buckets; by rewrite length_fmap, length_seq).
      rewrite filter_cons_True; [done|]. unfold in_bucket, b. lia.
    + rewrite list_lookup_insert_ne, (Hlk done r Hlt') by done.
      rewrite filter_cons_False; [by rewrite app_nil_r|]. unfold in_bucket, b in *. lia.
  - rewrite !(proj2 (lookup_ge_None _ _)); [done| |];
      rewrite ?length_insert; unfold buckets; rewrite length_fmap, length_seq; lia.
Qed.

Lemma partition_buckets nReduce kva :
  (0 < nReduce)%nat -> partition (Z.of_nat nReduce) kva = Ret (buckets nReduce kva).
Proof.
  intros Hr. unfold partition. rewrite Nat2Z.id.
  assert (H0 : replicate nReduce [] = buckets nReduce []).
  { apply list_eq. intros r. unfold buckets. rewrite list_lookup_fmap.
    destruct (decide (r < nReduce)%nat).
    - by rewrite lookup_replicate_2, lookup_seq_lt by done.
    - rewrite (proj2 (lookup_ge_None _ _)) by (rewrite length_replicate; lia).
      rewrite (proj2 (lookup_ge_None (seq _ _) _)) by (rewrite length_seq; lia). done. }
  rewrite H0. enough (H : forall d, foldl (partition_step (Z.of_nat nReduce))
    (Ret (buckets nReduce d)) kva = Ret (buckets nReduce (d ++ kva))) by apply H.
  induction kva as [|kv kva IH]; intros d; cbn [foldl]; [by rewrite app_nil_r|].
  rewrite partition_step_spec by done. rewrite IH. by rewrite <- app_assoc.
Qed.

(** partitioning is total and loses nothing.  With at least one reduce task,
    [doMapTask] indexes its buckets within range for every key, bucket [r]
    gets exactly the entries whose [ihash] is [r] modulo [NReduce], in order,
    so two entries with one key meet in one bucket; together the buckets hold
    every entry once.  With no reduce task the first entry panics. *)
Theorem partition_spec nReduce kva :
  (0 < nReduce)%nat ->
  exists bs, partition (Z.of_nat nReduce) kva = Ret bs /\ length bs = nReduce /\
    (forall r, (r < nReduce)%nat -> bs !! r = Some (filter (in_bucket nReduce r) kva)) /\
    (forall kv, kv ∈ kva -> exists r, (r < nReduce)%nat /\ in_bucket nReduce r kv) /\
    (forall kv, partition 0 (kv :: kva) = Panic).
Proof.
  intros Hr. exists (buckets nReduce kva). split; [by apply partition_buckets|].
  split; [unfold buckets; by rewrite length_fmap, length_seq|]. split; [|split].
  - intros r Hlt. unfold buckets. by rewrite list_lookup_fmap, lookup_seq_lt.
  - intros kv _. pose proof (bucket_of_range nReduce kv Hr).
    exists (Z.to_nat (bucket_of (Z.of_nat nReduce) kv)). unfold in_bucket. lia.
  - intros kv. unfold partition. simpl. by induction kva as [|kv' kva IH].
Qed.

(** ** The whole job *)

Definition map_reply (files : list string) (nReduce i : nat) : RequestTaskReply :=
  mkRequestTaskReply "map" (nth i files "") (Z.of_nat nReduce) (Z.of_nat (length files)) (Z.of_nat i).
Definition reduce_reply (files : list string) (nReduce r : nat) : RequestTaskReply :=
  mkRequestTaskReply "reduce" "" (Z.of_nat nReduce) (Z.of_nat (length files)) (Z.of_nat r).

Definition run_tasks (replies : list RequestTaskReply) (s : fs) : outcome fs :=
  foldl (fun acc reply => s ← acc; do_task reply s) (Ret s) replies.

Lemma run_tasks_app l1 l2 s :
  run_tasks (l1 ++ l2) s = s' ← run_tasks l1 s; run_tasks l2 s'.
Proof.
  unfold run_tasks. rewrite foldl_app.
  destruct (foldl _ (Ret s) l1) as [s1| |]; [done| |]; induction l2 as [|r l2 IH]; done.
Qed.

Lemma run_tasks_cons r l s : run_tasks (r :: l) s = s' ← do_task r s; run_tasks l s'.
Proof. exact (run_tasks_app [r] l s). Qed.

(** Writing the buckets of map task [i]. *)
Lemma write_buckets_lookup taskID (bs : list (list KeyValue)) s k b :
  bs !! k = Some b ->
  write_buckets (Z.of_nat taskID) bs s !! iname (Z.of_nat taskID) (Z.of_nat k) = Some (cat (enc <$> b)).
Proof.
  unfold write_buckets. revert k b. induction bs as [|b0 bs IH] using rev_ind; intros k b Hk; [done|].
  rewrite imap_app, foldl_app. simpl. rewrite Nat.add_0_r.
  destruct (decide (k = length bs)) as [->|Hne].
  - rewrite lookup_app_r, Nat.sub_diag in Hk by lia. simplify_eq/=. apply lookup_insert_eq.
  - rewrite lookup_insert_ne by (intros H; apply iname_inj in H; lia). apply IH.
    rewrite lookup_app_l in Hk; [done|]. apply lookup_lt_Some in Hk.
    rewrite length_app in Hk. simpl in Hk. lia.
Qed.

Lemma write_buckets_other taskID (bs : list (list KeyValue)) s name :
  (forall k, name <> iname (Z.of_nat taskID) (Z.of_nat k)) ->
  write_buckets (Z.of_nat taskID) bs s !! name = s !! name.
Proof.
  intros Hn. unfold write_buckets. induction bs as [|b0 bs IH] using rev_ind; [done|].
  rewrite imap_app, foldl_app. simpl. by rewrite lookup_insert_ne by (intros H; by apply (Hn (length bs + 0)%nat)).
Qed.

Section Job.
(** A job on the store [s0], whose input files exist under names that are not
    names of intermediate files. *)
Variable files : list string.
Variable nReduce : nat.
Variable s0 : fs.
Hypothesis Hr : (0 < nReduce)%nat.
Hypothesis Hinput : forall f, f ∈ files -> is_Some (s0 !! f).
Hypothesis Hnames : forall f i j, f ∈ files -> f <> iname (Z.of_nat i) (Z.of_nat j).

(** What map task [i] emits. *)
Definition emitted (f : string) : list KeyValue :=
  match s0 !! f with Some c => mapf f c | None => [] end.

Definition all_kvs : list KeyValue := concat (emitted <$> files).

(** A store in which the map tasks [done] have run. *)
Record mapped (done : list nat) (s : fs) : Prop := {
  mp_input f : f ∈ files -> s !! f = s0 !! f;
  mp_inter i f r : i ∈ done -> files !! i = Some f -> (r < nReduce)%nat ->
    s !! iname (Z.of_nat i) (Z.of_nat r) =
      Some (cat (enc <$> filter (in_bucket nReduce r) (emitted f)))
}.

Lemma seq_map_all : seq_map files s0 = Ret all_kvs.
Proof.
  unfold all_kvs, emitted. revert Hinput. generalize files as l.
  induction l as [|f l IH]; intros Hin; [done|]. simpl.
  destruct (Hin f (list_elem_of_here _ _)) as [c ->].
  rewrite IH; [done|]. intros f' Hf. apply Hin. auto with go.
Qed.

Lemma mapped_step done s i :
  mapped done s -> (i < length files)%nat ->
  exists s', do_task (map_reply files nReduce i) s = Ret s' /\ mapped (i :: done) s'.
Proof.
  intros [M1 M2] Hi. destruct (lookup_lt_is_Some_2 files i Hi) as [f Hf].
  assert (Hin : f ∈ files) by (by eapply list_elem_of_lookup_2).
  unfold do_task, map_reply. cbn [rt_TaskType]. change (String.eqb "map" "map") with true. cbv iota.
  unfold doMapTask. cbn [rt_FileName rt_NReduce rt_TaskID]. rewrite (nth_lookup_Some files i "" f Hf).
  rewrite (M1 f Hin). destruct (Hinput f Hin) as [c Hc]. rewrite Hc.
  rewrite partition_buckets by done. eexists. split; [reflexivity|]. split.
  - intros f' Hf'. rewrite write_buckets_other; [by apply M1|]. intros k. by apply Hnames.
  - intros i' f' r Hi' Hf' Hlt. destruct (decide (i' = i)) as [->|Hne].
    + assert (f' = f) as -> by congruence. apply write_buckets_lookup.
      unfold buckets, emitted. rewrite Hc. by rewrite list_lookup_fmap, lookup_seq_lt.
    + rewrite write_buckets_other by (intros k H; apply iname_inj in H; lia).
      apply M2; [|done|done]. by apply elem_of_cons in Hi' as [?|?].
Qed.

Lemma mapped_run ms : forall done s,
  mapped done s -> (forall i, i ∈ ms -> (i < length files)%nat) ->
  exists s', run_tasks (map_reply files nReduce <$> ms) s = Ret s' /\ mapped (reverse ms ++ done) s'.
Proof.
  induction ms as [|i ms IH]; intros done s Hm Hall; [by exists s|].
  destruct (mapped_step done s i Hm (Hall i (list_elem_of_here _ _))) as (s1 & E & H1).
  destruct (IH (i :: done) s1 H1) as (s2 & E2 & H2);
    [intros i' Hi'; apply Hall; auto with go|].
  exists s2. split.
  - rewrite fmap_cons, run_tasks_cons, E. exact E2.
  - rewrite reverse_cons, <- app_assoc. exact H2.
Qed.

(** [encoding/json]: what one encoder writes, a decoder reads back, with U+FFFD in the
    place of every byte that is not UTF-8; and the application emits text that is. *)
Hypothesis json_stream : forall kvs, dec (cat (enc <$> kvs)) = coerce_kv <$> kvs.
Hypothesis Hvalid : emits_valid mapf files s0.

Lemma json_emitted f (P : KeyValue -> Prop) `{forall kv, Decision (P kv)} :
  f ∈ files -> dec (cat (enc <$> filter P (emitted f))) = filter P (emitted f).
Proof.
  intros Hf. destruct (Hinput f Hf) as [c Hc]. rewrite json_stream. apply coerce_valid, Forall_forall.
  intros kv [_ Hkv]%list_elem_of_filter. unfold emitted in Hkv. rewrite Hc in Hkv. pose proof (Hvalid f c Hf Hc) as Hv.
  rewrite Forall_forall in Hv. by apply Hv.
Qed.

Lemma filter_concat {A} (P : A -> Prop) `{forall x, Decision (P x)} (ls : list (list A)) :
  filter P (concat ls) = concat (filter P <$> ls).
Proof. induction ls as [|l ls IH]; [done|]. simpl. by rewrite filter_app, IH. Qed.

Lemma concat_map_files {A} (l : list string) (g : string -> list A) (h : Z -> list A) k :
  (forall i f, l !! i = Some f -> h (Z.of_nat (k + i)) = g f) ->
  concat (h <$> (Z.of_nat <$> seq k (length l))) = concat (g <$> l).
Proof.
  revert k. induction l as [|f l IH]; intros k H; [done|].
  cbn [length seq fmap list_fmap concat]. f_equal.
  - specialize (H 0%nat f eq_refl). by rewrite Nat.add_0_r in H.
  - apply IH. intros i f' Hf. specialize (H (S i) f' Hf). by replace (S k + i)%nat with (k + S i)%nat by lia.
Qed.

(** After all map tasks, reduce task [r] reads bucket [r] of everything emitted. *)
Lemma mapped_read done s r :
  mapped done s -> (forall i, (i < length files)%nat -> i ∈ done) -> (r < nReduce)%nat ->
  read_intermediate (Z.of_nat (length files)) (Z.of_nat r) s =
    filter (in_bucket nReduce r) all_kvs.
Proof.
  intros [M1 M2] Hall Hlt. unfold read_intermediate, all_kvs, range. rewrite Nat2Z.id.
  rewrite filter_concat, <- (list_fmap_compose emitted).
  apply (concat_map_files files (filter (in_bucket nReduce r) ∘ emitted)).
  intros i f Hf. rewrite Nat.add_0_l. cbv beta. rewrite (M2 i f r); [apply json_emitted; by eapply list_elem_of_lookup_2| |done|done].
  apply Hall. by eapply lookup_lt_Some.
Qed.

(** What reduce task [r] writes. *)
Definition reduce_output (r : nat) : list string :=
  reduce_lines (sort_ByKey (filter (in_bucket nReduce r) all_kvs)).

(** A store in which all map tasks and the reduce tasks [done] have run. *)
Record reduced (done : list nat) (s : fs) : Prop := {
  rd_read r : (r < nReduce)%nat ->
    read_intermediate (Z.of_nat (length files)) (Z.of_nat r) s = filter (in_bucket nReduce r) all_kvs;
  rd_out r : r ∈ done -> (r < nReduce)%nat -> s !! oname (Z.of_nat r) = Some (cat (reduce_output r))
}.

Lemma read_intermediate_out nMap r s r' c :
  read_intermediate (Z.of_nat nMap) (Z.of_nat r) (<[oname (Z.of_nat r') := c]> s) =
  read_intermediate (Z.of_nat nMap) (Z.of_nat r) s.
Proof.
  unfold read_intermediate. f_equal. apply list_fmap_ext. intros i x Hx.
  rewrite Nat2Z.id in Hx. apply range_lookup_Some in Hx as [-> _].
  rewrite lookup_insert_ne; [done|]. apply oname_ne_iname.
Qed.

Lemma reduced_run rs : forall done s,
  reduced done s -> (forall r, r ∈ rs -> (r < nReduce)%nat) ->
  exists s', run_tasks (reduce_reply files nReduce <$> rs) s = Ret s' /\ reduced (reverse rs ++ done) s'.
Proof.
  induction rs as [|r rs IH]; intros done s [R1 R2] Hall; [by exists s|].
  assert (Hlt : (r < nReduce)%nat) by (apply Hall, list_elem_of_here).
  set (s1 := <[oname (Z.of_nat r) := cat (reduce_output r)]> s).
  assert (E : do_task (reduce_reply files nReduce r) s = Ret s1).
  { unfold do_task, reduce_reply. cbn [rt_TaskType].
    change (String.eqb "reduce" "map") with false. change (String.eqb "reduce" "reduce") with true.
    cbv iota. unfold doReduceTask. cbn [rt_NMap rt_TaskID]. by rewrite R1. }
  destruct (IH (r :: done) s1) as (s2 & E2 & H2).
  { split.
    - intros r' Hr'. unfold s1. rewrite read_intermediate_out. by apply R1.
    - intros r' Hin Hr'. unfold s1. destruct (decide (r = r')) as [<-|Hne]; [apply lookup_insert_eq|].
      rewrite lookup_insert_ne by (intros H; by apply oname_inj in H).
      apply R2; [|done]. apply elem_of_cons in Hin as [?|?]; [by destruct Hne|done]. }
  { intros r' Hr'. apply Hall. auto with go. }
  exists s2. split.
  - rewrite fmap_cons, run_tasks_cons, E. exact E2.
  - rewrite reverse_cons, <- app_assoc. exact H2.
Qed.

(** [sort.Sort]: some permutation in which no entry is below an earlier one; it
    is not stable. *)
Hypothesis sort_perm : forall l, sort_ByKey l ≡ₚ l.
Hypothesis sort_sorted : forall l, ByKey_sorted (sort_ByKey l).
(** The application's reduce function does not depend on the order of the values. *)
Hypothesis reducef_perm : forall k vs vs', vs ≡ₚ vs' -> reducef k vs = reducef k vs'.

Lemma values_perm k l l' : l ≡ₚ l' -> values k l ≡ₚ values k l'.
Proof. intros H. unfold values. by rewrite H. Qed.

Lemma values_filter k (P : KeyValue -> Prop) `{forall kv, Decision (P kv)} l :
  (forall kv, kv ∈ l -> Key kv = k -> P kv) -> values k (filter P l) = values k l.
Proof.
  induction l as [|kv l IH]; intros Hall; [done|].
  assert (IH' : values k (filter P l) = values k l)
    by (apply IH; intros kv' Hin; apply Hall; auto with go).
  destruct (decide (Key kv = k)) as [Hk|Hk].
  - rewrite filter_cons_True by (apply Hall; [auto with go|done]).
    by rewrite !values_cons_eq, IH' by done.
  - rewrite (values_cons_ne k kv l) by done. destruct (decide (P kv)).
    + by rewrite filter_cons_True, values_cons_ne, IH' by done.
    + by rewrite filter_cons_False, IH' by done.
Qed.

Definition key_line (k : string) : string := line k (reducef k (values k all_kvs)).

Definition key_in_bucket (r : nat) (k : string) : Prop :=
  in_bucket nReduce r (mkKeyValue k "").

(** Reduce task [r] writes the lines of the keys of its bucket. *)
Lemma reduce_output_spec r :
  exists ks, NoDup ks /\ (forall k, k ∈ ks <-> k ∈ (Key <$> all_kvs) /\ key_in_bucket r k) /\
    reduce_output r = key_line <$> ks.
Proof.
  unfold reduce_output. set (l := filter (in_bucket nReduce r) all_kvs).
  destruct (reduce_lines_spec (sort_ByKey l) (sort_sorted l)) as (ks & Hnd & Hin & ->).
  assert (Hkeys : forall k, k ∈ ks <-> k ∈ (Key <$> all_kvs) /\ key_in_bucket r k).
  { intros k. rewrite Hin, (sort_perm l), !list_elem_of_fmap. unfold l. split.
    - intros (kv & -> & [Hb Hkv]%list_elem_of_filter). split; [by exists kv|done].
    - intros [(kv & -> & Hkv) Hb]. exists kv. split; [done|]. by apply list_elem_of_filter. }
  exists ks. split; [done|]. split; [done|]. apply list_fmap_ext.
  intros i k Hk. apply list_elem_of_lookup_2, Hkeys in Hk as [_ Hb]. unfold key_line. f_equal.
  apply reducef_perm. rewrite (values_perm k _ _ (sort_perm l)). unfold l.
  rewrite values_filter; [done|]. intros kv _ <-. exact Hb.
Qed.

Lemma reduce_outputs_spec m :
  exists ks, NoDup ks /\
    (forall k, k ∈ ks <-> k ∈ (Key <$> all_kvs) /\ exists r, (r < m)%nat /\ key_in_bucket r k) /\
    concat (reduce_output <$> seq 0 m) = key_line <$> ks.
Proof.
  induction m as [|m (ks & Hnd & Hin & IH)].
  - exists []. split; [constructor|]. split; [|done]. intros k. rewrite elem_of_nil.
    split; [done|]. intros (_ & r & Hlt & _). lia.
  - destruct (reduce_output_spec m) as (ks' & Hnd' & Hin' & E).
    exists (ks ++ ks'). split; [|split].
    + apply NoDup_app. split; [done|]. split; [|done].
      intros k (_ & r & Hlt & Hb)%Hin (_ & Hb')%Hin'. unfold key_in_bucket, in_bucket in *. lia.
    + intros k. rewrite elem_of_app, Hin, Hin'. split.
      * intros [(Hk & r & Hlt & Hb)|[Hk Hb]]; (split; [done|]); [exists r|exists m]; auto with lia.
      * intros (Hk & r & Hlt & Hb). destruct (decide (r = m)) as [->|]; [by right|left].
        split; [done|]. exists r. split; [lia|done].
    + rewrite seq_S, fmap_app, concat_app, IH. simpl. by rewrite app_nil_r, E, fmap_app.
Qed.

(** Every key belongs to a reduce task. *)
Lemma some_bucket k : exists r, (r < nReduce)%nat /\ key_in_bucket r k.
Proof.
  pose proof (bucket_of_range nReduce (mkKeyValue k "") Hr).
  exists (Z.to_nat (bucket_of (Z.of_nat nReduce) (mkKeyValue k ""))).
  unfold key_in_bucket, in_bucket. lia.
Qed.

(** The lines of all reduce tasks are those of the sequential program. *)
Lemma outputs_sequential :
  exists s2 seqlines, mrsequential files s0 = Ret s2 /\ s2 !! "mr-out-0" = Some (cat seqlines) /\
    concat (reduce_output <$> seq 0 nReduce) ≡ₚ seqlines.
Proof.
  eexists. exists (reduce_lines (sort_ByKey all_kvs)). unfold mrsequential. rewrite seq_map_all.
  split; [reflexivity|]. split; [apply lookup_insert_eq|].
  destruct (reduce_outputs_spec nReduce) as (ks & Hnd & Hin & ->).
  destruct (reduce_lines_spec (sort_ByKey all_kvs) (sort_sorted _)) as (ks' & Hnd' & Hin' & ->).
  replace ((fun k => line k (reducef k (values k (sort_ByKey all_kvs)))) <$> ks') with (key_line <$> ks').
  2:{ apply list_fmap_ext. intros i k _. unfold key_line. f_equal. apply reducef_perm.
      apply values_perm. symmetry. apply sort_perm. }
  apply fmap_Permutation, NoDup_Permutation; [done|done|]. intros k.
  rewrite Hin, Hin', (sort_perm all_kvs). split; [by intros [? _]|]. intros Hk. split; [done|].
  by apply some_bucket.
Qed.

(** the distributed job computes what the sequential program computes.  Run the
    map tasks of all files in any order and any number of times, then the
    reduce tasks in any order and any number of times: every output file
    [mr-out-r] is written, and the lines of all of them are the lines of
    [mrsequential]'s [mr-out-0], up to their order. *)
Theorem job_equals_sequential ms rs :
  (forall i, i ∈ ms <-> (i < length files)%nat) -> (forall r, r ∈ rs <-> (r < nReduce)%nat) ->
  exists s1 s2 seqlines lines,
    run_tasks ((map_reply files nReduce <$> ms) ++ (reduce_reply files nReduce <$> rs)) s0 = Ret s1 /\
    mrsequential files s0 = Ret s2 /\ s2 !! "mr-out-0" = Some (cat seqlines) /\
    (forall r, (r < nReduce)%nat -> s1 !! oname (Z.of_nat r) = Some (cat (lines r))) /\
    concat (lines <$> seq 0 nReduce) ≡ₚ seqlines.
Proof.
  intros Hms Hrs.
  destruct (mapped_run ms [] s0) as (s1 & E1 & H1); [by split; [|intros i f r ?%elem_of_nil]|by intros i ?%Hms|].
  rewrite app_nil_r in H1.
  destruct (reduced_run rs [] s1) as (s2 & E2 & H2); [split|by intros r ?%Hrs|].
  { intros r Hlt. eapply mapped_read; [exact H1| |done]. intros i Hi. apply elem_of_reverse. by apply Hms. }
  { by intros r ?%elem_of_nil. }
  rewrite app_nil_r in H2. destruct outputs_sequential as (s3 & seqlines & Hseq & Hout & Hperm).
  exists s2, s3, seqlines, reduce_output. split; [by rewrite run_tasks_app, E1|].
  split; [done|]. split; [done|]. split; [|done].
  intros r Hlt. apply (rd_out _ _ H2); [|done]. apply elem_of_reverse. by apply Hrs.
Qed.
End Job.
End Worker.

(** ** Word count *)

(** [mrapps/wc.go]. *)
Module Wc.
Definition Map `{Letters} (filename contents : string) : list KeyValue :=
  let ff := fun r => negb (IsLetter r) in
  let words := FieldsFunc contents ff in
  foldl (fun kva w => kva ++ [mkKeyValue w "1"]) [] words.

Definition Reduce (key : string) (values : list string) : string :=
  Itoa (Z.of_nat (length values)).

Lemma Reduce_perm k vs vs' : vs ≡ₚ vs' -> Reduce k vs = Reduce k vs'.
Proof. intros H. unfold Reduce. by rewrite H. Qed.

(** Words are valid UTF-8, whatever the text is: an invalid byte is no letter. *)
Lemma Map_valid `{Letters} filename contents : Forall valid_kv (Map filename contents).
Proof.
  unfold Map. cbv zeta. rewrite foldl_append. apply Forall_fmap. eapply Forall_impl.
  - apply (FieldsFunc_valid contents (fun r => negb (IsLetter r))). unfold IsLetter. simpl. by rewrite letter_error.
  - intros w Hw. by split.
Qed.

Lemma Map_emits_valid `{Letters} files s0 : emits_valid Map files s0.
Proof. intros f c _ _. apply Map_valid. Qed.
End Wc.

(** A concrete sort and a concrete codec, to instantiate the job, and no letters beyond
    Latin-1. *)
Module MrDemo.
#[global] Instance latin1 : Letters := {| letter_beyond _ := false; letter_error := eq_refl |}.

Definition key_le (a b : KeyValue) : Prop := String.le (Key a) (Key b).
#[export] Instance key_le_dec : RelDecision key_le.
Proof. intros a b. unfold key_le. apply _. Defined.
#[export] Instance key_le_total : Total key_le.
Proof. intros a b. unfold key_le. apply String.le_total. Qed.
#[export] Instance key_le_trans : Transitive key_le.
Proof. intros a b c. unfold key_le. apply transitivity. Qed.

Lemma key_le_Less a b : key_le a b -> Less b a = false.
Proof.
  unfold key_le, Less, String.ltb, String.le, String.leb. rewrite String.compare_antisym.
  by destruct (String.compare (Key b) (Key a)).
Qed.

Definition sort : list KeyValue -> list KeyValue := merge_sort key_le.

Lemma sort_ok l : ByKey_sorted (sort l).
Proof.
  unfold ByKey_sorted. pose proof (StronglySorted_merge_sort key_le l) as H. fold (sort l) in H.
  induction H as [|a l' _ IH Hall]; constructor; [done|].
  eapply Forall_impl; [exact Hall|]. apply key_le_Less.
Qed.

(** Every character is prefixed by an x and every field ended by a dot. *)
Fixpoint esc (s : string) : string :=
  match s with EmptyString => "." | String c s' => String "x" (String c (esc s')) end.
Fixpoint fields (cur s : string) : list string :=
  match s with
  | String a s1 =>
      if Ascii.eqb a "."%char then cur :: fields "" s1
      else match s1 with String c s2 => fields (cur +:+ String c "") s2 | EmptyString => [] end
  | EmptyString => []
  end.
Fixpoint pairs (l : list string) : list KeyValue :=
  match l with k :: v :: l' => mkKeyValue k v :: pairs l' | _ => [] end.
Definition enc (kv : KeyValue) : string := esc (Key kv) +:+ esc (Value kv).
Definition dec (s : string) : list KeyValue := coerce_kv <$> pairs (fields "" s).

Lemma fields_esc s : forall cur t, fields cur (esc s +:+ t) = (cur +:+ s) :: fields "" t.
Proof.
  induction s as [|c s IH]; intros cur t; simpl; [by rewrite string_app_nil_r|].
  rewrite IH. f_equal. by rewrite <- string_app_assoc.
Qed.

Lemma roundtrip kvs : dec (cat (enc <$> kvs)) = coerce_kv <$> kvs.
Proof.
  unfold dec. f_equal. induction kvs as [|[k v] kvs IH]; [done|]. cbn [fmap list_fmap cat]. unfold enc at 1.
  cbn [Key Value]. rewrite <- string_app_assoc, fields_esc, fields_esc. cbn [pairs].
  f_equal. exact IH.
Qed.

Definition store : gmap string string := {["a" := "to be or not"; "b" := "to be"]}.

Lemma inputs f : f ∈ ["a"; "b"] -> is_Some (store !! f).
Proof. intros [->|[->|[]%elem_of_nil]%elem_of_cons]%elem_of_cons; by vm_compute; eauto. Qed.

Lemma names f i j : f ∈ ["a"; "b"] -> f <> iname (Z.of_nat i) (Z.of_nat j).
Proof. by intros [->|[->|[]%elem_of_nil]%elem_of_cons]%elem_of_cons. Qed.

Lemma outputs f r : f ∈ ["a"; "b"] -> f <> oname (Z.of_nat r).
Proof. by intros [->|[->|[]%elem_of_nil]%elem_of_cons]%elem_of_cons. Qed.
End MrDemo.

(** Word count over two files with three reduce tasks, the second map task run twice. *)
Lemma job_equals_sequential_witness :
  exists s1 s2 seqlines lines,
    run_tasks Wc.Map Wc.Reduce MrDemo.sort MrDemo.enc MrDemo.dec
      ((map_reply ["a"; "b"] 3 <$> [1; 0; 1]%nat) ++ (reduce_reply ["a"; "b"] 3 <$> [2; 0; 1]%nat))
      MrDemo.store = Ret s1 /\
    mrsequential Wc.Map Wc.Reduce MrDemo.sort ["a"; "b"] MrDemo.store = Ret s2 /\
    s2 !! "mr-out-0" = Some (cat seqlines) /\
    (forall r, (r < 3)%nat -> s1 !! oname (Z.of_nat r) = Some (cat (lines r))) /\
    concat (lines <$> seq 0 3) ≡ₚ seqlines.
Proof.
  apply (job_equals_sequential Wc.Map Wc.Reduce MrDemo.sort MrDemo.enc MrDemo.dec ["a"; "b"] 3
    MrDemo.store); [lia|apply MrDemo.inputs|apply MrDemo.names|apply MrDemo.roundtrip|apply Wc.Map_emits_valid
    |intros l; apply merge_sort_Permutation|apply MrDemo.sort_ok|apply Wc.Reduce_perm| |].
  - intros i. rewrite !elem_of_cons, elem_of_nil. simpl. lia.
  - intros r. rewrite !elem_of_cons, elem_of_nil. lia.
Defined.

Lemma partition_spec_witness :
  exists bs, partition 3 (Wc.Map "a" "to be or not") = Ret bs /\ length bs = 3%nat.
Proof.
  destruct (partition_spec 3 (Wc.Map "a" "to be or not") ltac:(lia)) as (bs & H & Hl & _).
  exists bs. split; [exact H|exact Hl].
Defined.
