(* ===== verification/MrJob.v ===== *)
(** A whole MapReduce job: the loop of [Worker] ([mr/worker.go]) for any number of
    workers, the coordinator that schedules them ([mr/coordinator.go]) and the files
    they share.  Workers may stop at any point, in the middle of a task too; requests
    may fail.  When [Done] answers true the output files hold what the sequential
    program writes. *)
From S2P Require Import Prelude.
From S2P Require Import MrCoord.
From S2P Require Import MrWorker.
Open Scope Z_scope.

Section Job.
Variable mapf : string -> string -> list KeyValue.
Variable reducef : string -> list string -> string.
Variable sort_ByKey : list KeyValue -> list KeyValue.
Variable enc : KeyValue -> string.
Variable dec : string -> list KeyValue.

(** Where a worker is: about to ask for a task, with a task, about to report one, or
    gone. *)
Inductive worker :=
| WAsk
| WRun (reply : RequestTaskReply)
| WReport (a : ReportTaskArgs)
| WGone.

Record job := mkJob { j_mr : mr; j_fs : fs; j_workers : nat -> worker }.

(** A call that fails is made again: [JCallFails] before the coordinator has handled it,
    [JAskLost] and [JReportLost] after.  A worker that crashes in a task has put [k] of
    the task's files in place.  [JRenameFails] is a task some of whose files, those with a
    number in [bad], are not put in place, because they cannot be created or renamed: the
    worker goes on all the same. *)
Inductive job_label :=
| JAsk (w : nat) (now : Z)
| JTask (w : nat)
| JReport (w : nat)
| JCallFails (w : nat)
| JAskLost (w : nat) (now : Z)
| JReportLost (w : nat)
| JCrash (w k : nat)
| JRenameFails (w : nat) (bad : list nat).

(** The body of the switch of [Worker], on the reply of the coordinator. *)
Definition Worker_switch (reply : RequestTaskReply) : worker :=
  if String.eqb (rt_TaskType reply) "map" then WRun reply
  else if String.eqb (rt_TaskType reply) "reduce" then WRun reply
  else if String.eqb (rt_TaskType reply) "done" then WGone
  else WAsk.

(** The coordinator's [RequestTask]; the record of what is assigned goes along. *)
Definition requestTask (m : mr) (now : Z) : outcome (mr * RequestTaskReply) :=
  '(c, reply) ← handleHeartBeat now (m_coord m);
  Ret (match assignment reply with
       | Some a => mkMr c (m_out m ++ [a]) (m_assigned m ++ [a]) (m_reported m)
       | None => mkMr c (m_out m) (m_assigned m) (m_reported m)
       end, reply).

(** [reportTaskCompletion] and the coordinator's [ReportTask]; the record of what is
    outstanding goes along. *)
Definition reportTaskCompletion (m : mr) (a : ReportTaskArgs) : outcome mr :=
  c ← handleReport (m_coord m) a;
  Ret (mkMr c (match list_find (a =.) (m_out m) with
               | Some (k, _) => delete k (m_out m)
               | None => m_out m
               end) (m_assigned m) (m_reported m ++ [a])).

(** The files of a task that are in place after [k] renames. *)
Definition partial_task (reply : RequestTaskReply) (k : nat) (s : fs) : fs :=
  if String.eqb (rt_TaskType reply) "map" then
    match s !! rt_FileName reply with
    | None => s
    | Some content =>
        match partition (rt_NReduce reply) (mapf (rt_FileName reply) content) with
        | Ret bs => write_buckets enc (rt_TaskID reply) (take k bs) s
        | _ => s
        end
    end
  else if (0 <? k)%nat then doReduceTask reducef sort_ByKey dec reply s else s.

(** A task whose files with a number in [bad] stay where they were created. *)
Definition unrenamed_task (reply : RequestTaskReply) (bad : list nat) (s : fs) : outcome fs :=
  if String.eqb (rt_TaskType reply) "map" then
    match s !! rt_FileName reply with
    | None => Ret s
    | Some content =>
        buckets ← partition (rt_NReduce reply) (mapf (rt_FileName reply) content);
        Ret (foldl (fun s '(i, b) =>
               if bool_decide (i ∈ bad) then s
               else <[iname (rt_TaskID reply) (Z.of_nat i) := cat (enc <$> b)]> s) s
             (imap (fun i b => (i, b)) buckets))
    end
  else if String.eqb (rt_TaskType reply) "reduce" then
    Ret (if bool_decide (0%nat ∈ bad) then s else doReduceTask reducef sort_ByKey dec reply s)
  else Ret s.

Definition with_worker (j : job) (m : mr) (s : fs) (w : nat) (st : worker) : job :=
  mkJob m s (<[w := st]> (j_workers j)).

(** A panic in a task ends its worker. *)
Definition job_step (j : job) (l : job_label) : outcome job :=
  match l with
  | JAsk w now =>
      match j_workers j w with
      | WAsk =>
          '(m, reply) ← requestTask (j_mr j) now;
          Ret (with_worker j m (j_fs j) w (Worker_switch reply))
      | _ => Ret j
      end
  | JAskLost w now =>
      match j_workers j w with
      | WAsk => '(m, _) ← requestTask (j_mr j) now; Ret (mkJob m (j_fs j) (j_workers j))
      | _ => Ret j
      end
  | JTask w =>
      match j_workers j w with
      | WRun reply =>
          match do_task mapf reducef sort_ByKey enc dec reply (j_fs j) with
          | Ret s' => Ret (with_worker j (j_mr j) s' w
                             (WReport (mkReportTaskArgs (rt_TaskID reply) (rt_TaskType reply))))
          | _ => Ret (with_worker j (j_mr j) (j_fs j) w WGone)
          end
      | _ => Ret j
      end
  | JReport w =>
      match j_workers j w with
      | WReport a => m ← reportTaskCompletion (j_mr j) a; Ret (with_worker j m (j_fs j) w WAsk)
      | _ => Ret j
      end
  | JReportLost w =>
      match j_workers j w with
      | WReport a => m ← reportTaskCompletion (j_mr j) a; Ret (mkJob m (j_fs j) (j_workers j))
      | _ => Ret j
      end
  | JCallFails w => Ret j
  | JCrash w k =>
      match j_workers j w with
      | WRun reply => Ret (with_worker j (j_mr j) (partial_task reply k (j_fs j)) w WGone)
      | _ => Ret (with_worker j (j_mr j) (j_fs j) w WGone)
      end
  | JRenameFails w bad =>
      match j_workers j w with
      | WRun reply =>
          match unrenamed_task reply bad (j_fs j) with
          | Ret s' => Ret (with_worker j (j_mr j) s' w
                             (WReport (mkReportTaskArgs (rt_TaskID reply) (rt_TaskType reply))))
          | _ => Ret (with_worker j (j_mr j) (j_fs j) w WGone)
          end
      | _ => Ret j
      end
  end.

(** Without failures it is the task. *)
Lemma unrenamed_none reply s : unrenamed_task reply [] s = do_task mapf reducef sort_ByKey enc dec reply s.
Proof.
  unfold unrenamed_task, do_task, doMapTask, write_buckets. destruct (String.eqb _ "map"); [|done].
  destruct (s !! _); [|done]. destruct (partition _ _) as [bs| |]; [|done..]. cbn [mbind outcome_bind]. do 2 f_equal.
Qed.

Fixpoint job_run (j : job) (ls : list job_label) : outcome job :=
  match ls with
  | [] => Ret j
  | l :: ls' => j' ← job_step j l; job_run j' ls'
  end.

Definition job_init (files : list string) (nReduce : nat) (s0 : fs) : outcome job :=
  m ← mr_init files nReduce; Ret (mkJob m s0 (fun _ => WAsk)).

(** ** The invariant of a job *)

Variable files : list string.
Variable nReduce : nat.
Variable s0 : fs.
Hypothesis Hr : (0 < nReduce)%nat.
Hypothesis Hinput : forall f, f ∈ files -> is_Some (s0 !! f).
Hypothesis Hnames : forall f i j, f ∈ files -> f <> iname (Z.of_nat i) (Z.of_nat j).
Hypothesis Houts : forall f r, f ∈ files -> f <> oname (Z.of_nat r).
Hypothesis json_stream : forall kvs, dec (cat (enc <$> kvs)) = coerce_kv <$> kvs.
Hypothesis Hvalid : emits_valid mapf files s0.

Definition is_task (reply : RequestTaskReply) (a : ReportTaskArgs) : Prop :=
  (exists i, (i < length files)%nat /\ reply = map_reply files nReduce i /\ a = report_of "map" i) \/
  (exists r, (r < nReduce)%nat /\ reply = reduce_reply files nReduce r /\ a = report_of "reduce" r).

(** A worker has the assignment [a] and has not reported it. *)
Definition holds (j : job) (w : nat) (a : ReportTaskArgs) : Prop :=
  (exists reply, j_workers j w = WRun reply /\ is_task reply a) \/ j_workers j w = WReport a.

(** Map tasks know their file. *)
Definition names_ok (c : Coordinator) : Prop :=
  c_phase c = MapPhase -> forall i t, c_tasks c !! i = Some t -> files !! i = Some (task_fileName t).

Definition sizes_ok (c : Coordinator) : Prop :=
  c_nMap c = length files /\ c_nReduce c = nReduce.

Lemma names_ok_upd c i f :
  (forall t, task_fileName (f t) = task_fileName t) -> names_ok c -> names_ok (upd_task c i f).
Proof.
  intros Hf H Hp k t. simpl. destruct (decide (k = i)) as [->|Hne].
  - rewrite list_lookup_alter_eq. destruct (c_tasks c !! i) as [t0|] eqn:E; [|done].
    intros [= <-]. rewrite Hf. by apply (H Hp i).
  - rewrite list_lookup_alter_ne by done. by apply (H Hp k).
Qed.

Lemma assignment_task reply a : is_task reply a -> assignment reply = Some a.
Proof. intros [(i & _ & -> & ->)|(r & _ & -> & ->)]; reflexivity. Qed.

(** What a request does. *)
Lemma requestTask_spec m now m' reply :
  mr_inv m -> sizes_ok (m_coord m) -> names_ok (m_coord m) -> requestTask m now = Ret (m', reply) ->
  mr_inv m' /\ sizes_ok (m_coord m') /\ names_ok (m_coord m') /\ m_reported m' = m_reported m /\
  ((m_out m' = m_out m /\ (Worker_switch reply = WGone \/ Worker_switch reply = WAsk)) \/
   (exists a, m_out m' = m_out m ++ [a] /\ a ∉ m_assigned m /\ is_task reply a /\
      Worker_switch reply = WRun reply)).
Proof.
  intros Hinv [Hm Hn] Hnm. unfold requestTask.
  destruct (handleHeartBeat_cases now (m_coord m) (mi_wf _ Hinv))
    as [[Hp ->]|[(Hp & k & t & Hf & ->)|[(Hp & Hf & ->)|[(Hp & Hf & Hd & ->)|[(Hp & Hd & ->)|(Hp & Hd & ->)]]]]];
    intros Heq; try discriminate Heq; injection Heq as <- <-; simpl assignment; cbv iota.
  - split; [by destruct m|]. do 3 (split; [done|]). left. split; [done|by left].
  - destruct (mr_inv_assign m now k t Hinv Hp Hf) as (a & Ha & Hinv'). rewrite Ha. cbn [m_coord m_out m_reported].
    split; [done|]. split; [done|]. split; [by apply names_ok_upd|]. split; [done|]. right. exists a.
    split; [done|].
    pose proof (mi_nodup _ Hinv') as Hnd. simpl in Hnd. apply NoDup_app in Hnd as (_ & Hna & _).
    split; [intros Hin; by apply (Hna a Hin), list_elem_of_here|].
    destruct Hf as (Hl & _ & _). pose proof (lookup_lt_Some _ _ _ Hl) as Hlt.
    rewrite (proj2 (mi_wf _ Hinv)) in Hlt. unfold phase_size in Hlt. unfold task_reply in *.
    destruct (c_phase (m_coord m)) eqn:Ep; [| |done].
    + destruct (mi_map _ Hinv Ep) as [Hok _]. destruct (Hok k t Hl) as (Hid & _ & _).
      split; [|done]. left. exists k. split; [lia|]. pose proof (Hnm Ep k t Hl) as Hf.
      rewrite Hid in *. unfold map_reply. rewrite Hm, Hn, (nth_lookup_Some files k "" _ Hf).
      split; [done|]. simpl in Ha. by injection Ha as <-.
    + pose proof (mi_reduce _ Hinv Ep) as Hok. destruct (Hok k t Hl) as (Hid & _ & _).
      split; [|done]. right. exists k. split; [lia|]. rewrite Hid in *. unfold reduce_reply.
      rewrite Hm, Hn. split; [done|]. simpl in Ha. by injection Ha as <-.
  - split; [by destruct m|]. do 3 (split; [done|]). left. split; [done|by right].
  - split; [by apply mr_inv_done|]. split; [done|]. split; [by intros ?|]. split; [done|].
    left. split; [done|by left].
Qed.

Lemma complete_task_names c id k c' : complete_task c id k = Ret c' -> names_ok c -> names_ok c'.
Proof.
  unfold complete_task. destruct (_ && _); [|by intros [= <-]].
  destruct (c_tasks c !! Z.to_nat id); [|done]. intros [= <-]. by apply names_ok_upd.
Qed.

Lemma handleReport_names c a c' : handleReport c a = Ret c' -> names_ok c -> names_ok c'.
Proof.
  unfold handleReport. destruct (c_mu c); [done|]. intros (c1 & H1 & [= <-])%outcome_bind_inv Hnm.
  change (names_ok c1). assert (Hnm' : names_ok (with_mu c true)) by exact Hnm.
  destruct (String.eqb _ "map"); [|destruct (String.eqb _ "reduce"); [|by injection H1 as <-]];
    apply outcome_bind_inv in H1 as (c2 & Hc2 & H1);
    pose proof (complete_task_names _ _ _ _ Hc2 Hnm') as Hn2;
    apply outcome_bind_inv in H1 as ([|] & _ & [= <-]); done.
Qed.

Lemma report_spec m a :
  mr_inv m -> sizes_ok (m_coord m) -> names_ok (m_coord m) -> a ∈ m_out m ->
  exists m', reportTaskCompletion m a = Ret m' /\ mr_inv m' /\ sizes_ok (m_coord m') /\
    names_ok (m_coord m') /\ m_reported m' = m_reported m ++ [a] /\
    forall b, b ∈ m_out m -> b <> a -> b ∈ m_out m'.
Proof.
  intros Hinv [Hm Hn] Hnm Ha. unfold reportTaskCompletion.
  destruct (list_find (a =.) (m_out m)) as [[k b]|] eqn:Ef.
  - apply list_find_Some in Ef as (Hk & <- & _).
    destruct (mr_inv_report m k a Hinv Hk) as (c & Hc & Hinv'). rewrite Hc. eexists. split; [done|].
    split; [done|]. destruct (handleReport_sizes _ _ _ Hc) as [Hs1 Hs2].
    split; [split; simpl; congruence|]. split; [by eapply handleReport_names|]. split; [done|].
    intros b Hb Hne. simpl. rewrite (delete_Permutation _ _ _ Hk) in Hb. by apply elem_of_cons in Hb as [?|?].
  - apply list_find_None in Ef. rewrite Forall_forall in Ef. by destruct (Ef a Ha).
Qed.

(** ** The files *)

(** A store in which the map tasks [dm] and the reduce tasks [dr] have run. *)
Record files_ok (dm dr : list nat) (s : fs) : Prop := {
  fo_mapped : mapped mapf enc files nReduce s0 dm s;
  fo_out r : r ∈ dr -> (r < nReduce)%nat ->
    s !! oname (Z.of_nat r) = Some (cat (reduce_output mapf reducef sort_ByKey files nReduce s0 r))
}.

Lemma write_buckets_outside taskID (bs : list (list KeyValue)) s name :
  (forall k, (k < length bs)%nat -> name <> iname (Z.of_nat taskID) (Z.of_nat k)) ->
  write_buckets enc (Z.of_nat taskID) bs s !! name = s !! name.
Proof.
  intros Hn. unfold write_buckets. induction bs as [|b0 bs IH] using rev_ind; [done|].
  rewrite length_app in Hn. simpl in Hn. rewrite imap_app, foldl_app. simpl.
  rewrite Nat.add_0_r, lookup_insert_ne by (intros H; apply (Hn (length bs)); [lia|done]).
  apply IH. intros k Hk. apply Hn. lia.
Qed.

(** The first [k] files of map task [i] are put in place. *)
Lemma files_ok_partial dm dr s i f c k :
  files_ok dm dr s -> files !! i = Some f -> s0 !! f = Some c ->
  files_ok dm dr (write_buckets enc (Z.of_nat i) (take k (buckets nReduce (mapf f c))) s).
Proof.
  intros [[M1 M2] Ho] Hf Hc. assert (Hin : f ∈ files) by (by eapply list_elem_of_lookup_2).
  split; [split|].
  - intros f' Hf'. rewrite write_buckets_other; [by apply M1|]. intros j. by apply Hnames.
  - intros i' f' r Hi' Hf' Hlt. destruct (decide (i' = i /\ (r < k)%nat)) as [[-> Hrk]|Hne].
    + assert (f' = f) as -> by congruence. apply write_buckets_lookup.
      rewrite lookup_take_lt by done. unfold buckets, emitted. rewrite Hc.
      by rewrite list_lookup_fmap, lookup_seq_lt.
    + rewrite write_buckets_outside; [by apply M2|]. intros j Hj H. apply iname_inj in H as [-> ->].
      apply Hne. split; [done|]. rewrite length_take in Hj. lia.
  - intros r Hin' Hlt. rewrite write_buckets_other; [by apply Ho|]. intros j. apply oname_ne_iname.
Qed.

Lemma files_ok_map dm dr s i :
  files_ok dm dr s -> (i < length files)%nat ->
  exists s', do_task mapf reducef sort_ByKey enc dec (map_reply files nReduce i) s = Ret s' /\
    files_ok (i :: dm) dr s'.
Proof.
  intros [Hm Ho] Hi.
  destruct (mapped_step mapf reducef sort_ByKey enc dec files nReduce s0 Hr Hinput Hnames dm s i Hm Hi)
    as (s' & Hs' & Hm'). exists s'. split; [done|]. split; [done|]. intros r Hin Hlt.
  rewrite <- (Ho r Hin Hlt). unfold do_task, map_reply in Hs'. cbn [rt_TaskType] in Hs'.
  change (String.eqb "map" "map") with true in Hs'. unfold doMapTask in Hs'.
  cbn [rt_FileName rt_NReduce rt_TaskID] in Hs'.
  destruct (s !! nth i files "") as [c|]; [|by injection Hs' as <-].
  rewrite partition_buckets in Hs' by done. injection Hs' as <-.
  apply write_buckets_other. intros j. apply oname_ne_iname.
Qed.

Lemma files_ok_reduce dm dr s r :
  files_ok dm dr s -> (forall i, (i < length files)%nat -> i ∈ dm) -> (r < nReduce)%nat ->
  files_ok dm (r :: dr) (doReduceTask reducef sort_ByKey dec (reduce_reply files nReduce r) s).
Proof.
  intros [Hm Ho] Hall Hlt. unfold doReduceTask, reduce_reply. cbn [rt_NMap rt_TaskID].
  rewrite (mapped_read mapf enc dec files nReduce s0 Hr Hinput json_stream Hvalid dm s r Hm Hall Hlt).
  destruct Hm as [M1 M2]. split; [split|].
  - intros f Hf. rewrite lookup_insert_ne by (intros H; by apply (Houts f r Hf)). by apply M1.
  - intros i f r' Hi Hf Hlt'. rewrite lookup_insert_ne by apply oname_ne_iname. by apply M2.
  - intros r' Hin Hlt'. destruct (decide (r' = r)) as [->|Hne]; [apply lookup_insert_eq|].
    rewrite lookup_insert_ne by (intros H; by apply oname_inj in H).
    apply Ho; [|done]. by apply elem_of_cons in Hin as [?|?].
Qed.

(** ** Every step keeps the invariant *)

(** The tasks whose files are in place: reported, or about to be. *)
Definition executed (j : job) (a : ReportTaskArgs) : Prop :=
  a ∈ m_reported (j_mr j) \/ exists w, j_workers j w = WReport a.

Record jinv (j : job) : Prop := {
  ji_mr : mr_inv (j_mr j);
  ji_sizes : sizes_ok (m_coord (j_mr j));
  ji_names : names_ok (m_coord (j_mr j));
  ji_run w reply : j_workers j w = WRun reply -> exists a, is_task reply a;
  ji_out w a : holds j w a -> a ∈ m_out (j_mr j);
  ji_uniq w w' a : holds j w a -> holds j w' a -> w = w';
  ji_files : exists dm dr, files_ok dm dr (j_fs j) /\
    (forall i, executed j (report_of "map" i) -> i ∈ dm) /\
    (forall r, executed j (report_of "reduce" r) -> r ∈ dr)
}.

(** A worker and the files move, the coordinator does not; the worker holds no more than
    before. *)
Lemma jinv_worker j s w st dm dr :
  jinv j -> files_ok dm dr s ->
  (forall a, holds (with_worker j (j_mr j) s w st) w a -> holds j w a) ->
  (forall reply, st = WRun reply -> exists a, is_task reply a) ->
  (forall i, executed (with_worker j (j_mr j) s w st) (report_of "map" i) -> i ∈ dm) ->
  (forall r, executed (with_worker j (j_mr j) s w st) (report_of "reduce" r) -> r ∈ dr) ->
  jinv (with_worker j (j_mr j) s w st).
Proof.
  intros [I1 I2 I3 I4 I5 I6 I7] Hf Hh Hrun Hdm Hdr.
  assert (Hold : forall v a, holds (with_worker j (j_mr j) s w st) v a -> holds j v a).
  { intros v a Hv. destruct (decide (v = w)) as [->|Hne]; [by apply Hh|].
    unfold holds in *. simpl in Hv. by rewrite fn_lookup_insert_ne in Hv. }
  split; try done.
  - intros v reply. simpl. destruct (decide (v = w)) as [->|Hne].
    + rewrite fn_lookup_insert. apply Hrun.
    + rewrite fn_lookup_insert_ne by done. apply I4.
  - intros v a Hv. apply (I5 v), Hold, Hv.
  - intros v v' a Hv Hv'. apply (I6 v v' a); by apply Hold.
  - by exists dm, dr.
Qed.

(** The coordinator moves, with the workers: what is executed and held afterwards. *)
Lemma jinv_coord j m ws :
  jinv j -> mr_inv m -> sizes_ok (m_coord m) -> names_ok (m_coord m) ->
  (forall w reply, ws w = WRun reply -> exists a, is_task reply a) ->
  (forall w a, holds (mkJob m (j_fs j) ws) w a -> a ∈ m_out m) ->
  (forall w w' a, holds (mkJob m (j_fs j) ws) w a -> holds (mkJob m (j_fs j) ws) w' a -> w = w') ->
  (forall a, executed (mkJob m (j_fs j) ws) a -> executed j a) ->
  jinv (mkJob m (j_fs j) ws).
Proof.
  intros H Hm Hs Hn Hrun Hout Hu He. split; try done.
  destruct (ji_files _ H) as (dm & dr & Hf & Hdm & Hdr). exists dm, dr.
  split; [done|]. split; [intros i Hi; by apply Hdm, He|intros r Hi; by apply Hdr, He].
Qed.

(** A reduce task is held only when every map task has run. *)
Lemma reduce_held j w r (dm : list nat) :
  jinv j -> holds j w (report_of "reduce" r) ->
  (forall i, executed j (report_of "map" i) -> i ∈ dm) ->
  forall i, (i < length files)%nat -> i ∈ dm.
Proof.
  intros H Hw Hdm i Hi. apply Hdm. left. pose proof (ji_out _ H w _ Hw) as Hout.
  destruct (mi_out_phase _ _ (ji_mr _ H) Hout) as [[_ (k & _ & [=])]|[Hp _]].
  destruct (mi_after _ (ji_mr _ H) ltac:(by rewrite Hp)) as [Hmaps _].
  destruct (ji_sizes _ H) as [Hsz _]. rewrite Hsz in Hmaps. by apply Hmaps.
Qed.

Lemma jinv_task j w reply :
  jinv j -> j_workers j w = WRun reply ->
  exists j', job_step j (JTask w) = Ret j' /\ jinv j'.
Proof.
  intros H Hw. unfold job_step. rewrite Hw. destruct (ji_files _ H) as (dm & dr & Hf & Hdm & Hdr).
  destruct (ji_run _ H w reply Hw) as (a & Ht).
  assert (Hheld : holds j w a) by (left; by exists reply).
  assert (Hkeep : forall s st b, (st = WReport a) -> holds (with_worker j (j_mr j) s w st) w b -> holds j w b).
  { intros s st b -> Hb. unfold holds in Hb. simpl in Hb. rewrite fn_lookup_insert in Hb.
    destruct Hb as [(? & ? & _)|[= <-]]; [done|exact Hheld]. }
  assert (Hex : forall s b, executed (with_worker j (j_mr j) s w (WReport a)) b -> b = a \/ executed j b).
  { intros s b [Hb|(v & Hv)]; [by right; left|]. simpl in Hv. destruct (decide (v = w)) as [->|Hne].
    - rewrite fn_lookup_insert in Hv. injection Hv as <-. by left.
    - rewrite fn_lookup_insert_ne in Hv by done. right; right. by exists v. }
  destruct Ht as [(i & Hi & -> & ->)|(r & Hlt & -> & ->)].
  - destruct (files_ok_map dm dr (j_fs j) i Hf Hi) as (s' & Hs' & Hf'). rewrite Hs'.
    eexists. split; [done|]. apply (jinv_worker j s' w _ (i :: dm) dr); try done.
    + intros b Hb. by apply (Hkeep s' _ b eq_refl).
    + intros k Hk. apply Hex in Hk as [Hk|Hk]; [apply report_of_inj in Hk as ->; apply list_elem_of_here|].
      by apply list_elem_of_further, Hdm.
    + intros k Hk. apply Hex in Hk as [[=]|Hk]. by apply Hdr.
  - pose proof (reduce_held j w r dm H Hheld Hdm) as Hall.
    unfold do_task, reduce_reply. cbn [rt_TaskType rt_TaskID].
    change (String.eqb "reduce" "map") with false. change (String.eqb "reduce" "reduce") with true. cbv iota.
    eexists. split; [done|]. apply (jinv_worker j _ w _ dm (r :: dr)); try done.
    + by apply (files_ok_reduce dm dr (j_fs j) r Hf Hall).
    + intros b Hb. exact (Hkeep _ _ b eq_refl Hb).
    + intros k Hk. apply Hex in Hk as [[=]|Hk]. by apply Hdm.
    + intros k Hk. apply Hex in Hk as [Hk|Hk]; [apply report_of_inj in Hk as ->; apply list_elem_of_here|].
      by apply list_elem_of_further, Hdr.
Qed.

Lemma jinv_crash j w k : jinv j -> exists j', job_step j (JCrash w k) = Ret j' /\ jinv j'.
Proof.
  intros H. destruct (ji_files _ H) as (dm & dr & Hf & Hdm & Hdr).
  assert (Hgone : forall s dm' dr', files_ok dm' dr' s -> dm ⊆ dm' -> dr ⊆ dr' ->
    jinv (with_worker j (j_mr j) s w WGone)).
  { intros s dm' dr' Hf' H1 H2.
    assert (Hex : forall b, executed (with_worker j (j_mr j) s w WGone) b -> executed j b).
    { intros b [Hb|(v & Hv)]; [by left|right]. simpl in Hv. exists v. destruct (decide (v = w)) as [->|Hne].
      - by rewrite fn_lookup_insert in Hv.
      - by rewrite fn_lookup_insert_ne in Hv. }
    apply (jinv_worker j s w WGone dm' dr'); try done.
    - intros a Ha. unfold holds in Ha. simpl in Ha. rewrite fn_lookup_insert in Ha.
      destruct Ha as [(? & ? & _)|?]; done.
    - intros i Hi. by apply H1, Hdm, Hex.
    - intros i Hi. by apply H2, Hdr, Hex. }
  unfold job_step. destruct (j_workers j w) as [|reply|a|] eqn:Ew; (eexists; split; [done|]);
    try (by apply (Hgone (j_fs j) dm dr)).
  destruct (ji_run _ H w reply Ew) as (a & [(i & Hi & -> & ->)|(r & Hlt & -> & ->)]).
  - unfold partial_task, map_reply. cbn [rt_TaskType rt_FileName rt_NReduce rt_TaskID].
    change (String.eqb "map" "map") with true. cbv iota.
    destruct (lookup_lt_is_Some_2 files i Hi) as [f Hfi]. rewrite (nth_lookup_Some files i "" f Hfi).
    assert (Hin : f ∈ files) by (by eapply list_elem_of_lookup_2). destruct (Hinput f Hin) as [c Hc].
    rewrite (mp_input _ _ _ _ _ _ _ (fo_mapped _ _ _ Hf) f Hin), Hc, partition_buckets by done.
    apply (Hgone _ dm dr); [|done|done]. by apply files_ok_partial.
  - unfold partial_task. cbn [reduce_reply rt_TaskType]. change (String.eqb "reduce" "map") with false. cbv iota.
    destruct (0 <? k)%nat; [|by apply (Hgone (j_fs j) dm dr)].
    apply (Hgone _ dm (r :: dr)); [|done|set_solver].
    apply files_ok_reduce; [done| |done]. eapply reduce_held; [done| |done].
    left. eexists. split; [done|]. right. by exists r.
Qed.

Lemma holds_insert m s ws w st v a :
  holds (mkJob m s (<[w := st]> ws)) v a ->
  (v = w /\ ((exists reply, st = WRun reply /\ is_task reply a) \/ st = WReport a)) \/
  (v <> w /\ holds (mkJob m s ws) v a).
Proof.
  unfold holds. simpl. destruct (decide (v = w)) as [->|Hne].
  - rewrite fn_lookup_insert. by left.
  - rewrite fn_lookup_insert_ne by done. by right.
Qed.

(** Requests: the reply reaches the worker or not. *)
Lemma jinv_ask j w now m reply st :
  jinv j -> requestTask (j_mr j) now = Ret (m, reply) -> j_workers j w = WAsk ->
  st = Worker_switch reply \/ st = WAsk ->
  jinv (mkJob m (j_fs j) (<[w := st]> (j_workers j))).
Proof.
  intros H Hreq Hw Hst.
  destruct (requestTask_spec _ _ _ _ (ji_mr _ H) (ji_sizes _ H) (ji_names _ H) Hreq)
    as (Hm & Hs & Hn & Hrep & Hcase).
  assert (Hidle : (st = WGone \/ st = WAsk) \/ exists a, m_out m = m_out (j_mr j) ++ [a] /\
    a ∉ m_assigned (j_mr j) /\ is_task reply a /\ st = WRun reply).
  { destruct Hst as [->|Hst]; [|by left; right].
    destruct Hcase as [[_ Hsw]|(a & Ho & Ha & Ht & Hsw)]; [by left|right; by exists a]. }
  assert (Hsub : forall a, a ∈ m_out (j_mr j) -> a ∈ m_out m).
  { intros a Ha. destruct Hcase as [[-> _]|(b & -> & _)]; [done|]. apply elem_of_app. by left. }
  assert (Hstays : forall v a, holds (mkJob m (j_fs j) (j_workers j)) v a -> holds j v a) by done.
  apply jinv_coord; try done.
  - intros v r. destruct (decide (v = w)) as [->|Hne]; [|rewrite fn_lookup_insert_ne by done; apply (ji_run _ H)].
    rewrite fn_lookup_insert. intros ->. destruct Hidle as [[?|?]|(a & _ & _ & Ht & [= <-])]; [done..|by exists a].
  - intros v a [(-> & Ha)|[Hne Ha]]%holds_insert; [|by apply Hsub, (ji_out _ H v)].
    destruct Hidle as [[-> | ->]|(b & -> & _ & Ht & ->)];
      [by destruct Ha as [(? & ? & _)|?]|by destruct Ha as [(? & ? & _)|?]|].
    destruct Ha as [(r & [= <-] & Ha)|?]; [|done]. apply assignment_task in Ha, Ht.
    assert (a = b) as -> by congruence. apply elem_of_app. right. apply list_elem_of_here.
  - assert (Hfresh : forall v a r, st = WRun r -> is_task r a -> holds j v a -> False).
    { intros v a r -> Ha Hv. destruct Hidle as [[?|?]|(b & _ & Hb & Ht & [= <-])]; [done..|].
      apply assignment_task in Ha, Ht. assert (a = b) as -> by congruence.
      apply Hb. apply (mi_out_assigned _ _ (ji_mr _ H)). by apply (ji_out _ H v). }
    assert (Hrep' : forall a, st <> WReport a).
    { intros a ->. destruct Hidle as [[?|?]|(? & _ & _ & _ & ?)]; done. }
    intros v v' a [(-> & Ha)|[Hne Ha]]%holds_insert [(-> & Ha')|[Hne' Ha']]%holds_insert; [done| | |].
    + destruct Ha as [(r & Hst' & Ht)|Hr']; [exfalso; by eapply Hfresh|by destruct (Hrep' a)].
    + destruct Ha' as [(r & Hst' & Ht)|Hr']; [exfalso; by eapply Hfresh|by destruct (Hrep' a)].
    + by apply (ji_uniq _ H v v' a).
  - intros a [Ha|(v & Hv)]; [left; simpl in Ha; by rewrite Hrep in Ha|right; exists v]. simpl in Hv.
    destruct (decide (v = w)) as [->|Hne]; [|by rewrite fn_lookup_insert_ne in Hv].
    rewrite fn_lookup_insert in Hv. destruct Hidle as [[?|?]|(? & _ & _ & _ & ?)]; congruence.
Qed.

Lemma jinv_report j w a :
  jinv j -> j_workers j w = WReport a ->
  exists m, reportTaskCompletion (j_mr j) a = Ret m /\
    jinv (mkJob m (j_fs j) (<[w := WAsk]> (j_workers j))).
Proof.
  intros H Hw. assert (Hh : holds j w a) by (by right).
  destruct (report_spec _ a (ji_mr _ H) (ji_sizes _ H) (ji_names _ H) (ji_out _ H w a Hh))
    as (m & Hm & Hinv & Hs & Hn & Hrep & Hout).
  exists m. split; [done|]. apply jinv_coord; try done.
  - intros v r. destruct (decide (v = w)) as [->|Hne]; [by rewrite fn_lookup_insert|].
    rewrite fn_lookup_insert_ne by done. apply (ji_run _ H).
  - intros v b [(-> & Hb)|[Hne Hb]]%holds_insert; [by destruct Hb as [(? & ? & _)|?]|].
    apply Hout; [by apply (ji_out _ H v)|]. intros ->. apply Hne. by apply (ji_uniq _ H v w a).
  - intros v v' b [(-> & Hb)|[Hne Hb]]%holds_insert; [by destruct Hb as [(? & ? & _)|?]|].
    intros [(-> & Hb')|[Hne' Hb']]%holds_insert; [by destruct Hb' as [(? & ? & _)|?]|].
    by apply (ji_uniq _ H v v' b).
  - intros b [Hb|(v & Hv)].
    + simpl in Hb. rewrite Hrep in Hb. apply elem_of_app in Hb as [Hb|Hb]; [by left|].
      apply list_elem_of_singleton in Hb as ->. right. by exists w.
    + simpl in Hv. right. exists v. destruct (decide (v = w)) as [->|Hne];
        [by rewrite fn_lookup_insert in Hv|by rewrite fn_lookup_insert_ne in Hv].
Qed.

(** No reply to a report is lost, so that none is made again, and every file of a task is
    put in place. *)
Definition no_loss (l : job_label) : Prop :=
  match l with JReportLost _ | JRenameFails _ _ => False | _ => True end.

Lemma jinv_ws_id j w m :
  j_workers j w = WAsk -> jinv (mkJob m (j_fs j) (<[w := WAsk]> (j_workers j))) ->
  jinv (mkJob m (j_fs j) (j_workers j)).
Proof.
  intros Hw [I1 I2 I3 I4 I5 I6 I7]. simpl in *.
  assert (Hl : forall v, <[w := WAsk]> (j_workers j) v = j_workers j v).
  { intros v. destruct (decide (v = w)) as [->|Hne]; [by rewrite fn_lookup_insert|by rewrite fn_lookup_insert_ne]. }
  assert (Hh : forall v a, holds (mkJob m (j_fs j) (j_workers j)) v a ->
    holds (mkJob m (j_fs j) (<[w := WAsk]> (j_workers j))) v a)
    by (intros v a; unfold holds; simpl; by rewrite Hl).
  split; try done; simpl.
  - intros v reply Hv. apply (I4 v). by rewrite Hl.
  - intros v a Hv. apply (I5 v), Hh, Hv.
  - intros v v' a Hv Hv'. apply (I6 v v' a); by apply Hh.
  - destruct I7 as (dm & dr & Hf & Hdm & Hdr). exists dm, dr. split; [done|].
    assert (He : forall a, executed (mkJob m (j_fs j) (j_workers j)) a ->
      executed (mkJob m (j_fs j) (<[w := WAsk]> (j_workers j))) a).
    { intros a [?|(v & Hv)]; [by left|right; exists v; simpl; by rewrite Hl]. }
    split; [intros i Hi; by apply Hdm, He|intros i Hi; by apply Hdr, He].
Qed.

Lemma jinv_step j l j' : jinv j -> no_loss l -> job_step j l = Ret j' -> jinv j'.
Proof.
  intros H Hl Hs. destruct l as [w now|w|w|w|w now|w|w k|w bad]; [| | | | |done| |done].
  - unfold job_step in Hs. destruct (j_workers j w) as [|reply|a|] eqn:Ew; try (by injection Hs as <-).
    apply outcome_bind_inv in Hs as ([m reply] & Hreq & [= <-]).
    eapply jinv_ask; [done|done|done|by left].
  - destruct (j_workers j w) as [|reply|a|] eqn:Ew;
      try (unfold job_step in Hs; rewrite Ew in Hs; by injection Hs as <-).
    destruct (jinv_task j w reply H Ew) as (j1 & H1 & ?). congruence.
  - unfold job_step in Hs. destruct (j_workers j w) as [|reply|a|] eqn:Ew; try (by injection Hs as <-).
    destruct (jinv_report j w a H Ew) as (m & Hm & Hinv). rewrite Hm in Hs. by injection Hs as <-.
  - by injection Hs as <-.
  - unfold job_step in Hs. destruct (j_workers j w) as [|reply|a|] eqn:Ew; try (by injection Hs as <-).
    apply outcome_bind_inv in Hs as ([m reply] & Hreq & [= <-]). apply (jinv_ws_id j w); [done|].
    eapply jinv_ask; [done|done|done|by right].
  - destruct (jinv_crash j w k H) as (j1 & H1 & ?). congruence.
Qed.

Lemma jinv_run ls : forall j j', jinv j -> Forall no_loss ls -> job_run j ls = Ret j' -> jinv j'.
Proof.
  induction ls as [|l ls IH]; intros j j' H Hl; cbn [job_run]; [by intros [= <-]|].
  intros (j1 & H1 & Hrun)%outcome_bind_inv. apply Forall_cons in Hl as [Hl Hls].
  eapply IH; [|done|done]. by eapply jinv_step.
Qed.

Lemma jinv_init : exists j, job_init files nReduce s0 = Ret j /\ jinv j.
Proof.
  unfold job_init. destruct (mr_init_spec files nReduce) as (m & Hm & Hinv & Hs1 & Hs2). rewrite Hm.
  eexists. split; [done|].
  assert (Hempty : c_tasks (m_coord m) = imap (fun i f => mkTask f 0 (Z.of_nat i) Inited) files /\ m_reported m = []).
  { unfold mr_init, MakeCoordinator, initMapPhase in Hm. cbn [c_nMap c_files] in Hm.
    rewrite Nat.leb_refl in Hm. injection Hm as <-. simpl. by rewrite take_ge. }
  destruct Hempty as [Ht Hrep].
  assert (Hno : forall w a, holds (mkJob m s0 (fun _ => WAsk)) w a -> False)
    by (intros w a [(? & ? & _)|?]; done).
  split; try done; simpl.
  - intros _ i t. rewrite Ht. intros (f & Hf & ->)%list_lookup_imap_Some. done.
  - intros w a Hw. by apply Hno in Hw.
  - intros w w' a Hw. by apply Hno in Hw.
  - exists [], []. split; [|split].
    + split; [split; [done|by intros i f r ?%elem_of_nil]|by intros r ?%elem_of_nil].
    + intros i [Hi|(w & Hw)]; [|done]. simpl in Hi. rewrite Hrep in Hi. by apply elem_of_nil in Hi.
    + intros i [Hi|(w & Hw)]; [|done]. simpl in Hi. rewrite Hrep in Hi. by apply elem_of_nil in Hi.
Qed.
End Job.

(** When [Done] answers true, every output file holds what its reduce task writes. *)
Lemma job_outputs_written mapf reducef sort_ByKey enc dec files nReduce (s0 : fs) ls j :
  (0 < nReduce)%nat ->
  (forall f, f ∈ files -> is_Some (s0 !! f)) ->
  (forall f i r, f ∈ files -> f <> iname (Z.of_nat i) (Z.of_nat r)) ->
  (forall f r, f ∈ files -> f <> oname (Z.of_nat r)) ->
  (forall kvs, dec (cat (enc <$> kvs)) = coerce_kv <$> kvs) -> emits_valid mapf files s0 ->
  Forall no_loss ls ->
  (j0 ← job_init files nReduce s0; job_run mapf reducef sort_ByKey enc dec j0 ls) = Ret j ->
  Done (m_coord (j_mr j)) = Ret true ->
  forall r, (r < nReduce)%nat ->
    j_fs j !! oname (Z.of_nat r) = Some (cat (reduce_output mapf reducef sort_ByKey files nReduce s0 r)).
Proof.
  intros Hr Hinput Hnames Houts Hjson Hvalid Hl Hrun Hd r Hlt.
  destruct (jinv_init mapf reducef sort_ByKey enc files nReduce s0) as (j0 & Hj0 & H0).
  rewrite Hj0 in Hrun. cbn [mbind outcome_bind] in Hrun.
  pose proof (jinv_run mapf reducef sort_ByKey enc dec files nReduce s0 Hr Hinput Hnames Houts Hjson Hvalid
    ls j0 j H0 Hl Hrun) as H.
  destruct (ji_files _ _ _ _ _ _ _ _ H) as (dm & dr & Hf & _ & Hdr).
  apply (fo_out _ _ _ _ _ _ _ _ _ _ Hf); [|done]. apply Hdr. left.
  pose proof (ji_mr _ _ _ _ _ _ _ _ H) as Hinv. destruct (ji_sizes _ _ _ _ _ _ _ _ H) as [_ Hn].
  rewrite <- Hn in Hlt. apply (mi_done _ Hinv); [|done].
  unfold Done in Hd. destruct (c_mu _); [done|]. injection Hd as Hd. by apply bool_decide_eq_true in Hd.
Qed.

(** C6: the whole job is right.  Any number of workers run [Worker] against the
    coordinator, in any interleaving of requests, tasks and reports; requests may fail
    before or after the coordinator has handled them and workers may stop anywhere, in
    the middle of a task's renames too; no reply to a report is lost, and the files of a
    task can be created and renamed.  No input file has the name of an intermediate or
    output file, [Map] emits valid UTF-8 (anything else is changed by [encoding/json]), and
    [Reduce] does not depend on the order of its values.  If [Done] answers true, every
    output file is in place and the lines of all of them are those of the sequential
    program, up to their order. *)
Theorem job_done_output mapf reducef sort_ByKey enc dec files nReduce (s0 : fs) ls j :
  (0 < nReduce)%nat ->
  (forall f, f ∈ files -> is_Some (s0 !! f)) ->
  (forall f i r, f ∈ files -> f <> iname (Z.of_nat i) (Z.of_nat r)) ->
  (forall f r, f ∈ files -> f <> oname (Z.of_nat r)) ->
  (forall kvs, dec (cat (enc <$> kvs)) = coerce_kv <$> kvs) -> emits_valid mapf files s0 ->
  (forall l, sort_ByKey l ≡ₚ l) -> (forall l, ByKey_sorted (sort_ByKey l)) ->
  (forall k vs vs', vs ≡ₚ vs' -> reducef k vs = reducef k vs') ->
  Forall no_loss ls ->
  (j0 ← job_init files nReduce s0; job_run mapf reducef sort_ByKey enc dec j0 ls) = Ret j ->
  Done (m_coord (j_mr j)) = Ret true ->
  exists s2 seqlines lines,
    mrsequential mapf reducef sort_ByKey files s0 = Ret s2 /\ s2 !! "mr-out-0" = Some (cat seqlines) /\
    (forall r, (r < nReduce)%nat -> j_fs j !! oname (Z.of_nat r) = Some (cat (lines r))) /\
    concat (lines <$> seq 0 nReduce) ≡ₚ seqlines.
Proof.
  intros Hr Hinput Hnames Houts Hjson Hvalid Hperm Hsorted Hred Hl Hrun Hd.
  destruct (outputs_sequential mapf reducef sort_ByKey enc dec files nReduce s0 Hr Hinput Hperm Hsorted Hred)
    as (s2 & seqlines & Hs2 & Hout & Hp).
  exists s2, seqlines, (reduce_output mapf reducef sort_ByKey files nReduce s0).
  split; [done|]. split; [done|]. split; [|done].
  by eapply job_outputs_written.
Qed.

(** Two workers, two files, two reduce tasks. *)
Definition witness_job : list job_label :=
  [JCallFails 0; JAsk 0 1; JAsk 1 2; JTask 1; JReport 1; JAsk 1 3; JTask 0; JReport 0;
   JAsk 0 4; JAsk 1 5; JTask 1; JTask 0; JReport 0; JReport 1; JAsk 0 6; JAsk 1 7].

Lemma job_done_output_witness :
  exists j s2 seqlines lines,
    (j0 ← job_init ["a"; "b"] 2 MrDemo.store;
     job_run Wc.Map Wc.Reduce MrDemo.sort MrDemo.enc MrDemo.dec j0 witness_job) = Ret j /\
    mrsequential Wc.Map Wc.Reduce MrDemo.sort ["a"; "b"] MrDemo.store = Ret s2 /\
    s2 !! "mr-out-0" = Some (cat seqlines) /\
    (forall r, (r < 2)%nat -> j_fs j !! oname (Z.of_nat r) = Some (cat (lines r))) /\
    concat (lines <$> seq 0 2) ≡ₚ seqlines.
Proof.
  assert (Hc : match j0 ← job_init ["a"; "b"] 2 MrDemo.store;
                     job_run Wc.Map Wc.Reduce MrDemo.sort MrDemo.enc MrDemo.dec j0 witness_job with
               | Ret j => match Done (m_coord (j_mr j)) with Ret true => true | _ => false end
               | _ => false end = true) by (vm_compute; reflexivity).
  destruct (j0 ← job_init ["a"; "b"] 2 MrDemo.store; _) as [j| |] eqn:E; try discriminate Hc.
  destruct (job_done_output Wc.Map Wc.Reduce MrDemo.sort MrDemo.enc MrDemo.dec ["a"; "b"] 2 MrDemo.store
    witness_job j) as (s2 & seqlines & lines & H);
    [lia|apply MrDemo.inputs|apply MrDemo.names|apply MrDemo.outputs|apply MrDemo.roundtrip|apply Wc.Map_emits_valid
    |intros l; apply merge_sort_Permutation|apply MrDemo.sort_ok|apply Wc.Reduce_perm|repeat constructor
    |exact E| |].
  - destruct (Done _) as [[|]| |]; [reflexivity|discriminate Hc..].
  - exists j, s2, seqlines, lines. split; [reflexivity|exact H].
Defined.

(** A rename that fails is reported as done all the same: the job ends without the file. *)
Example rename_failure_loses_output :
  match (j0 ← job_init ["a"] 1 MrDemo.store;
         job_run Wc.Map Wc.Reduce MrDemo.sort MrDemo.enc MrDemo.dec j0
           [JAsk 0 1; JTask 0; JReport 0; JAsk 0 2; JRenameFails 0 [0%nat]; JReport 0]) with
  | Ret j => Done (m_coord (j_mr j)) = Ret true /\ j_fs j !! oname 0 = None
  | _ => False
  end.
Proof. vm_compute. by split. Qed.
