(* ===== verification/MrApps.v ===== *)
(** The other MapReduce applications of [mrapps/]: the indexer, the crash tests and
    the long word count; and what a whole job computes with the indexer and with the word
    count of [mrapps/wc.go], whatever its workers do. *)
From S2P Require Import Prelude.
From S2P Require Import Runes.
From S2P Require Import MrCoord.
From S2P Require Import MrWorker.
From S2P Require Import MrJob.
Open Scope Z_scope.

(** [sort.Strings] and [strings.Join]. *)
Definition sort_Strings (l : list string) : list string := merge_sort string_le l.

Fixpoint Join (l : list string) (sep : string) : string :=
  match l with
  | [] => ""
  | [x] => x
  | x :: l' => x +:+ sep +:+ Join l' sep
  end.

#[export] Instance string_le_total : Total string_le.
Proof. intros s t. unfold string_le. apply String.leb_total. Qed.
#[export] Instance string_le_antisymm : AntiSymm (=) string_le.
Proof. intros s t. unfold string_le. apply String.leb_antisym. Qed.
#[export] Instance string_le_trans : Transitive string_le.
Proof.
  intros a b c Hab Hbc. destruct (total string_le a c) as [|Hca]; [done|]. revert a b c Hab Hbc Hca.
  unfold string_le, String.leb.
  induction a as [|x a IH]; intros [|y b] [|z c]; cbn [String.compare]; try done.
  unfold Ascii.compare. intros H1 H2 H3.
  destruct (N.compare_spec (N_of_ascii x) (N_of_ascii y)) as [E1|E1|E1]; try done;
    destruct (N.compare_spec (N_of_ascii y) (N_of_ascii z)) as [E2|E2|E2]; try done;
    destruct (N.compare_spec (N_of_ascii z) (N_of_ascii x)) as [E3|E3|E3]; try done;
    destruct (N.compare_spec (N_of_ascii x) (N_of_ascii z)) as [E4|E4|E4]; try done; try lia.
  by apply (IH b c).
Qed.

(** The order of the values does not matter to a function that sorts them. *)
Lemma sort_Strings_perm l l' : l ≡ₚ l' -> sort_Strings l = sort_Strings l'.
Proof.
  intros H. pose proof (StronglySorted_merge_sort string_le) as Hs. unfold sort_Strings.
  apply (StronglySorted_unique string_le _ _ (Hs l) (Hs l')). by rewrite !merge_sort_Permutation.
Qed.

(** [mrapps/indexer.go].  [range_map document m] is the order in which the
    loop [for w := range m] of the map task of [document] visits the keys of [m]. *)
Module Indexer.
Section Indexer.
Context {Lt : Letters}.
Variable range_map : string -> gset string -> list string.

Definition Map (document value : string) : list KeyValue :=
  let words := FieldsFunc value (fun x => negb (IsLetter x)) in
  let m := foldl (fun (m : gset string) w => {[w]} ∪ m) ∅ words in
  foldl (fun res w => res ++ [mkKeyValue w document]) [] (range_map document m).
End Indexer.

Definition Reduce (key : string) (values : list string) : string :=
  let values := sort_Strings values in
  Itoa (Z.of_nat (length values)) +:+ " " +:+ Join values ",".
End Indexer.

(** [mrapps/nocrash.go]: the random number is drawn and ignored. *)
Module Nocrash.
Definition maybeCrash (rr : Z) : outcome unit :=
  if false && (rr <? 500) then Panic else Ret tt.

Definition Map (rr : Z) (filename contents : string) : outcome (list KeyValue) :=
  maybeCrash rr ;;
  let kva := [] in
  let kva := kva ++ [mkKeyValue "a" filename] in
  let kva := kva ++ [mkKeyValue "b" (Itoa (Z.of_nat (String.length filename)))] in
  let kva := kva ++ [mkKeyValue "c" (Itoa (Z.of_nat (String.length contents)))] in
  let kva := kva ++ [mkKeyValue "d" "xyzzy"] in
  Ret kva.

Definition Reduce (rr : Z) (key : string) (values : list string) : outcome string :=
  maybeCrash rr ;;
  let vv := sort_Strings values in
  let val := Join vv " " in
  Ret val.
End Nocrash.

(** [mrapps/crash.go]: [os.Exit] ends the process; a delay is no step. *)
Module Crash.
Definition maybeCrash (rr : Z) : outcome unit :=
  if rr <? 330 then Panic else Ret tt.

Definition Map (rr : Z) (filename contents : string) : outcome (list KeyValue) :=
  maybeCrash rr ;;
  let kva := [] in
  let kva := kva ++ [mkKeyValue "a" filename] in
  let kva := kva ++ [mkKeyValue "b" (Itoa (Z.of_nat (String.length filename)))] in
  let kva := kva ++ [mkKeyValue "c" (Itoa (Z.of_nat (String.length contents)))] in
  let kva := kva ++ [mkKeyValue "d" "xyzzy"] in
  Ret kva.

Definition Reduce (rr : Z) (key : string) (values : list string) : outcome string :=
  maybeCrash rr ;;
  let vv := sort_Strings values in
  let val := Join vv " " in
  Ret val.
End Crash.

(** [mrapps/early_exit.go]; the sleep of some reduce tasks is no step. *)
Module EarlyExit.
Definition Map (filename contents : string) : list KeyValue :=
  let kva := [] in
  let kva := kva ++ [mkKeyValue filename "1"] in
  kva.

Definition Reduce (key : string) (values : list string) : string :=
  Itoa (Z.of_nat (length values)).
End EarlyExit.

(** [mrapps/mtiming.go] and [mrapps/rtiming.go]: [nparallel] counts the processes that
    run a task of the phase; it reads the process table, so its count [n] is an argument
    of the functions that call it, as are the process id and the time. *)
Module Mtiming.
Definition Map (pid n : Z) (ts filename contents : string) : list KeyValue :=
  let kva := [] in
  let kva := kva ++ [mkKeyValue ("times-" +:+ Itoa pid) ts] in
  let kva := kva ++ [mkKeyValue ("parallel-" +:+ Itoa pid) (Itoa n)] in
  kva.

Definition Reduce (key : string) (values : list string) : string :=
  let vv := sort_Strings values in
  let val := Join vv " " in
  val.
End Mtiming.

Module Rtiming.
Definition Map (filename contents : string) : list KeyValue :=
  (fun k => mkKeyValue k "1") <$> ["a"; "b"; "c"; "d"; "e"; "f"; "g"; "h"; "i"; "j"].

Definition Reduce (n : Z) (key : string) (values : list string) : string := Itoa n.
End Rtiming.

(** Without a crash the crash test computes what the test without crashes does. *)
Lemma Crash_Map_survives rr rr' filename contents :
  Crash.Map rr filename contents = Panic /\ rr < 330 \/
  Crash.Map rr filename contents = Nocrash.Map rr' filename contents /\ 330 <= rr.
Proof. unfold Crash.Map, Crash.maybeCrash. destruct (Z.ltb_spec rr 330); auto. Qed.

(** ** The inverted index *)

(** The words of a text, as the indexer and the word count read them. *)
Definition words_of {Lt : Letters} (contents : string) : list string :=
  FieldsFunc contents (fun x => negb (IsLetter x)).

(** The files of [files] in which the word [w] occurs. *)
Definition documents {Lt : Letters} (s : fs) (files : list string) (w : string) : list string :=
  filter (fun f => w ∈ words_of (default "" (s !! f))) files.

(** The line that the indexer should write for [w]. *)
Definition index_line {Lt : Letters} (s : fs) (files : list string) (w : string) : string :=
  let ds := sort_Strings (documents s files w) in
  line w (Itoa (Z.of_nat (length ds)) +:+ " " +:+ Join ds ",").

Lemma foldl_set (l : list string) : forall (m : gset string),
  foldl (fun (m : gset string) w => {[w]} ∪ m) m l = list_to_set l ∪ m.
Proof. induction l as [|w l IH]; intros m; cbn [foldl]; [set_solver|]. rewrite IH. set_solver. Qed.

Lemma Indexer_Map_spec {Lt : Letters} range_map document value :
  Indexer.Map range_map document value =
    (fun w => mkKeyValue w document) <$> range_map document (list_to_set (words_of value)).
Proof. unfold Indexer.Map. rewrite foldl_append, foldl_set, (right_id_L ∅ (∪)). done. Qed.

(** The indexer emits words and the names of its files. *)
Lemma words_valid {Lt : Letters} contents : Forall valid_utf8 (words_of contents).
Proof. apply FieldsFunc_valid. unfold IsLetter. simpl. by rewrite letter_error. Qed.

Section Index.
Context {Lt : Letters}.
(** A job of the indexer on the store [s0]; map ranges visit every key once. *)
Variable range_map : string -> gset string -> list string.
Hypothesis range_map_ok : forall d m, range_map d m ≡ₚ elements m.
Variable files : list string.
Variable s0 : fs.
Hypothesis Hinput : forall f, f ∈ files -> is_Some (s0 !! f).

Lemma Indexer_emits_valid : Forall valid_utf8 files -> emits_valid (Indexer.Map range_map) files s0.
Proof.
  intros Hf f c Hin _. rewrite Indexer_Map_spec, (range_map_ok f). apply Forall_fmap, Forall_forall.
  intros w Hw%elem_of_elements%elem_of_list_to_set. pose proof (words_valid c) as Hv.
  rewrite Forall_forall in Hf, Hv. split; [by apply Hv|by apply Hf].
Qed.

(** The values of [w] in what the map task of [f] emits. *)
Lemma values_Indexer_Map w f value :
  values w (Indexer.Map range_map f value) = if decide (w ∈ words_of value) then [f] else [].
Proof.
  rewrite Indexer_Map_spec. set (m := list_to_set (words_of value) : gset string).
  assert (E : values w ((fun w => mkKeyValue w f) <$> range_map f m) ≡ₚ
              if decide (w ∈ m) then [f] else []).
  { rewrite (values_perm w _ _ (fmap_Permutation _ _ _ (range_map_ok f m))).
    clear range_map_ok Hinput. pattern m. apply set_ind.
    - intros ?? ->%leibniz_equiv. done.
    - by rewrite elements_empty.
    - intros x X Hx IH. rewrite (values_perm w _ _ (fmap_Permutation _ _ _ (elements_union_singleton _ x Hx))).
      cbn [fmap list_fmap].
      destruct (decide (x = w)) as [->|Hne].
      + rewrite values_cons_eq by done. rewrite IH. rewrite decide_False by done.
        by rewrite decide_True by set_solver.
      + rewrite values_cons_ne by done. rewrite IH.
        destruct (decide (w ∈ X)); [rewrite decide_True by set_solver|rewrite decide_False by set_solver]; done. }
  assert (Hm : w ∈ m <-> w ∈ words_of value) by apply elem_of_list_to_set.
  destruct (decide (w ∈ m)); [rewrite decide_True by tauto|rewrite decide_False by tauto].
  - by apply Permutation_singleton_r in E.
  - by apply Permutation_nil_r in E.
Qed.

Lemma values_index w (fs : list string) : (forall f, f ∈ fs -> f ∈ files) ->
  values w (concat (emitted (Indexer.Map range_map) s0 <$> fs)) = documents s0 fs w.
Proof.
  induction fs as [|f fs IH]; intros Hin; [done|].
  cbn [fmap list_fmap concat]. rewrite values_app, IH by auto with go.
  destruct (Hinput f) as [c Hc]; [auto with go|].
  unfold documents at 2. unfold emitted. rewrite filter_cons, Hc, values_Indexer_Map. cbn [default from_option id].
  by destruct (decide (w ∈ words_of c)).
Qed.

Lemma index_key_line w :
  key_line (Indexer.Map range_map) Indexer.Reduce files s0 w = index_line s0 files w.
Proof. unfold key_line, index_line, Indexer.Reduce, all_kvs. by rewrite values_index. Qed.

Lemma Indexer_Reduce_perm k vs vs' : vs ≡ₚ vs' -> Indexer.Reduce k vs = Indexer.Reduce k vs'.
Proof. intros H. unfold Indexer.Reduce. by rewrite (sort_Strings_perm _ _ H). Qed.

Lemma index_words w :
  w ∈ (Key <$> all_kvs (Indexer.Map range_map) files s0) <-> documents s0 files w <> [].
Proof.
  rewrite <- values_index by done. fold (all_kvs (Indexer.Map range_map) files s0).
  set (l := all_kvs _ _ _). split.
  - intros (kv & -> & Hkv)%list_elem_of_fmap He.
    assert (Hv : Value kv ∈ values (Key kv) l)
      by (apply list_elem_of_fmap; exists kv; split; [done|]; by apply list_elem_of_filter).
    rewrite He in Hv. by apply elem_of_nil in Hv.
  - intros He. destruct (values w l) as [|v vs] eqn:E; [done|].
    assert (Hv : v ∈ values w l) by (rewrite E; auto with go).
    apply list_elem_of_fmap in Hv as (kv & -> & [Hk Hkv]%list_elem_of_filter).
    apply list_elem_of_fmap. by exists kv.
Qed.
End Index.

(** What a whole job writes: one line per key that its map tasks emit. *)
Lemma job_key_lines mapf reducef sort_ByKey enc dec files nReduce (s0 : fs) ls j :
  (forall k vs vs', vs ≡ₚ vs' -> reducef k vs = reducef k vs') ->
  (0 < nReduce)%nat ->
  (forall f, f ∈ files -> is_Some (s0 !! f)) ->
  (forall f i r, f ∈ files -> f <> iname (Z.of_nat i) (Z.of_nat r)) ->
  (forall f r, f ∈ files -> f <> oname (Z.of_nat r)) ->
  (forall kvs, dec (cat (enc <$> kvs)) = coerce_kv <$> kvs) -> emits_valid mapf files s0 ->
  (forall l, sort_ByKey l ≡ₚ l) -> (forall l, ByKey_sorted (sort_ByKey l)) ->
  Forall no_loss ls ->
  (j0 ← job_init files nReduce s0; job_run mapf reducef sort_ByKey enc dec j0 ls) = Ret j ->
  Done (m_coord (j_mr j)) = Ret true ->
  exists words lines,
    NoDup words /\ (forall w, w ∈ words <-> w ∈ (Key <$> all_kvs mapf files s0)) /\
    (forall r, (r < nReduce)%nat -> j_fs j !! oname (Z.of_nat r) = Some (cat (lines r))) /\
    concat (lines <$> seq 0 nReduce) = key_line mapf reducef files s0 <$> words.
Proof.
  intros Hred Hr Hinput Hnames Houts Hjson Hvalid Hperm Hsorted Hl Hrun Hd.
  destruct (reduce_outputs_spec mapf reducef sort_ByKey enc dec files nReduce s0
    Hr Hperm Hsorted Hred nReduce) as (words & Hnd & Hin & Hlines).
  exists words, (reduce_output mapf reducef sort_ByKey files nReduce s0).
  split; [done|]. split; [|split; [by eapply job_outputs_written|done]].
  intros w. rewrite Hin. split; [by intros [? _]|]. intros Hw. split; [done|]. by apply some_bucket.
Qed.

(** C29: the whole job computes the inverted index.  Any number of workers run the indexer
    against the coordinator, with any interleaving, lost requests and stops of
    [job_done_output]; when [Done] answers true, the output files hold exactly one line
    per word of the documents, and the line of a word gives the number of documents in
    which it occurs and their names, each once and in order, although the map tasks
    visit their Go map in any order and the values reach [Reduce] in any order.  The names
    of the documents are valid UTF-8, and none is that of an intermediate or output file;
    the texts are any bytes. *)
Theorem index_correct {Lt : Letters} range_map sort_ByKey enc dec files nReduce (s0 : fs) ls j :
  (forall d m, range_map d m ≡ₚ elements m) ->
  (0 < nReduce)%nat ->
  (forall f, f ∈ files -> is_Some (s0 !! f)) ->
  (forall f i r, f ∈ files -> f <> iname (Z.of_nat i) (Z.of_nat r)) ->
  (forall f r, f ∈ files -> f <> oname (Z.of_nat r)) ->
  Forall valid_utf8 files ->
  (forall kvs, dec (cat (enc <$> kvs)) = coerce_kv <$> kvs) ->
  (forall l, sort_ByKey l ≡ₚ l) -> (forall l, ByKey_sorted (sort_ByKey l)) ->
  Forall no_loss ls ->
  (j0 ← job_init files nReduce s0;
   job_run (Indexer.Map range_map) Indexer.Reduce sort_ByKey enc dec j0 ls) = Ret j ->
  Done (m_coord (j_mr j)) = Ret true ->
  exists words lines,
    NoDup words /\ (forall w, w ∈ words <-> documents s0 files w <> []) /\
    (forall r, (r < nReduce)%nat -> j_fs j !! oname (Z.of_nat r) = Some (cat (lines r))) /\
    concat (lines <$> seq 0 nReduce) = index_line s0 files <$> words.
Proof.
  intros Hrange Hr Hinput Hnames Houts Hvalid Hjson Hperm Hsorted Hl Hrun Hd.
  destruct (job_key_lines (Indexer.Map range_map) Indexer.Reduce sort_ByKey enc dec files nReduce s0 ls j)
    as (words & lines & Hnd & Hin & Hout & Hlines); try done;
    [apply Indexer_Reduce_perm|by apply Indexer_emits_valid|].
  exists words, lines. split; [done|]. split; [|split; [done|]].
  - intros w. by rewrite Hin, index_words.
  - rewrite Hlines. apply list_fmap_ext. intros k w _. apply index_key_line; [exact Hrange|exact Hinput].
Qed.

Lemma index_correct_witness :
  exists j words lines,
    (j0 ← job_init ["a"; "b"] 2 MrDemo.store;
     job_run (Indexer.Map (fun _ => elements)) Indexer.Reduce MrDemo.sort MrDemo.enc MrDemo.dec
       j0 witness_job) = Ret j /\
    NoDup words /\ "be" ∈ words /\ "not" ∈ words /\ "a" ∉ words /\
    index_line MrDemo.store ["a"; "b"] "be" = line "be" "2 a,b" /\
    (forall r, (r < 2)%nat -> j_fs j !! oname (Z.of_nat r) = Some (cat (lines r))) /\
    concat (lines <$> seq 0 2) = index_line MrDemo.store ["a"; "b"] <$> words.
Proof.
  assert (Hc : match j0 ← job_init ["a"; "b"] 2 MrDemo.store;
                     job_run (Indexer.Map (fun _ => elements)) Indexer.Reduce MrDemo.sort MrDemo.enc
                       MrDemo.dec j0 witness_job with
               | Ret j => match Done (m_coord (j_mr j)) with Ret true => true | _ => false end
               | _ => false end = true) by (vm_compute; reflexivity).
  destruct (j0 ← job_init ["a"; "b"] 2 MrDemo.store; _) as [j| |] eqn:E; try discriminate Hc.
  destruct (index_correct (fun _ => elements) MrDemo.sort MrDemo.enc MrDemo.dec ["a"; "b"] 2 MrDemo.store
    witness_job j) as (words & lines & Hnd & Hw & H);
    [reflexivity|lia|apply MrDemo.inputs|apply MrDemo.names|apply MrDemo.outputs|repeat constructor|apply MrDemo.roundtrip
    |intros l; apply merge_sort_Permutation|apply MrDemo.sort_ok|repeat constructor|exact E| |].
  - destruct (Done _) as [[|]| |]; [reflexivity|discriminate Hc..].
  - exists j, words, lines. split; [reflexivity|]. split; [exact Hnd|]. split; [|split; [|split; [|split]]].
    + apply Hw. vm_compute. discriminate.
    + apply Hw. vm_compute. discriminate.
    + intros Ha. apply Hw in Ha. apply Ha. vm_compute. reflexivity.
    + vm_compute. reflexivity.
    + exact H.
Defined.

(** ** The word count *)

(** How often [w] occurs in the files. *)
Definition occurrences {Lt : Letters} (s : fs) (files : list string) (w : string) : nat :=
  length (filter (fun x => x = w) (concat ((fun f => words_of (default "" (s !! f))) <$> files))).

Lemma Wc_Map_spec {Lt : Letters} filename contents :
  Wc.Map filename contents = (fun w => mkKeyValue w "1") <$> words_of contents.
Proof. unfold Wc.Map. by rewrite foldl_append. Qed.

Lemma values_words w (l : list string) :
  length (values w ((fun x => mkKeyValue x "1") <$> l)) = length (filter (fun x => x = w) l).
Proof.
  induction l as [|x l IH]; [done|]. cbn [fmap list_fmap]. rewrite filter_cons. destruct (decide (x = w)) as [->|Hne].
  - rewrite values_cons_eq by done. simpl. by rewrite IH.
  - by rewrite values_cons_ne.
Qed.

Lemma wc_occurrences {Lt : Letters} files (s0 : fs) w :
  (forall f, f ∈ files -> is_Some (s0 !! f)) -> length (values w (all_kvs Wc.Map files s0)) = occurrences s0 files w.
Proof.
  unfold all_kvs, occurrences. induction files as [|f files IH]; intros Hin; [done|].
  cbn [fmap list_fmap concat]. rewrite values_app, filter_app, !length_app, IH by auto with go.
  f_equal. destruct (Hin f) as [c Hc]; [auto with go|]. unfold emitted. rewrite Hc. cbn [default from_option id].
  by rewrite Wc_Map_spec, values_words.
Qed.

Lemma key_emitted w (l : list KeyValue) : w ∈ (Key <$> l) <-> (0 < length (values w l))%nat.
Proof.
  induction l as [|kv l IH]; [split; [by intros ?%elem_of_nil|simpl; lia]|].
  rewrite fmap_cons, elem_of_cons, IH. destruct (decide (Key kv = w)) as [<-|Hne].
  - rewrite values_cons_eq by done. simpl. split; [lia|by left].
  - rewrite values_cons_ne by done. split; [by intros [->|?]|by right].
Qed.

(** C28: the whole job counts the words.  Any number of workers run the word count against
    the coordinator, with any interleaving, lost requests and stops of [job_done_output];
    when [Done] answers true, the output files hold exactly one line per word of the texts,
    and the line of a word gives how often it occurs in all of them.  The texts are any
    bytes: words are valid UTF-8, so that [encoding/json] keeps them.  No text has the name
    of an intermediate or output file. *)
Theorem wc_correct {Lt : Letters} sort_ByKey enc dec files nReduce (s0 : fs) ls j :
  (0 < nReduce)%nat ->
  (forall f, f ∈ files -> is_Some (s0 !! f)) ->
  (forall f i r, f ∈ files -> f <> iname (Z.of_nat i) (Z.of_nat r)) ->
  (forall f r, f ∈ files -> f <> oname (Z.of_nat r)) ->
  (forall kvs, dec (cat (enc <$> kvs)) = coerce_kv <$> kvs) ->
  (forall l, sort_ByKey l ≡ₚ l) -> (forall l, ByKey_sorted (sort_ByKey l)) ->
  Forall no_loss ls ->
  (j0 ← job_init files nReduce s0; job_run Wc.Map Wc.Reduce sort_ByKey enc dec j0 ls) = Ret j ->
  Done (m_coord (j_mr j)) = Ret true ->
  exists words lines,
    NoDup words /\ (forall w, w ∈ words <-> (0 < occurrences s0 files w)%nat) /\
    (forall r, (r < nReduce)%nat -> j_fs j !! oname (Z.of_nat r) = Some (cat (lines r))) /\
    concat (lines <$> seq 0 nReduce) = (fun w => line w (Itoa (Z.of_nat (occurrences s0 files w)))) <$> words.
Proof.
  intros Hr Hinput Hnames Houts Hjson Hperm Hsorted Hl Hrun Hd.
  destruct (job_key_lines Wc.Map Wc.Reduce sort_ByKey enc dec files nReduce s0 ls j)
    as (words & lines & Hnd & Hin & Hout & Hlines); try done;
    [apply Wc.Reduce_perm|apply Wc.Map_emits_valid|].
  exists words, lines. split; [done|]. split; [|split; [done|]].
  - intros w. by rewrite Hin, key_emitted, wc_occurrences.
  - rewrite Hlines. apply list_fmap_ext. intros k w _. unfold key_line, Wc.Reduce. by rewrite wc_occurrences.
Qed.

Lemma wc_correct_witness :
  exists j words lines,
    (j0 ← job_init ["a"; "b"] 2 MrDemo.store;
     job_run Wc.Map Wc.Reduce MrDemo.sort MrDemo.enc MrDemo.dec j0 witness_job) = Ret j /\
    NoDup words /\ "be" ∈ words /\ "a" ∉ words /\ occurrences MrDemo.store ["a"; "b"] "to" = 2%nat /\
    (forall r, (r < 2)%nat -> j_fs j !! oname (Z.of_nat r) = Some (cat (lines r))) /\
    concat (lines <$> seq 0 2) =
      (fun w => line w (Itoa (Z.of_nat (occurrences MrDemo.store ["a"; "b"] w)))) <$> words.
Proof.
  assert (Hc : match j0 ← job_init ["a"; "b"] 2 MrDemo.store;
                     job_run Wc.Map Wc.Reduce MrDemo.sort MrDemo.enc MrDemo.dec j0 witness_job with
               | Ret j => match Done (m_coord (j_mr j)) with Ret true => true | _ => false end
               | _ => false end = true) by (vm_compute; reflexivity).
  destruct (j0 ← job_init ["a"; "b"] 2 MrDemo.store; _) as [j| |] eqn:E; try discriminate Hc.
  destruct (wc_correct MrDemo.sort MrDemo.enc MrDemo.dec ["a"; "b"] 2 MrDemo.store
    witness_job j) as (words & lines & Hnd & Hw & Hout & Hlines);
    [lia|apply MrDemo.inputs|apply MrDemo.names|apply MrDemo.outputs|apply MrDemo.roundtrip
    |intros l; apply merge_sort_Permutation|apply MrDemo.sort_ok|repeat constructor|exact E| |].
  - destruct (Done _) as [[|]| |]; [reflexivity|discriminate Hc..].
  - exists j, words, lines. split; [reflexivity|]. split; [exact Hnd|]. split; [|split; [|split; [|split]]].
    + apply Hw. vm_compute. lia.
    + intros Ha. apply Hw in Ha. vm_compute in Ha. lia.
    + vm_compute. reflexivity.
    + exact Hout.
    + exact Hlines.
Defined.
