(* ===== verification/MrParallel.v ===== *)
(** What the applications of [mrapps/] learn from the working directory: [nparallel] of
    [mtiming.go] and [rtiming.go], which counts the workers that run a task now, and
    [jobcount.go], which counts how often a map task has run; and [main/mrcoordinator.go],
    which empties the directory of old files before a job. *)
From S2P Require Import Prelude.
From S2P Require Import Names.
From S2P Require Import Json.
From stdpp Require Import pretty.
From S2P Require Import MrCoord.
From S2P Require Import MrWorker.
From S2P Require Import MrJob.
From S2P Require Import MrApps.
Open Scope Z_scope.

(** ** Strings *)

(** [strings.HasPrefix], and what follows the prefix. *)
Fixpoint strip_prefix (p s : string) : option string :=
  match p, s with
  | EmptyString, _ => Some s
  | String a p', String b s' => if Ascii.eqb a b then strip_prefix p' s' else None
  | _, _ => None
  end.
Definition HasPrefix (s p : string) : bool :=
  match strip_prefix p s with Some _ => true | None => false end.

(** [%d] of [fmt.Sscanf] into an [int]: spaces (of ASCII; a newline is an error), an
    optional sign and digits, in the range of the type; what follows is not read. *)
Definition is_space (c : ascii) : bool :=
  let n := Ascii.nat_of_ascii c in ((n =? 9) || (n =? 11) || (n =? 12) || (n =? 13) || (n =? 32))%nat.
Fixpoint skip_space (s : string) : string :=
  match s with
  | String c s' => if is_space c then skip_space s' else s
  | EmptyString => s
  end.
Definition scan_digits (s : string) : option N :=
  match s with
  | String c _ => match digit_value c with Some _ => Some (parse_digits 0 s).1 | None => None end
  | EmptyString => None
  end.
Definition scan_sign (s : string) : option Z :=
  match s with
  | String c s' =>
      if bool_decide (c = "-"%char) then (fun n => - Z.of_N n) <$> scan_digits s'
      else if bool_decide (c = "+"%char) then Z.of_N <$> scan_digits s'
      else Z.of_N <$> scan_digits s
  | EmptyString => None
  end.
Definition scan_int (s : string) : option Z :=
  z ← scan_sign (skip_space s);
  if decide (int_min <= z <= int_max) then Some z else None.

Lemma strip_prefix_app p s : strip_prefix p (p +:+ s) = Some s.
Proof. induction p as [|c p IH]; [done|]. simpl. by rewrite Ascii.eqb_refl. Qed.

Lemma strip_prefix_inv p s t : strip_prefix p s = Some t -> s = p +:+ t.
Proof.
  revert s. induction p as [|c p IH]; intros s H; simpl in H; [by injection H as ->|].
  destruct s as [|b s]; [done|]. destruct (Ascii.eqb_spec c b) as [->|]; [|done]. simpl. by rewrite (IH s H).
Qed.

Lemma digit_not (d : N) (c : ascii) : digit_value c = None -> (d < 10)%N -> pretty_N_char d <> c.
Proof. intros Hc Hd <-. by rewrite digit_value_char in Hc. Qed.

(** A pid is scanned as it was printed. *)
Lemma scan_int_pretty (n : nat) : Z.of_nat n <= int_max -> scan_int (pretty (Z.of_nat n)) = Some (Z.of_nat n).
Proof.
  intros Hb. rewrite pretty_Z_N by lia. pose proof (parse_digits_pretty (Z.to_N (Z.of_nat n)) "" I) as Hp.
  rewrite string_app_nil_r in Hp.
  destruct (pretty_N_head (Z.to_N (Z.of_nat n))) as (d & t & E & Hd). rewrite E in *.
  assert (Hsp : is_space (pretty_N_char d) = false) by (unfold pretty_N_char; by repeat case_match).
  unfold scan_int, scan_sign. simpl skip_space. rewrite Hsp.
  rewrite !bool_decide_eq_false_2 by (apply digit_not; done).
  unfold scan_digits. rewrite digit_value_char by done. rewrite Hp. simpl.
  rewrite decide_True by (unfold int_min; lia). f_equal. lia.
Qed.

(** ** [main/mrcoordinator.go] *)

(** [filepath.Glob("mr-*")] and [os.RemoveAll] of each match. *)
Definition cleanupOldFiles (s : fs) : fs := filter (fun kv => HasPrefix kv.1 "mr-" = false) s.

(** [cleanupOldFiles] of [mr/coordinator.go], which [MakeCoordinator] calls:
    [os.RemoveAll] expands no pattern. *)
Definition coordinator_cleanupOldFiles (s : fs) : fs := delete "mr-out-*" (delete "mr-*" s).
Definition MakeCoordinator_job (files : list string) (nReduce : nat) (s : fs) : outcome job :=
  job_init files nReduce (coordinator_cleanupOldFiles s).

(** [Example] of the coordinator, and the name of its socket. *)
Record ExampleArgs := mkExampleArgs { ExampleArgs_X : Z }.
Record ExampleReply := mkExampleReply { ExampleReply_Y : Z }.
Definition Example_ (args : ExampleArgs) (reply : ExampleReply) : ExampleReply :=
  mkExampleReply (wrap64 (ExampleArgs_X args + 1)).

(** [CallExample] of the worker: what it prints, by whether the call gets through. *)
Definition CallExample (ok : bool) : string :=
  let args := mkExampleArgs 99 in
  let reply := mkExampleReply 0 in
  if ok then "reply.Y " +:+ Itoa (ExampleReply_Y (Example_ args reply)) +:+ newline
  else "call failed!" +:+ newline.
Example CallExample_100 : CallExample true = "reply.Y 100" +:+ newline.
Proof. reflexivity. Qed.

Definition coordinatorSock (uid : Z) : string := let s := "/var/tmp/5840-mr-" in s +:+ Itoa uid.

(** [main]: the arguments are the input files; the job has 10 reduce tasks, and the
    process ends when [Done] answers true.  Too few arguments end it at once, when the
    old files have gone. *)
Definition mrcoordinator_main (files : list string) (s : fs) : fs + outcome job :=
  let s := cleanupOldFiles s in
  match files with [] => inl s | _ => inr (MakeCoordinator_job files 10 s) end.

Lemma HasPrefix_app p s : HasPrefix (p +:+ s) p = true.
Proof. unfold HasPrefix. by rewrite strip_prefix_app. Qed.

Lemma cleanupOldFiles_old s f : HasPrefix f "mr-" = true -> cleanupOldFiles s !! f = None.
Proof. intros H. apply map_lookup_filter_None. right. intros x _. simpl. by rewrite H. Qed.

Lemma cleanupOldFiles_other s f : HasPrefix f "mr-" = false -> cleanupOldFiles s !! f = s !! f.
Proof.
  intros H. unfold cleanupOldFiles. rewrite map_lookup_filter. destruct (s !! f); [|done]. simpl.
  by rewrite option_guard_True.
Qed.

(** Old outputs are there when [MakeCoordinator] returns, unless [main] has removed them;
    after [main] the second cleanup has nothing to do. *)
Lemma coordinator_cleanup_keeps s f :
  f <> "mr-*" -> f <> "mr-out-*" -> coordinator_cleanupOldFiles s !! f = s !! f.
Proof. intros H1 H2. unfold coordinator_cleanupOldFiles. by rewrite !lookup_delete_ne. Qed.

Lemma coordinator_cleanup_main s : coordinator_cleanupOldFiles (cleanupOldFiles s) = cleanupOldFiles s.
Proof.
  unfold coordinator_cleanupOldFiles. rewrite (delete_id (cleanupOldFiles s)) by by apply cleanupOldFiles_old.
  apply delete_id. by apply cleanupOldFiles_old.
Qed.

(** ** [nparallel] *)

Section Parallel.
Variable phase : string.

Definition nparallel_pat : string := "mr-worker-" +:+ phase +:+ "-".
Definition myfilename (pid : nat) : string := nparallel_pat +:+ pretty (Z.of_nat pid).
Definition scan_name (name : string) : option Z := strip_prefix nparallel_pat name ≫= scan_int.

(** A process in [nparallel]: its file is written, or its count is taken. *)
Inductive pstage := PWrote | PScanned (ret : Z).

(** The directory, the ids to which [kill] answers (of workers or not), and those of them that
    are in [nparallel]. *)
Record world := mkWorld { w_dir : gset string; w_alive : gset Z; w_in : gmap nat pstage }.

(** At most [n] names, in some order; none at all is an error, the end of the file. *)
Definition Readdirnames (n : Z) (dir : gset string) : outcome (list string) :=
  match elements dir with [] => Panic | names => Ret (take (Z.to_nat n) names) end.

(** [syscall.Kill(xpid, 0)]: is there such a process? *)
Definition scan_step (alive : gset Z) (ret : Z) (name : string) : Z :=
  match scan_name name with
  | Some xpid => if decide (xpid ∈ alive) then wrap64 (ret + 1) else ret
  | None => ret
  end.
Definition count_alive (dir : gset string) (alive : gset Z) : outcome Z :=
  names ← Readdirnames 1000000 dir; Ret (foldl (scan_step alive) 0 names).

(** Ids of processes are of the kernel's type [pid_t]. *)
Definition pid_max : Z := 2 ^ 31 - 1.

Inductive plabel :=
| PSpawn (pid : nat)      (* a new process gets the id *)
| PDie (pid : nat)        (* a process ends, maybe in [nparallel] *)
| PWrite (pid : nat)
| PScan (pid : nat)
| PRemove (pid : nat)     (* the end of [nparallel] *)
| PFile (name : string)   (* any other file is made *)
| PUnlink (name : string).

Definition pstep (w : world) (l : plabel) : option (outcome world) :=
  match l with
  | PSpawn pid =>
      if decide (Z.of_nat pid ∈ w_alive w \/ pid_max < Z.of_nat pid) then None
      else Some (Ret (mkWorld (w_dir w) ({[Z.of_nat pid]} ∪ w_alive w) (w_in w)))
  | PDie pid =>
      if decide (Z.of_nat pid ∈ w_alive w)
      then Some (Ret (mkWorld (w_dir w) (w_alive w ∖ {[Z.of_nat pid]}) (delete pid (w_in w)))) else None
  | PWrite pid =>
      if decide (Z.of_nat pid ∈ w_alive w /\ Z.of_nat pid <= pid_max /\ w_in w !! pid = None)
      then Some (Ret (mkWorld ({[myfilename pid]} ∪ w_dir w) (w_alive w) (<[pid := PWrote]> (w_in w)))) else None
  | PScan pid =>
      match w_in w !! pid with
      | Some PWrote =>
          Some (ret ← count_alive (w_dir w) (w_alive w);
                Ret (mkWorld (w_dir w) (w_alive w) (<[pid := PScanned ret]> (w_in w))))
      | _ => None
      end
  | PRemove pid =>
      match w_in w !! pid with
      | Some (PScanned ret) =>
          Some (if decide (myfilename pid ∈ w_dir w)
                then Ret (mkWorld (w_dir w ∖ {[myfilename pid]}) (w_alive w) (delete pid (w_in w))) else Panic)
      | _ => None
      end
  | PFile name => if decide (scan_name name = None) then Some (Ret (mkWorld ({[name]} ∪ w_dir w) (w_alive w) (w_in w))) else None
  | PUnlink name => if decide (scan_name name = None) then Some (Ret (mkWorld (w_dir w ∖ {[name]}) (w_alive w) (w_in w))) else None
  end.

Fixpoint prun (w : world) (ls : list plabel) : outcome world :=
  match ls with
  | [] => Ret w
  | l :: ls' => match pstep w l with Some o => w' ← o; prun w' ls' | None => prun w ls' end
  end.

(** The ids given out in a run. *)
Definition spawned (ls : list plabel) : list nat :=
  omap (fun l => match l with PSpawn pid => Some pid | _ => None end) ls.

Lemma scan_name_my pid : Z.of_nat pid <= pid_max -> scan_name (myfilename pid) = Some (Z.of_nat pid).
Proof.
  intros Hb. unfold scan_name, myfilename. rewrite strip_prefix_app. simpl. apply scan_int_pretty.
  unfold pid_max, int_max in *. lia.
Qed.

Lemma myfilename_inj pid pid' : myfilename pid = myfilename pid' -> pid = pid'.
Proof. unfold myfilename. intros H%(inj _)%(inj pretty). lia. Qed.

(** The files that scan are those of processes, and those of the living are of processes
    that are in [nparallel]; ids still to be given out have no file. *)
Record par_inv (fresh : list nat) (w : world) : Prop := {
  pi_name name xpid : name ∈ w_dir w -> scan_name name = Some xpid ->
    exists pid, name = myfilename pid /\ xpid = Z.of_nat pid /\ xpid <= pid_max;
  pi_in pid : is_Some (w_in w !! pid) ->
    myfilename pid ∈ w_dir w /\ Z.of_nat pid ∈ w_alive w /\ Z.of_nat pid <= pid_max;
  pi_dir pid : Z.of_nat pid <= pid_max -> myfilename pid ∈ w_dir w -> Z.of_nat pid ∈ w_alive w -> is_Some (w_in w !! pid);
  pi_fresh pid : pid ∈ fresh -> Z.of_nat pid <= pid_max -> myfilename pid ∉ w_dir w /\ Z.of_nat pid ∉ w_alive w
}.

(** Whose file the code counts. *)
Definition counted (alive : gset Z) (name : string) : bool :=
  match scan_name name with Some xpid => bool_decide (xpid ∈ alive) | None => false end.

Lemma scan_step_counted alive ret name :
  0 <= ret < int_max -> scan_step alive ret name = if counted alive name then ret + 1 else ret.
Proof.
  intros Hr. unfold scan_step, counted. destruct (scan_name name) as [xpid|]; [|done].
  destruct (decide (xpid ∈ alive)); [|by rewrite bool_decide_eq_false_2].
  rewrite bool_decide_eq_true_2 by done. apply wrap64_id. unfold int_min. lia.
Qed.

Lemma scan_fold alive l : forall acc, 0 <= acc -> acc + Z.of_nat (length l) <= int_max ->
  foldl (scan_step alive) acc l = acc + Z.of_nat (length (filter (fun name => counted alive name = true) l)).
Proof.
  induction l as [|name l IH]; intros acc Ha Hb; simpl in *; [lia|].
  rewrite scan_step_counted by lia. rewrite filter_cons.
  destruct (counted alive name); [rewrite decide_True by done|rewrite decide_False by done];
    rewrite IH by lia; simpl; lia.
Qed.

(** The names that count are those of the processes in [nparallel]. *)
Lemma counted_files fresh w : par_inv fresh w ->
  filter (fun name => counted (w_alive w) name = true) (elements (w_dir w)) ≡ₚ
  myfilename <$> (map_to_list (w_in w)).*1.
Proof.
  intros [H1 H2 H3 _]. apply NoDup_Permutation.
  - apply NoDup_filter, NoDup_elements.
  - apply NoDup_fmap_2; [intros a b; apply myfilename_inj|apply NoDup_fst_map_to_list].
  - intros name. rewrite list_elem_of_filter, elem_of_elements, list_elem_of_fmap. unfold counted. split.
    + intros [Hc Hin]. destruct (scan_name name) as [xpid|] eqn:Hn; [|done].
      apply bool_decide_eq_true in Hc. destruct (H1 _ _ Hin Hn) as (pid & -> & -> & Hb). exists pid. split; [done|].
      destruct (H3 pid Hb Hin Hc) as [st Hst]. apply list_elem_of_fmap. exists (pid, st). by rewrite elem_of_map_to_list.
    + intros (pid & -> & ([pid' st] & -> & Hin%elem_of_map_to_list)%list_elem_of_fmap).
      destruct (H2 pid') as (Hd & Ha & Hb); [by eexists|]. simpl. rewrite scan_name_my by done.
      by rewrite bool_decide_eq_true_2.
Qed.

(** A process in [nparallel] sees its own file. *)
Lemma Readdirnames_ret fresh w :
  par_inv fresh w -> w_in w <> ∅ ->
  Readdirnames 1000000 (w_dir w) = Ret (take (Z.to_nat 1000000) (elements (w_dir w))).
Proof.
  intros [_ H2 _ _] (pid & st & Hp)%map_choose. destruct (H2 pid) as [Hd%elem_of_elements _]; [by eexists|].
  unfold Readdirnames. destruct (elements (w_dir w)); [by apply elem_of_nil in Hd|done].
Qed.

Lemma count_alive_spec fresh w :
  par_inv fresh w -> w_in w <> ∅ -> Z.of_nat (size (w_dir w)) <= 1000000 ->
  count_alive (w_dir w) (w_alive w) = Ret (Z.of_nat (size (w_in w))).
Proof.
  intros Hinv Hne Hs. unfold count_alive. rewrite (Readdirnames_ret fresh) by done. step_bind. f_equal.
  assert (He : length (elements (w_dir w)) = size (w_dir w)) by done.
  rewrite take_ge by lia. rewrite scan_fold; [|lia|unfold int_max; lia].
  rewrite (counted_files fresh w Hinv), !length_fmap. by rewrite length_map_to_list.
Qed.

Lemma par_inv_weaken fresh fresh' w : (forall pid, pid ∈ fresh' -> pid ∈ fresh) -> par_inv fresh w -> par_inv fresh' w.
Proof. intros Hf [H1 H2 H3 H4]. split; auto. Qed.

Lemma spawned_tail ls l pid : pid ∈ spawned ls -> pid ∈ spawned (l :: ls).
Proof. intros H. unfold spawned in *. simpl. destruct l; simpl; try done. by right. Qed.

(** *** Each step keeps the invariant *)

(** A directory that differs in names that do not scan. *)
Lemma par_inv_other fresh w dir :
  par_inv fresh w -> (forall name, is_Some (scan_name name) -> (name ∈ dir <-> name ∈ w_dir w)) ->
  par_inv fresh (mkWorld dir (w_alive w) (w_in w)).
Proof.
  intros [H1 H2 H3 H4] Hdir.
  assert (Hmy : forall pid, Z.of_nat pid <= pid_max -> (myfilename pid ∈ dir <-> myfilename pid ∈ w_dir w))
    by (intros pid Hb; apply Hdir; rewrite scan_name_my by done; by eexists).
  split; simpl.
  - intros name xpid Hin Hn. apply H1; [|done]. apply Hdir; [by eexists|done].
  - intros pid Hp. destruct (H2 pid Hp) as (Hd & Ha & Hb). split; [by apply Hmy|done].
  - intros pid Hb Hin. apply H3; [done|]. by apply Hmy.
  - intros pid Hp Hb. destruct (H4 pid Hp Hb). by rewrite (Hmy pid Hb).
Qed.

Lemma par_inv_spawn pid fresh w :
  pid ∉ fresh -> Z.of_nat pid <= pid_max -> par_inv (pid :: fresh) w ->
  par_inv fresh (mkWorld (w_dir w) ({[Z.of_nat pid]} ∪ w_alive w) (w_in w)).
Proof.
  intros Hn Hb [H1 H2 H3 H4]. destruct (H4 pid) as [Hf _]; [by left|done|]. split; simpl; [done|..].
  - intros p Hp. destruct (H2 p Hp) as (? & ? & ?). split; [done|]. split; [apply elem_of_union; by right|done].
  - intros p Hpb Hp [He%elem_of_singleton|Hin]%elem_of_union; [|by apply H3].
    apply Nat2Z.inj in He as ->. done.
  - intros p Hp Hpb. destruct (H4 p) as [Hp1 Hp2]; [by right|done|]. split; [done|].
    intros [He%elem_of_singleton|Hin]%elem_of_union; [|done]. apply Nat2Z.inj in He as ->. done.
Qed.

Lemma par_inv_die pid fresh w :
  par_inv fresh w -> par_inv fresh (mkWorld (w_dir w) (w_alive w ∖ {[Z.of_nat pid]}) (delete pid (w_in w))).
Proof.
  intros [H1 H2 H3 H4]. split; simpl; [done|..].
  - intros p [st [Hne Hp]%lookup_delete_Some]. destruct (H2 p) as (Hd & Ha & Hb); [by eexists|].
    split; [done|]. split; [|done]. apply elem_of_difference. split; [done|]. intros He%elem_of_singleton. lia.
  - intros p Hb Hp [Hin Hne]%elem_of_difference. rewrite lookup_delete_ne; [by apply H3|].
    intros ->. by apply Hne, elem_of_singleton.
  - intros p Hp Hb. destruct (H4 p Hp Hb). split; [done|]. set_solver.
Qed.

Lemma par_inv_write pid fresh w :
  Z.of_nat pid ∈ w_alive w -> Z.of_nat pid <= pid_max -> par_inv fresh w ->
  par_inv fresh (mkWorld ({[myfilename pid]} ∪ w_dir w) (w_alive w) (<[pid := PWrote]> (w_in w))).
Proof.
  intros Ha Hb [H1 H2 H3 H4]. split; simpl.
  - intros name xpid [->%elem_of_singleton|Hin]%elem_of_union Hx; [|by apply H1].
    rewrite scan_name_my in Hx by done. injection Hx as <-. by exists pid.
  - intros p [st [[<- _]|[Hne Hp]]%lookup_insert_Some]; [split; [set_solver|done]|].
    destruct (H2 p) as [Hd Hr]; [by eexists|]. split; [set_solver|done].
  - intros p Hpb Hin Hal. destruct (decide (pid = p)) as [<-|Hne]; [rewrite lookup_insert_eq; by eexists|].
    rewrite lookup_insert_ne by done. apply H3; [done| |done].
    apply elem_of_union in Hin as [He%elem_of_singleton|Hin]; [|done]. by apply myfilename_inj in He.
  - intros p Hp Hpb. destruct (H4 p Hp Hpb) as [W5 W6]. split; [|done].
    intros [He%elem_of_singleton|Hin]%elem_of_union; [|done]. apply myfilename_inj in He as ->. done.
Qed.

Lemma par_inv_stage pid st fresh w :
  is_Some (w_in w !! pid) -> par_inv fresh w ->
  par_inv fresh (mkWorld (w_dir w) (w_alive w) (<[pid := st]> (w_in w))).
Proof.
  intros Hs [H1 H2 H3 H4]. split; simpl; [done|..|done].
  - intros p [st' [[<- _]|[Hne Hp]]%lookup_insert_Some]; [by apply H2|]. apply H2. by eexists.
  - intros p Hb Hin Hal. destruct (decide (pid = p)) as [<-|Hne]; [rewrite lookup_insert_eq; by eexists|].
    rewrite lookup_insert_ne by done. by apply H3.
Qed.

Lemma par_inv_remove pid fresh w :
  par_inv fresh w -> par_inv fresh (mkWorld (w_dir w ∖ {[myfilename pid]}) (w_alive w) (delete pid (w_in w))).
Proof.
  intros [H1 H2 H3 H4]. split; simpl.
  - intros name xpid [Hin _]%elem_of_difference. by apply H1.
  - intros p [st [Hne Hp]%lookup_delete_Some]. destruct (H2 p) as (Hd & Ha & Hb); [by eexists|].
    split; [|done]. apply elem_of_difference. split; [done|]. intros He%elem_of_singleton%myfilename_inj. done.
  - intros p Hb [Hin Hne]%elem_of_difference Hal. rewrite lookup_delete_ne; [by apply H3|].
    intros ->. by apply Hne, elem_of_singleton.
  - intros p Hpf Hb. destruct (H4 p Hpf Hb). split; [set_solver|done].
Qed.

Lemma par_inv_step ls l w o :
  NoDup (spawned (l :: ls)) -> par_inv (spawned (l :: ls)) w -> pstep w l = Some o ->
  exists w', o = Ret w' /\ par_inv (spawned ls) w'.
Proof.
  intros Hnd Hinv Hs.
  assert (Hw : par_inv (spawned ls) w) by (eapply par_inv_weaken; [apply spawned_tail|exact Hinv]).
  destruct l as [pid|pid|pid|pid|pid|name|name]; simpl in Hs.
  - case_decide as Ha; [done|]. injection Hs as <-. eexists. split; [done|].
    apply NoDup_cons in Hnd as [Hn _]. apply par_inv_spawn; [done| |done].
    destruct (Z.le_gt_cases (Z.of_nat pid) pid_max); [done|]. exfalso. apply Ha. by right.
  - case_decide; [|done]. injection Hs as <-. eexists. split; [done|]. by apply par_inv_die.
  - case_decide as Ha; [|done]. destruct Ha as (Ha & Hb & Hn). injection Hs as <-. eexists. split; [done|].
    by apply par_inv_write.
  - destruct (w_in w !! pid) as [[|ret]|] eqn:Hp; try done. injection Hs as <-.
    unfold count_alive. rewrite (Readdirnames_ret _ w Hw) by (intros He; by rewrite He, lookup_empty in Hp).
    step_bind. eexists. split; [done|]. apply par_inv_stage; [by eexists|done].
  - destruct (w_in w !! pid) as [[|ret]|] eqn:Hp; try done. injection Hs as <-.
    destruct (pi_in _ _ Hw pid) as [Hf _]; [by eexists|]. rewrite decide_True by done. eexists. split; [done|].
    by apply par_inv_remove.
  - case_decide as Hn; [|done]. injection Hs as <-. eexists. split; [done|]. apply par_inv_other; [done|].
    intros nm [x Hx]. rewrite elem_of_union, elem_of_singleton. split; [|by right]. intros [->|?]; [congruence|done].
  - case_decide as Hn; [|done]. injection Hs as <-. eexists. split; [done|]. apply par_inv_other; [done|].
    intros nm [x Hx]. rewrite elem_of_difference, elem_of_singleton. split; [by intros []|]. intros ?. split; [done|].
    intros ->. congruence.
Qed.

Lemma par_inv_run ls : forall w, NoDup (spawned ls) -> par_inv (spawned ls) w ->
  exists w', prun w ls = Ret w' /\ par_inv [] w'.
Proof.
  induction ls as [|l ls IH]; intros w Hnd Hinv; [by exists w|]. simpl.
  assert (Hnd' : NoDup (spawned ls)).
  { unfold spawned in *. simpl in Hnd. destruct l; try done. by apply NoDup_cons in Hnd as [_ Hnd]. }
  destruct (pstep w l) as [o|] eqn:E.
  - destruct (par_inv_step ls l w o Hnd Hinv E) as (w1 & -> & H1). step_bind. by apply IH.
  - apply IH; [done|]. eapply par_inv_weaken; [|exact Hinv]. intros pid Hp. unfold spawned in *.
    destruct l; simpl; try done. by right.
Qed.
End Parallel.

(** [nparallel] counts.  Start with a directory without worker files and any processes,
    none in [nparallel]; processes come, run [nparallel] again and again, and end at any
    moment, other files come and go; no process id is given out twice.  Then no call of
    [nparallel] panics, and whenever a worker reads the directory (of at most a million
    files) it counts exactly the processes that are between writing and removing their
    file, itself included: files left by workers that ended are not counted. *)
Theorem nparallel_counts phase dir alive ls :
  (forall name, name ∈ dir -> scan_name phase name = None) ->
  NoDup (spawned ls) -> (forall pid, pid ∈ spawned ls -> Z.of_nat pid ∉ alive) ->
  exists w, prun phase (mkWorld dir alive ∅) ls = Ret w /\
    forall pid, w_in w !! pid = Some PWrote -> Z.of_nat (size (w_dir w)) <= 1000000 ->
      pstep phase w (PScan pid) =
        Some (Ret (mkWorld (w_dir w) (w_alive w) (<[pid := PScanned (Z.of_nat (size (w_in w)))]> (w_in w)))).
Proof.
  intros Hdir Hnd Hfresh. destruct (par_inv_run phase ls (mkWorld dir alive ∅) Hnd) as (w & Hr & Hinv).
  - split; simpl.
    + intros name xpid Hin Hs. rewrite Hdir in Hs by done. discriminate Hs.
    + intros pid [st Hp]. by rewrite lookup_empty in Hp.
    + intros pid Hb Hin _. apply Hdir in Hin. by rewrite scan_name_my in Hin.
    + intros pid Hp Hb. split; [|by apply Hfresh]. intros Hin%Hdir. by rewrite scan_name_my in Hin.
  - exists w. split; [done|]. intros pid Hp Hs. simpl. rewrite Hp.
    rewrite (count_alive_spec phase [] w Hinv) by (done || intros He; by rewrite He, lookup_empty in Hp). done.
Qed.

(** Three workers; one ends in the middle and leaves its file. *)
Module ParDemo.
Definition ls : list plabel :=
  [PSpawn 7; PSpawn 12; PSpawn 30; PWrite 7; PWrite 12; PDie 12; PFile "mr-0-0"; PWrite 30; PScan 7].
End ParDemo.

Lemma nparallel_counts_witness :
  exists w, prun "map" (mkWorld ∅ {[1]} ∅) ParDemo.ls = Ret w /\ w_in w !! 7%nat = Some (PScanned 2) /\
    size (w_dir w) = 4%nat /\
    pstep "map" w (PScan 30) =
      Some (Ret (mkWorld (w_dir w) (w_alive w) (<[30%nat := PScanned 2]> (w_in w)))).
Proof.
  destruct (nparallel_counts "map" ∅ {[1]} ParDemo.ls) as (w & Hr & Hc).
  - intros name Hin. by apply not_elem_of_empty in Hin.
  - apply (bool_decide_unpack _). vm_compute. exact I.
  - intros pid Hp. apply (bool_decide_unpack _).
    repeat (apply elem_of_cons in Hp as [->|Hp]; [vm_compute; exact I|]). by apply elem_of_nil in Hp.
  - assert (Hw : match prun "map" (mkWorld ∅ {[1]} ∅) ParDemo.ls with
      | Ret w => w_in w !! 7%nat = Some (PScanned 2) /\ w_in w !! 30%nat = Some PWrote /\
                 size (w_dir w) = 4%nat /\ size (w_in w) = 2%nat
      | _ => False end) by (vm_compute; repeat split; reflexivity).
    rewrite Hr in Hw. destruct Hw as (H7 & H30 & Hd & Hs). exists w. split; [exact Hr|]. split; [exact H7|].
    split; [exact Hd|]. rewrite (Hc 30%nat H30) by (rewrite Hd; lia). rewrite Hs. reflexivity.
Defined.

Lemma HasPrefix_longer p q s : HasPrefix s (p +:+ q) = true -> HasPrefix s p = true.
Proof.
  unfold HasPrefix. destruct (strip_prefix (p +:+ q) s) as [t|] eqn:E; [|done]. intros _.
  apply strip_prefix_inv in E as ->. by rewrite <- string_app_assoc, strip_prefix_app.
Qed.

(** ** [mrapps/jobcount.go] *)

Module JobCount.
Definition prefix : string := "mr-worker-jobcount".
Definition file_of (me : nat) (count : Z) : string :=
  prefix +:+ "-" +:+ Itoa (Z.of_nat me) +:+ "-" +:+ Itoa count.

(** The directory, and [count] of each process that runs the application; [runs] is not
    in the program: how often [Map] has run. *)
Record world := mkWorld { dir : gset string; counts : gmap nat Z; runs : nat }.

Definition Map (me : nat) (filename contents : string) (w : world) : option (world * list KeyValue) :=
  count ← counts w !! me;
  Some (mkWorld ({[file_of me count]} ∪ dir w) (<[me := wrap64 (count + 1)]> (counts w)) (S (runs w)),
        [mkKeyValue "a" "x"]).

(** [ioutil.ReadDir] sorts the names. *)
Definition Reduce (key : string) (values : list string) (w : world) : string :=
  let files := sort_Strings (elements (dir w)) in
  let invocations :=
    foldl (fun invocations f => if HasPrefix f prefix then wrap64 (invocations + 1) else invocations) 0 files in
  Itoa invocations.

Inductive label :=
| Spawn (pid : nat)
| Die (pid : nat)
| DoMap (pid : nat) (filename contents : string)
| File (name : string)      (* any other file *)
| Unlink (name : string).

Definition step (w : world) (l : label) : world :=
  match l with
  | Spawn pid => mkWorld (dir w) (<[pid := 0]> (counts w)) (runs w)
  | Die pid => mkWorld (dir w) (delete pid (counts w)) (runs w)
  | DoMap pid filename contents => match Map pid filename contents w with Some (w', _) => w' | None => w end
  | File name => if HasPrefix name prefix then w else mkWorld ({[name]} ∪ dir w) (counts w) (runs w)
  | Unlink name => if HasPrefix name prefix then w else mkWorld (dir w ∖ {[name]}) (counts w) (runs w)
  end.
Definition run (w : world) (ls : list label) : world := foldl step w ls.

Definition spawns (ls : list label) : list nat :=
  omap (fun l => match l with Spawn pid => Some pid | _ => None end) ls.

Lemma file_of_prefix me count : HasPrefix (file_of me count) prefix = true.
Proof. apply HasPrefix_app. Qed.

Lemma file_of_inj me me' c c' :
  file_of me (Z.of_nat c) = file_of me' (Z.of_nat c') -> me = me' /\ c = c'.
Proof.
  unfold file_of. intros H%(inj _)%(inj _). apply dash_split in H as [Hm Hc]; [|apply Itoa_no_dash..].
  split; by apply Itoa_inj.
Qed.

(** One file for each run: [done] holds the process and the count of every run. *)
Record jc_inv (fresh : list nat) (budget : nat) (done : list (nat * nat)) (w : world) : Prop := {
  ji_nodup : NoDup done;
  ji_runs : runs w = length done;
  ji_dir name : HasPrefix name prefix = true ->
    (name ∈ dir w <-> exists me c, (me, c) ∈ done /\ name = file_of me (Z.of_nat c));
  ji_count me z : counts w !! me = Some z -> exists c, z = Z.of_nat c /\ forall k, (me, k) ∈ done -> (k < c)%nat;
  ji_bound me z : counts w !! me = Some z -> z + Z.of_nat budget <= int_max;
  ji_fresh me : me ∈ fresh -> counts w !! me = None /\ forall k, (me, k) ∉ done
}.

(** A run of [Map] in process [pid], its [c]th. *)
Lemma jc_inv_map fresh budget done w pid c :
  jc_inv fresh (S budget) done w -> counts w !! pid = Some (Z.of_nat c) ->
  Z.of_nat budget < int_max ->
  jc_inv fresh budget ((pid, c) :: done)
    (mkWorld ({[file_of pid (Z.of_nat c)]} ∪ dir w) (<[pid := wrap64 (Z.of_nat c + 1)]> (counts w)) (S (runs w))).
Proof.
  intros [J1 J2 J3 J4 J5 J6] Hz Hbud. pose proof (J5 pid _ Hz) as Hb. rewrite wrap64_id by (unfold int_min; lia).
  assert (Hc : forall k, (pid, k) ∈ done -> (k < c)%nat).
  { destruct (J4 pid _ Hz) as (c' & Hc' & H). apply Nat2Z.inj in Hc' as <-. done. }
  split; simpl.
  - apply NoDup_cons. split; [|done]. intros Hin%Hc. lia.
  - by rewrite J2.
  - intros name Hp. rewrite elem_of_union, elem_of_singleton, (J3 name Hp). split.
    + intros [->|(me & k & Hin & ->)]; [exists pid, c|exists me, k]; (split; [|done]); [by left|by right].
    + intros (me & k & [[= -> ->]|Hin]%elem_of_cons & ->); [by left|right; eauto].
  - intros me z' [[<- <-]|[Hne Hz']]%lookup_insert_Some.
    + exists (S c). split; [lia|]. intros k [[= ->]|Hin%Hc]%elem_of_cons; lia.
    + destruct (J4 me z' Hz') as (c' & -> & Hc'). exists c'. split; [done|].
      intros k [[= -> ->]|Hin]%elem_of_cons; [done|by apply Hc'].
  - intros me z' [[<- <-]|[Hne Hz']]%lookup_insert_Some; [lia|]. pose proof (J5 me z' Hz'). lia.
  - intros me Hme. destruct (J6 me Hme) as [Hn Hk]. assert (pid <> me) by congruence.
    rewrite lookup_insert_ne by done. split; [done|]. intros k [[= -> ->]|Hin]%elem_of_cons; [done|by apply Hk in Hin].
Qed.

Lemma jc_inv_step l ls done w :
  Z.of_nat (S (length ls)) <= int_max -> NoDup (spawns (l :: ls)) ->
  jc_inv (spawns (l :: ls)) (S (length ls)) done w ->
  exists done', jc_inv (spawns ls) (length ls) done' (step w l).
Proof.
  intros Hlen Hnd [J1 J2 J3 J4 J5 J6].
  assert (Hother : forall name d, HasPrefix name prefix = false ->
    (forall nm, nm <> name -> (nm ∈ d <-> nm ∈ dir w)) -> spawns (l :: ls) = spawns ls ->
    jc_inv (spawns ls) (length ls) done (mkWorld d (counts w) (runs w))).
  { intros name d Hn Hd Hsp. rewrite Hsp in *. split; simpl; try done.
    - intros nm Hp. rewrite Hd by (intros ->; congruence). by apply J3.
    - intros me z Hz. pose proof (J5 me z Hz). lia. }
  assert (Hsame : spawns (l :: ls) = spawns ls -> jc_inv (spawns ls) (length ls) done w).
  { intros Hsp. rewrite Hsp in *. split; try done. intros me z Hz. pose proof (J5 me z Hz). lia. }
  destruct l as [pid|pid|pid fn ct|name|name]; simpl.
  - exists done. apply NoDup_cons in Hnd as [Hn _]. split; simpl; try done.
    + intros me z [[<- <-]|[_ Hz]]%lookup_insert_Some; [|by apply J4].
      exists 0%nat. split; [done|]. intros k Hk. destruct (J6 pid) as [_ Hf]; [by left|]. by apply Hf in Hk.
    + intros me z [[<- <-]|[_ Hz]]%lookup_insert_Some; [lia|]. pose proof (J5 me z Hz). lia.
    + intros me Hme. rewrite lookup_insert_ne by (intros ->; done). apply J6. by right.
  - exists done. split; simpl; try done.
    + intros me z [_ Hz]%lookup_delete_Some. by apply J4.
    + intros me z [_ Hz]%lookup_delete_Some. pose proof (J5 me z Hz). lia.
    + intros me Hme. destruct (J6 me Hme). split; [|done]. apply lookup_delete_None. by right.
  - unfold Map. destruct (counts w !! pid) as [z|] eqn:Hz; simpl; [|by exists done; apply Hsame].
    destruct (J4 pid z Hz) as (c & -> & Hc). exists ((pid, c) :: done).
    apply (jc_inv_map _ (length ls) done w pid c); [by split|done|lia].
  - destruct (HasPrefix name prefix) eqn:Hp; exists done; [by apply Hsame|]. apply (Hother name); [done| |done].
    intros nm Hne. rewrite elem_of_union, elem_of_singleton. tauto.
  - destruct (HasPrefix name prefix) eqn:Hp; exists done; [by apply Hsame|]. apply (Hother name); [done| |done].
    intros nm Hne. rewrite elem_of_difference, elem_of_singleton. tauto.
Qed.

Lemma jc_inv_run ls : forall done w,
  Z.of_nat (length ls) <= int_max -> NoDup (spawns ls) -> jc_inv (spawns ls) (length ls) done w ->
  exists done', jc_inv [] 0 done' (run w ls).
Proof.
  induction ls as [|l ls IH]; intros done w Hl Hnd Hinv; [by exists done|]. simpl.
  destruct (jc_inv_step l ls done w Hl Hnd Hinv) as [done' H']. apply (IH done'); [simpl in Hl; lia| |done].
  unfold spawns in *. simpl in Hnd. destruct l; try done. by apply NoDup_cons in Hnd as [_ Hnd].
Qed.

Lemma count_fold l : forall acc, 0 <= acc -> acc + Z.of_nat (length l) <= int_max ->
  foldl (fun invocations f => if HasPrefix f prefix then wrap64 (invocations + 1) else invocations) acc l =
  acc + Z.of_nat (length (filter (fun f => HasPrefix f prefix = true) l)).
Proof.
  induction l as [|f l IH]; intros acc Ha Hb; simpl in *; [lia|]. rewrite filter_cons.
  destruct (HasPrefix f prefix).
  - rewrite decide_True by done. rewrite wrap64_id by (unfold int_min; lia). rewrite IH by lia. simpl. lia.
  - rewrite decide_False by done. rewrite IH by lia. lia.
Qed.

Lemma Reduce_spec fresh budget done key values w :
  jc_inv fresh budget done w -> Z.of_nat (size (dir w)) <= int_max ->
  Reduce key values w = Itoa (Z.of_nat (runs w)).
Proof.
  intros [J1 J2 J3 _ _ _] Hs. unfold Reduce. f_equal.
  assert (Hp : sort_Strings (elements (dir w)) ≡ₚ elements (dir w)) by apply merge_sort_Permutation.
  rewrite count_fold; [|lia|rewrite Hp; change (length (elements (dir w))) with (size (dir w)); lia].
  rewrite Hp, J2. rewrite Z.add_0_l. f_equal.
  transitivity (length ((fun r => file_of r.1 (Z.of_nat r.2)) <$> done)); [|by rewrite length_fmap].
  apply Permutation_length, NoDup_Permutation.
  - apply NoDup_filter, NoDup_elements.
  - apply NoDup_fmap_2; [|done]. intros [a b] [a' b'] He. simpl in He. by apply file_of_inj in He as [-> ->].
  - intros name. rewrite list_elem_of_filter, elem_of_elements, list_elem_of_fmap. split.
    + intros [Hpre Hin]. apply J3 in Hin as (me & c & Hin & ->); [|done]. by exists (me, c).
    + intros ([me c] & -> & Hin). split; [apply file_of_prefix|]. apply J3; [apply file_of_prefix|eauto].
Qed.

Lemma jc_inv_start (s : fs) ls :
  Z.of_nat (length ls) <= int_max ->
  jc_inv (spawns ls) (length ls) [] (mkWorld (dom (cleanupOldFiles s)) ∅ 0).
Proof.
  intros Hl. split; simpl.
  - apply NoDup_nil_2.
  - done.
  - intros name Hp. split; [|by intros (me & c & Hin%elem_of_nil & _)].
    intros Hin. exfalso. apply elem_of_dom in Hin as [v Hv].
    rewrite cleanupOldFiles_old in Hv; [done|]. by apply (HasPrefix_longer "mr-" "worker-jobcount").
  - intros me z Hz. by rewrite lookup_empty in Hz.
  - intros me z Hz. by rewrite lookup_empty in Hz.
  - intros me _. split; [apply lookup_empty|]. intros k. apply not_elem_of_nil.
Qed.
End JobCount.

(** [jobcount.go] counts the runs of map tasks.  The coordinator empties the directory
    of any files; then processes start, run [Map] any number of times and end, files of
    other names come and go, and no process id is given out twice.  A [Reduce] after that
    answers the number of times [Map] has run, in whatever process and whether that process
    has ended or not. *)
Theorem jobcount_counts (s : fs) ls key values :
  Z.of_nat (length ls) <= int_max -> NoDup (JobCount.spawns ls) ->
  let w := JobCount.run (JobCount.mkWorld (dom (cleanupOldFiles s)) ∅ 0) ls in
  Z.of_nat (size (JobCount.dir w)) <= int_max ->
  JobCount.Reduce key values w = Itoa (Z.of_nat (JobCount.runs w)).
Proof.
  intros Hl Hnd w Hs. destruct (JobCount.jc_inv_run ls [] _ Hl Hnd (JobCount.jc_inv_start s ls Hl)) as [done Hinv].
  by eapply JobCount.Reduce_spec.
Qed.

Module JobDemo.
Definition old : fs := {["mr-worker-jobcount-5-0" := "x"; "pg-grimm.txt" := "text"]}.
Definition ls : list JobCount.label :=
  [JobCount.Spawn 5; JobCount.Spawn 8; JobCount.DoMap 5 "pg-grimm.txt" "text"; JobCount.File "mr-0-0";
   JobCount.DoMap 5 "pg-grimm.txt" "text"; JobCount.DoMap 8 "pg-grimm.txt" "text"; JobCount.Die 5].
End JobDemo.

Lemma jobcount_counts_witness :
  let w := JobCount.run (JobCount.mkWorld (dom (cleanupOldFiles JobDemo.old)) ∅ 0) JobDemo.ls in
  JobCount.runs w = 3%nat /\ JobCount.Reduce "a" ["x"; "x"] w = "3".
Proof.
  split; [reflexivity|]. rewrite (jobcount_counts JobDemo.old JobDemo.ls "a" ["x"; "x"]).
  - reflexivity.
  - apply (bool_decide_unpack _). vm_compute. exact I.
  - apply (bool_decide_unpack _). vm_compute. exact I.
  - apply (bool_decide_unpack _). vm_compute. exact I.
Defined.
