(* ===== verification/Commands.v ===== *)
(** The commands of [main/]: how a process reads its arguments and what it starts.
    [mrworker.go] and [mrsequential.go] load an application from a plugin; together with
    [mrcoordinator.go] they run the whole of MapReduce.  [diskvd.go], [lockc.go],
    [lockd.go], [pbd.go] and [viewd.go] start servers of packages that the repository
    does not hold: these are parameters. *)
From S2P Require Import Prelude.
From S2P Require Import Names.
From S2P Require Import Json.
From S2P Require Import Runes.
From stdpp Require Import pretty.
From S2P Require Import MrCoord.
From S2P Require Import MrWorker.
From S2P Require Import MrJob.
From S2P Require Import MrApps.
From S2P Require Import MrParallel.
Open Scope Z_scope.

(** ** Processes *)

(** How [main] goes on: [os.Exit] and [log.Fatalf] (which exits with 1) end it with a
    message, a panic ends it too, a process may be killed after some nanoseconds, or it
    runs, with the result [x]. *)
Inductive proc (A : Type) : Type :=
| Exit (code : Z) (message : string)
| Crash
| Killed (after : Z)
| Runs (x : A).
Arguments Exit {A} code message.
Arguments Crash {A}.
Arguments Killed {A} after.
Arguments Runs {A} x.

#[export] Instance proc_ret : MRet proc := fun A x => Runs x.
#[export] Instance proc_bind : MBind proc :=
  fun A B f p => match p with Runs x => f x | Exit c m => Exit c m | Crash => Crash | Killed t => Killed t end.

Definition Fatalf {A} (message : string) : proc A := Exit 1 message.

(** ** [strconv] *)

(** The loop of [ParseUint] in base 10, from the value [n] on: a character that is no digit
    is a syntax error, a value out of 64 bits a range error, whichever comes first. *)
Inductive num (A : Type) : Type := Num (x : A) | ErrSyntax | ErrRange (x : A).
Arguments Num {A} x.
Arguments ErrSyntax {A}.
Arguments ErrRange {A} x.

Fixpoint ParseUint_go (s : string) (n : N) : num N :=
  match s with
  | EmptyString => Num n
  | String c s' =>
      match digit_value c with
      | None => ErrSyntax
      | Some d => if (n * 10 + d <? 2 ^ 64)%N then ParseUint_go s' (n * 10 + d) else ErrRange (2 ^ 64 - 1)%N
      end
  end.
Definition ParseUint (s : string) : num N :=
  match s with EmptyString => ErrSyntax | _ => ParseUint_go s 0 end.

(** [ParseInt(s, 10, 64)]: the sign, then [ParseUint]; out of range, the nearest value. *)
Definition of_uint (neg : bool) (u : num N) : num Z :=
  match u with
  | ErrSyntax => ErrSyntax
  | Num n | ErrRange n =>
      let un := Z.of_N n in
      if negb neg && (2 ^ 63 <=? un) then ErrRange int_max
      else if neg && (2 ^ 63 <? un) then ErrRange int_min
      else Num (if neg then - un else un)
  end.
Definition ParseInt (s : string) : num Z :=
  match s with
  | String c s' =>
      if bool_decide (c = "-"%char) then of_uint true (ParseUint s')
      else if bool_decide (c = "+"%char) then of_uint false (ParseUint s')
      else of_uint false (ParseUint s)
  | EmptyString => ErrSyntax
  end.

(** The first result, for a caller that drops the error.  [Atoi] has a shorter path for
    short strings, with the same results. *)
Definition num_val (n : num Z) : Z := match n with Num x | ErrRange x => x | ErrSyntax => 0 end.
Definition Atoi (s : string) : num Z := ParseInt s.

Definition ParseBool (s : string) : option bool :=
  if bool_decide (s ∈ ["1"; "t"; "T"; "TRUE"; "true"; "True"]) then Some true
  else if bool_decide (s ∈ ["0"; "f"; "F"; "FALSE"; "false"; "False"]) then Some false
  else None.

Lemma ParseUint_go_go x : forall s, (x < 2 ^ 64)%N -> ParseUint_go (pretty_N_go x s) 0 = ParseUint_go s x.
Proof.
  induction (N.lt_wf_0 x) as [x _ IH]. intros s Hb.
  destruct (decide (x = 0)%N) as [->|Hx]; [by rewrite pretty_N_go_0|].
  pose proof (N.div_mod x 10 ltac:(done)) as Hd. pose proof (N.mod_lt x 10 ltac:(done)) as Hm.
  assert (x / 10 < x)%N by (apply N.div_lt; lia).
  rewrite pretty_N_go_step by lia. rewrite IH by lia.
  cbn [ParseUint_go]. rewrite digit_value_char by done.
  replace (x `div` 10 * 10 + x `mod` 10)%N with x by lia. by rewrite (proj2 (N.ltb_lt _ _)).
Qed.

Lemma ParseUint_pretty (n : N) : (n < 2 ^ 64)%N -> ParseUint (pretty n) = Num n.
Proof.
  intros Hb. assert (ParseUint (pretty n) = ParseUint_go (pretty n) 0) as ->.
  { destruct (pretty_N_head n) as (d & t & -> & _). done. }
  unfold pretty, pretty_N. case_decide as Hn; [by subst|]. by rewrite ParseUint_go_go.
Qed.

(** A number is read as it was printed. *)
Lemma ParseInt_Itoa z : int_min <= z <= int_max -> ParseInt (Itoa z) = Num z.
Proof.
  unfold int_min, int_max, Itoa. intros Hz. destruct (decide (0 <= z)) as [Hp|Hp].
  - rewrite pretty_Z_N by done. pose proof (ParseUint_pretty (Z.to_N z) ltac:(lia)) as E.
    destruct (pretty_N_head (Z.to_N z)) as (d & t & Ht & Hd). rewrite Ht in *.
    unfold ParseInt. rewrite !bool_decide_eq_false_2 by (apply digit_not; done). rewrite E. simpl.
    rewrite Z2N.id by done. by rewrite (proj2 (Z.leb_gt _ _)) by lia.
  - rewrite pretty_Z_neg by lia. cbn [ParseInt String.append].
    rewrite bool_decide_eq_true_2, ParseUint_pretty by (done || lia). simpl.
    rewrite Z2N.id by lia. rewrite (proj2 (Z.ltb_ge _ _)) by lia. f_equal. lia.
Qed.

Lemma ParseInt_range s : int_min <= num_val (ParseInt s) <= int_max.
Proof.
  assert (H : forall neg u, int_min <= num_val (of_uint neg u) <= int_max).
  { assert (Hn : forall neg n, int_min <= num_val (of_uint neg (Num n)) <= int_max).
    { intros neg n. unfold of_uint, int_min, int_max.
      destruct neg; simpl; case_match; simpl; lia. }
    intros neg [n| |n]; [apply Hn|unfold int_min, int_max; simpl; lia|apply (Hn neg n)]. }
  unfold ParseInt. destruct s; [unfold int_min, int_max; simpl; lia|]. repeat case_match; apply H.
Qed.

(** ** MapReduce *)

(** The functions of an application. *)
Definition MapF : Type := string -> string -> list KeyValue.
Definition ReduceF : Type := string -> list string -> string.

(** What [plugin.Lookup] finds under a name, by its dynamic type. *)
Inductive symbol := SymMap (f : MapF) | SymReduce (f : ReduceF) | SymOther.
Definition plugin : Type := string -> option symbol.

Section Plugins.
(** [plugin.Open]: the text of the error, or the symbols of the file. *)
Variable Open : string -> string + plugin.

(** [p.Lookup(name)], fatal with the given text. *)
Definition Lookup (p : plugin) (name message : string) : proc symbol :=
  match p name with Some x => Runs x | None => Fatalf message end.

(** The type assertions. *)
Definition as_map (x : symbol) : proc MapF := match x with SymMap f => Runs f | _ => Crash end.
Definition as_reduce (x : symbol) : proc ReduceF := match x with SymReduce f => Runs f | _ => Crash end.

(** What both [loadPlugin]s do once the file is open. *)
Definition lookups (p : plugin) (filename : string) : proc (MapF * ReduceF) :=
  xmapf ← Lookup p "Map" ("cannot find Map in " +:+ filename);
  mapf ← as_map xmapf;
  xreducef ← Lookup p "Reduce" ("cannot find Reduce in " +:+ filename);
  reducef ← as_reduce xreducef;
  Runs (mapf, reducef).

(** [main/mrworker.go]: the application that the process then runs [mr.Worker] with. *)
Definition mrworker_loadPlugin (filename : string) : proc (MapF * ReduceF) :=
  match Open filename with
  | inl _ => Fatalf ("cannot load plugin " +:+ filename)
  | inr p => lookups p filename
  end.
Definition mrworker_main (args : list string) : proc (MapF * ReduceF) :=
  match args with
  | [_; filename] => mrworker_loadPlugin filename
  | _ => Exit 1 ("Usage: mrworker xxx.so" +:+ newline)
  end.

(** [main/mrsequential.go]: the error of [Open] is the text of the first [Fatalf]; the
    second is never reached. *)
Definition mrsequential_loadPlugin (filename : string) : proc (MapF * ReduceF) :=
  match Open filename with
  | inl err => Fatalf ("Plugin load error: " +:+ err)
  | inr p => lookups p filename
  end.

(** A file that cannot be opened ends the process. *)
Definition cannot_open (s : fs) (files : list string) : option string :=
  list_find (fun f => s !! f = None) files ≫= fun x => Some x.2.

Definition mrsequential_main (sort_ByKey : list KeyValue -> list KeyValue) (args : list string) (s : fs) : proc fs :=
  match args with
  | _ :: filename :: ((_ :: _) as files) =>
      '(mapf, reducef) ← mrsequential_loadPlugin filename;
      match mrsequential mapf reducef sort_ByKey files s with
      | Ret s' => Runs s'
      | Panic => Fatalf ("cannot open " +:+ default "" (cannot_open s files))
      | Blocked => Crash
      end
  | _ => Exit 1 ("Usage: mrsequential xxx.so inputfiles..." +:+ newline)
  end.

(** Both programs load the same application. *)
Lemma loadPlugin_same filename app :
  mrworker_loadPlugin filename = Runs app <-> mrsequential_loadPlugin filename = Runs app.
Proof. unfold mrworker_loadPlugin, mrsequential_loadPlugin. by destruct (Open filename). Qed.

End Plugins.

(** [mrsequential] reads nothing but its input files. *)
Lemma seq_map_agree mapf files (s s' : fs) :
  (forall f, f ∈ files -> s !! f = s' !! f) -> seq_map mapf files s = seq_map mapf files s'.
Proof.
  induction files as [|f files IH]; intros H; [done|]. simpl. rewrite H, IH by set_solver. done.
Qed.

Lemma seq_map_fails mapf files (s : fs) :
  seq_map mapf files s = Panic <-> exists f, cannot_open s files = Some f.
Proof.
  unfold cannot_open. induction files as [|f files IH]; [by split; [|intros []]|]. simpl.
  destruct (s !! f) as [c|] eqn:E.
  - rewrite decide_False by done. assert (Hb : forall (m : outcome (list KeyValue)) g, m ≫= (fun r => Ret (g r)) = Panic <-> m = Panic)
      by (by intros []). rewrite (Hb _ (fun rest => mapf f c ++ rest)), IH.
    by destruct (list_find _ files) as [[]|].
  - rewrite decide_True by done. simpl. split; [by eexists|done].
Qed.

Lemma input_not_iname f i r : HasPrefix f "mr-" = false -> f <> iname i r.
Proof. intros H ->. unfold iname in H. by rewrite HasPrefix_app in H. Qed.
Lemma input_not_oname f r : HasPrefix f "mr-" = false -> f <> oname r.
Proof. intros H ->. unfold oname in H. by rewrite (HasPrefix_longer "mr-" "out-" _ (HasPrefix_app _ _)) in H. Qed.

(** C7: the three programs together.  [mrworker] and [mrsequential] are started with the same
    plugin, [mrcoordinator] and [mrsequential] with the same input files, none of which has
    a name that the coordinator deletes.  The plugin's [Map] emits valid UTF-8 for them
    (anything else is changed by [encoding/json]), and its [Reduce] does not depend on the
    order of the values.  The workers then run against the coordinator with
    the interleavings and failures of [job_done_output]; when the coordinator's loop ends,
    the ten files [mr-out-0] to [mr-out-9] hold, up to their order, the lines that
    [mrsequential] leaves in its [mr-out-0]. *)
Theorem commands_agree Open sort_ByKey enc dec worker_prog seq_prog so files (s0 : fs) mapf reducef o ls j :
  mrworker_main Open [worker_prog; so] = Runs (mapf, reducef) ->
  mrcoordinator_main files s0 = inr o ->
  (forall f, f ∈ files -> is_Some (s0 !! f) /\ HasPrefix f "mr-" = false) ->
  (forall kvs, dec (cat (enc <$> kvs)) = coerce_kv <$> kvs) -> emits_valid mapf files s0 ->
  (forall l, sort_ByKey l ≡ₚ l) -> (forall l, ByKey_sorted (sort_ByKey l)) ->
  (forall k vs vs', vs ≡ₚ vs' -> reducef k vs = reducef k vs') ->
  Forall no_loss ls ->
  (j0 ← o; job_run mapf reducef sort_ByKey enc dec j0 ls) = Ret j ->
  Done (m_coord (j_mr j)) = Ret true ->
  exists s2 seqlines lines,
    mrsequential_main Open sort_ByKey (seq_prog :: so :: files) s0 = Runs s2 /\
    s2 !! "mr-out-0" = Some (cat seqlines) /\
    (forall r, (r < 10)%nat -> j_fs j !! oname (Z.of_nat r) = Some (cat (lines r))) /\
    concat (lines <$> seq 0 10) ≡ₚ seqlines.
Proof.
  intros Hload Hcoord Hin Hjson Hvalid Hperm Hsorted Hred Hl Hrun Hd.
  unfold mrcoordinator_main in Hcoord. destruct files as [|f0 fl] eqn:Ef; [done|]. rewrite <- Ef in *.
  injection Hcoord as <-. unfold MakeCoordinator_job in Hrun. rewrite coordinator_cleanup_main in Hrun.
  assert (Hsame : forall f, f ∈ files -> s0 !! f = cleanupOldFiles s0 !! f).
  { intros f Hf. symmetry. apply cleanupOldFiles_other. by apply Hin. }
  assert (Hsome : forall f, f ∈ files -> is_Some (cleanupOldFiles s0 !! f)).
  { intros f Hf. rewrite <- Hsame by done. by apply Hin. }
  assert (Hval : emits_valid mapf files (cleanupOldFiles s0)).
  { intros f c Hf Hc. rewrite <- Hsame in Hc by done. by apply (Hvalid f c). }
  destruct (outputs_sequential mapf reducef sort_ByKey enc dec files 10 (cleanupOldFiles s0))
    as (s2 & seqlines & Hs2 & Hout & Hp); [lia|done..|].
  unfold mrsequential in Hs2. rewrite <- (seq_map_agree mapf files s0 _ Hsame) in Hs2.
  assert (Happ : mrsequential_loadPlugin Open so = Runs (mapf, reducef)) by by apply loadPlugin_same.
  destruct (seq_map mapf files s0) as [inter| |] eqn:Em; simpl in Hs2; try done. injection Hs2 as Hs2.
  eexists. exists seqlines, (reduce_output mapf reducef sort_ByKey files 10 (cleanupOldFiles s0)).
  split; [unfold mrsequential_main; rewrite Ef; rewrite <- Ef, Happ; simpl; unfold mrsequential; by rewrite Em|].
  split; [rewrite <- Hout, <- Hs2; by rewrite !lookup_insert_eq|]. split; [|done].
  intros r Hr. eapply job_outputs_written; try done; [lia|intros; apply input_not_iname|intros; apply input_not_oname];
    by apply Hin.
Qed.

(** The word count as a plugin, and a job of one worker. *)
Module MrMainDemo.
Definition wc_plugin (app : MapF * ReduceF) : plugin := fun name =>
  if String.eqb name "Map" then Some (SymMap app.1)
  else if String.eqb name "Reduce" then Some (SymReduce app.2) else None.
Definition Open (filename : string) : string + plugin :=
  if String.eqb filename "wc.so" then inr (wc_plugin (Wc.Map, Wc.Reduce))
  else if String.eqb filename "half.so" then inr (fun name => if String.eqb name "Map" then Some SymOther else None)
  else inl "no such file".
Definition ls : list job_label :=
  concat ((fun i => [JAsk 0 (Z.of_nat i); JTask 0; JReport 0]) <$> seq 1 12).

Example no_plugin : mrworker_main Open ["mrworker"; "x.so"] = Exit 1 "cannot load plugin x.so".
Proof. reflexivity. Qed.
Example no_map : mrsequential_main Open MrDemo.sort ["mrsequential"; "half.so"; "a"] MrDemo.store = Crash.
Proof. reflexivity. Qed.
Example no_input :
  mrsequential_main Open MrDemo.sort ["mrsequential"; "wc.so"; "a"; "c"; "d"] MrDemo.store = Exit 1 "cannot open c".
Proof. reflexivity. Qed.
End MrMainDemo.

Lemma commands_agree_witness :
  exists j s2 seqlines lines,
    (j0 ← MakeCoordinator_job ["a"; "b"] 10 (cleanupOldFiles MrDemo.store);
     job_run Wc.Map Wc.Reduce MrDemo.sort MrDemo.enc MrDemo.dec j0 MrMainDemo.ls) = Ret j /\
    mrsequential_main MrMainDemo.Open MrDemo.sort ["mrsequential"; "wc.so"; "a"; "b"] MrDemo.store = Runs s2 /\
    s2 !! "mr-out-0" = Some (cat seqlines) /\
    (forall r, (r < 10)%nat -> j_fs j !! oname (Z.of_nat r) = Some (cat (lines r))) /\
    concat (lines <$> seq 0 10) ≡ₚ seqlines.
Proof.
  assert (Hc : match j0 ← MakeCoordinator_job ["a"; "b"] 10 (cleanupOldFiles MrDemo.store);
                     job_run Wc.Map Wc.Reduce MrDemo.sort MrDemo.enc MrDemo.dec j0 MrMainDemo.ls with
               | Ret j => match Done (m_coord (j_mr j)) with Ret true => true | _ => false end
               | _ => false end = true) by (vm_compute; reflexivity).
  destruct (j0 ← MakeCoordinator_job ["a"; "b"] 10 (cleanupOldFiles MrDemo.store); _) as [j| |] eqn:E;
    try discriminate Hc.
  destruct (commands_agree MrMainDemo.Open MrDemo.sort MrDemo.enc MrDemo.dec "mrworker" "mrsequential" "wc.so"
    ["a"; "b"] MrDemo.store Wc.Map Wc.Reduce
    (MakeCoordinator_job ["a"; "b"] 10 (cleanupOldFiles MrDemo.store)) MrMainDemo.ls j)
    as (s2 & seqlines & lines & Hseq & Hout & Hlines & Hp);
    [reflexivity|reflexivity| |apply MrDemo.roundtrip|apply Wc.Map_emits_valid|intros l; apply merge_sort_Permutation|apply MrDemo.sort_ok
    |apply Wc.Reduce_perm|repeat constructor|exact E| |].
  - intros f Hf. repeat (apply elem_of_cons in Hf as [->|Hf]; [split; [eexists; reflexivity|reflexivity]|]). exfalso; revert Hf; apply not_elem_of_nil.
  - destruct (Done _) as [[|]| |]; [reflexivity|discriminate Hc..].
  - exists j, s2, seqlines, lines. repeat split; assumption || reflexivity.
Defined.

(** ** [main/diskvd.go] *)

(** The local variables of [main] that the arguments set. *)
Record flags := mkFlags {
  gid : Z; masters : list string; replicas : list string; me : Z;
  unreliable : bool; dir : string; restart : bool }.

Definition flags0 : flags := mkFlags (-1) [] [] (-1) false "" false.

(** One turn of the loop; [None] for the call of [usage]. *)
Definition set_flag (a0 a1 : string) (f : flags) : option flags :=
  let '(mkFlags g m r i u d s) := f in
  if String.eqb a0 "-g" then Some (mkFlags (num_val (ParseInt a1)) m r i u d s)
  else if String.eqb a0 "-m" then Some (mkFlags g (m ++ [a1]) r i u d s)
  else if String.eqb a0 "-s" then Some (mkFlags g m (r ++ [a1]) i u d s)
  else if String.eqb a0 "-i" then Some (mkFlags g m r (num_val (Atoi a1)) u d s)
  else if String.eqb a0 "-u" then Some (mkFlags g m r i (default false (ParseBool a1)) d s)
  else if String.eqb a0 "-d" then Some (mkFlags g m r i u a1 s)
  else if String.eqb a0 "-r" then Some (mkFlags g m r i u d (default false (ParseBool a1)))
  else None.

(** The loop takes the arguments in pairs; a last one without a partner is not read. *)
Fixpoint parse_flags (l : list string) (f : flags) : option flags :=
  match l with
  | a0 :: a1 :: l' => f' ← set_flag a0 a1 f; parse_flags l' f'
  | _ => Some f
  end.

(** The test for what is missing. *)
Definition bad_flags (f : flags) : bool :=
  (gid f <? 0) || (me f <? 0) || (length (masters f) <? 1)%nat || (Z.of_nat (length (replicas f)) <=? me f)
  || String.eqb (dir f) "".

Definition diskvd_usage {A} : proc A :=
  Exit 1 ("Usage: diskvd -g gid -m master... -s server... -i my-index -d dir" +:+ newline).

Definition second : Z := 10 ^ 9.

Section Diskvd.
(** [diskv.StartServer] and [Setunreliable] of its server, on the world they change. *)
Context {W Server : Type} (StartServer : Z -> list string -> list string -> Z -> string -> bool -> W -> Server * W)
  (Setunreliable : Server -> bool -> W -> W).

Definition diskvd_main (args : list string) (w : W) : W * proc unit :=
  match parse_flags (tail args) flags0 with
  | None => (w, diskvd_usage)
  | Some f =>
      if bad_flags f then (w, diskvd_usage)
      else
        let '(srv, w) := StartServer (gid f) (masters f) (replicas f) (me f) (dir f) (restart f) w in
        (Setunreliable srv (unreliable f) w, Killed (10 * 60 * second))
  end.

End Diskvd.

(** The arguments of a flag, in the order of the command line. *)
Fixpoint pairs (l : list string) : list (string * string) :=
  match l with a0 :: a1 :: l' => (a0, a1) :: pairs l' | _ => [] end.
Definition given (k : string) (l : list string) : list string :=
  snd <$> filter (fun p => p.1 = k) (pairs l).
(** A flag that is given again overrides. *)
Definition last_of {A} (parse : string -> A) (x : A) (l : list string) : A :=
  match last l with Some a => parse a | None => x end.
Definition known (p : string * string) : bool := bool_decide (p.1 ∈ ["-g"; "-m"; "-s"; "-i"; "-u"; "-d"; "-r"]).

Lemma last_of_cons {A} (parse : string -> A) x a l : last_of parse x (a :: l) = last_of parse (parse a) l.
Proof. unfold last_of. rewrite last_cons. by destruct (last l). Qed.

Lemma given_cons k a0 a1 l : given k (a0 :: a1 :: l) = (if decide (a0 = k) then [a1] else []) ++ given k l.
Proof. unfold given. simpl. rewrite filter_cons. simpl. by case_decide. Qed.

(** Induction on a list two by two. *)
Lemma pairs_ind (P : list string -> Prop) :
  P [] -> (forall a, P [a]) -> (forall a b l, P l -> P (a :: b :: l)) -> forall l, P l.
Proof.
  intros H0 H1 H2 l. enough (P l /\ forall a, P (a :: l)) as [? _] by done.
  induction l as [|b l [IH IH']]; split; auto.
Qed.

(** What the loop does, flag by flag: lists collect, the others keep the last value, and
    every flag must be known. *)
Lemma parse_flags_spec l : forall f,
  parse_flags l f =
    if forallb known (pairs l) then
      Some (mkFlags (last_of (fun a => num_val (ParseInt a)) (gid f) (given "-g" l))
              (masters f ++ given "-m" l) (replicas f ++ given "-s" l)
              (last_of (fun a => num_val (Atoi a)) (me f) (given "-i" l))
              (last_of (fun a => default false (ParseBool a)) (unreliable f) (given "-u" l))
              (last_of (fun a => a) (dir f) (given "-d" l))
              (last_of (fun a => default false (ParseBool a)) (restart f) (given "-r" l)))
    else None.
Proof.
  induction l as [|a|a0 a1 l IH] using pairs_ind; intros [g m r i u d s];
    [simpl; by rewrite !app_nil_r..|].
  cbn [parse_flags pairs forallb]. rewrite !given_cons.
  destruct (known (a0, a1)) eqn:Hk.
  - apply bool_decide_eq_true in Hk. simpl in Hk.
    repeat (apply elem_of_cons in Hk as [->|Hk];
      [simpl; rewrite IH; simpl; rewrite ?last_of_cons, <- ?app_assoc; reflexivity|]).
    by apply elem_of_nil in Hk.
  - apply bool_decide_eq_false in Hk. simpl in Hk. repeat apply not_elem_of_cons in Hk as [? Hk].
    unfold set_flag. by rewrite !(proj2 (String.eqb_neq _ _)).
Qed.

(** ParseBool reads what [%v] prints of a bool. *)
Definition show_bool (b : bool) : string := if b then "true" else "false".
Definition flag (k : string) (l : list string) : list string := concat ((fun a => [k; a]) <$> l).

(** A command line for given settings. *)
Definition command_line (prog : string) (f : flags) : list string :=
  prog :: flag "-g" [Itoa (gid f)] ++ flag "-m" (masters f) ++ flag "-s" (replicas f) ++ flag "-i" [Itoa (me f)] ++
  flag "-u" [show_bool (unreliable f)] ++ flag "-d" [dir f] ++ flag "-r" [show_bool (restart f)].

Lemma pairs_flag k l l' : pairs (flag k l ++ l') = ((fun a => (k, a)) <$> l) ++ pairs l'.
Proof.
  unfold flag. induction l as [|a l IH]; [done|]. rewrite !fmap_cons, concat_cons, <- !app_assoc. simpl. by rewrite IH.
Qed.

Lemma given_flag k k' l l' : given k (flag k' l ++ l') = (if decide (k' = k) then l else []) ++ given k l'.
Proof.
  unfold given. rewrite pairs_flag, filter_app, fmap_app. f_equal. induction l as [|a l IH]; [by case_decide|].
  rewrite fmap_cons, filter_cons. cbn [fst]. destruct (decide (k' = k)); [rewrite fmap_cons; by rewrite IH|exact IH].
Qed.

Lemma known_flag k l l' : known (k, "") = true -> forallb known (pairs (flag k l ++ l')) = forallb known (pairs l').
Proof.
  intros Hk. rewrite pairs_flag, forallb_app. replace (forallb known _) with true; [done|]. symmetry.
  apply forallb_forall. intros p Hp. apply in_map_iff in Hp as (a & <- & _). exact Hk.
Qed.

Lemma parse_command_line prog f :
  0 <= gid f <= int_max -> 0 <= me f <= int_max -> parse_flags (tail (command_line prog f)) flags0 = Some f.
Proof.
  intros Hg Hm. unfold command_line. cbn [tail]. rewrite <- (app_nil_r (flag "-r" _)), parse_flags_spec.
  rewrite !known_flag by done. rewrite !given_flag. simpl. rewrite !app_nil_r. unfold last_of. simpl. unfold Atoi.
  rewrite !ParseInt_Itoa by (unfold int_min; lia). by destruct f as [g m r i [] d []].
Qed.

(** the command line says what runs.  Written with its flags, any valid setting starts
    the server of that group, with those ports, that index, directory and restart flag,
    and makes it unreliable as asked; the process is killed after ten minutes. *)
Theorem diskvd_command_line {W Server} (StartServer : _ -> _ -> _ -> _ -> _ -> _ -> W -> Server * W) Setunreliable prog f w :
  0 <= gid f <= int_max -> 0 <= me f < Z.of_nat (length (replicas f)) -> me f <= int_max ->
  masters f <> [] -> dir f <> "" ->
  let '(srv, w1) := StartServer (gid f) (masters f) (replicas f) (me f) (dir f) (restart f) w in
  diskvd_main StartServer Setunreliable (command_line prog f) w =
    (Setunreliable srv (unreliable f) w1, Killed (10 * 60 * second)).
Proof.
  intros Hg Hm Hmax Hmasters Hdir. unfold diskvd_main. rewrite parse_command_line by lia.
  assert (bad_flags f = false) as ->.
  { unfold bad_flags. rewrite (proj2 (String.eqb_neq _ _) Hdir). 
    rewrite !orb_false_iff, !Z.ltb_ge, Nat.ltb_ge, Z.leb_gt. repeat split; try lia. destruct (masters f); [done|simpl; lia]. }
  by destruct (StartServer _ _ _ _ _ _ _).
Qed.

(** Whatever the arguments are, a server is only started with a group and an index that
    exist, some masters and a directory. *)
Lemma diskvd_starts_valid args f :
  parse_flags (tail args) flags0 = Some f -> bad_flags f = false ->
  0 <= gid f <= int_max /\ 0 <= me f < Z.of_nat (length (replicas f)) /\ masters f <> [] /\ dir f <> "" /\
  masters f = given "-m" (tail args) /\ replicas f = given "-s" (tail args).
Proof.
  rewrite parse_flags_spec. destruct (forallb _ _); [|done]. intros [= <-] Hb. unfold bad_flags in Hb. simpl in *.
  rewrite !orb_false_iff, !Z.ltb_ge, Nat.ltb_ge, Z.leb_gt, String.eqb_neq in Hb. destruct Hb as [[[[Hg0 Hm0] Hms] Hlen] Hdir].
  assert (Hg : last_of (fun a => num_val (ParseInt a)) (-1) (given "-g" (tail args)) <= int_max).
  { unfold last_of. destruct (last _); [apply ParseInt_range|unfold int_max; lia]. }
  repeat split; try lia; try done. intros H. rewrite H in Hms. simpl in Hms. lia.
Qed.

(** A number that cannot be read counts as 0, and a last flag without a value as absent. *)
Example diskvd_bad_number :
  parse_flags ["-g"; "x"; "-m"; "m1"; "-s"; "s1"; "-i"; "1O"; "-d"; "data"; "-r"] flags0
  = Some (mkFlags 0 ["m1"] ["s1"] 0 false "data" false) /\
  bad_flags (mkFlags 0 ["m1"] ["s1"] 0 false "data" false) = false.
Proof. split; reflexivity. Qed.
Example diskvd_out_of_range :
  num_val (ParseInt "9223372036854775808") = int_max /\ num_val (ParseInt "99999999999999999999x") = int_max /\
  num_val (ParseInt "-9223372036854775808") = int_min /\ num_val (ParseInt "+7") = 7 /\ num_val (ParseInt "1_0") = 0.
Proof. repeat split; reflexivity. Qed.

Lemma diskvd_command_line_witness :
  let f := mkFlags 100 ["m1"; "m2"] ["s1"; "s2"] 1 true "data" false in
  command_line "diskvd" f =
    ["diskvd"; "-g"; "100"; "-m"; "m1"; "-m"; "m2"; "-s"; "s1"; "-s"; "s2"; "-i"; "1"; "-u"; "true"; "-d"; "data"; "-r"; "false"] /\
  diskvd_main (fun g m r i d s w => (g, (m, r, i, d, s) :: w)) (fun g u w => w) (command_line "diskvd" f) [] =
    ([(["m1"; "m2"], ["s1"; "s2"], 1, "data", false)], Killed 600000000000).
Proof.
  intros f. split; [reflexivity|].
  apply (diskvd_command_line (fun g m r i d s w => (g, (m, r, i, d, s) :: w)) (fun g u w => w) "diskvd" f []);
    unfold int_max; simpl; solve [lia|discriminate].
Defined.

(** ** The lock service and the primary/backup commands *)

Section Services.
(** The packages [lockservice], [pbservice] and [viewservice]: [StartServer] of each, and
    the lock service's clerk. *)
Context {W Clerk : Type} (MakeClerk : string -> string -> W -> Clerk * W)
  (Lock Unlock : Clerk -> string -> W -> bool * W)
  (lock_StartServer : string -> string -> bool -> W -> W)
  (pb_StartServer : string -> string -> W -> W) (view_StartServer : string -> W -> W).

(** [main/lockc.go]: it ends with 0 when it has printed the reply. *)
Definition lockc_usage : proc unit := Exit 1 ("Usage: lockc -l|-u primaryport backupport lockname" +:+ newline).
Definition lockc_main (args : list string) (w : W) : W * proc unit :=
  match args with
  | [_; a1; a2; a3; a4] =>
      let '(ck, w) := MakeClerk a2 a3 w in
      if String.eqb a1 "-l" then
        let '(ok, w) := Lock ck a4 w in (w, Exit 0 ("reply: " +:+ show_bool ok +:+ newline))
      else if String.eqb a1 "-u" then
        let '(ok, w) := Unlock ck a4 w in (w, Exit 0 ("reply: " +:+ show_bool ok +:+ newline))
      else (w, lockc_usage)
  | _ => (w, lockc_usage)
  end.

(** [main/lockd.go], [main/pbd.go], [main/viewd.go]: once it has started the server, the
    process sleeps in an endless loop ([Runs tt]). *)
Definition lockd_main (args : list string) (w : W) : W * proc unit :=
  match args with
  | [_; a1; a2; a3] =>
      if String.eqb a1 "-p" then (lock_StartServer a2 a3 true w, Runs tt)
      else if String.eqb a1 "-b" then (lock_StartServer a2 a3 false w, Runs tt)
      else (w, Exit 1 ("Usage: lockd -p|-b primaryport backupport" +:+ newline))
  | _ => (w, Exit 1 ("Usage: lockd -p|-b primaryport backupport" +:+ newline))
  end.

Definition pbd_main (args : list string) (w : W) : W * proc unit :=
  match args with
  | [_; a1; a2] => (pb_StartServer a1 a2 w, Runs tt)
  | _ => (w, Exit 1 ("Usage: pbd viewport myport" +:+ newline))
  end.

Definition viewd_main (args : list string) (w : W) : W * proc unit :=
  match args with
  | [_; a1] => (view_StartServer a1 w, Runs tt)
  | _ => (w, Exit 1 ("Usage: viewd port" +:+ newline))
  end.

(** A lock is asked for, or given back, only for the words [-l] and [-u]; the exit status
    does not tell whether it was granted. *)
Lemma lockc_main_code args w code message :
  (lockc_main args w).2 = Exit code message -> code = 0 -> exists prog op p b name ok,
    args = [prog; op; p; b; name] /\ (op = "-l" \/ op = "-u") /\ message = "reply: " +:+ show_bool ok +:+ newline.
Proof.
  destruct args as [|prog [|op [|p [|b [|name [|]]]]]]; simpl; try (intros [= <- _] [=]).
  destruct (MakeClerk p b w) as [ck w1]. destruct (String.eqb_spec op "-l") as [->|].
  { destruct (Lock ck name w1) as [ok w2]. intros [= <- <-] _. eauto 12. }
  destruct (String.eqb_spec op "-u") as [->|]; [|intros [= <- _] [=]].
  destruct (Unlock ck name w1) as [ok w2]. intros [= <- <-] _. eauto 12.
Qed.
End Services.
