(* ===== verification/Labgob.v ===== *)
(** The encoding checks of [labgob/labgob.go]: [checkType], which looks once at every
    type reachable from an encoded value for lower-case fields, and [checkDefault],
    which looks for values that are not zero where a decoder is going to write.  The
    encoder of [encoding/gob] itself is a parameter. *)
From S2P Require Import Prelude.
Open Scope Z_scope.

(** ** Types *)

(** A [reflect.Type] is an identity; [tdesc] is what [Kind], [Field], [Elem], [Key] and
    [Name] say about it. *)
Definition tid : Type := nat.

Record field := mkField { f_name : string; f_type : tid }.

Inductive tdesc :=
| TStruct (name : string) (fields : list field)
| TSlice (elem : tid)
| TArray (elem : tid)
| TPtr (elem : tid)
| TMap (key elem : tid)
| TBasic.

(** The lines that are printed. *)
Inductive notice :=
| LowerCase (fieldname typename : string)
| NonDefault (what : string).

(** The package's variables, and what has been printed. *)
Record lab := mkLab { errorCount : Z; checked : gset tid; printed : list notice }.

Definition lab_init : lab := mkLab 0 ∅ [].

Section Labgob.
(** [unicode.IsUpper] of the first rune of a name. *)
Variable IsUpper : string -> bool.
(** The types of the program. *)
Variable env : tid -> tdesc.

Definition check_field (rec : tid -> lab -> option lab) (tname : string) (acc : option lab) (f : field)
  : option lab :=
  s ← acc;
  let s := if negb (IsUpper (f_name f))
           then mkLab (wrap64 (errorCount s + 1)) (checked s) (printed s ++ [LowerCase (f_name f) tname])
           else s in
  rec (f_type f) s.

(** Every call that goes on marks a type, so as many calls as there are unmarked types
    are enough fuel ([checkType_total]). *)
Fixpoint checkType (fuel : nat) (t : tid) (s : lab) : option lab :=
  match fuel with
  | O => None
  | S fuel' =>
      if decide (t ∈ checked s) then Some s
      else
        let s := mkLab (errorCount s) ({[t]} ∪ checked s) (printed s) in
        match env t with
        | TStruct name fields => foldl (check_field (checkType fuel') name) (Some s) fields
        | TSlice elem | TArray elem | TPtr elem => checkType fuel' elem s
        | TMap key elem => s ← checkType fuel' elem s; checkType fuel' key s
        | TBasic => Some s
        end
  end.

(** The types a type is made of. *)
Definition children (t : tid) : list tid :=
  match env t with
  | TStruct _ fields => f_type <$> fields
  | TSlice elem | TArray elem | TPtr elem => [elem]
  | TMap key elem => [elem; key]
  | TBasic => []
  end.

Inductive reachable (t : tid) : tid -> Prop :=
| reachable_refl : reachable t t
| reachable_step u v : reachable t u -> v ∈ children u -> reachable t v.

(** What a type's fields make the checker print. *)
Definition complaints (t : tid) : list notice :=
  match env t with
  | TStruct name fields =>
      (fun f => LowerCase (f_name f) name) <$> filter (fun f => negb (IsUpper (f_name f)) = true) fields
  | _ => []
  end.

(** ** [checkType] as a traversal *)

(** What a call does, in order: print a notice or check another type. *)
Definition actions (t : tid) : list (notice + tid) :=
  match env t with
  | TStruct name fields =>
      concat ((fun f => (if negb (IsUpper (f_name f)) then [inl (LowerCase (f_name f) name)] else []) ++
                        [inr (f_type f)]) <$> fields)
  | TSlice elem | TArray elem | TPtr elem => [inr elem]
  | TMap key elem => [inr elem; inr key]
  | TBasic => []
  end.

Definition act (rec : tid -> lab -> option lab) (acc : option lab) (x : notice + tid) : option lab :=
  s ← acc;
  match x with
  | inl n => Some (mkLab (wrap64 (errorCount s + 1)) (checked s) (printed s ++ [n]))
  | inr u => rec u s
  end.

Definition mark (t : tid) (s : lab) : lab := mkLab (errorCount s) ({[t]} ∪ checked s) (printed s).

Lemma checkType_S fuel t s :
  checkType (S fuel) t s =
    if decide (t ∈ checked s) then Some s
    else foldl (act (checkType fuel)) (Some (mark t s)) (actions t).
Proof.
  cbn [checkType]. case_decide; [done|]. fold (mark t s). unfold actions.
  destruct (env t) as [name fields|elem|elem|elem|key elem|]; try done.
  generalize (Some (mark t s)). induction fields as [|f fields IH]; intros acc; [done|].
  cbn [foldl fmap list_fmap concat]. rewrite IH, foldl_app. f_equal.
  unfold check_field. destruct acc as [s1|]; step_bind; [|by destruct (negb _)].
  destruct (negb (IsUpper (f_name f))); done.
Qed.

Lemma act_None rec l : foldl (act rec) None l = None.
Proof. by induction l. Qed.

(** The types an action list checks, and what it prints. *)
Definition roots (l : list (notice + tid)) : list tid :=
  omap (fun x => match x with inr u => Some u | inl _ => None end) l.
Definition notices (l : list (notice + tid)) : list notice :=
  omap (fun x => match x with inl n => Some n | inr _ => None end) l.

Lemma roots_app l1 l2 : roots (l1 ++ l2) = roots l1 ++ roots l2.
Proof. apply omap_app. Qed.
Lemma notices_app l1 l2 : notices (l1 ++ l2) = notices l1 ++ notices l2.
Proof. apply omap_app. Qed.

Lemma roots_actions t : roots (actions t) = children t.
Proof.
  unfold actions, children. destruct (env t) as [name fields| | | | |]; try done.
  induction fields as [|f fields IH]; [done|]. cbn [fmap list_fmap concat].
  rewrite !roots_app, IH. by destruct (negb _).
Qed.

Lemma notices_actions t : notices (actions t) = complaints t.
Proof.
  unfold actions, complaints. destruct (env t) as [name fields| | | | |]; try done.
  induction fields as [|f fields IH]; [done|]. cbn [fmap list_fmap concat].
  rewrite !notices_app, IH. destruct (negb (IsUpper (f_name f))) eqn:E.
  - by rewrite filter_cons_True.
  - by rewrite filter_cons_False by congruence.
Qed.

(** ** Termination *)

Section Termination.
(** The program has finitely many types. *)
Variable types : gset tid.
Hypothesis closed : forall t u, t ∈ types -> u ∈ children t -> u ∈ types.

Definition unmarked (s : lab) : nat := size (types ∖ checked s).

Lemma unmarked_mono s s' : checked s ⊆ checked s' -> (unmarked s' <= unmarked s)%nat.
Proof. intros H. unfold unmarked. apply subseteq_size. set_solver. Qed.

Lemma unmarked_mark s t : t ∈ types -> t ∉ checked s -> (unmarked (mark t s) < unmarked s)%nat.
Proof.
  intros Ht Hn. unfold unmarked, mark. simpl. apply subset_size. split; [set_solver|].
  intros H. specialize (H t). set_solver.
Qed.

Lemma act_grows rec l : forall s s',
  (forall u s s', rec u s = Some s' -> checked s ⊆ checked s') ->
  foldl (act rec) (Some s) l = Some s' -> checked s ⊆ checked s'.
Proof.
  intros s s' Hrec. revert s. induction l as [|x l IH]; intros s; cbn [foldl]; [by intros [= <-]|].
  destruct x as [n|u]; unfold act at 2; step_bind.
  - intros H. by apply IH in H.
  - destruct (rec u s) as [s1|] eqn:E; [|by rewrite act_None]. intros H. apply IH in H.
    apply Hrec in E. by etrans.
Qed.

Lemma checkType_grows fuel : forall t s s', checkType fuel t s = Some s' -> checked s ⊆ checked s'.
Proof.
  induction fuel as [|fuel IH]; intros t s s'; [done|]. rewrite checkType_S. case_decide; [by intros [= <-]|].
  intros H1. apply act_grows in H1; [|done]. etrans; [|exact H1]. unfold mark. simpl. set_solver.
Qed.

Lemma checkType_total fuel : forall t s,
  t ∈ types -> (unmarked s < fuel)%nat -> is_Some (checkType fuel t s).
Proof.
  induction fuel as [|fuel IH]; intros t s Ht Hf; [lia|]. rewrite checkType_S.
  case_decide as Hd; [by eexists|]. pose proof (unmarked_mark s t Ht Hd) as Hm.
  assert (Hc : forall u, u ∈ roots (actions t) -> u ∈ types)
    by (intros u; rewrite roots_actions; by apply closed).
  revert Hc. generalize (actions t) as l. assert (Hs : (unmarked (mark t s) < fuel)%nat) by lia.
  revert Hs. generalize (mark t s) as s1. clear Hm Hd Hf Ht. intros s1 Hs l. revert s1 Hs.
  induction l as [|x l IHl]; intros s1 Hs Hc; cbn [foldl]; [by eexists|].
  destruct x as [n|u]; unfold act at 2; step_bind.
  - apply IHl; [done|]. intros u Hu. by apply Hc.
  - destruct (IH u s1) as (s2 & E); [apply Hc; left|done|]. rewrite E. apply IHl.
    + apply checkType_grows, unmarked_mono in E. lia.
    + intros v Hv. apply Hc. by right.
Qed.

End Termination.

(** ** What is checked and printed *)

(** From [s] to [s'] the types [new] are visited for the roots [rs], and [ns] is printed
    besides what they make the checker print. *)
Record explored (s s' : lab) (rs : list tid) (ns : list notice) (new : list tid) : Prop := {
  ex_nodup : NoDup new;
  ex_fresh u : u ∈ new -> u ∉ checked s;
  ex_checked : checked s' = checked s ∪ list_to_set new;
  ex_reach u : u ∈ new -> exists r, r ∈ rs /\ reachable r u;
  ex_closed u v : u ∈ new -> v ∈ children u -> v ∈ checked s';
  ex_roots r : r ∈ rs -> r ∈ checked s';
  ex_printed : printed s' ≡ₚ printed s ++ ns ++ concat (complaints <$> new);
  ex_count : errorCount s' = wrap64 (errorCount s + Z.of_nat (length (ns ++ concat (complaints <$> new))))
}.

Definition in_range (s : lab) : Prop := errorCount s = wrap64 (errorCount s).

Lemma explored_in_range s s' rs ns new : explored s s' rs ns new -> in_range s'.
Proof.
  intros H. unfold in_range. rewrite (ex_count _ _ _ _ _ H).
  symmetry. apply wrap64_id, wrap64_range.
Qed.

Lemma explored_nil s rs : in_range s -> (forall r, r ∈ rs -> r ∈ checked s) -> explored s s rs [] [].
Proof.
  intros Hs Hr. split; [constructor|set_solver|set_solver|set_solver|set_solver|done| |].
  - by rewrite !app_nil_r.
  - simpl. by rewrite Z.add_0_r.
Qed.

Lemma explored_trans s1 s2 s3 rs1 rs2 ns1 ns2 new1 new2 :
  explored s1 s2 rs1 ns1 new1 -> explored s2 s3 rs2 ns2 new2 ->
  explored s1 s3 (rs1 ++ rs2) (ns1 ++ ns2) (new1 ++ new2).
Proof.
  intros [A1 A2 A3 A4 A5 A6 A7 A8] [B1 B2 B3 B4 B5 B6 B7 B8].
  assert (Hsub : checked s2 ⊆ checked s3) by (rewrite B3; set_solver).
  split.
  - apply NoDup_app. split; [done|]. split; [|done]. intros u Hu Hu'. apply (B2 u Hu'). rewrite A3. set_solver.
  - intros u [Hu|Hu]%elem_of_app; [by apply A2|]. intros Hin. apply (B2 u Hu). rewrite A3. set_solver.
  - rewrite B3, A3, list_to_set_app_L. set_solver.
  - intros u [Hu|Hu]%elem_of_app; [destruct (A4 u Hu) as (r & ? & ?)|destruct (B4 u Hu) as (r & ? & ?)];
      exists r; (split; [set_solver|done]).
  - intros u v [Hu|Hu]%elem_of_app Hv; [by apply Hsub, (A5 u)|by apply (B5 u)].
  - intros r [Hr|Hr]%elem_of_app; [by apply Hsub, A6|by apply B6].
  - rewrite B7, A7, fmap_app, concat_app, <- !app_assoc. do 2 f_equiv.
    rewrite !app_assoc. f_equiv. apply Permutation_app_comm.
  - rewrite B8, A8, wrap64_add, fmap_app, concat_app, !length_app. f_equal. lia.
Qed.

Lemma explored_act fuel l : forall s s',
  (forall u s s', in_range s -> checkType fuel u s = Some s' -> exists new, explored s s' [u] [] new) ->
  in_range s -> foldl (act (checkType fuel)) (Some s) l = Some s' ->
  exists new, explored s s' (roots l) (notices l) new.
Proof.
  intros s s' Hrec. revert s. induction l as [|x l IH]; intros s Hs; cbn [foldl].
  { intros [= <-]. exists []. apply explored_nil; [done|set_solver]. }
  destruct x as [n|u]; unfold act at 2; step_bind; cbn [roots notices omap list_omap].
  - intros H. assert (Hone : explored s (mkLab (wrap64 (errorCount s + 1)) (checked s) (printed s ++ [n])) [] [n] []).
    { split; cbn [checked printed errorCount]; [constructor|set_solver..|done|done]. }
    destruct (IH _ (explored_in_range _ _ _ _ _ Hone) H) as (new & Hnew). exists ([] ++ new).
    exact (explored_trans _ _ _ _ _ _ _ _ _ Hone Hnew).
  - destruct (checkType fuel u s) as [s1|] eqn:E; [|by rewrite act_None]. intros H.
    destruct (Hrec u s s1 Hs E) as (new1 & H1).
    destruct (IH _ (explored_in_range _ _ _ _ _ H1) H) as (new & Hnew). exists (new1 ++ new).
    exact (explored_trans _ _ _ _ _ _ _ _ _ H1 Hnew).
Qed.

Lemma reachable_trans t u v : reachable t u -> reachable u v -> reachable t v.
Proof. intros H. induction 1; [done|by eapply reachable_step]. Qed.

Lemma checkType_explored fuel : forall t s s',
  in_range s -> checkType fuel t s = Some s' -> exists new, explored s s' [t] [] new.
Proof.
  induction fuel as [|fuel IH]; intros t s s' Hs; [done|]. rewrite checkType_S. case_decide as Hd.
  { intros [= <-]. exists []. apply explored_nil; [done|]. by intros r ->%list_elem_of_singleton. }
  intros H. destruct (explored_act fuel (actions t) (mark t s) s' IH Hs H) as (new & [A1 A2 A3 A4 A5 A6 A7 A8]).
  rewrite roots_actions, notices_actions in *. exists (t :: new).
  unfold mark in *. cbn [checked printed errorCount] in *. split.
  - constructor; [|done]. intros Ht. apply (A2 t Ht). set_solver.
  - intros u [->|Hu]%elem_of_cons; [done|]. specialize (A2 u Hu). set_solver.
  - rewrite A3. simpl. set_solver.
  - intros u [->|Hu]%elem_of_cons; exists t; (split; [by apply list_elem_of_singleton|]); [constructor|].
    destruct (A4 u Hu) as (r & Hr & Hu'). eapply reachable_trans; [|done].
    eapply reachable_step; [constructor|done].
  - intros u v [->|Hu]%elem_of_cons Hv; [by apply A6|by apply (A5 u)].
  - intros r ->%list_elem_of_singleton. rewrite A3. set_solver.
  - by rewrite A7.
  - rewrite A8. do 3 f_equal.
Qed.

(** A set of marks that a finished check leaves. *)
Definition settled (s : lab) : Prop :=
  in_range s /\ forall u v, u ∈ checked s -> v ∈ children u -> v ∈ checked s.

Lemma settled_init : settled lab_init.
Proof. split; [done|set_solver]. Qed.

Lemma settled_reachable s t u : settled s -> t ∈ checked s -> reachable t u -> u ∈ checked s.
Proof. intros [_ Hc] Ht. induction 1; [done|by eapply Hc]. Qed.
End Labgob.

(** [checkType] looks at every reachable type once.  For any program of finitely many
    types, recursive ones too, and any marks left by earlier calls, enough fuel gives a
    result; then exactly the types reachable from the checked one are marked in addition,
    a notice has been printed for every lower-case field of every newly marked type and
    for nothing else, and [errorCount] has grown by their number. *)
Theorem checkType_spec IsUpper env (types : gset tid) t s fuel :
  (forall t u, t ∈ types -> u ∈ children env t -> u ∈ types) -> t ∈ types ->
  settled env s -> (size types < fuel)%nat ->
  exists s' new, checkType IsUpper env fuel t s = Some s' /\ settled env s' /\ NoDup new /\
    (forall u, u ∈ new <-> reachable env t u /\ u ∉ checked s) /\
    checked s' = checked s ∪ list_to_set new /\
    printed s' ≡ₚ printed s ++ concat (complaints IsUpper env <$> new) /\
    errorCount s' = wrap64 (errorCount s + Z.of_nat (length (concat (complaints IsUpper env <$> new)))).
Proof.
  intros Hcl Ht Hs Hf.
  assert (Hu : (unmarked types s < fuel)%nat).
  { unfold unmarked. assert (size (types ∖ checked s) <= size types)%nat by (apply subseteq_size; set_solver). lia. }
  destruct (checkType_total IsUpper env types Hcl fuel t s Ht Hu) as (s' & E).
  destruct (checkType_explored IsUpper env fuel t s s' (proj1 Hs) E) as (new & H).
  exists s', new. split; [done|]. pose proof H as [A1 A2 A3 A4 A5 A6 A7 A8].
  assert (Hs' : settled env s').
  { split; [by eapply explored_in_range|]. intros u v Hu' Hv. rewrite A3 in Hu'.
    apply elem_of_union in Hu' as [Hu'|Hu'].
    - rewrite A3. apply elem_of_union_l. by apply (proj2 Hs u).
    - apply (A5 u); [by apply elem_of_list_to_set in Hu'|done]. }
  do 2 (split; [done|]). split; [|split; [done|split; [done|done]]].
  intros u. split.
  - intros Hin. split; [|by apply A2]. destruct (A4 u Hin) as (r & ->%list_elem_of_singleton & ?). done.
  - intros [Hr Hn]. assert (Hin : u ∈ checked s') by (eapply settled_reachable; [done| |done]; by apply A6; left).
    rewrite A3 in Hin. apply elem_of_union in Hin as [?|Hin]; [done|]. by apply elem_of_list_to_set in Hin.
Qed.

(** ASCII names. *)
Definition ascii_upper (name : string) : bool :=
  match name with
  | String c _ => let n := Z.of_N (N_of_ascii c) in (65 <=? n) && (n <=? 90)
  | EmptyString => false
  end.

(** A list cell with a lower-case field that points to the next cell. *)
Module LabgobDemo.
Definition env (t : tid) : tdesc :=
  match t with
  | 0%nat => TStruct "Node" [mkField "Val" 1%nat; mkField "next" 2%nat]
  | 2%nat => TPtr 0%nat
  | _ => TBasic
  end.
Definition types : gset tid := {[0; 1; 2]}%nat.
Lemma closed t u : t ∈ types -> u ∈ children env t -> u ∈ types.
Proof.
  unfold types. intros Ht Hu. assert (t = 0 \/ t = 1 \/ t = 2)%nat as [->|[-> | ->]] by set_solver;
    unfold children in Hu; simpl in Hu; set_solver.
Qed.
End LabgobDemo.

Lemma checkType_spec_witness :
  checkType ascii_upper LabgobDemo.env 4 0%nat lab_init =
    Some (mkLab 1 {[0; 1; 2]}%nat [LowerCase "next" "Node"]) /\
  exists s', checkType ascii_upper LabgobDemo.env 4 0%nat lab_init = Some s' /\ settled LabgobDemo.env s'.
Proof.
  split; [vm_compute; reflexivity|].
  destruct (checkType_spec ascii_upper LabgobDemo.env LabgobDemo.types 0%nat lab_init 4)
    as (s' & new & Hs & Hset & _); [apply LabgobDemo.closed| |apply settled_init| |].
  - apply elem_of_union_l, elem_of_union_l. apply elem_of_singleton. reflexivity.
  - vm_compute. lia.
  - exists s'. split; [exact Hs|exact Hset].
Defined.

(** ** Values *)

(** A [reflect.Value]: what [checkDefault1] looks at.  [VPtr] is a pointer into the heap
    or nil; [VOther] stands for slices, maps, interfaces, channels and functions. *)
Inductive value :=
| VStruct (name : string) (fields : list (string * bool * value))
| VPtr (target : option nat)
| VInt (typename : string) (z : Z)
| VBool (typename : string) (b : bool)
| VString (typename : string) (s : string)
| VFloat (typename : string) (bits : Z)
| VOther.

(** [reflect.DeepEqual(reflect.Zero(t).Interface(), value.Interface())] for the basic
    kinds; a negative zero of a float equals zero. *)
Definition basic (v : value) : option (string * bool) :=
  match v with
  | VInt n z => Some (n, z =? 0)
  | VBool n b => Some (n, negb b)
  | VString n s => Some (n, String.eqb s "")
  | VFloat n bits => Some (n, (bits =? 0) || (bits =? 2 ^ 63))
  | _ => None
  end.

Section CheckDefault.
Variable IsUpper : string -> bool.
Variable heap : nat -> value.

(** How a value was obtained: through an unexported field that is not embedded, or
    through an embedded one. *)
Record flags := mkFlags { sticky_ro : bool; embed_ro : bool }.

(** [Value.Field]. *)
Definition field_flags (fl : flags) (fname : string) (embedded : bool) : flags :=
  if IsUpper fname then mkFlags (sticky_ro fl) false
  else if embedded then mkFlags (sticky_ro fl) true
  else mkFlags true false.

Definition field_path (name fname : string) : string :=
  if String.eqb name "" then fname else name +:+ "." +:+ fname.

Definition report_default (what typename : string) (s : lab) : lab :=
  mkLab (wrap64 (errorCount s + 1)) (checked s)
    (if errorCount s <? 1 then printed s ++ [NonDefault (if String.eqb what "" then typename else what)]
     else printed s).

(** [left] is [4 - depth]; [value.Interface()] panics on a value got through an
    unexported field. *)
Fixpoint checkDefault1 (left : nat) (fl : flags) (v : value) (name : string) (s : lab) : outcome lab :=
  match left with
  | O => Ret s
  | S left' =>
      match v with
      | VStruct _ fields =>
          foldM (fun s f =>
            let '(fname, embedded, vv) := f in
            checkDefault1 left' (field_flags fl fname embedded) vv (field_path name fname) s) fields s
      | VPtr None => Ret s
      | VPtr (Some l) => checkDefault1 left' fl (heap l) name s
      | VOther => Ret s
      | _ =>
          match basic v with
          | Some (tn, zero) =>
              if sticky_ro fl || embed_ro fl then Panic
              else if zero then Ret s else Ret (report_default name tn s)
          | None => Ret s
          end
      end
  end.

(** A nil [interface{}] is [None]. *)
Definition checkDefault (v : option value) (s : lab) : outcome lab :=
  match v with Some v => checkDefault1 3 (mkFlags false false) v "" s | None => Ret s end.

(** ** What [checkDefault] sees *)

(** A basic value that is at most [left] steps away, how it is obtained and whether it
    is zero. *)
Inductive leaf : nat -> flags -> value -> flags -> bool -> Prop :=
| leaf_basic left fl v tn z : basic v = Some (tn, z) -> leaf (S left) fl v fl z
| leaf_ptr left fl l fl' z : leaf left fl (heap l) fl' z -> leaf (S left) fl (VPtr (Some l)) fl' z
| leaf_field left fl tn fields fname emb vv fl' z :
    (fname, emb, vv) ∈ fields -> leaf left (field_flags fl fname emb) vv fl' z ->
    leaf (S left) fl (VStruct tn fields) fl' z.

Definition read_only (fl : flags) : bool := sticky_ro fl || embed_ro fl.

(** The outcome of a check that may see the leaves [P]. *)
Definition checks (P : flags -> bool -> Prop) (s : lab) (m : outcome lab) : Prop :=
  ((exists fl z, P fl z /\ read_only fl = true) /\ m = Panic) \/
  ((forall fl z, P fl z -> read_only fl = false) /\
   exists s' k, m = Ret s' /\ checked s' = checked s /\
     errorCount s' = wrap64 (errorCount s + Z.of_nat k) /\
     (k = 0%nat <-> forall fl z, P fl z -> z = true) /\ (k = 0%nat -> s' = s)).

Lemma checks_skip (P : flags -> bool -> Prop) s :
  in_range s -> (forall fl z, P fl z -> read_only fl = false /\ z = true) -> checks P s (Ret s).
Proof.
  intros Hs HP. right. split; [intros fl z H; by apply (HP fl z)|]. exists s, 0%nat.
  split; [done|]. split; [done|]. split; [by rewrite Z.add_0_r|]. split; [|done].
  split; [|done]. intros _ fl z H. by apply (HP fl z).
Qed.

Lemma checks_ext (P Q : flags -> bool -> Prop) s m :
  (forall fl z, P fl z <-> Q fl z) -> checks P s m -> checks Q s m.
Proof.
  intros He [[(fl & z & H & Hr) ->]|[Hp (s' & k & -> & Hc & Hk & Hz & Hs)]].
  - left. split; [|done]. exists fl, z. by rewrite <- He.
  - right. split; [intros fl z H; apply (Hp fl z); by apply He|]. exists s', k. do 3 (split; [done|]).
    split; [|done]. rewrite Hz. split; intros H fl z HP; apply (H fl z); by apply He.
Qed.

Lemma checks_in_range P s s' : in_range s -> checks P s (Ret s') -> in_range s'.
Proof.
  intros Hs [[_ ?]|[_ (s1 & k & [= <-] & _ & Hk & _)]]; [done|].
  unfold in_range. rewrite Hk. symmetry. apply wrap64_id, wrap64_range.
Qed.

(** One check after another. *)
Lemma checks_bind (P Q : flags -> bool -> Prop) s m f :
  in_range s -> checks P s m -> (forall s', in_range s' -> checks Q s' (f s')) ->
  checks (fun fl z => P fl z \/ Q fl z) s (s' ← m; f s').
Proof.
  intros Hs Hm Hf. pose proof Hm as [[(fl & z & H & Hr) ->]|[Hp (s1 & k1 & -> & Hc1 & Hk1 & Hz1 & Hs1)]].
  { left. split; [|done]. exists fl, z. split; [by left|done]. }
  step_bind. pose proof (checks_in_range _ _ _ Hs Hm) as Hr1.
  destruct (Hf s1 Hr1) as [[(fl & z & H & Hr) ->]|[Hq (s2 & k2 & -> & Hc2 & Hk2 & Hz2 & Hs2)]].
  { left. split; [|done]. exists fl, z. split; [by right|done]. }
  right. split; [intros fl z [?|?]; [by apply (Hp fl z)|by apply (Hq fl z)]|].
  exists s2, (k1 + k2)%nat. split; [done|]. split; [congruence|].
  split; [rewrite Hk2, Hk1, wrap64_add, Nat2Z.inj_add; f_equal; lia|]. split.
  - split.
    + intros Hk fl z [H|H]; [apply (proj1 Hz1 ltac:(lia) fl z H)|apply (proj1 Hz2 ltac:(lia) fl z H)].
    + intros H. rewrite (proj2 Hz1), (proj2 Hz2); [done| |]; intros fl z HP; apply (H fl z); auto.
  - intros Hk. rewrite Hs2, Hs1 by lia. done.
Qed.

Lemma checkDefault1_checks left : forall fl v name s,
  in_range s -> checks (leaf left fl v) s (checkDefault1 left fl v name s).
Proof.
  induction left as [|left IH]; intros fl v name s Hs.
  { apply checks_skip; [done|]. intros fl' z H. inversion H. }
  assert (Hbasic : forall tn z, basic v = Some (tn, z) ->
    checks (leaf (S left) fl v) s
      (if read_only fl then Panic else if z then Ret s else Ret (report_default name tn s))).
  { intros tn z Hb.
    apply (checks_ext (fun fl' z' => fl' = fl /\ z' = z)).
    { intros fl' z'. split; [intros [-> ->]; by eapply leaf_basic|].
      intros H. inversion H; subst; [split; [done|congruence]|done..]. }
    destruct (read_only fl) eqn:Er; [left; split; [by exists fl, z|done]|]. destruct z.
    - apply checks_skip; [done|]. by intros fl' z' [-> ->].
    - right. split; [by intros fl' z' [-> _]|]. exists (report_default name tn s), 1%nat.
      do 3 (split; [done|]). split; [|done]. split; [done|]. intros H. by specialize (H fl false (conj eq_refl eq_refl)). }
  destruct v as [tn fields|[l|]|tn z|tn b|tn x|tn bits|]; cbn [checkDefault1].
  - clear Hbasic. apply (checks_ext (fun fl' z => exists fname emb vv, (fname, emb, vv) ∈ fields /\
      leaf left (field_flags fl fname emb) vv fl' z)).
    { intros fl' z. split; [intros (fname & emb & vv & Hin & H); by eapply leaf_field|].
      intros H. inversion H; subst; [done|]. by eexists _, _, _. }
    revert s Hs. induction fields as [|[[fname emb] vv] fields IHf]; intros s Hs; cbn [foldM].
    + apply checks_skip; [done|]. intros fl' z (? & ? & ? & ?%elem_of_nil & _). done.
    + eapply checks_ext; [|apply (checks_bind _ _ s _ _ Hs (IH _ vv _ s Hs) (fun s' => IHf s'))].
      intros fl' z. cbv beta. split.
      * intros [H|(f' & e' & v' & Hin & H)]; [exists fname, emb, vv; split; [left|done]|].
        exists f', e', v'. split; [by right|done].
      * intros (f' & e' & v' & [Heq|Hin]%elem_of_cons & H); [left; by injection Heq as -> -> ->|right].
        by exists f', e', v'.
  - apply (checks_ext (leaf left fl (heap l))); [|by apply IH].
    intros fl' z. split; [by constructor|]. intros H. by inversion H.
  - apply checks_skip; [done|]. intros fl' z H. inversion H. done.
  - by apply Hbasic.
  - by apply Hbasic.
  - by apply Hbasic.
  - by apply Hbasic.
  - apply checks_skip; [done|]. intros fl' z H. inversion H. done.
Qed.
End CheckDefault.

(** what [checkDefault] warns about.  It looks at the basic values that are at most
    three steps away, through fields and pointers.  If one of them is got through an
    unexported field the process panics; otherwise [errorCount] grows by a number that is
    0 exactly when all of them are zero, and then nothing is printed. *)
Theorem checkDefault_spec IsUpper heap v s :
  in_range s ->
  ((exists fl z, leaf IsUpper heap 3 (mkFlags false false) v fl z /\ read_only fl = true) /\
   checkDefault IsUpper heap (Some v) s = Panic) \/
  ((forall fl z, leaf IsUpper heap 3 (mkFlags false false) v fl z -> read_only fl = false) /\
   exists s' k, checkDefault IsUpper heap (Some v) s = Ret s' /\ checked s' = checked s /\
     errorCount s' = wrap64 (errorCount s + Z.of_nat k) /\
     (k = 0%nat <-> forall fl z, leaf IsUpper heap 3 (mkFlags false false) v fl z -> z = true) /\
     (k = 0%nat -> s' = s)).
Proof. intros Hs. by apply checkDefault1_checks. Qed.

(** A reply that was written before, three levels deep, and one with a lower-case field. *)
Lemma checkDefault_spec_witness :
  let heap := fun _ => VStruct "Reply" [("Term", false, VInt "int" 3); ("Ok", false, VBool "bool" false)] in
  checkDefault ascii_upper heap (Some (VPtr (Some 0%nat))) lab_init =
    Ret (mkLab 1 ∅ [NonDefault "Term"]) /\
  checkDefault ascii_upper heap (Some (VStruct "T" [("x", false, VInt "int" 0)])) lab_init = Panic /\
  exists s' k, checkDefault ascii_upper heap (Some (VPtr (Some 0%nat))) lab_init = Ret s' /\
    errorCount s' = wrap64 (0 + Z.of_nat k).
Proof.
  intros heap. split; [reflexivity|]. split; [reflexivity|].
  destruct (checkDefault_spec ascii_upper heap (VPtr (Some 0%nat)) lab_init)
    as [[_ H]|[_ (s' & k & Hs & _ & Hk & _)]]; [reflexivity|discriminate H|].
  exists s', k. split; [exact Hs|exact Hk].
Defined.

(** ** Encoders and decoders *)

Section Codec.
Variable IsUpper : string -> bool.
Variable env : tid -> tdesc.
Variable heap : nat -> value.
(** [gob]: an error is [None]; a decoder's result is what it has stored. *)
Variable gob_encode : value -> option (list Byte.byte).
Variable gob_decode : list Byte.byte -> value -> option value.

(** [checkValue(value)]; the type of a nil [interface{}] is nil, and its [Kind] a panic.
    The fuel is enough by [checkType_spec]. *)
Definition checkValue (fuel : nat) (t : option tid) (s : lab) : outcome lab :=
  match t with
  | None => Panic
  | Some t => match checkType IsUpper env fuel t s with Some s' => Ret s' | None => Blocked end
  end.

Definition Encode (fuel : nat) (t : option tid) (e : value) (s : lab)
  : outcome (lab * option (list Byte.byte)) :=
  s ← checkValue fuel t s; Ret (s, gob_encode e).

Definition Decode (fuel : nat) (t : option tid) (data : list Byte.byte) (e : value) (s : lab)
  : outcome (lab * option value) :=
  s ← checkValue fuel t s;
  s ← checkDefault IsUpper heap (Some e) s;
  Ret (s, gob_decode data e).

Definition Register (fuel : nat) (t : option tid) (s : lab) : outcome lab := checkValue fuel t s.
Definition RegisterName (fuel : nat) (name : string) (t : option tid) (s : lab) : outcome lab :=
  checkValue fuel t s.
End Codec.
