(* ===== verification/ShardCfg.v ===== *)
(** Shard configurations of [shardkv1/shardcfg/shardcfg.go]: the assignment of the
    shards to the groups, joining and leaving groups, and the balancing of the
    assignment. *)
From S2P Require Import Prelude.

Definition NShards : nat := 12.
Definition NumFirst : Z := 1.
Definition Gid1 : Z := 1.

(** [Shards] is an array of [NShards] gids, [Groups] a map from gids to servers. *)
Record ShardConfig := mkShardConfig {
  Num : Z;
  Shards : list Z;
  Groups : gmap Z (list string)
}.

Definition Key2Shard (key : string) : Z := Z.rem (Sum32 key) (Z.of_nat NShards).

Definition MakeShardConfig : ShardConfig := mkShardConfig 0 (replicate NShards 0) ∅.

(** A new map with a copy of each server list. *)
Definition Copy (cfg : ShardConfig) : ShardConfig :=
  let c := MakeShardConfig in
  mkShardConfig (Num cfg) (Shards cfg)
    (map_fold (fun k srvs groups => <[k := srvs]> groups) (Groups c) (Groups cfg)).

(** [counts[g]] of the map built by counting [c.Shards]; 0 for a gid without shards. *)
Definition count_gid (g : Z) (shards : list Z) : Z :=
  Z.of_nat (length (filter (fun x => x = g) shards)).

(** [slices.Sort] of the keys of [c.Groups]. *)
Definition sorted_gids (groups : gmap Z (list string)) : list Z :=
  merge_sort Z.le (map_to_list groups).*1.

(** One iteration of the loop of [analyze] over the sorted gids; the accumulator is
    (mg, mn, lg, ln). *)
Definition analyze_step (shards : list Z) (acc : Z * Z * Z * Z) (g : Z) : Z * Z * Z * Z :=
  let '(mg, mn, lg, ln) := acc in
  let n := count_gid g shards in
  let '(lg, ln) := if n <? ln then (g, n) else (lg, ln) in
  let '(mg, mn) := if n >? mn then (g, n) else (mg, mn) in
  (mg, mn, lg, ln).

Definition analyze (c : ShardConfig) : Z * Z * Z * Z :=
  foldl (analyze_step (Shards c)) (-1, -1, -1, 257) (sorted_gids (Groups c)).

Definition least (c : ShardConfig) : Z := let '(_, _, lg, _) := analyze c in lg.

Definition with_shards (c : ShardConfig) (shards : list Z) : ShardConfig :=
  mkShardConfig (Num c) shards (Groups c).

(** Body of the loop that assigns the unassigned shards, at shard [s]. *)
Definition assign_shard (c : ShardConfig) (s : nat) : ShardConfig :=
  match Shards c !! s with
  | Some g =>
      match Groups c !! g with
      | Some _ => c
      | None => with_shards c (<[s := least c]> (Shards c))
      end
  | None => c
  end.

(** The inner loop: the first shard of [mg] goes to [lg]. *)
Fixpoint move_one (mg lg : Z) (shards : list Z) : list Z :=
  match shards with
  | [] => []
  | g :: shards' => if g =? mg then lg :: shards' else g :: move_one mg lg shards'
  end.

(** The last loop; [None] when the fuel runs out, which never happens
    ([balance_terminates]). *)
Fixpoint balance (fuel : nat) (c : ShardConfig) : option ShardConfig :=
  match fuel with
  | O => None
  | S fuel' =>
      let '(mg, mn, lg, ln) := analyze c in
      if mn <? ln + 2 then Some c
      else balance fuel' (with_shards c (move_one mg lg (Shards c)))
  end.

Definition Rebalance (c : ShardConfig) : option ShardConfig :=
  if decide (size (Groups c) < 1)%nat then
    Some (with_shards c ((fun _ => 0) <$> Shards c))
  else
    balance (NShards * NShards) (foldl assign_shard c (seq 0 (length (Shards c)))).

(** [log.Fatalf] ends the process.  The loops of [Join] over the members of the new
    group and of the existing ones only look for a common server. *)
Definition shares_server (servers : list string) (groups : gmap Z (list string)) : bool :=
  existsb (fun xs => existsb (fun s => bool_decide (s ∈ servers)) xs.2) (map_to_list groups).

(** The loop of [Join]; [servers] is the Go map in the order it is iterated.  The
    groups added before a known gid is met stay in the map. *)
Fixpoint Join_loop (groups : gmap Z (list string)) (servers : list (Z * list string))
  : outcome (gmap Z (list string) * bool) :=
  match servers with
  | [] => Ret (groups, true)
  | (gid, srvs) :: servers' =>
      match groups !! gid with
      | Some _ => Ret (groups, false)
      | None =>
          if shares_server srvs groups then Panic
          else Join_loop (<[gid := srvs]> groups) servers'
      end
  end.

Definition Join (cfg : ShardConfig) (servers : list (Z * list string))
  : outcome (ShardConfig * bool) :=
  '(groups, ok) ← Join_loop (Groups cfg) servers;
  if ok : bool then
    match servers with
    | [] => Panic
    | _ => Ret (mkShardConfig (wrap64 (Num cfg + 1)) (Shards cfg) groups, true)
    end
  else Ret (mkShardConfig (Num cfg) (Shards cfg) groups, false).

Fixpoint Leave_loop (groups : gmap Z (list string)) (gids : list Z)
  : gmap Z (list string) * bool :=
  match gids with
  | [] => (groups, true)
  | gid :: gids' =>
      match groups !! gid with
      | None => (groups, false)
      | Some _ => Leave_loop (delete gid groups) gids'
      end
  end.

Definition Leave (cfg : ShardConfig) (gids : list Z) : outcome (ShardConfig * bool) :=
  let '(groups, ok) := Leave_loop (Groups cfg) gids in
  if ok : bool then
    match gids with
    | [] => Panic
    | _ => Ret (mkShardConfig (wrap64 (Num cfg + 1)) (Shards cfg) groups, true)
    end
  else Ret (mkShardConfig (Num cfg) (Shards cfg) groups, false).

(** A loop that does not end would be [Blocked]. *)
Definition rebalanced (c : ShardConfig) : outcome ShardConfig :=
  match Rebalance c with Some c' => Ret c' | None => Blocked end.

Definition JoinBalance (cfg : ShardConfig) (servers : list (Z * list string))
  : outcome (ShardConfig * bool) :=
  '(c, ok) ← Join cfg servers;
  if ok : bool then c' ← rebalanced c; Ret (c', true) else Ret (c, false).

Definition LeaveBalance (cfg : ShardConfig) (gids : list Z) : outcome (ShardConfig * bool) :=
  '(c, ok) ← Leave cfg gids;
  if ok : bool then c' ← rebalanced c; Ret (c', true) else Ret (c, false).

Definition GidServers (cfg : ShardConfig) (sh : Z) : outcome (Z * list string * bool) :=
  if 0 <=? sh then
    match Shards cfg !! Z.to_nat sh with
    | Some gid =>
        match Groups cfg !! gid with
        | Some srvs => Ret (gid, srvs, true)
        | None => Ret (gid, [], false)
        end
    | None => Panic
    end
  else Panic.

Definition IsMember (cfg : ShardConfig) (gid : Z) : bool :=
  existsb (fun g => g =? gid) (Shards cfg).

(** [CheckConfig]; [fatalf] ends the test.  The map of groups is iterated in some
    order; the minimum and the maximum do not depend on it. *)
Definition CheckConfig (cfg : ShardConfig) (groups : list Z) : outcome unit :=
  if negb (size (Groups cfg) =? length groups)%nat then Panic
  else if negb (forallb (fun g => bool_decide (is_Some (Groups cfg !! g))) groups) then Panic
  else if (0 <? length groups)%nat &&
          negb (forallb (fun g => bool_decide (is_Some (Groups cfg !! g))) (Shards cfg)) then Panic
  else
    let min := foldl (fun m g => if count_gid g (Shards cfg) <? m then count_gid g (Shards cfg) else m)
                 257 (map_to_list (Groups cfg)).*1 in
    let max := foldl (fun m g => if count_gid g (Shards cfg) >? m then count_gid g (Shards cfg) else m)
                 0 (map_to_list (Groups cfg)).*1 in
    if max >? min + 1 then Panic else Ret tt.

(** ** Counting *)

Lemma count_gid_cons g x l : count_gid g (x :: l) = (if decide (x = g) then 1 else 0) + count_gid g l.
Proof.
  unfold count_gid. destruct (decide (x = g)) as [H|H];
    [rewrite filter_cons_True by done; simpl; lia|by rewrite filter_cons_False by done].
Qed.

Lemma count_gid_bounds g l : 0 <= count_gid g l <= Z.of_nat (length l).
Proof.
  induction l as [|x l IH]; [done|]. rewrite count_gid_cons. simpl. destruct (decide _); lia.
Qed.

Lemma count_gid_perm g l l' : l ≡ₚ l' -> count_gid g l = count_gid g l'.
Proof. intros H. unfold count_gid. by rewrite H. Qed.

(** The number of ordered pairs of distinct shards in the same group. *)
Fixpoint energy (l : list Z) : Z :=
  match l with [] => 0 | x :: l' => 2 * count_gid x l' + energy l' end.

Lemma energy_perm l l' : l ≡ₚ l' -> energy l = energy l'.
Proof.
  induction 1 as [|x l l' Hp IH|x y l|l1 l2 l3 _ IH1 _ IH2]; [done| | |lia]; simpl.
  - by rewrite IH, (count_gid_perm x l l' Hp).
  - rewrite !count_gid_cons. destruct (decide (x = y)), (decide (y = x)); try congruence; lia.
Qed.

Lemma energy_bounds l : 0 <= energy l <= Z.of_nat (length l) * Z.of_nat (length l).
Proof.
  induction l as [|x l IH]; [done|]. simpl. pose proof (count_gid_bounds x l). nia.
Qed.

(** [move_one] takes one [mg] out and puts one [lg] in. *)
Lemma move_one_perm mg lg l :
  0 < count_gid mg l -> exists r, l ≡ₚ mg :: r /\ move_one mg lg l ≡ₚ lg :: r.
Proof.
  induction l as [|x l IH]; [by unfold count_gid|]. rewrite count_gid_cons. simpl.
  destruct (Z.eqb_spec x mg) as [->|Hne].
  - intros _. by exists l.
  - destruct (decide (x = mg)); [done|]. intros H. destruct IH as (r & H1 & H2); [lia|].
    exists (x :: r). split; [rewrite H1|rewrite H2]; apply Permutation_swap.
Qed.

Lemma move_one_length mg lg l : length (move_one mg lg l) = length l.
Proof. induction l as [|x l IH]; [done|]. simpl. destruct (x =? mg); simpl; by rewrite ?IH. Qed.

Lemma move_one_elem mg lg l x : x ∈ move_one mg lg l -> x = lg \/ x ∈ l.
Proof.
  induction l as [|y l IH]; [by right|]. simpl. destruct (y =? mg); rewrite !elem_of_cons; tauto.
Qed.

(** Moving a shard from a group that has at least two more lowers the energy. *)
Lemma move_one_energy mg lg l :
  count_gid lg l + 2 <= count_gid mg l -> energy (move_one mg lg l) + 2 <= energy l.
Proof.
  intros H. pose proof (count_gid_bounds lg l).
  destruct (move_one_perm mg lg l) as (r & H1 & H2); [lia|].
  rewrite (energy_perm _ _ H1), (energy_perm _ _ H2). simpl.
  rewrite !(count_gid_perm _ _ _ H1), !count_gid_cons in H.
  destruct (decide (mg = lg)), (decide (mg = mg)); subst; try done; lia.
Qed.

(** ** [analyze] *)

Lemma elem_of_sorted_gids groups g : g ∈ sorted_gids groups <-> is_Some (groups !! g).
Proof.
  unfold sorted_gids. rewrite merge_sort_Permutation, list_elem_of_fmap. split.
  - intros ([g' srvs] & -> & Hin). apply elem_of_map_to_list in Hin. by exists srvs.
  - intros [srvs H]. exists (g, srvs). split; [done|]. by apply elem_of_map_to_list.
Qed.

Lemma analyze_fold shards gs : forall mg mn lg ln,
  let '(mg', mn', lg', ln') := foldl (analyze_step shards) (mg, mn, lg, ln) gs in
  ((mg' = mg /\ mn' = mn) \/ (mg' ∈ gs /\ mn' = count_gid mg' shards)) /\
  ((lg' = lg /\ ln' = ln) \/ (lg' ∈ gs /\ ln' = count_gid lg' shards)) /\
  mn <= mn' /\ ln' <= ln /\
  (forall g, g ∈ gs -> ln' <= count_gid g shards <= mn').
Proof.
  induction gs as [|g gs IH]; intros mg mn lg ln.
  - simpl. do 2 (split; [by left|]). do 2 (split; [lia|]). by intros g ?%elem_of_nil.
  - cbn [foldl]. unfold analyze_step at 2. rewrite Z.gtb_ltb.
    destruct (Z.ltb_spec (count_gid g shards) ln); destruct (Z.ltb_spec mn (count_gid g shards));
    match goal with |- context [foldl _ (?a, ?b, ?c, ?d) gs] => specialize (IH a b c d) end;
    destruct (foldl _ _ gs) as [[[mg' mn'] lg'] ln'];
    destruct IH as (I1 & I2 & I3 & I4 & I5);
    (split; [destruct I1 as [[-> ->]|[? ->]]; rewrite elem_of_cons; tauto|]);
    (split; [destruct I2 as [[-> ->]|[? ->]]; rewrite elem_of_cons; tauto|]);
    (split; [lia|]); (split; [lia|]);
    intros g' [->|Hg]%elem_of_cons; [lia|by apply I5|lia|by apply I5|lia|by apply I5|lia|by apply I5].
Qed.

Definition cfg_wf (c : ShardConfig) : Prop := length (Shards c) = NShards.

Lemma analyze_spec c :
  cfg_wf c -> (0 < size (Groups c))%nat ->
  let '(mg, mn, lg, ln) := analyze c in
  is_Some (Groups c !! mg) /\ is_Some (Groups c !! lg) /\
  mn = count_gid mg (Shards c) /\ ln = count_gid lg (Shards c) /\
  (forall g, is_Some (Groups c !! g) -> ln <= count_gid g (Shards c) <= mn).
Proof.
  intros Hwf Hsz. unfold analyze.
  pose proof (analyze_fold (Shards c) (sorted_gids (Groups c)) (-1) (-1) (-1) 257) as H.
  destruct (foldl _ _ _) as [[[mg mn] lg] ln]. destruct H as (H1 & H2 & H3 & H4 & H5).
  assert (Hex : exists g, g ∈ sorted_gids (Groups c)).
  { destruct (map_choose (Groups c)) as (g & srvs & Hg).
    - intros He. rewrite He, map_size_empty in Hsz. lia.
    - exists g. apply elem_of_sorted_gids. by exists srvs. }
  destruct Hex as [g0 Hg0]. pose proof (H5 g0 Hg0) as Hb.
  pose proof (count_gid_bounds g0 (Shards c)) as Hc. unfold cfg_wf in Hwf. rewrite Hwf in Hc.
  unfold NShards in Hc. setoid_rewrite elem_of_sorted_gids in H5.
  destruct H1 as [[_ ->]|[H1 ->]]; [lia|]. destruct H2 as [[_ ->]|[H2 ->]]; [lia|].
  apply elem_of_sorted_gids in H1, H2. done.
Qed.

Lemma least_member c :
  cfg_wf c -> (0 < size (Groups c))%nat -> is_Some (Groups c !! least c).
Proof.
  intros Hwf Hsz. pose proof (analyze_spec c Hwf Hsz) as H. unfold least.
  destruct (analyze c) as [[[mg mn] lg] ln]. apply H.
Qed.

(** ** [Rebalance] *)

Definition assigned (c : ShardConfig) : Prop :=
  forall s g, Shards c !! s = Some g -> is_Some (Groups c !! g).

Definition balanced (c : ShardConfig) : Prop :=
  forall g g', is_Some (Groups c !! g) -> is_Some (Groups c !! g') ->
    count_gid g (Shards c) <= count_gid g' (Shards c) + 1.

Lemma with_shards_id c : with_shards c (Shards c) = c.
Proof. by destruct c. Qed.

Lemma move_one_assigned c mg lg :
  is_Some (Groups c !! lg) -> assigned c -> assigned (with_shards c (move_one mg lg (Shards c))).
Proof.
  intros Hlg Ha s g Hs. simpl in *. apply list_elem_of_lookup_2, move_one_elem in Hs as [->|Hin]; [done|].
  apply list_elem_of_lookup in Hin as [s' Hs']. by eapply Ha.
Qed.

Lemma balance_S fuel c :
  balance (S fuel) c =
    let '(mg, mn, lg, ln) := analyze c in
    if mn <? ln + 2 then Some c
    else balance fuel (with_shards c (move_one mg lg (Shards c))).
Proof. reflexivity. Qed.

(** The last loop ends, and ends balanced. *)
Lemma balance_terminates fuel : forall c,
  cfg_wf c -> (0 < size (Groups c))%nat -> energy (Shards c) < Z.of_nat fuel ->
  exists c', balance fuel c = Some c' /\ cfg_wf c' /\ Groups c' = Groups c /\ Num c' = Num c /\
    balanced c' /\ (assigned c -> assigned c').
Proof.
  induction fuel as [|fuel IH]; intros c Hwf Hsz Hf.
  { pose proof (energy_bounds (Shards c)). lia. }
  rewrite balance_S. pose proof (analyze_spec c Hwf Hsz) as Ha.
  destruct (analyze c) as [[[mg mn] lg] ln]. destruct Ha as (Hmg & Hlg & -> & -> & Hall).
  destruct (Z.ltb_spec (count_gid mg (Shards c)) (count_gid lg (Shards c) + 2)) as [Hlt|Hge].
  - exists c. do 4 (split; [done|]). split; [|done]. intros g g' Hg Hg'.
    pose proof (Hall g Hg). pose proof (Hall g' Hg'). lia.
  - pose proof (move_one_energy mg lg (Shards c) Hge) as He.
    destruct (IH (with_shards c (move_one mg lg (Shards c)))) as (c' & E & W & G & N & B & A).
    + unfold cfg_wf. simpl. by rewrite move_one_length.
    + done.
    + simpl. lia.
    + exists c'. do 5 (split; [done|]). intros H. apply A. by apply move_one_assigned.
Qed.

(** The loop that assigns the unassigned shards, up to shard [k]. *)
Lemma assign_shards_spec k : forall c,
  cfg_wf c -> (0 < size (Groups c))%nat -> (k <= NShards)%nat ->
  let c' := foldl assign_shard c (seq 0 k) in
  cfg_wf c' /\ Groups c' = Groups c /\ Num c' = Num c /\
  (forall s g, (s < k)%nat -> Shards c' !! s = Some g -> is_Some (Groups c !! g)) /\
  (forall s g, Shards c !! s = Some g -> is_Some (Groups c !! g) \/ (k <= s)%nat ->
     Shards c' !! s = Some g).
Proof.
  induction k as [|k IH]; intros c Hwf Hsz Hk; [by repeat split; try lia|].
  rewrite seq_S, foldl_app. cbn [foldl].
  destruct (IH c Hwf Hsz ltac:(lia)) as (W & G & N & A & K).
  remember (foldl assign_shard c (seq 0 k)) as c1 eqn:Ec1.
  unfold assign_shard. simpl Nat.add.
  destruct (lookup_lt_is_Some_2 (Shards c1) k) as [g Hg]; [unfold cfg_wf in W; lia|]. rewrite Hg.
  destruct (Groups c1 !! g) as [srvs|] eqn:Hgg.
  - do 3 (split; [done|]). split.
    + intros s g' Hs Hl. destruct (decide (s = k)) as [->|]; [|by apply (A s); [lia|done]].
      simplify_eq. rewrite <- G. by exists srvs.
    + intros s g' Hl Hor. apply K; [done|]. destruct Hor as [?|?]; [by left|right; lia].
  - assert (Hlk : (k < length (Shards c1))%nat) by (by eapply lookup_lt_Some).
    split; [unfold cfg_wf; simpl; by rewrite length_insert|]. do 2 (split; [done|]). simpl. split.
    + intros s g' Hs Hl. destruct (decide (k = s)) as [<-|Hne].
      * rewrite list_lookup_insert_eq in Hl by done. injection Hl as <-. rewrite <- G.
        apply least_member; [done|by rewrite G].
      * rewrite list_lookup_insert_ne in Hl by done. apply (A s); [lia|done].
    + intros s g' Hl Hor. destruct (decide (k = s)) as [<-|Hne].
      * exfalso. pose proof (K k g' Hl (or_intror (le_n k))) as Hl'. simplify_eq.
        destruct Hor as [[srvs Hsome]|Hor]; [congruence|lia].
      * rewrite list_lookup_insert_ne by done. apply K; [done|]. destruct Hor; [by left|right; lia].
Qed.

(** [Rebalance] moves nothing without need: a configuration whose shards are all
    assigned and balanced is left as it is. *)
Theorem Rebalance_stable c :
  cfg_wf c -> Groups c <> ∅ -> assigned c -> balanced c -> Rebalance c = Some c.
Proof.
  intros Hwf Hne Ha Hb. unfold Rebalance.
  assert (Hsz : (0 < size (Groups c))%nat).
  { destruct (size (Groups c)) eqn:E; [|lia]. by destruct Hne; apply map_size_empty_inv. }
  rewrite decide_False by lia.
  assert (H1 : forall k, foldl assign_shard c (seq 0 k) = c).
  { induction k as [|k IH]; [done|]. rewrite seq_S, foldl_app, IH. simpl. unfold assign_shard.
    destruct (Shards c !! k) as [g|] eqn:Hg; [|done]. by destruct (Ha k g Hg) as [srvs ->]. }
  rewrite H1. change (NShards * NShards)%nat with (S 143). rewrite balance_S.
  pose proof (analyze_spec c Hwf Hsz) as Hs. destruct (analyze c) as [[[mg mn] lg] ln].
  destruct Hs as (Hmg & Hlg & -> & -> & _). specialize (Hb mg lg Hmg Hlg).
  rewrite (proj2 (Z.ltb_lt _ _)) by lia. done.
Qed.

(** ** [CheckConfig] *)

Lemma gids_of_map (groups : gmap Z (list string)) g :
  g ∈ (map_to_list groups).*1 <-> is_Some (groups !! g).
Proof.
  rewrite <- elem_of_sorted_gids. unfold sorted_gids. by rewrite merge_sort_Permutation.
Qed.

Lemma size_gids (groups : gmap Z (list string)) gs :
  NoDup gs -> (forall g, g ∈ gs <-> is_Some (groups !! g)) -> size groups = length gs.
Proof.
  intros Hnd Hin. transitivity (length (map_to_list groups).*1).
  { by rewrite length_fmap, length_map_to_list. }
  apply Permutation_length, NoDup_Permutation; [apply NoDup_fst_map_to_list|done|].
  intros g. by rewrite gids_of_map, Hin.
Qed.

Lemma fold_max shards gs : forall m,
  let m' := foldl (fun m g => if count_gid g shards >? m then count_gid g shards else m) m gs in
  m <= m' /\ (m' = m \/ exists g, g ∈ gs /\ m' = count_gid g shards).
Proof.
  induction gs as [|g gs IH]; intros m; [by split; [|left]|]. cbn [foldl]. rewrite Z.gtb_ltb.
  destruct (Z.ltb_spec m (count_gid g shards));
    [destruct (IH (count_gid g shards)) as [H1 H2]|destruct (IH m) as [H1 H2]]; (split; [lia|]).
  - right. destruct H2 as [->|(g' & Hin & ->)]; [exists g|exists g']; rewrite elem_of_cons; auto.
  - destruct H2 as [->|(g' & Hin & ->)]; [by left|right; exists g']; rewrite elem_of_cons; auto.
Qed.

Lemma fold_min shards gs : forall m,
  let m' := foldl (fun m g => if count_gid g shards <? m then count_gid g shards else m) m gs in
  m' <= m /\ (m' = m \/ exists g, g ∈ gs /\ m' = count_gid g shards).
Proof.
  induction gs as [|g gs IH]; intros m; [by split; [|left]|]. cbn [foldl].
  destruct (Z.ltb_spec (count_gid g shards) m);
    [destruct (IH (count_gid g shards)) as [H1 H2]|destruct (IH m) as [H1 H2]]; (split; [lia|]).
  - right. destruct H2 as [->|(g' & Hin & ->)]; [exists g|exists g']; rewrite elem_of_cons; auto.
  - destruct H2 as [->|(g' & Hin & ->)]; [by left|right; exists g']; rewrite elem_of_cons; auto.
Qed.

(** The configurations the controller is meant to keep. *)
Record cfg_good (c : ShardConfig) : Prop := {
  cg_wf : cfg_wf c;
  cg_empty : Groups c = ∅ -> forall s g, Shards c !! s = Some g -> g = 0;
  cg_assigned : Groups c <> ∅ -> assigned c;
  cg_balanced : Groups c <> ∅ -> balanced c
}.

Lemma cfg_good_check c groups :
  cfg_good c -> NoDup groups -> (forall g, g ∈ groups <-> is_Some (Groups c !! g)) ->
  CheckConfig c groups = Ret tt.
Proof.
  intros [Hwf He Ha Hb] Hnd Hin. unfold CheckConfig.
  rewrite (size_gids (Groups c) groups Hnd Hin), Nat.eqb_refl. simpl.
  rewrite (proj2 (forallb_forall _ groups)); cycle 1.
  { intros g Hg. apply bool_decide_eq_true. apply Hin. by apply list_elem_of_In. }
  simpl. destruct (decide (Groups c = ∅)) as [Hemp|Hne].
  - destruct groups as [|g groups].
    + simpl. rewrite Hemp, map_to_list_empty. done.
    + exfalso. destruct (proj1 (Hin g) (list_elem_of_here _ _)) as [srvs Hs].
      rewrite Hemp in Hs. by rewrite lookup_empty in Hs.
  - rewrite (proj2 (forallb_forall _ (Shards c))); cycle 1.
    { intros g Hg. apply bool_decide_eq_true. apply list_elem_of_In, list_elem_of_lookup in Hg as [s Hs].
      by apply (Ha Hne s). }
    simpl. rewrite andb_false_r.
    pose proof (fold_max (Shards c) (map_to_list (Groups c)).*1 0) as Hmax.
    pose proof (fold_min (Shards c) (map_to_list (Groups c)).*1 257) as Hmin. cbv zeta in *.
    destruct Hmax as [_ Hmax]. destruct Hmin as [Hm Hmin].
    rewrite Z.gtb_ltb, (proj2 (Z.ltb_ge _ _)); [done|].
    destruct Hmax as [->|(g & Hg & ->)]; destruct Hmin as [->|(g' & Hg' & ->)].
    + lia.
    + pose proof (count_gid_bounds g' (Shards c)). lia.
    + pose proof (count_gid_bounds g (Shards c)). unfold cfg_wf, NShards in Hwf. lia.
    + apply gids_of_map in Hg, Hg'. by apply (Hb Hne).
Qed.

Lemma Rebalance_good c : cfg_wf c -> exists c', Rebalance c = Some c' /\ cfg_good c' /\
  Groups c' = Groups c /\ Num c' = Num c.
Proof.
  intros Hwf. unfold Rebalance. destruct (decide (size (Groups c) < 1)%nat) as [Hlt|Hge].
  - assert (He : Groups c = ∅) by (apply map_size_empty_inv; lia).
    eexists. split; [reflexivity|]. split; [|done]. split; simpl; try done.
    + unfold cfg_wf. simpl. by rewrite length_fmap.
    + intros _ s g (x & -> & _)%list_lookup_fmap_Some. done.
  - pose proof (assign_shards_spec (length (Shards c)) c Hwf ltac:(lia) ltac:(by rewrite Hwf))
      as (W & G & N & A & K).
    set (c1 := foldl assign_shard c (seq 0 (length (Shards c)))) in *.
    unfold cfg_wf in W.
    assert (Hen : energy (Shards c1) < Z.of_nat (NShards * NShards)).
    { destruct (Shards c1) as [|x l] eqn:E; [done|]. simpl in *. pose proof (energy_bounds l).
      pose proof (count_gid_bounds x l). injection W as W. rewrite W in *. unfold NShards in *. lia. }
    destruct (balance_terminates _ c1 W ltac:(rewrite G; lia) Hen) as (c' & E & W' & G' & N' & B & A').
    exists c'. split; [exact E|]. split; [|split; congruence]. split; [done| | |done].
    + intros He. rewrite G', G in He. rewrite He, map_size_empty in Hge. lia.
    + intros _. apply A'. intros s g Hs. rewrite G. apply (A s); [|done].
      rewrite Hwf, <- W. by eapply lookup_lt_Some.
Qed.

(** C25: [Rebalance] terminates and balances.  From any configuration: without groups
    every shard is unassigned; with groups every shard ends up at a group of
    the configuration and no group has two shards more than another. *)
Theorem Rebalance_correct c :
  cfg_wf c ->
  exists c', Rebalance c = Some c' /\ cfg_wf c' /\ Groups c' = Groups c /\ Num c' = Num c /\
    (Groups c = ∅ -> forall s g, Shards c' !! s = Some g -> g = 0) /\
    (Groups c <> ∅ -> assigned c' /\ balanced c').
Proof.
  intros Hwf. destruct (Rebalance_good c Hwf) as (c' & E & [W He Ha Hb] & G & N).
  exists c'. rewrite <- G. by repeat split; auto.
Qed.

(** ** [Join] and [Leave] *)

(** No server is in two groups. *)
Definition groups_disjoint (groups : gmap Z (list string)) : Prop :=
  forall g1 g2 s1 s2 x, groups !! g1 = Some s1 -> groups !! g2 = Some s2 ->
    g1 <> g2 -> x ∈ s1 -> x ∈ s2 -> False.

Lemma shares_server_false srvs groups :
  shares_server srvs groups = false <->
  forall g xs x, groups !! g = Some xs -> x ∈ xs -> x ∈ srvs -> False.
Proof.
  unfold shares_server. rewrite <- not_true_iff_false, existsb_exists. split.
  - intros Hn g xs x Hg Hx Hs. apply Hn. exists (g, xs). split.
    + apply list_elem_of_In. by apply elem_of_map_to_list.
    + apply existsb_exists. exists x. split; [by apply list_elem_of_In|by apply bool_decide_eq_true].
  - intros Hall ([g xs] & Hin & Hex). apply list_elem_of_In, elem_of_map_to_list in Hin.
    apply existsb_exists in Hex as (x & Hx%list_elem_of_In & Hs%bool_decide_eq_true).
    by eapply Hall.
Qed.

Lemma groups_disjoint_insert gid srvs groups :
  groups_disjoint groups -> groups !! gid = None -> shares_server srvs groups = false ->
  groups_disjoint (<[gid := srvs]> groups).
Proof.
  rewrite shares_server_false. intros Hd Hn Hs g1 g2 s1 s2 x H1 H2 Hne Hx1 Hx2.
  destruct (decide (gid = g1)) as [<-|N1], (decide (gid = g2)) as [<-|N2]; try done.
  - rewrite lookup_insert_eq in H1. rewrite lookup_insert_ne in H2 by done. simplify_eq. by eapply Hs.
  - rewrite lookup_insert_eq in H2. rewrite lookup_insert_ne in H1 by done. simplify_eq. by eapply Hs.
  - rewrite lookup_insert_ne in H1 by done. rewrite lookup_insert_ne in H2 by done. by apply (Hd g1 g2 s1 s2 x).
Qed.

Lemma Join_loop_spec servers : forall groups groups' ok,
  Join_loop groups servers = Ret (groups', ok) ->
  (groups_disjoint groups -> groups_disjoint groups') /\ groups ⊆ groups' /\
  (ok = true -> groups' = list_to_map servers ∪ groups /\ NoDup servers.*1 /\
     forall g, g ∈ servers.*1 -> groups !! g = None) /\
  (ok = false -> exists g, g ∈ servers.*1 /\ is_Some (groups' !! g)).
Proof.
  induction servers as [|[gid srvs] servers IH]; intros groups groups' ok.
  - simpl. intros [= <- <-]. split; [done|]. split; [done|]. split; [|done].
    intros _. split; [by rewrite (left_id_L ∅ (∪))|]. split; [constructor|by intros g ?%elem_of_nil].
  - cbn [Join_loop]. destruct (groups !! gid) as [old|] eqn:Hg.
    + intros [= <- <-]. do 3 (split; [done|]). intros _. exists gid.
      split; [apply list_elem_of_here|by exists old].
    + destruct (shares_server srvs groups) eqn:Hsh; [done|]. intros H.
      destruct (IH _ _ _ H) as (H1 & H2 & H3 & H4). split; [|split; [|split]].
      * intros Hd. apply H1. by apply groups_disjoint_insert.
      * etrans; [|exact H2]. by apply insert_subseteq.
      * intros Hok. destruct (H3 Hok) as (-> & Hnd & Hall). split; [|split].
        -- simpl. rewrite <- insert_union_r; [by rewrite insert_union_l|].
           apply not_elem_of_list_to_map. intros Hin. specialize (Hall gid Hin).
           by rewrite lookup_insert_eq in Hall.
        -- rewrite fmap_cons. constructor; [|done]. intros Hin. specialize (Hall gid Hin).
           by rewrite lookup_insert_eq in Hall.
        -- intros g. rewrite fmap_cons. intros [->|Hin]%elem_of_cons; [done|].
           specialize (Hall g Hin). by apply lookup_insert_None in Hall as [? _].
      * intros Hok. destruct (H4 Hok) as (g & Hin & Hs). exists g. split; [|done].
        rewrite fmap_cons. by apply elem_of_cons; right.
Qed.

Lemma Leave_loop_spec gids : forall groups groups' ok,
  Leave_loop groups gids = (groups', ok) ->
  groups' ⊆ groups /\
  (ok = true -> NoDup gids /\ (forall g, g ∈ gids -> is_Some (groups !! g)) /\
     forall g, groups' !! g = if decide (g ∈ gids) then None else groups !! g).
Proof.
  induction gids as [|gid gids IH]; intros groups groups' ok.
  - simpl. intros [= <- <-]. split; [done|]. intros _. split; [constructor|]. split; [|done].
    by intros g ?%elem_of_nil.
  - cbn [Leave_loop]. destruct (groups !! gid) as [old|] eqn:Hg.
    + intros H. destruct (IH _ _ _ H) as [Hsub Hok]. split.
      { etrans; [exact Hsub|apply delete_subseteq]. }
      intros Ht. destruct (Hok Ht) as (Hnd & Hall & Hlk). split; [|split].
      * constructor; [|done]. intros Hin. destruct (Hall gid Hin) as [x Hx].
        by rewrite lookup_delete_eq in Hx.
      * intros g [->|Hin]%elem_of_cons; [by exists old|].
        destruct (Hall g Hin) as [x Hx]. apply lookup_delete_Some in Hx as [_ Hx]. by exists x.
      * intros g. rewrite Hlk. destruct (decide (g ∈ gids)) as [Hin|Hnin];
          destruct (decide (g ∈ gid :: gids)) as [Hin'|Hnin'].
        -- done.
        -- destruct Hnin'. by apply elem_of_cons; right.
        -- apply elem_of_cons in Hin' as [->|?]; [by rewrite lookup_delete_eq|done].
        -- rewrite lookup_delete_ne; [done|]. intros ->. apply Hnin', list_elem_of_here.
    + intros [= <- <-]. by split.
Qed.

Lemma groups_disjoint_subset groups groups' :
  groups' ⊆ groups -> groups_disjoint groups -> groups_disjoint groups'.
Proof.
  intros Hs Hd g1 g2 s1 s2 x H1 H2. apply (Hd g1 g2 s1 s2 x); by eapply lookup_weaken.
Qed.

(** ** Changes of one group *)

Lemma Copy_id cfg : Copy cfg = cfg.
Proof.
  destruct cfg as [num shards groups]. unfold Copy. simpl. f_equal.
  apply (map_fold_weak_ind (fun r m => r = m)); [done|]. by intros g srvs m r _ ->.
Qed.

(** Joining one unknown group whose servers are new. *)
Lemma JoinBalance_one cfg gid srvs :
  cfg_wf cfg -> Groups cfg !! gid = None -> shares_server srvs (Groups cfg) = false ->
  exists c', JoinBalance cfg [(gid, srvs)] = Ret (c', true) /\ cfg_good c' /\
    Num c' = wrap64 (Num cfg + 1) /\ Groups c' = <[gid := srvs]> (Groups cfg).
Proof.
  intros Hwf Hn Hs. unfold JoinBalance, Join. cbn [Join_loop]. rewrite Hn, Hs. step_bind.
  set (c := mkShardConfig _ _ _). destruct (Rebalance_good c Hwf) as (c' & E & Hgood & G & N).
  unfold rebalanced. rewrite E. step_bind. exists c'. by rewrite G, N.
Qed.

(** One known group leaves. *)
Lemma LeaveBalance_one cfg gid :
  cfg_wf cfg -> is_Some (Groups cfg !! gid) ->
  exists c', LeaveBalance cfg [gid] = Ret (c', true) /\ cfg_good c' /\
    Num c' = wrap64 (Num cfg + 1) /\ Groups c' = delete gid (Groups cfg).
Proof.
  intros Hwf [srvs Hg]. unfold LeaveBalance, Leave. cbn [Leave_loop]. rewrite Hg. step_bind.
  set (c := mkShardConfig _ _ _). destruct (Rebalance_good c Hwf) as (c' & E & Hgood & G & N).
  unfold rebalanced. rewrite E. step_bind. exists c'. by rewrite G, N.
Qed.

Lemma IsMember_shards c gid : IsMember c gid = true <-> gid ∈ Shards c.
Proof.
  unfold IsMember. rewrite existsb_exists. setoid_rewrite <- list_elem_of_In. split.
  - by intros (g & Hin & ->%Z.eqb_eq).
  - intros Hin. exists gid. split; [done|]. apply Z.eqb_refl.
Qed.

Lemma count_gid_pos g l : g ∈ l <-> 0 < count_gid g l.
Proof.
  induction l as [|x l IH].
  - split; [by intros ?%elem_of_nil|done].
  - rewrite count_gid_cons, elem_of_cons, IH. pose proof (count_gid_bounds g l).
    split; [intros [->|?]; [rewrite decide_True by done; lia|destruct (decide _); lia]|].
    destruct (decide (x = g)) as [->|]; [by left|right; lia].
Qed.

Lemma count_gid_NoDup l : (forall g, count_gid g l <= 1) -> NoDup l.
Proof.
  induction l as [|x l IH]; intros H; constructor.
  - rewrite count_gid_pos. specialize (H x). rewrite count_gid_cons, decide_True in H by done. lia.
  - apply IH. intros g. specialize (H g). rewrite count_gid_cons in H. destruct (decide _); lia.
Qed.

Lemma NoDup_count_gid l g : NoDup l -> count_gid g l <= 1.
Proof.
  induction 1 as [|x l Hx Hnd IH]; [done|]. rewrite count_gid_cons. destruct (decide (x = g)) as [->|]; [|lia].
  rewrite count_gid_pos in Hx. lia.
Qed.

(** With at most as many groups as shards, every group has one. *)
Lemma good_count_pos c gid :
  cfg_good c -> (size (Groups c) <= NShards)%nat -> is_Some (Groups c !! gid) -> 0 < count_gid gid (Shards c).
Proof.
  intros [Hwf He Ha Hb] Hsz Hg. destruct (Z.lt_ge_cases 0 (count_gid gid (Shards c))) as [|Hc]; [done|].
  assert (Hne : Groups c <> ∅) by (intros Hemp; rewrite Hemp, lookup_empty in Hg; by destruct Hg).
  exfalso. assert (Hnd : NoDup (Shards c)).
  { apply count_gid_NoDup. intros g. destruct (decide (g ∈ Shards c)) as [[s Hs]%list_elem_of_lookup|Hn].
    - pose proof (Hb Hne g gid (Ha Hne s g Hs) Hg). lia.
    - rewrite count_gid_pos in Hn. lia. }
  assert (Hsub : list_to_set (Shards c) ⊆ dom (Groups c) ∖ {[gid]}).
  { intros g Hin%elem_of_list_to_set. apply elem_of_difference. split.
    - apply elem_of_dom. apply list_elem_of_lookup in Hin as [s Hs]. by apply (Ha Hne s).
    - intros ->%elem_of_singleton. apply count_gid_pos in Hin. lia. }
  apply subseteq_size in Hsub. rewrite size_list_to_set, size_difference in Hsub;
    [|by apply singleton_subseteq_l, elem_of_dom|done].
  rewrite size_dom, size_singleton, Hwf in Hsub. unfold NShards in *. lia.
Qed.

(** [IsMember] looks at the shards, not at the groups. *)
Lemma IsMember_spec c gid :
  cfg_good c -> (size (Groups c) <= NShards)%nat -> gid <> 0 ->
  IsMember c gid = bool_decide (is_Some (Groups c !! gid)).
Proof.
  intros Hgood Hsz H0. apply eq_true_iff_eq. rewrite IsMember_shards, bool_decide_eq_true. split.
  - destruct Hgood as [Hwf He Ha Hb]. intros [s Hs]%list_elem_of_lookup.
    destruct (decide (Groups c = ∅)) as [Hemp|Hne]; [by destruct H0; apply (He Hemp s)|by apply (Ha Hne s)].
  - intros Hg. by apply count_gid_pos, good_count_pos.
Qed.

(** As many groups as shards: one shard each, and one more group gets none. *)
Lemma JoinBalance_full cfg gid srvs :
  cfg_good cfg -> size (Groups cfg) = NShards -> Groups cfg !! gid = None ->
  shares_server srvs (Groups cfg) = false ->
  JoinBalance cfg [(gid, srvs)] =
    Ret (mkShardConfig (wrap64 (Num cfg + 1)) (Shards cfg) (<[gid := srvs]> (Groups cfg)), true) /\
  gid ∉ Shards cfg.
Proof.
  intros Hgood Hsz Hn Hs. pose proof Hgood as [Hwf _ Ha _].
  assert (Hne : Groups cfg <> ∅) by (intros He; by rewrite He, map_size_empty in Hsz).
  assert (Hp : elements (dom (Groups cfg)) ≡ₚ Shards cfg).
  { apply submseteq_length_Permutation.
    - apply NoDup_submseteq; [apply NoDup_elements|]. intros g Hg%elem_of_elements%elem_of_dom.
      apply count_gid_pos, good_count_pos; [done|lia|done].
    - rewrite Hwf, <- Hsz, <- size_dom. done. }
  assert (Hnd : NoDup (Shards cfg)) by (rewrite <- Hp; apply NoDup_elements).
  split.
  - unfold JoinBalance, Join. cbn [Join_loop]. rewrite Hn, Hs. step_bind. unfold rebalanced.
    rewrite Rebalance_stable; [done|done|apply insert_non_empty|..].
    + intros s g Hg. simpl. destruct (decide (gid = g)) as [<-|Hg']; [rewrite lookup_insert_eq; by eexists|].
      rewrite lookup_insert_ne by done. by apply (Ha Hne s).
    + intros g g' _ _. simpl. pose proof (NoDup_count_gid _ g Hnd). pose proof (count_gid_bounds g' (Shards cfg)). lia.
  - intros [s Hg]%list_elem_of_lookup. destruct (Ha Hne s gid Hg) as [x Hx]. congruence.
Qed.

(** A server of a group that is to join is in another group too, old or new. *)
Definition conflict (groups : gmap Z (list string)) (servers : list (Z * list string)) : Prop :=
  exists g1 s1 g2 s2 x, (g1, s1) ∈ servers /\ (groups !! g2 = Some s2 \/ (g2, s2) ∈ servers) /\
    g1 <> g2 /\ x ∈ s1 /\ x ∈ s2.

Lemma conflict_cons gid srvs groups servers :
  groups !! gid = None -> conflict (<[gid := srvs]> groups) servers -> conflict groups ((gid, srvs) :: servers).
Proof.
  intros Hn (g1 & s1 & g2 & s2 & x & H1 & H2 & Hne & Hx1 & Hx2). exists g1, s1, g2, s2, x.
  split; [by apply list_elem_of_further|]. split; [|done].
  destruct H2 as [[[<- <-]|[_ H2]]%lookup_insert_Some|H2]; [right; apply list_elem_of_here|by left|].
  right. by apply list_elem_of_further.
Qed.

(** How the loop ends, for the groups of a Go map in any order. *)
Lemma Join_loop_cases servers : forall groups, NoDup servers.*1 ->
  match Join_loop groups servers with
  | Ret (groups', ok) => ok = false -> exists g, g ∈ servers.*1 /\ is_Some (groups !! g)
  | Panic => conflict groups servers
  | Blocked => False
  end.
Proof.
  induction servers as [|[gid srvs] servers IH]; intros groups Hnd; [done|]. cbn [Join_loop].
  rewrite fmap_cons in Hnd. apply NoDup_cons in Hnd as [Hni Hnd].
  destruct (groups !! gid) as [old|] eqn:Hg; [intros _; exists gid; split; [apply list_elem_of_here|by exists old]|].
  destruct (shares_server srvs groups) eqn:Hsh.
  - unfold shares_server in Hsh. apply existsb_exists in Hsh as ([g2 s2] & Hin & Hex).
    apply list_elem_of_In, elem_of_map_to_list in Hin.
    apply existsb_exists in Hex as (x & Hx%list_elem_of_In & Hs%bool_decide_eq_true).
    exists gid, srvs, g2, s2, x. split; [apply list_elem_of_here|]. split; [by left|].
    split; [congruence|done].
  - specialize (IH (<[gid := srvs]> groups) Hnd). destruct (Join_loop _ _) as [[groups' ok]| |]; [|by apply conflict_cons|done].
    intros Hok. destruct (IH Hok) as (g & Hin & Hs). exists g. rewrite fmap_cons. split; [by apply elem_of_cons; right|].
    rewrite lookup_insert_ne in Hs; [done|]. by intros ->.
Qed.

(** C26: [JoinBalance], for the groups of a Go map (each once, in any order) and a
    configuration in which no server is in two groups.  It ends the process only when there
    is nothing to join or a server of a new group is in another group, old or new.  It
    answers false only when a group was already in the configuration; the number and the
    assignment then stay, the old groups too, and no server is in two groups.  Otherwise it
    answers true: the groups to join were unknown, the configuration number is one up, the
    groups are the old and the new ones, no server is in two groups, and the assignment
    passes [CheckConfig]. *)
Theorem JoinBalance_spec cfg servers :
  cfg_wf cfg -> groups_disjoint (Groups cfg) -> NoDup servers.*1 ->
  match JoinBalance cfg servers with
  | Panic => servers = [] \/ conflict (Groups cfg) servers
  | Blocked => False
  | Ret (cfg', false) =>
      (exists g, g ∈ servers.*1 /\ is_Some (Groups cfg !! g)) /\
      Num cfg' = Num cfg /\ Shards cfg' = Shards cfg /\ Groups cfg ⊆ Groups cfg' /\ groups_disjoint (Groups cfg')
  | Ret (cfg', true) =>
      (forall g, g ∈ servers.*1 -> Groups cfg !! g = None) /\
      Num cfg' = wrap64 (Num cfg + 1) /\ Groups cfg' = list_to_map servers ∪ Groups cfg /\ groups_disjoint (Groups cfg') /\
      forall gs, NoDup gs -> (forall g, g ∈ gs <-> is_Some (Groups cfg' !! g)) -> CheckConfig cfg' gs = Ret tt
  end.
Proof.
  intros Hwf Hd Hnd. pose proof (Join_loop_cases servers (Groups cfg) Hnd) as Hcases. unfold JoinBalance, Join.
  destruct (Join_loop (Groups cfg) servers) as [[groups ok1]| |] eqn:Hj; [|by right|done].
  destruct (Join_loop_spec _ _ _ _ Hj) as (H1 & H2 & H3 & _). step_bind. destruct ok1; step_bind.
  - destruct servers as [|kv servers]; [by left|]. step_bind.
    set (c := mkShardConfig (wrap64 (Num cfg + 1)) (Shards cfg) groups).
    destruct (Rebalance_good c Hwf) as (c' & E & Hgood & G & N).
    unfold rebalanced. rewrite E. step_bind. rewrite G, N.
    destruct (H3 eq_refl) as (Hu & _ & Hn). do 3 (split; [done|]). split; [by apply H1|].
    intros gs Hgs Hin. apply cfg_good_check; [done|done|]. by rewrite G.
  - split; [by apply Hcases|]. repeat split; [exact H2|by apply H1].
Qed.

(** [LeaveBalance].  When it answers true, the groups to leave were present and
    distinct, exactly they are gone, the configuration number is one up and the
    assignment passes [CheckConfig]. *)
Theorem LeaveBalance_spec cfg gids cfg' :
  cfg_wf cfg -> groups_disjoint (Groups cfg) -> LeaveBalance cfg gids = Ret (cfg', true) ->
  groups_disjoint (Groups cfg') /\ Num cfg' = wrap64 (Num cfg + 1) /\
  NoDup gids /\ (forall g, g ∈ gids -> is_Some (Groups cfg !! g)) /\
  (forall g, Groups cfg' !! g = if decide (g ∈ gids) then None else Groups cfg !! g) /\
  (forall gs, NoDup gs -> (forall g, g ∈ gs <-> is_Some (Groups cfg' !! g)) ->
     CheckConfig cfg' gs = Ret tt).
Proof.
  intros Hwf Hd. unfold LeaveBalance, Leave.
  destruct (Leave_loop (Groups cfg) gids) as [groups ok1] eqn:Hl.
  destruct (Leave_loop_spec _ _ _ _ Hl) as (Hsub & Hok).
  destruct ok1; step_bind; [|done].
  destruct gids as [|g0 gids]; [done|]. step_bind.
  set (c := mkShardConfig (wrap64 (Num cfg + 1)) (Shards cfg) groups).
  destruct (Rebalance_good c Hwf) as (c' & E & Hgood & G & N).
  unfold rebalanced. rewrite E. step_bind. intros [= <-].
  destruct (Hok eq_refl) as (Hnd & Hall & Hlk). rewrite G, N.
  split; [by eapply groups_disjoint_subset|]. do 3 (split; [done|]). split; [exact Hlk|].
  intros gs Hnd' Hin. apply cfg_good_check; [done|done|]. by rewrite G.
Qed.

(** a refused [Leave] is not atomic.  Groups 1 and 2 hold the shards; asked to
    remove groups 1 and 9, [LeaveBalance] answers false because 9 is unknown, but
    group 1 is already gone, the configuration number is unchanged and six shards
    are still assigned to the group that no longer exists. *)
Theorem Leave_refused_not_atomic :
  exists c1 c2, JoinBalance MakeShardConfig [(1, ["a"]); (2, ["b"])] = Ret (c1, true) /\
    LeaveBalance c1 [1; 9] = Ret (c2, false) /\
    Num c2 = Num c1 /\ Groups c2 !! 1 = None /\ count_gid 1 (Shards c2) = 6 /\
    CheckConfig c2 [2] = Panic.
Proof. do 2 eexists. split; [vm_compute; reflexivity|]. split; [vm_compute; reflexivity|]. by vm_compute. Qed.

Definition demo_cfg : ShardConfig :=
  mkShardConfig 1 [1; 1; 1; 1; 1; 1; 2; 2; 2; 2; 2; 2] {[1 := ["a"]; 2 := ["b"]]}.

Lemma Rebalance_correct_witness :
  exists c', Rebalance demo_cfg = Some c' /\ Groups c' = Groups demo_cfg.
Proof.
  destruct (Rebalance_correct demo_cfg eq_refl) as (c' & E & _ & G & _). exists c'.
  split; [exact E|exact G].
Defined.

Lemma demo_gids g srvs : Groups demo_cfg !! g = Some srvs -> (g = 1 /\ srvs = ["a"]) \/ (g = 2 /\ srvs = ["b"]).
Proof.
  simpl. intros [[<- <-]|[_ [<- <-]%lookup_singleton_Some]]%lookup_insert_Some; auto.
Qed.

Lemma demo_disjoint : groups_disjoint (Groups demo_cfg).
Proof.
  intros g1 g2 s1 s2 x [[-> ->]|[-> ->]]%demo_gids [[-> ->]|[-> ->]]%demo_gids Hne; try done;
    intros H1 H2; apply list_elem_of_singleton in H1, H2; congruence.
Qed.

Lemma Rebalance_stable_witness : Rebalance demo_cfg = Some demo_cfg.
Proof.
  apply (Rebalance_stable demo_cfg).
  - reflexivity.
  - intros H. apply (f_equal size) in H. by vm_compute in H.
  - intros s g Hs. apply list_elem_of_lookup_2 in Hs.
    repeat (apply elem_of_cons in Hs as [->|Hs]; [by vm_compute; eauto|]). by apply elem_of_nil in Hs.
  - intros g g' [s1 [[-> _]|[-> _]]%demo_gids] [s2 [[-> _]|[-> _]]%demo_gids]; by vm_compute.
Defined.

(** A new group joins; a group that is known; a server that is in two groups. *)
Lemma JoinBalance_spec_witness :
  (exists c', JoinBalance demo_cfg [(5, ["e"])] = Ret (c', true) /\ Num c' = 2) /\
  (exists c', JoinBalance demo_cfg [(5, ["e"]); (2, ["f"])] = Ret (c', false) /\ Num c' = 1 /\ Groups c' !! 5 = Some ["e"]) /\
  conflict (Groups demo_cfg) [(5, ["e"]); (6, ["e"])].
Proof.
  split; [|split].
  - pose proof (JoinBalance_spec demo_cfg [(5, ["e"])] eq_refl demo_disjoint ltac:(repeat constructor; set_solver)) as H.
    destruct (JoinBalance demo_cfg [(5, ["e"])]) as [[c' ok]| |] eqn:E; [|vm_compute in E; discriminate E..].
    destruct ok; [|vm_compute in E; discriminate E]. exists c'. split; [reflexivity|]. apply H.
  - eexists. split; [vm_compute; reflexivity|]. split; vm_compute; reflexivity.
  - pose proof (JoinBalance_spec demo_cfg [(5, ["e"]); (6, ["e"])] eq_refl demo_disjoint
      ltac:(repeat constructor; set_solver)) as H.
    destruct (JoinBalance demo_cfg _) as [[c' ok]| |] eqn:E; [vm_compute in E; discriminate E| |vm_compute in E; discriminate E].
    destruct H as [H|H]; [discriminate H|exact H].
Defined.

Lemma LeaveBalance_spec_witness :
  exists c', LeaveBalance demo_cfg [2] = Ret (c', true) /\ Groups c' !! 2 = None.
Proof.
  eexists. split; [vm_compute; reflexivity|].
  destruct (LeaveBalance_spec demo_cfg [2] _ eq_refl demo_disjoint ltac:(vm_compute; reflexivity))
    as (_ & _ & _ & _ & H & _). rewrite H. reflexivity.
Defined.
