(* ===== verification/ShardCodec.v ===== *)
(** [ShardConfig.String] and [FromString] of [shardkv1/shardcfg/shardcfg.go]: a
    configuration as JSON text, the form in which it is stored under a key of the
    key/value service. *)
From S2P Require Import Prelude.
From S2P Require Import Json.
From S2P Require Import ShardCfg.
From stdpp Require Import pretty.
Open Scope Z_scope.

(** A Go map is written with its keys as strings, sorted. *)
Definition member_le (a b : string * json) : Prop := string_le a.1 b.1.
#[export] Instance member_le_dec : RelDecision member_le.
Proof. intros a b. unfold member_le. apply _. Defined.

Definition group_members (groups : gmap Z (list string)) : list (string * json) :=
  merge_sort member_le
    ((fun p : Z * list string => (pretty p.1, JArr (map JStr p.2))) <$> map_to_list groups).

Definition ShardConfig_json (cfg : ShardConfig) : json :=
  JObj [("Num", JNum (Num cfg)); ("Shards", JArr (map JNum (Shards cfg)));
        ("Groups", JObj (group_members (Groups cfg)))].

Definition ShardConfig_String (cfg : ShardConfig) : string := Marshal (ShardConfig_json cfg).

(** An integer key of a map: [strconv.ParseInt]. *)
Definition parse_gid (s : string) : option Z :=
  let s := match s with
           | String c (String d s') =>
               if bool_decide (c = "+"%char /\ d <> "-"%char) then String d s' else s
           | _ => s
           end in
  '(z, r) ← parse_num s;
  if bool_decide (r = EmptyString) && (int_min <=? z) && (z <=? int_max) then Some z else None.

(** An array: the elements it has room for, zeros where the text has fewer. *)
Definition into_array (n : nat) (old : list Z) (v : json) : option (list Z) :=
  match v with
  | JNull => Some old
  | JArr l =>
      l' ← mapM (fun p : Z * json => into_int int_min int_max p.1 p.2) (zip old (take n l));
      Some (l' ++ replicate (n - length l') 0)
  | _ => None
  end.

Definition into_groups (old : gmap Z (list string)) (v : json) : option (gmap Z (list string)) :=
  match v with
  | JNull => Some old
  | JObj kvs =>
      foldl (fun acc kv => groups ← acc; gid ← parse_gid kv.1;
                           srvs ← into_slice (into_string "") kv.2;
                           Some (<[gid := srvs]> groups)) (Some old) kvs
  | _ => None
  end.

Definition ShardConfig_member (c : ShardConfig) (kv : string * json) : option ShardConfig :=
  let '(k, v) := kv in
  if is_field "Num" k then n ← into_int int_min int_max (Num c) v; Some (mkShardConfig n (Shards c) (Groups c))
  else if is_field "Shards" k then
    sh ← into_array NShards (Shards c) v; Some (mkShardConfig (Num c) sh (Groups c))
  else if is_field "Groups" k then
    gs ← into_groups (Groups c) v; Some (mkShardConfig (Num c) (Shards c) gs)
  else Some c.

(** [log.Fatalf] when the text cannot be read. *)
Definition FromString (s : string) : outcome ShardConfig :=
  match v ← Unmarshal s; into_struct ShardConfig_member (mkShardConfig 0 (replicate NShards 0) ∅) v with
  | Some c => Ret c
  | None => Panic
  end.

(** ** Round trip *)

(** Everything fits its Go type, and the server names are ASCII. *)
Record encodable (c : ShardConfig) : Prop := {
  enc_shards : length (Shards c) = NShards;
  enc_num : int_min <= Num c <= int_max;
  enc_gids g : g ∈ Shards c -> int_min <= g <= int_max;
  enc_groups g srvs : Groups c !! g = Some srvs ->
    int_min <= g <= int_max /\ forall s, s ∈ srvs -> ascii_string s = true
}.

Lemma group_members_perm groups :
  group_members groups ≡ₚ
    (fun p : Z * list string => (pretty p.1, JArr (map JStr p.2))) <$> map_to_list groups.
Proof. apply merge_sort_Permutation. Qed.

Lemma parse_gid_pretty (z : Z) : int_min <= z <= int_max -> parse_gid (pretty z) = Some z.
Proof.
  intros [H1 H2]. unfold parse_gid.
  assert (match pretty z with
          | String c (String d s') =>
              if bool_decide (c = "+"%char /\ d <> "-"%char) then String d s' else pretty z
          | _ => pretty z end = pretty z) as ->.
  { destruct (pretty z) as [|c [|d s']] eqn:E; [done..|]. rewrite bool_decide_eq_false_2; [done|].
    intros [-> _]. pose proof (parse_num_pretty z "" I) as Hp. by rewrite E in Hp. }
  pose proof (parse_num_pretty z "" I) as Hp. rewrite string_app_nil_r in Hp. rewrite Hp. step_bind.
  apply Z.leb_le in H1, H2. by rewrite H1, H2.
Qed.

Lemma into_strings l : into_slice (into_string "") (JArr (map JStr l)) = Some l.
Proof.
  simpl. rewrite (mapM_map _ _ (fun s => s)) by (by apply Forall_true). by rewrite map_id_ext.
Qed.

Lemma into_groups_members ps : forall old,
  Forall (fun p : Z * list string => int_min <= p.1 <= int_max) ps ->
  into_groups old (JObj ((fun p : Z * list string => (pretty p.1, JArr (map JStr p.2))) <$> ps)) =
    Some (foldl (fun m p => <[p.1 := p.2]> m) old ps).
Proof.
  induction ps as [|[g l] ps IH]; intros old Hps; [done|]. apply Forall_cons in Hps as [Hg Hps].
  cbn [fmap list_fmap]. unfold into_groups. cbn [foldl fst snd]. step_bind.
  rewrite parse_gid_pretty by done. step_bind. rewrite into_strings. step_bind. by apply IH.
Qed.

Lemma foldl_insert_perm (ps : list (Z * list string)) : forall m : gmap Z (list string),
  NoDup ps.*1 -> foldl (fun m p => <[p.1 := p.2]> m) m ps = list_to_map ps ∪ m.
Proof.
  induction ps as [|[g l] ps IH]; intros m Hnd; [simpl; by rewrite (left_id_L ∅ (∪))|].
  cbn [fmap list_fmap fst] in Hnd. apply NoDup_cons in Hnd as [Hg Hnd]. simpl. rewrite IH by done.
  rewrite <- insert_union_l, insert_union_r; [done|]. by apply not_elem_of_list_to_map.
Qed.

Lemma into_array_ints l : length l = NShards -> (forall g, g ∈ l -> int_min <= g <= int_max) ->
  into_array NShards (replicate NShards 0) (JArr (map JNum l)) = Some l.
Proof.
  intros Hlen Hl. unfold into_array.
  rewrite take_ge by (rewrite length_map; lia).
  enough (mapM (fun p : Z * json => into_int int_min int_max p.1 p.2)
            (zip (replicate NShards 0) (map JNum l)) = Some l) as ->.
  { simpl. rewrite Hlen, Nat.sub_diag. simpl. by rewrite app_nil_r. }
  rewrite <- Hlen. clear Hlen. induction l as [|g l IH]; [done|].
  cbn [length replicate map zip_with mapM fst snd]. rewrite into_int_in by (apply Hl; by left).
  cbn. rewrite IH; [done|]. intros g' Hg'. apply Hl. by right.
Qed.

Lemma groups_roundtrip groups :
  (forall g srvs, groups !! g = Some srvs -> int_min <= g <= int_max) ->
  into_groups ∅ (JObj (group_members groups)) = Some groups.
Proof.
  intros Hg.
  destruct (Permutation_map_inv _ _ (group_members_perm groups)) as (ps & Hps & Hperm).
  rewrite Hps.
  assert (Hin : forall p, p ∈ ps -> groups !! p.1 = Some p.2).
  { intros [g l] Hp. apply elem_of_map_to_list. by rewrite Hperm. }
  assert (Hnd : NoDup ps.*1) by (rewrite <- Hperm; apply NoDup_fst_map_to_list).
  change (map ?f ps) with (f <$> ps). rewrite into_groups_members.
  - rewrite foldl_insert_perm by done. rewrite (right_id_L ∅ (∪)).
    rewrite <- (list_to_map_proper _ _ (NoDup_fst_map_to_list groups) Hperm). by rewrite list_to_map_to_list.
  - apply Forall_forall. intros [g l] Hp%Hin. by apply (Hg g l).
Qed.

Lemma encodable_ascii c : encodable c -> ascii_json (ShardConfig_json c) = true.
Proof.
  intros [_ _ _ Hgr].
  assert (Hsh : ascii_json (JArr (map JNum (Shards c))) = true)
    by (change (forallb ascii_json (map JNum (Shards c)) = true); by apply forallb_map_true).
  assert (Hgs : ascii_json (JObj (group_members (Groups c))) = true).
  { change (forallb (fun kv => ascii_string kv.1 && ascii_json kv.2) (group_members (Groups c)) = true).
    apply forallb_forall. intros [k v] Hkv%list_elem_of_In. simpl.
    rewrite group_members_perm in Hkv. apply list_elem_of_fmap in Hkv as ([g l] & [= -> ->] & Hp).
    apply elem_of_map_to_list in Hp. destruct (Hgr g l Hp) as [_ Hs]. rewrite pretty_ascii.
    change (forallb ascii_json (map JStr l) = true). by apply forallb_map_true. }
  unfold ShardConfig_json. simpl in *. by rewrite Hsh, Hgs.
Qed.

(** The three members of the text, each into its own field. *)
Lemma member_Num c v :
  ShardConfig_member c ("Num", v) =
    (n ← into_int int_min int_max (Num c) v; Some (mkShardConfig n (Shards c) (Groups c))).
Proof. reflexivity. Qed.
Lemma member_Shards c v :
  ShardConfig_member c ("Shards", v) =
    (sh ← into_array NShards (Shards c) v; Some (mkShardConfig (Num c) sh (Groups c))).
Proof. reflexivity. Qed.
Lemma member_Groups c v :
  ShardConfig_member c ("Groups", v) =
    (gs ← into_groups (Groups c) v; Some (mkShardConfig (Num c) (Shards c) gs)).
Proof. reflexivity. Qed.

(** C34: [FromString] inverts [String].  Every configuration whose numbers fit their Go
    type and whose server names are ASCII is read back exactly, group by group,
    from the text that was written: nothing is lost on the way through the
    key/value service. *)
Theorem FromString_String c : encodable c -> FromString (ShardConfig_String c) = Ret c.
Proof.
  intros Hc. pose proof (encodable_ascii c Hc) as Ha. destruct Hc as [Hsh Hn Hg Hgr].
  unfold FromString, ShardConfig_String. rewrite Unmarshal_Marshal by done. step_bind.
  unfold into_struct, ShardConfig_json. cbn [foldl]. step_bind.
  rewrite member_Num, into_int_in by done. step_bind.
  rewrite member_Shards, into_array_ints by done. step_bind.
  rewrite member_Groups. cbn [Groups].
  rewrite groups_roundtrip by (intros g srvs Hl; by apply (Hgr g srvs)). step_bind.
  by destruct c.
Qed.

Lemma FromString_String_witness :
  let c := mkShardConfig 7 (replicate NShards 2) {[1 := ["a"; "b"]; 2 := ["c"]]} in
  encodable c /\ FromString (ShardConfig_String c) = Ret c.
Proof.
  set (c := mkShardConfig 7 (replicate NShards 2) {[1 := ["a"; "b"]; 2 := ["c"]]}).
  assert (Hc : encodable c).
  { split.
    - done.
    - vm_compute. split; discriminate.
    - intros g Hg. apply elem_of_replicate in Hg as [-> _]. vm_compute. split; discriminate.
    - intros g srvs Hl. subst c. simpl in Hl.
      apply lookup_insert_Some in Hl as [[<- <-]|[_ Hl]].
      + split; [vm_compute; split; discriminate|]. intros s Hs.
        apply list_elem_of_In in Hs. simpl in Hs. by repeat destruct Hs as [<-|Hs].
      + apply lookup_singleton_Some in Hl as [<- <-].
        split; [vm_compute; split; discriminate|]. intros s Hs.
        apply list_elem_of_In in Hs. simpl in Hs. by repeat destruct Hs as [<-|Hs]. }
  split; [exact Hc|]. exact (FromString_String c Hc).
Defined.
