(* ===== verification/Labrpc.v ===== *)
(** The simulated network of [labrpc/labrpc.go]: its configuration operations, the
    dispatch of a request to a service, and the life of an RPC in
    [processReq], whose goroutines interleave with changes of the
    configuration. *)
From S2P Require Import Prelude.

Definition SHORTDELAY : Z := 27.
Definition LONGDELAY : Z := 7000.
Definition MAXDELAY : Z := LONGDELAY + 100.

Record replyMsg := mkReplyMsg { rm_ok : bool; rm_reply : list Byte.byte }.

Definition no_reply : replyMsg := mkReplyMsg false [].

(** [req.svcMeth[:dot]] and [req.svcMeth[dot+1:]] for the last dot. *)
Fixpoint split_svcMeth (s : string) : option (string * string) :=
  match s with
  | EmptyString => None
  | String c s' =>
      match split_svcMeth s' with
      | Some (svc, meth) => Some (String c svc, meth)
      | None => if Ascii.eqb c "."%char then Some ("", s') else None
      end
  end.

Fixpoint has_dot (s : string) : bool :=
  match s with EmptyString => false | String c s' => Ascii.eqb c "."%char || has_dot s' end.

Lemma split_no_dot s : has_dot s = false -> split_svcMeth s = None.
Proof.
  induction s as [|c s IH]; [done|]. simpl. intros [Hc Hs]%orb_false_elim. by rewrite IH, Hc.
Qed.

(** The last dot separates the service from the method. *)
Lemma split_svcMeth_app svc meth :
  has_dot meth = false -> split_svcMeth (svc +:+ "." +:+ meth) = Some (svc, meth).
Proof.
  intros Hm. induction svc as [|c svc IH].
  - change ("" +:+ "." +:+ meth) with (String "."%char meth). simpl. by rewrite split_no_dot.
  - change (String c svc +:+ "." +:+ meth) with (String c (svc +:+ "." +:+ meth)).
    simpl. by rewrite IH.
Qed.

Section Labrpc.
(** A method of a registered object, what it acts on, and its call through
    [reflect] on the encoded argument ([encoding/gob] included). *)
Context {Method World : Type}.
Variable invoke : Method -> list Byte.byte -> World -> World * list Byte.byte.

Record Service := mkService { svc_name : string; svc_methods : gmap string Method }.

Record Server := mkServer { srv_services : gmap string Service; srv_count : Z }.

(** [argsType] only drives the decoding. *)
Record reqMsg := mkReqMsg {
  rq_endname : string; rq_svcMeth : string; rq_args : list Byte.byte
}.

(** A [*Server] is an index into the store of servers.  A name bound to nil by
    [DeleteServer] is bound to [None], an end without a server to [None]. *)
Record Network := mkNetwork {
  rn_reliable : bool;
  rn_longDelays : bool;
  rn_longReordering : bool;
  rn_ends : gset string;
  rn_enabled : gmap string bool;
  rn_servers : gmap string (option nat);
  rn_connections : gmap string (option string);
  rn_count : Z;
  rn_bytes : Z
}.

Definition MakeNetwork : Network := mkNetwork true false false ∅ ∅ ∅ ∅ 0 0.

Definition Reliable (rn : Network) (yes : bool) : Network :=
  mkNetwork yes (rn_longDelays rn) (rn_longReordering rn) (rn_ends rn) (rn_enabled rn)
    (rn_servers rn) (rn_connections rn) (rn_count rn) (rn_bytes rn).
Definition IsReliable (rn : Network) : bool := rn_reliable rn.
Definition LongReordering (rn : Network) (yes : bool) : Network :=
  mkNetwork (rn_reliable rn) (rn_longDelays rn) yes (rn_ends rn) (rn_enabled rn)
    (rn_servers rn) (rn_connections rn) (rn_count rn) (rn_bytes rn).
Definition LongDelays (rn : Network) (yes : bool) : Network :=
  mkNetwork (rn_reliable rn) yes (rn_longReordering rn) (rn_ends rn) (rn_enabled rn)
    (rn_servers rn) (rn_connections rn) (rn_count rn) (rn_bytes rn).
Definition IsLongDelays (rn : Network) : bool := rn_longDelays rn.

Definition with_tables (rn : Network) (ends : gset string) (enabled : gmap string bool)
    (servers : gmap string (option nat)) (connections : gmap string (option string)) : Network :=
  mkNetwork (rn_reliable rn) (rn_longDelays rn) (rn_longReordering rn) ends enabled servers
    connections (rn_count rn) (rn_bytes rn).

(** [log.Fatalf] when the name is taken. *)
Definition MakeEnd (rn : Network) (endname : string) : outcome Network :=
  if decide (endname ∈ rn_ends rn) then Panic
  else Ret (with_tables rn ({[endname]} ∪ rn_ends rn) (<[endname := false]> (rn_enabled rn))
         (rn_servers rn) (<[endname := None]> (rn_connections rn))).

Definition DeleteEnd (rn : Network) (endname : string) : outcome Network :=
  if decide (endname ∈ rn_ends rn) then
    Ret (with_tables rn (rn_ends rn ∖ {[endname]}) (delete endname (rn_enabled rn))
      (rn_servers rn) (delete endname (rn_connections rn)))
  else Panic.

Definition AddServer (rn : Network) (servername : string) (rs : nat) : Network :=
  with_tables rn (rn_ends rn) (rn_enabled rn) (<[servername := Some rs]> (rn_servers rn))
    (rn_connections rn).
Definition DeleteServer (rn : Network) (servername : string) : Network :=
  with_tables rn (rn_ends rn) (rn_enabled rn) (<[servername := None]> (rn_servers rn))
    (rn_connections rn).
Definition Connect (rn : Network) (endname servername : string) : Network :=
  with_tables rn (rn_ends rn) (rn_enabled rn) (rn_servers rn)
    (<[endname := Some servername]> (rn_connections rn)).
Definition Enable (rn : Network) (endname : string) (enabled : bool) : Network :=
  with_tables rn (rn_ends rn) (<[endname := enabled]> (rn_enabled rn)) (rn_servers rn)
    (rn_connections rn).

(** The two atomic additions, on an [int32] and an [int64]. *)
Definition add_traffic (rn : Network) (count bytes : Z) : Network :=
  mkNetwork (rn_reliable rn) (rn_longDelays rn) (rn_longReordering rn) (rn_ends rn)
    (rn_enabled rn) (rn_servers rn) (rn_connections rn) (wrap32 (rn_count rn + count))
    (wrap64 (rn_bytes rn + bytes)).

Definition GetTotalCount (rn : Network) : Z := rn_count rn.
Definition GetTotalBytes (rn : Network) : Z := rn_bytes rn.

(** Lookups in Go maps: false and nil when the key is absent. *)
Definition is_enabled (rn : Network) (endname : string) : bool :=
  default false (rn_enabled rn !! endname).
Definition server_of (rn : Network) (servername : string) : option nat :=
  mjoin (rn_servers rn !! servername).

(** (enabled, servername, server, reliable, longreordering). *)
Definition readEndnameInfo (rn : Network) (endname : string)
  : bool * option string * option nat * bool * bool :=
  let servername := mjoin (rn_connections rn !! endname) in
  let server := servername ≫= server_of rn in
  (is_enabled rn endname, servername, server, rn_reliable rn, rn_longReordering rn).

Definition isServerDead (rn : Network) (endname servername : string) (server : nat) : bool :=
  negb (is_enabled rn endname) || negb (bool_decide (server_of rn servername = Some server)).

Definition MakeServer : Server := mkServer ∅ 0.
Definition AddService (rs : Server) (svc : Service) : Server :=
  mkServer (<[svc_name svc := svc]> (srv_services rs)) (srv_count rs).
Definition GetCount (rs : Server) : Z := srv_count rs.

(** [Network.GetCount]: a name that is bound to nil or not bound is a nil dereference. *)
Definition Network_GetCount (rn : Network) (servers : nat -> Server) (servername : string) : outcome Z :=
  match server_of rn servername with
  | Some svr => Ret (GetCount (servers svr))
  | None => Panic
  end.

(** What [reflect] says about a method: its name, whether it is exported, the numbers of
    its parameters (the receiver counts) and results, and whether the second argument is
    a pointer. *)
Record rmethod := mkRmethod {
  rm_name : string; rm_exported : bool; rm_numIn : Z; rm_ptr2 : bool; rm_numOut : Z; rm_func : Method
}.

Definition add_method (methods : gmap string Method) (method : rmethod) : gmap string Method :=
  if negb (rm_exported method) || negb (rm_numIn method =? 3) || negb (rm_ptr2 method) ||
     negb (rm_numOut method =? 0)
  then methods
  else <[rm_name method := rm_func method]> methods.

Definition MakeService (name : string) (typ : list rmethod) : Service :=
  mkService name (foldl add_method ∅ typ).

(** An unknown method or service is [log.Fatalf]. *)
Definition Service_dispatch (svc : Service) (methname : string) (req : reqMsg) (w : World)
  : outcome (World * replyMsg) :=
  match svc_methods svc !! methname with
  | Some m => let '(w', reply) := invoke m (rq_args req) w in Ret (w', mkReplyMsg true reply)
  | None => Panic
  end.

(** The slice expression panics when there is no dot. *)
Definition Server_dispatch (rs : Server) (req : reqMsg) (w : World)
  : outcome (Server * World * replyMsg) :=
  let rs := mkServer (srv_services rs) (wrap64 (srv_count rs + 1)) in
  match split_svcMeth (rq_svcMeth req) with
  | None => Panic
  | Some (serviceName, methodName) =>
      match srv_services rs !! serviceName with
      | Some service => '(w', r) ← Service_dispatch service methodName req w; Ret (rs, w', r)
      | None => Panic
      end
  end.

(** dispatch.  A request for ["Service.Method"], the method name without a dot
    (the service name may have some), runs exactly the handler registered under
    these names, once, on the request's argument, and counts one RPC; a service
    or method that is not registered ends the process. *)
Theorem Server_dispatch_spec rs service meth e args w :
  has_dot meth = false ->
  Server_dispatch rs (mkReqMsg e (service +:+ "." +:+ meth) args) w =
    match srv_services rs !! service ≫= (fun svc => svc_methods svc !! meth) with
    | Some m => let '(w', reply) := invoke m args w in
        Ret (mkServer (srv_services rs) (wrap64 (srv_count rs + 1)), w', mkReplyMsg true reply)
    | None => Panic
    end.
Proof.
  intros Hm. unfold Server_dispatch. cbn [rq_svcMeth srv_services].
  rewrite split_svcMeth_app by done.
  destruct (srv_services rs !! service) as [svc|]; [|done]. simpl. unfold Service_dispatch.
  destruct (svc_methods svc !! meth) as [m|]; [|done]. cbn [rq_args].
  by destruct (invoke m args w).
Qed.

(** ** The life of a request *)

(** Where the goroutine of [processReq] is: before [readEndnameInfo]; in the loop
    that waits for the handler; holding an answer back on a timer; over. *)
Inductive stage :=
| Arrived
| Waiting (servername : string) (server : nat) (reliable longreordering : bool)
| Delayed (reply : replyMsg)
| Finished.

(** [rs_dispatch] is the dispatch goroutine: not started, started, and the reply
    it put in [ech].  [rs_runs] counts the calls of the handler, [rs_answers]
    lists what was sent on [replyCh]. *)
Inductive dispatching := NotStarted | Started | Dispatched (r : replyMsg).
Record request := mkRequest {
  rs_msg : reqMsg;
  rs_stage : stage;
  rs_dispatch : dispatching;
  rs_server : option nat;
  rs_runs : nat;
  rs_answers : list replyMsg
}.

Record system := mkSystem {
  sy_net : Network;
  sy_servers : nat -> Server;
  sy_world : World;
  sy_reqs : list request
}.

Inductive config_op :=
| OReliable (yes : bool) | OLongReordering (yes : bool) | OLongDelays (yes : bool)
| OMakeEnd (e : string) | ODeleteEnd (e : string)
| OAddServer (name : string) (rs : nat) | ODeleteServer (name : string)
| OConnect (e name : string) | OEnable (e : string) (b : bool).

Definition config_step (rn : Network) (op : config_op) : outcome Network :=
  match op with
  | OReliable b => Ret (Reliable rn b)
  | OLongReordering b => Ret (LongReordering rn b)
  | OLongDelays b => Ret (LongDelays rn b)
  | OMakeEnd e => MakeEnd rn e
  | ODeleteEnd e => DeleteEnd rn e
  | OAddServer name rs => Ret (AddServer rn name rs)
  | ODeleteServer name => Ret (DeleteServer rn name)
  | OConnect e name => Ret (Connect rn e name)
  | OEnable e b => Ret (Enable rn e b)
  end.

(** The random numbers of [processReq] are in the labels. *)
Inductive label :=
| LConfig (op : config_op)
| LSend (req : reqMsg)            (* the network's goroutine takes the request *)
| LRead (k : nat) (rand : Z)      (* [readEndnameInfo] and the first drop *)
| LDispatch (k : nat)             (* the dispatch goroutine runs the handler *)
| LPoll (k : nat)                 (* the 100 ms timer of the wait loop *)
| LFinish (k : nat) (rand rand2 : Z)  (* the reply is taken from [ech] *)
| LTimer (k : nat).               (* the timer of a delayed answer *)

Definition with_stage (q : request) (st : stage) : request :=
  mkRequest (rs_msg q) st (rs_dispatch q) (rs_server q) (rs_runs q) (rs_answers q).
Definition answer (q : request) (r : replyMsg) : request :=
  mkRequest (rs_msg q) Finished (rs_dispatch q) (rs_server q) (rs_runs q) (rs_answers q ++ [r]).
Definition with_req (s : system) (k : nat) (q : request) : system :=
  mkSystem (sy_net s) (sy_servers s) (sy_world s) (<[k := q]> (sy_reqs s)).

Definition step (s : system) (lab : label) : option (outcome system) :=
  match lab with
  | LConfig op =>
      Some (rn ← config_step (sy_net s) op;
            Ret (mkSystem rn (sy_servers s) (sy_world s) (sy_reqs s)))
  | LSend req =>
      Some (Ret (mkSystem (add_traffic (sy_net s) 1 (Z.of_nat (length (rq_args req))))
        (sy_servers s) (sy_world s)
        (sy_reqs s ++ [mkRequest req Arrived NotStarted None 0 []])))
  | LRead k rand =>
      q ← sy_reqs s !! k;
      match rs_stage q with
      | Arrived =>
          let '(enabled, servername, server, reliable, longreordering) :=
            readEndnameInfo (sy_net s) (rq_endname (rs_msg q)) in
          match enabled, servername, server with
          | true, Some name, Some srv =>
              if negb reliable && (Z.rem rand 1000 <? 100) then
                Some (Ret (with_req s k (answer q no_reply)))
              else
                Some (Ret (with_req s k
                  (mkRequest (rs_msg q) (Waiting name srv reliable longreordering)
                     Started (Some srv) (rs_runs q) (rs_answers q))))
          | _, _, _ => Some (Ret (with_req s k (with_stage q (Delayed no_reply))))
          end
      | _ => None
      end
  | LDispatch k =>
      q ← sy_reqs s !! k;
      match rs_dispatch q, rs_server q with
      | Started, Some srv =>
          Some ('(rs, w, r) ← Server_dispatch (sy_servers s srv) (rs_msg q) (sy_world s);
                Ret (mkSystem (sy_net s) (<[srv := rs]> (sy_servers s)) w
                  (<[k := mkRequest (rs_msg q) (rs_stage q) (Dispatched r) (Some srv)
                            (S (rs_runs q)) (rs_answers q)]> (sy_reqs s))))
      | _, _ => None
      end
  | LPoll k =>
      q ← sy_reqs s !! k;
      match rs_stage q with
      | Waiting name srv _ _ =>
          if isServerDead (sy_net s) (rq_endname (rs_msg q)) name srv
          then Some (Ret (with_req s k (answer q no_reply)))
          else Some (Ret s)
      | _ => None
      end
  | LFinish k rand rand2 =>
      q ← sy_reqs s !! k;
      match rs_stage q, rs_dispatch q with
      | Waiting name srv reliable longreordering, Dispatched reply =>
          if isServerDead (sy_net s) (rq_endname (rs_msg q)) name srv then
            Some (Ret (with_req s k (answer q no_reply)))
          else if negb reliable && (Z.rem rand 1000 <? 100) then
            Some (Ret (with_req s k (answer q no_reply)))
          else if longreordering && (rand2 <? 600) then
            Some (Ret (with_req s k (with_stage q (Delayed reply))))
          else
            Some (Ret (mkSystem (add_traffic (sy_net s) 0 (Z.of_nat (length (rm_reply reply))))
              (sy_servers s) (sy_world s) (<[k := answer q reply]> (sy_reqs s))))
      | _, _ => None
      end
  | LTimer k =>
      q ← sy_reqs s !! k;
      match rs_stage q with
      | Delayed reply =>
          Some (Ret (mkSystem (add_traffic (sy_net s) 0 (Z.of_nat (length (rm_reply reply))))
            (sy_servers s) (sy_world s) (<[k := answer q reply]> (sy_reqs s))))
      | _ => None
      end
  end.

(** A label that is not enabled is skipped; a fatal error ends the run. *)
Fixpoint run (s : system) (labs : list label) : outcome system :=
  match labs with
  | [] => Ret s
  | lab :: labs' =>
      match step s lab with
      | Some o => s' ← o; run s' labs'
      | None => run s labs'
      end
  end.

Definition init (w : World) (servers : nat -> Server) : system :=
  mkSystem MakeNetwork servers w [].

(** ** What a caller can conclude from an answer *)

Record req_ok (q : request) : Prop := {
  ro_runs : rs_runs q = match rs_dispatch q with Dispatched _ => 1%nat | _ => 0%nat end;
  ro_stage : match rs_stage q with
    | Arrived => rs_dispatch q = NotStarted /\ rs_answers q = []
    | Waiting _ srv _ _ => rs_answers q = [] /\ rs_server q = Some srv
    | Delayed r => rs_answers q = [] /\ (rm_ok r = true -> rs_dispatch q = Dispatched r)
    | Finished => exists r, rs_answers q = [r] /\ (rm_ok r = true -> rs_dispatch q = Dispatched r)
    end
}.

Definition sys_ok (s : system) : Prop := Forall req_ok (sy_reqs s).

Lemma sys_ok_insert (net : Network) srvs w reqs k q :
  Forall req_ok reqs -> req_ok q -> sys_ok (mkSystem net srvs w (<[k := q]> reqs)).
Proof. intros H Hq. unfold sys_ok. simpl. by apply Forall_insert. Qed.

Lemma answer_ok q r :
  req_ok q -> rs_answers q = [] -> (rm_ok r = true -> rs_dispatch q = Dispatched r) ->
  req_ok (answer q r).
Proof. intros [H1 H2] Ha Hr. split; simpl; [done|]. exists r. by rewrite Ha. Qed.

Lemma with_stage_unread q :
  req_ok q -> rs_answers q = [] -> req_ok (with_stage q (Delayed no_reply)).
Proof. intros [H1 H2] Ha. split; simpl; [done|]. by split. Qed.

(** A positive answer is the handler's reply. *)
Lemma answer_dispatched q r reps :
  req_ok q -> rs_answers q = r :: reps -> rm_ok r = true -> rs_dispatch q = Dispatched r.
Proof.
  intros [_ H] Ha Hr. rewrite Ha in H.
  destruct (rs_stage q); [by destruct H|by destruct H|by destruct H|].
  destruct H as (r0 & [= <- ->] & Hd). by apply Hd.
Qed.

(** The step of a request, by case: what happens to the list of requests. *)
Lemma step_ok s lab o s' :
  sys_ok s -> step s lab = Some o -> o = Ret s' -> sys_ok s'.
Proof.
  intros Hok Hstep ->. destruct lab as [op|req|k rand|k|k|k rand rand2|k]; simpl in Hstep.
  - destruct (config_step (sy_net s) op); simplify_eq/=. exact Hok.
  - simplify_eq. unfold sys_ok. simpl. apply Forall_app. split; [exact Hok|].
    apply Forall_singleton. by split.
  - destruct (sy_reqs s !! k) as [q|] eqn:Hk; [|done]. simpl in Hstep.
    pose proof (Forall_lookup_1 _ _ _ _ Hok Hk) as Hq. pose proof Hq as [H1 H2].
    destruct (rs_stage q); try done. destruct H2 as [Hd Ha].
    destruct (is_enabled _ _);
      [destruct (mjoin (rn_connections _ !! _)) as [name|]; simpl in Hstep;
         [destruct (server_of (sy_net s) name) as [srv|]|]|];
      try (injection Hstep as <-; by apply sys_ok_insert, with_stage_unread).
    destruct (negb _ && _); injection Hstep as <-; apply sys_ok_insert; try done.
    + by apply answer_ok.
    + split; simpl; [|done]. by rewrite H1, Hd.
  - destruct (sy_reqs s !! k) as [q|] eqn:Hk; [|done]. simpl in Hstep.
    pose proof (Forall_lookup_1 _ _ _ _ Hok Hk) as [H1 H2].
    destruct (rs_dispatch q) eqn:Ed; try done. destruct (rs_server q) as [srv|] eqn:Es; [|done].
    destruct (Server_dispatch _ _ _) as [[[rs w] r]| |]; simplify_eq/=.
    apply sys_ok_insert; [done|]. split; simpl; [by rewrite H1|].
    destruct (rs_stage q) as [|nm sv rl lr|rp|].
    + by destruct H2.
    + destruct H2 as [? ?]. by simplify_eq.
    + destruct H2 as [? Hr]. split; [done|]. intros Ht. by specialize (Hr Ht).
    + destruct H2 as (r0 & Ha & Hr). exists r0. split; [done|]. intros Ht. by specialize (Hr Ht).
  - destruct (sy_reqs s !! k) as [q|] eqn:Hk; [|done]. simpl in Hstep.
    pose proof (Forall_lookup_1 _ _ _ _ Hok Hk) as Hq. pose proof Hq as [H1 H2].
    destruct (rs_stage q); try done. destruct H2 as [Ha _].
    destruct (isServerDead _ _ _ _); simplify_eq; [|done].
    apply sys_ok_insert; [done|]. by apply answer_ok.
  - destruct (sy_reqs s !! k) as [q|] eqn:Hk; [|done]. simpl in Hstep.
    pose proof (Forall_lookup_1 _ _ _ _ Hok Hk) as Hq. pose proof Hq as [H1 H2].
    destruct (rs_stage q) as [|nm sv rl lr|rp|]; try done. destruct H2 as [Ha Hs].
    destruct (rs_dispatch q) as [| |reply] eqn:Ed; try done.
    destruct (isServerDead _ _ _ _); [|destruct (negb _ && _); [|destruct (_ && _)]];
      simplify_eq; apply sys_ok_insert; try done; try (by apply answer_ok).
    split; simpl; by rewrite ?Ed, ?H1.
  - destruct (sy_reqs s !! k) as [q|] eqn:Hk; [|done]. simpl in Hstep.
    pose proof (Forall_lookup_1 _ _ _ _ Hok Hk) as Hq. pose proof Hq as [H1 H2].
    destruct (rs_stage q); try done. destruct H2 as [Ha Hr]. simplify_eq.
    apply sys_ok_insert; [done|]. by apply answer_ok.
Qed.

Lemma run_ok labs : forall s s', sys_ok s -> run s labs = Ret s' -> sys_ok s'.
Proof.
  induction labs as [|lab labs IH]; intros s s' Hok Hrun; simpl in Hrun; [by simplify_eq|].
  destruct (step s lab) as [o|] eqn:Hs; [|by eapply IH].
  apply outcome_bind_inv in Hrun as (s1 & -> & Hrun). eapply IH; [|exact Hrun].
  by eapply step_ok.
Qed.

(** at most once.  Whatever the losses, delays, reorderings and configuration
    changes, the handler of a request is called at most once and its caller
    gets at most one answer; a positive answer carries the reply of that one
    call.  (A negative answer leaves it open whether the handler ran.) *)
Theorem rpc_at_most_once w servers labs s q :
  run (init w servers) labs = Ret s -> q ∈ sy_reqs s ->
  (rs_runs q <= 1)%nat /\ (length (rs_answers q) <= 1)%nat /\
  (forall r, r ∈ rs_answers q -> rm_ok r = true ->
     rs_runs q = 1%nat /\ rs_dispatch q = Dispatched r).
Proof.
  intros Hrun Hq. assert (Hok : sys_ok s) by (eapply run_ok; [|exact Hrun]; constructor).
  destruct (proj1 (Forall_forall _ _) Hok q Hq) as [H1 H2]. split; [|split].
  - rewrite H1. destruct (rs_dispatch q); lia.
  - destruct (rs_stage q); [destruct H2 as [_ ->]|destruct H2 as [-> _]|destruct H2 as [-> _]
      |destruct H2 as (r & -> & _)]; simpl; lia.
  - intros r Hr Ht. assert (Hd : rs_dispatch q = Dispatched r).
    { destruct (rs_stage q); [destruct H2 as [_ Ha]|destruct H2 as [Ha _]|destruct H2 as [Ha _]
        |destruct H2 as (r0 & Ha & Hr0)]; rewrite Ha in Hr; try by apply elem_of_nil in Hr.
      apply list_elem_of_singleton in Hr as ->. by apply Hr0. }
    split; [|done]. by rewrite H1, Hd.
Qed.

(** ** Killing a server *)

(** Request [k] waits for server [srv] under [name], which is no longer bound to it,
    or has been refused. *)
Record cut_off (k : nat) (name : string) (srv : nat) (s : system) : Prop := {
  co_bound : server_of (sy_net s) name <> Some srv;
  co_req : exists q, sy_reqs s !! k = Some q /\
    ((exists rl lr, rs_stage q = Waiting name srv rl lr /\ rs_answers q = []) \/
     (rs_stage q = Finished /\ Forall (fun r => rm_ok r = false) (rs_answers q)))
}.

Lemma cut_off_keep k name srv s net srvs w reqs :
  cut_off k name srv s -> server_of net name = server_of (sy_net s) name ->
  reqs !! k = sy_reqs s !! k -> cut_off k name srv (mkSystem net srvs w reqs).
Proof. intros [H1 H2] Hn Hk. split; simpl; [by rewrite Hn|by rewrite Hk]. Qed.

Lemma lookup_upd_ne (reqs : list request) j k (q : request) : j <> k -> <[j := q]> reqs !! k = reqs !! k.
Proof. apply list_lookup_insert_ne. Qed.

Lemma cut_off_config k name srv s op rn :
  cut_off k name srv s -> op <> OAddServer name srv -> config_step (sy_net s) op = Ret rn ->
  server_of rn name <> Some srv.
Proof.
  intros [H _] Hop Hc. destruct op; simpl in Hc; try (by simplify_eq).
  - unfold MakeEnd in Hc. destruct (decide _); by simplify_eq.
  - unfold DeleteEnd in Hc. destruct (decide _); by simplify_eq.
  - simplify_eq. unfold server_of in *. simpl. destruct (decide (name0 = name)) as [->|Hne].
    + rewrite lookup_insert_eq. simpl. congruence.
    + by rewrite lookup_insert_ne.
  - simplify_eq. unfold server_of in *. simpl. destruct (decide (name0 = name)) as [->|Hne].
    + by rewrite lookup_insert_eq.
    + by rewrite lookup_insert_ne.
Qed.

Lemma cut_off_dead k name srv s e :
  cut_off k name srv s -> isServerDead (sy_net s) e name srv = true.
Proof.
  intros [H _]. unfold isServerDead. rewrite bool_decide_eq_false_2 by done. apply orb_true_r.
Qed.

Lemma cut_off_answer k name srv s q :
  cut_off k name srv s -> sy_reqs s !! k = Some q -> rs_answers q = [] ->
  cut_off k name srv (with_req s k (answer q no_reply)).
Proof.
  intros [H _] Hk Ha. split; simpl; [done|]. exists (answer q no_reply). split.
  - apply list_lookup_insert_eq. by eapply lookup_lt_Some.
  - right. simpl. rewrite Ha. split; [done|]. by apply Forall_singleton.
Qed.

(** The request that a step works on. *)
Definition label_req (lab : label) : option nat :=
  match lab with
  | LConfig _ | LSend _ => None
  | LRead k _ | LDispatch k | LPoll k | LFinish k _ _ | LTimer k => Some k
  end.

(** A step on one request leaves the server table and the other requests alone. *)
Lemma step_others s lab j k s' :
  label_req lab = Some j -> j <> k -> step s lab = Some (Ret s') ->
  rn_servers (sy_net s') = rn_servers (sy_net s) /\ sy_reqs s' !! k = sy_reqs s !! k.
Proof.
  intros Hj Hne Hstep.
  destruct lab; simplify_eq/=; destruct (sy_reqs s !! j); simplify_eq/=;
    repeat (case_match; simplify_eq/=); try done;
    try (destruct (Server_dispatch _ _ _) as [[[? ?] ?]| |]; simplify_eq/=);
    (split; [done|by apply lookup_upd_ne]).
Qed.

(** Only a send makes a request. *)
Lemma step_length s lab s' :
  (forall req, lab <> LSend req) -> step s lab = Some (Ret s') -> length (sy_reqs s') = length (sy_reqs s).
Proof.
  intros Hne Hstep. destruct lab; simplify_eq/=; try (by destruct (Hne req));
    try (destruct (config_step _ _); simplify_eq/=; done);
    destruct (sy_reqs s !! k); simplify_eq/=; repeat (case_match; simplify_eq/=); try done;
    try (destruct (Server_dispatch _ _ _) as [[[? ?] ?]| |]; simplify_eq/=); apply length_insert.
Qed.

(** A step on the request that is cut off: it can only be refused. *)
Lemma cut_off_step_own k name srv s lab s' :
  cut_off k name srv s -> label_req lab = Some k -> step s lab = Some (Ret s') ->
  cut_off k name srv s'.
Proof.
  intros Hc Hlab Hstep. pose proof Hc as [Hb (q & Hk & Hq)].
  destruct lab; simplify_eq/=; rewrite Hk in Hstep; simpl in Hstep.
  - destruct Hq as [(rl & lr & E & _)|[E _]]; by rewrite E in Hstep.
  - destruct (rs_dispatch q); try done. destruct (rs_server q); [|done].
    destruct (Server_dispatch _ _ _) as [[[rs w] r]| |]; simplify_eq/=.
    split; simpl; [done|]. eexists.
    split; [apply list_lookup_insert_eq; by eapply lookup_lt_Some|]. exact Hq.
  - destruct Hq as [(rl & lr & E & Ha)|[E _]]; rewrite E in Hstep; [|done].
    rewrite (cut_off_dead k name srv s _ Hc) in Hstep. simplify_eq. by apply cut_off_answer.
  - destruct Hq as [(rl & lr & E & Ha)|[E _]]; rewrite E in Hstep; [|done].
    destruct (rs_dispatch q); try done.
    rewrite (cut_off_dead k name srv s _ Hc) in Hstep. simplify_eq. by apply cut_off_answer.
  - destruct Hq as [(rl & lr & E & _)|[E _]]; by rewrite E in Hstep.
Qed.

Lemma cut_off_step k name srv s lab s' :
  cut_off k name srv s -> lab <> LConfig (OAddServer name srv) -> step s lab = Some (Ret s') ->
  cut_off k name srv s'.
Proof.
  intros Hc Hlab Hstep. destruct (label_req lab) as [j|] eqn:Hj.
  - destruct (decide (j = k)) as [->|Hne]; [by eapply cut_off_step_own|].
    destruct (step_others _ _ _ _ _ Hj Hne Hstep) as [Hs Hk]. destruct s' as [rn srvs w reqs].
    apply (cut_off_keep k name srv s); [done| |done]. unfold server_of. simpl in Hs. by rewrite Hs.
  - pose proof Hc as [Hb (q & Hk & Hq)]. destruct lab as [op|req| | | | |]; try done; simpl in Hstep.
    + destruct (config_step (sy_net s) op) as [rn| |] eqn:E; simplify_eq/=.
      split; simpl; [|by exists q]. eapply cut_off_config; [exact Hc| |exact E]. congruence.
    + simplify_eq. apply (cut_off_keep k name srv s); [done|done|].
      rewrite lookup_app_l; [done|by eapply lookup_lt_Some].
Qed.

(** C14: a killed server never answers positively.  Once [DeleteServer] (or a
    replacement) has unbound the server that a request is waiting for, the
    request is only ever answered negatively, even if its handler still runs,
    whatever else happens, as long as that very server object is not bound
    again: so the effects of the old instance are never acknowledged. *)
Theorem no_reply_from_killed_server k name srv s labs s' q :
  server_of (sy_net s) name <> Some srv ->
  sy_reqs s !! k = Some q -> (exists rl lr, rs_stage q = Waiting name srv rl lr) ->
  rs_answers q = [] ->
  LConfig (OAddServer name srv) ∉ labs -> run s labs = Ret s' ->
  exists q', sy_reqs s' !! k = Some q' /\ Forall (fun r => rm_ok r = false) (rs_answers q').
Proof.
  intros Hb Hk (rl & lr & Hst) Ha Hn Hrun.
  assert (Hc : cut_off k name srv s) by (split; [done|]; exists q; split; [done|]; left; by exists rl, lr).
  clear Hb Hk Hst Ha. revert s Hc Hrun. induction labs as [|lab labs IH]; intros s Hc Hrun; simpl in Hrun.
  - injection Hrun as <-. destruct Hc as [_ (q' & Hk & Hor)]. exists q'. split; [done|].
    destruct Hor as [(rl' & lr' & _ & Ha)|[_ Hall]]; [by rewrite Ha|done].
  - apply not_elem_of_cons in Hn as [Hne Hn]. specialize (IH Hn).
    destruct (step s lab) as [o|] eqn:Hs; [|by eapply IH].
    apply outcome_bind_inv in Hrun as (s1 & -> & Hrun). eapply IH; [|exact Hrun].
    by eapply cut_off_step.
Qed.
End Labrpc.

(** ** A concrete network *)

Module LabrpcDemo.
(** The handler appends its argument's length to a log and replies with the argument. *)
Definition invoke (m : nat) (args : list Byte.byte) (w : list nat) : list nat * list Byte.byte :=
  (w ++ [length args], args).
Definition server : Server (Method := nat) :=
  AddService MakeServer (mkService "Raft" {["Append" := 0%nat]}).
Definition req : reqMsg := mkReqMsg "e" "Raft.Append" [Byte.x01; Byte.x02].
Definition start : list (label) :=
  [LConfig (OMakeEnd "e"); LConfig (OConnect "e" "s"); LConfig (OAddServer "s" 0);
   LConfig (OEnable "e" true); LSend req; LRead 0 0].
Definition init_sys : system (Method := nat) (World := list nat) := init [] (fun _ => server).

Definition answered (s : system (Method := nat) (World := list nat)) : bool :=
  match sy_reqs s with
  | [q] => (length (rs_answers q) =? 1)%nat && forallb (fun r => rm_ok r) (rs_answers q)
  | _ => false
  end.
Definition ran (s : system (Method := nat) (World := list nat)) : bool :=
  (length (sy_world s) =? 1)%nat.

(** A request that waits for server 0, whose name has just been deleted. *)
Definition waiting : request :=
  mkRequest req (Waiting "s" 0 true false) Started (Some 0%nat) 0 [].
Definition mid : system (Method := nat) (World := list nat) :=
  mkSystem (with_tables MakeNetwork {["e"]} {["e" := true]} {["s" := None]} {["e" := Some "s"]})
    (fun _ => server) [] [waiting].

(** A run that succeeds and passes a test. *)
Definition oke {A} (f : A -> bool) (m : outcome A) : bool :=
  match m with Ret x => f x | _ => false end.
Lemma oke_inv {A} (f : A -> bool) m : oke f m = true -> exists x, m = Ret x /\ f x = true.
Proof. destruct m as [x| |]; [by exists x|done..]. Qed.
End LabrpcDemo.

Lemma Server_dispatch_spec_witness :
  Server_dispatch LabrpcDemo.invoke LabrpcDemo.server LabrpcDemo.req [] =
    Ret (mkServer (srv_services LabrpcDemo.server) 1, [2%nat],
         mkReplyMsg true [Byte.x01; Byte.x02]).
Proof.
  exact (Server_dispatch_spec LabrpcDemo.invoke LabrpcDemo.server "Raft" "Append" "e"
    [Byte.x01; Byte.x02] [] eq_refl).
Defined.

Lemma rpc_at_most_once_witness :
  exists s q, run LabrpcDemo.invoke LabrpcDemo.init_sys
      (LabrpcDemo.start ++ [LDispatch 0; LDispatch 0; LFinish 0 0 0; LFinish 0 0 0]) = Ret s /\
    sy_reqs s = [q] /\ rs_runs q = 1%nat /\ (length (rs_answers q) <= 1)%nat.
Proof.
  destruct (LabrpcDemo.oke_inv LabrpcDemo.answered (run LabrpcDemo.invoke LabrpcDemo.init_sys
    (LabrpcDemo.start ++ [LDispatch 0; LDispatch 0; LFinish 0 0 0; LFinish 0 0 0]))) as (s & Hs & Ha);
    [by vm_compute|]. unfold LabrpcDemo.answered in Ha.
  destruct (sy_reqs s) as [|q [|? ?]] eqn:Eq; try discriminate.
  exists s, q. split; [exact Hs|]. split; [done|].
  destruct (rpc_at_most_once LabrpcDemo.invoke [] (fun _ => LabrpcDemo.server) _ s q Hs) as (H1 & H2 & H3);
    [rewrite Eq; auto with go|]. split; [|exact H2].
  apply andb_true_iff in Ha as [Hl Hok]. destruct (rs_answers q) as [|r l] eqn:Er; [done|].
  simpl in Hok. apply andb_true_iff in Hok as [Hr _].
  destruct (H3 r) as [Hruns _]; [rewrite ?Er; auto with go|exact Hr|exact Hruns].
Defined.

(** The handler runs after its server was deleted; the caller is refused. *)
Lemma no_reply_from_killed_server_witness :
  exists s q', run LabrpcDemo.invoke LabrpcDemo.mid [LDispatch 0; LFinish 0 0 0] = Ret s /\
    LabrpcDemo.ran s = true /\ sy_reqs s !! 0%nat = Some q' /\
    Forall (fun r => rm_ok r = false) (rs_answers q').
Proof.
  destruct (LabrpcDemo.oke_inv LabrpcDemo.ran (run LabrpcDemo.invoke LabrpcDemo.mid [LDispatch 0; LFinish 0 0 0]))
    as (s & Hs & Hran); [by vm_compute|].
  destruct (no_reply_from_killed_server LabrpcDemo.invoke 0 "s" 0 LabrpcDemo.mid
    [LDispatch 0; LFinish 0 0 0] s LabrpcDemo.waiting) as (q' & Hq & Hall);
    [by vm_compute|done|by exists true, false|done
    |by intros [?|[?|?%elem_of_nil]%elem_of_cons]%elem_of_cons|exact Hs|].
  exists s, q'. split; [exact Hs|]. split; [exact Hran|]. split; [exact Hq|exact Hall].
Defined.
