(* ===== verification/LabrpcCall.v ===== *)
(** [ClientEnd.Call] and [Network.Cleanup] ([labrpc/labrpc.go]): the callers of the
    simulated network, the goroutine of [MakeNetwork] that takes their requests, and the
    end of the network, on the requests of [Labrpc.v].  A call that returns true has run
    its handler exactly once. *)
From S2P Require Import Prelude.
From S2P Require Import Labrpc.
Open Scope Z_scope.

Section Calls.
Context {Method World Args Reply : Type}.
Variable invoke : Method -> list Byte.byte -> World -> World * list Byte.byte.
(** [labgob] on the arguments and on the reply; [None] is an error. *)
Variable encode : Args -> option (list Byte.byte).
Variable decode : list Byte.byte -> option Reply.

(** Where a [Call] is: at the [select] that sends the request, waiting on [replyCh] of
    request [k], or returned, true with what was decoded into [reply] or false. *)
Inductive call_stage :=
| CSending
| CWaiting (k : nat)
| CReturned (k : option nat) (res : option Reply).

Record call := mkCall { ca_req : reqMsg; ca_stage : call_stage }.

(** [cs_done] says that [rn.done] is closed, [cs_loop] that the goroutine of
    [MakeNetwork] still runs. *)
Record csys := mkCsys {
  cs_sys : system (Method := Method) (World := World);
  cs_done : bool;
  cs_loop : bool;
  cs_calls : list call
}.

(** [CNet] is any other step of the network. *)
Inductive clabel :=
| CCall (e svcMeth : string) (args : Args)
| CTake (c : nat)       (* the network's goroutine receives the request *)
| CRefuse (c : nat)     (* [Call] receives from [e.done] *)
| CRecv (c : nat)       (* [Call] receives its reply *)
| CNet (lab : label)
| CCleanup
| CStop.                (* the goroutine receives from [rn.done] *)

Definition with_call (s : csys) (c : nat) (ca : call) (st : call_stage) : csys :=
  mkCsys (cs_sys s) (cs_done s) (cs_loop s) (<[c := mkCall (ca_req ca) st]> (cs_calls s)).

Definition is_send (lab : label) : bool := match lab with LSend _ => true | _ => false end.

(** A step that is not enabled is [None]. *)
Definition cstep (s : csys) (l : clabel) : option (outcome csys) :=
  match l with
  | CCall e svcMeth args =>
      Some (match encode args with
            | None => Panic
            | Some bs => Ret (mkCsys (cs_sys s) (cs_done s) (cs_loop s)
                                (cs_calls s ++ [mkCall (mkReqMsg e svcMeth bs) CSending]))
            end)
  | CTake c =>
      ca ← cs_calls s !! c;
      match ca_stage ca with
      | CSending =>
          if cs_loop s then
            o ← step invoke (cs_sys s) (LSend (ca_req ca));
            Some (sys ← o;
                  Ret (with_call (mkCsys sys (cs_done s) (cs_loop s) (cs_calls s)) c ca
                         (CWaiting (length (sy_reqs (cs_sys s))))))
          else None
      | _ => None
      end
  | CRefuse c =>
      ca ← cs_calls s !! c;
      match ca_stage ca with
      | CSending => if cs_done s then Some (Ret (with_call s c ca (CReturned None None))) else None
      | _ => None
      end
  | CRecv c =>
      ca ← cs_calls s !! c;
      match ca_stage ca with
      | CWaiting k =>
          q ← sy_reqs (cs_sys s) !! k;
          match rs_answers q with
          | rep :: _ =>
              Some (if rm_ok rep then
                      match decode (rm_reply rep) with
                      | None => Panic
                      | Some v => Ret (with_call s c ca (CReturned (Some k) (Some v)))
                      end
                    else Ret (with_call s c ca (CReturned (Some k) None)))
          | [] => None
          end
      | _ => None
      end
  | CNet lab =>
      if is_send lab then None
      else o ← step invoke (cs_sys s) lab;
           Some (sys ← o; Ret (mkCsys sys (cs_done s) (cs_loop s) (cs_calls s)))
  | CCleanup =>
      Some (if cs_done s then Panic else Ret (mkCsys (cs_sys s) true (cs_loop s) (cs_calls s)))
  | CStop =>
      if cs_done s && cs_loop s
      then Some (Ret (mkCsys (cs_sys s) (cs_done s) false (cs_calls s))) else None
  end.

Fixpoint crun (s : csys) (ls : list clabel) : outcome csys :=
  match ls with
  | [] => Ret s
  | l :: ls' => match cstep s l with Some o => s' ← o; crun s' ls' | None => crun s ls' end
  end.

Definition cinit (w : World) (servers : nat -> Server) : csys :=
  mkCsys (init w servers) false true [].

(** ** What a call's result says *)

(** A step keeps every request's message and its handler's reply. *)
Lemma step_request (s s' : system (World := World)) lab k q :
  sys_ok s -> step invoke s lab = Some (Ret s') -> sy_reqs s !! k = Some q ->
  exists q', sy_reqs s' !! k = Some q' /\ rs_msg q' = rs_msg q /\
    (forall r, rs_dispatch q = Dispatched r -> rs_dispatch q' = Dispatched r).
Proof.
  intros Hok Hstep Hk. destruct (label_req lab) as [j|] eqn:Hj.
  - destruct (decide (j = k)) as [->|Hne].
    2:{ destruct (step_others _ _ _ _ _ _ Hj Hne Hstep) as [_ ->]. by exists q. }
    pose proof (Forall_lookup_1 _ _ _ _ Hok Hk) as [_ Hst].
    assert (Hup : forall q', rs_msg q' = rs_msg q ->
      (forall r, rs_dispatch q = Dispatched r -> rs_dispatch q' = Dispatched r) ->
      exists q2, <[k := q']> (sy_reqs s) !! k = Some q2 /\
        rs_msg q2 = rs_msg q /\ (forall r, rs_dispatch q = Dispatched r -> rs_dispatch q2 = Dispatched r)).
    { intros q' Hm Hd. exists q'. split; [|done].
      apply list_lookup_insert_eq. by eapply lookup_lt_Some. }
    destruct lab; simplify_eq/=; rewrite Hk in Hstep; simpl in Hstep.
    + destruct (rs_stage q) eqn:E; try done. destruct Hst as [Hd _].
      repeat (case_match; simplify_eq/=); (apply Hup; [reflexivity|simpl; intros; congruence]).
    + destruct (rs_dispatch q) eqn:E; try done. destruct (rs_server q); [|done].
      destruct (Server_dispatch _ _ _ _) as [[[? ?] ?]| |]; simplify_eq/=. by apply Hup.
    + destruct (rs_stage q); try done. case_match; simplify_eq; [by apply Hup|by exists q].
    + destruct (rs_stage q); try done. destruct (rs_dispatch q) eqn:E; try done.
      repeat (case_match; simplify_eq/=); apply Hup; simpl; by rewrite ?E.
    + destruct (rs_stage q); try done. simplify_eq. by apply Hup.
  - destruct lab as [op|req| | | | |]; try done; simpl in Hstep.
    + destruct (config_step _ op); simplify_eq/=. by exists q.
    + simplify_eq/=. exists q. split; [|done]. apply lookup_app_l_Some. exact Hk.
Qed.

(** The request of a call that was taken. *)
Definition taken (st : call_stage) : option nat :=
  match st with CWaiting k => Some k | CReturned k _ => k | CSending => None end.

Definition call_ok (sys : system (Method := Method) (World := World)) (ca : call) : Prop :=
  match taken (ca_stage ca) with
  | None => forall v, ca_stage ca <> CReturned None (Some v)
  | Some k => exists q, sy_reqs sys !! k = Some q /\ rs_msg q = ca_req ca /\
      forall v, ca_stage ca = CReturned (Some k) (Some v) ->
        exists r, rs_dispatch q = Dispatched r /\ decode (rm_reply r) = Some v
  end.

Record cinv (s : csys) : Prop := {
  ci_sys : sys_ok (cs_sys s);
  ci_call c ca : cs_calls s !! c = Some ca -> call_ok (cs_sys s) ca;
  ci_once c c' ca ca' k : cs_calls s !! c = Some ca -> cs_calls s !! c' = Some ca' ->
    taken (ca_stage ca) = Some k -> taken (ca_stage ca') = Some k -> c = c'
}.

Lemma call_ok_step sys sys' lab ca :
  sys_ok sys -> step invoke sys lab = Some (Ret sys') -> call_ok sys ca -> call_ok sys' ca.
Proof.
  unfold call_ok. intros Hok Hstep H. destruct (taken (ca_stage ca)) as [k|]; [|done].
  destruct H as (q & Hq & Hm & Hv).
  destruct (step_request _ _ _ _ _ Hok Hstep Hq) as (q' & Hq' & Hm' & Hd).
  exists q'. split; [done|]. split; [congruence|]. intros v Hs. destruct (Hv v Hs) as (r & Hr & Hdec).
  exists r. split; [by apply Hd|done].
Qed.

(** A call moves on: what remains to show is about that call alone. *)
Lemma cinv_call s sys c ca st :
  sys_ok sys -> (forall d da, cs_calls s !! d = Some da -> call_ok sys da) -> cinv s ->
  cs_calls s !! c = Some ca -> call_ok sys (mkCall (ca_req ca) st) ->
  (forall d da k, d <> c -> cs_calls s !! d = Some da -> taken st = Some k -> taken (ca_stage da) <> Some k) ->
  cinv (with_call (mkCsys sys (cs_done s) (cs_loop s) (cs_calls s)) c ca st).
Proof.
  intros Hok Hcalls [_ _ H3] Hc Hca Hnew. split; simpl; [done|..].
  - intros d da [(-> & <- & _)|(Hne & Hd)]%list_lookup_insert_Some; [done|by eapply Hcalls].
  - intros d d' da da' k Hd Hd' Hk Hk'.
    apply list_lookup_insert_Some in Hd as [(-> & <- & _)|(Hne & Hd)];
      apply list_lookup_insert_Some in Hd' as [(-> & <- & _)|(Hne' & Hd')]; simpl in *; try done.
    + by destruct (Hnew d' da' k (not_eq_sym Hne') Hd' Hk).
    + by destruct (Hnew d da k (not_eq_sym Hne) Hd Hk').
    + by eapply H3.
Qed.

Lemma cinv_step s l s' : cinv s -> cstep s l = Some (Ret s') -> cinv s'.
Proof.
  intros H Hs. pose proof H as [H1 H2 H3].
  assert (Hsame : forall k c ca, cs_calls s !! c = Some ca -> taken (ca_stage ca) = Some k ->
    forall d da, d <> c -> cs_calls s !! d = Some da -> taken (ca_stage da) <> Some k)
    by (intros k c ca Hc Hk d da Hne Hd Hk'; by apply Hne, (H3 d c da ca k)).
  destruct l as [e m args|c|c|c|lab| |]; simpl in Hs.
  - destruct (encode args) as [bs|]; simplify_eq. split; simpl; [done|..].
    + intros c ca [Hc|[_ Hc]]%lookup_app_Some; [by eapply H2|].
      destruct (c - length (cs_calls s))%nat; simplify_eq/=. done.
    + intros c c' ca ca' k Hc Hc' Hk Hk'.
      apply lookup_app_Some in Hc as [Hc|[_ Hc]]; [|destruct (c - _)%nat; simplify_eq/=; done].
      apply lookup_app_Some in Hc' as [Hc'|[_ Hc']]; [|destruct (c' - _)%nat; simplify_eq/=; done].
      by eapply H3.
  - destruct (cs_calls s !! c) as [ca|] eqn:Hc; simplify_eq/=. destruct (ca_stage ca) eqn:Est; try done.
    destruct (cs_loop s) eqn:El; simplify_eq/=. rewrite <- El.
    set (sys' := mkSystem _ _ _ _).
    assert (Hsend : step invoke (cs_sys s) (LSend (ca_req ca)) = Some (Ret sys')) by done.
    assert (Hok' : sys_ok sys') by (by eapply step_ok).
    apply (cinv_call s); [done|intros d da Hd; eapply call_ok_step; [exact H1|exact Hsend|by eapply H2]|done|done|..].
    + unfold call_ok, sys'. cbn [taken ca_stage sy_reqs]. rewrite lookup_app_r, Nat.sub_diag by lia.
      eexists. by split.
    + simpl. intros d da k _ Hd Hk. simplify_eq. intros Hk. specialize (H2 d da Hd). unfold call_ok in H2.
      rewrite Hk in H2. destruct H2 as (q & Hq & _). apply lookup_lt_Some in Hq. lia.
  - destruct (cs_calls s !! c) as [ca|] eqn:Hc; simplify_eq/=. destruct (ca_stage ca) eqn:Est; try done.
    destruct (cs_done s) eqn:Ed; simplify_eq/=.
    by apply (cinv_call s (cs_sys s)).
  - destruct (cs_calls s !! c) as [ca|] eqn:Hc; simplify_eq/=. destruct (ca_stage ca) as [|k|] eqn:Est; try done.
    destruct (sy_reqs (cs_sys s) !! k) as [q|] eqn:Hq; simplify_eq/=.
    destruct (rs_answers q) as [|rep reps] eqn:Ea; [done|].
    pose proof (H2 c ca Hc) as Hca. unfold call_ok in Hca. rewrite Est in Hca. simpl in Hca.
    rewrite Hq in Hca. destruct Hca as (q' & Hq' & Hm & _). simplify_eq.
    assert (Hnew : forall d da k', d <> c -> cs_calls s !! d = Some da -> Some k = Some k' ->
      taken (ca_stage da) <> Some k')
      by (intros d da k' Hne Hd Hk; simplify_eq; apply (Hsame k' c ca) with (d := d); [done|by rewrite Est|done|done]).
    destruct (rm_ok rep) eqn:Eok; [destruct (decode (rm_reply rep)) as [v|] eqn:Edec|]; simplify_eq/=;
      (apply (cinv_call s (cs_sys s)); [done|exact H2|done|done| |exact Hnew]); unfold call_ok; simpl;
      rewrite Hq; exists q'; (split; [done|]); (split; [done|]); intros v' Hv'; simplify_eq.
    exists rep. split; [|done]. apply (answer_dispatched q' rep reps); [by eapply Forall_lookup_1|done|done].
  - destruct (is_send lab); [done|].
    destruct (step invoke (cs_sys s) lab) as [o|] eqn:Hstep; simplify_eq/=.
    destruct o as [sys| |]; simplify_eq/=. split; simpl; [by eapply step_ok|..].
    + intros c ca Hc. eapply call_ok_step; [exact H1|exact Hstep|by eapply H2].
    + exact H3.
  - destruct (cs_done s); simplify_eq. by split.
  - destruct (_ && _); simplify_eq. by split.
Qed.

Lemma cinv_run ls : forall s s', cinv s -> crun s ls = Ret s' -> cinv s'.
Proof.
  induction ls as [|l ls IH]; intros s s' H Hr; simpl in Hr; [by simplify_eq|].
  destruct (cstep s l) as [o|] eqn:Hs; [|by eapply IH].
  apply outcome_bind_inv in Hr as (s1 & -> & Hr). eapply IH; [|exact Hr]. by eapply cinv_step.
Qed.

(** After the network's goroutine has gone, no request is accepted any more. *)
Lemma stopped_step s l s' :
  cs_loop s = false -> cstep s l = Some (Ret s') ->
  cs_loop s' = false /\ length (sy_reqs (cs_sys s')) = length (sy_reqs (cs_sys s)).
Proof.
  intros Hl Hs. destruct l as [e m args|c|c|c|lab| |]; simpl in Hs; rewrite ?Hl in Hs.
  - destruct (encode args); by simplify_eq/=.
  - destruct (cs_calls s !! c) as [ca|]; simplify_eq/=. by destruct (ca_stage ca).
  - destruct (cs_calls s !! c) as [ca|]; simplify_eq/=. destruct (ca_stage ca); try done.
    destruct (cs_done s); by simplify_eq/=.
  - destruct (cs_calls s !! c) as [ca|]; simplify_eq/=. destruct (ca_stage ca); try done.
    destruct (sy_reqs (cs_sys s) !! k) as [q|]; simplify_eq/=. destruct (rs_answers q); [done|].
    repeat (case_match; simplify_eq/=); done.
  - destruct (is_send lab) eqn:Esend; [done|].
    destruct (step invoke (cs_sys s) lab) as [o|] eqn:E; simplify_eq/=. destruct o as [sys| |]; simplify_eq/=.
    split; [done|]. eapply step_length; [|exact E]. by intros req ->.
  - destruct (cs_done s); by simplify_eq/=.
  - by rewrite andb_false_r in Hs.
Qed.

Lemma stopped_run ls : forall s s',
  cs_loop s = false -> crun s ls = Ret s' ->
  cs_loop s' = false /\ length (sy_reqs (cs_sys s')) = length (sy_reqs (cs_sys s)).
Proof.
  induction ls as [|l ls IH]; intros s s' Hl Hr; simpl in Hr; [by simplify_eq|].
  destruct (cstep s l) as [o|] eqn:Hs; [|by eapply IH].
  apply outcome_bind_inv in Hr as (s1 & -> & Hr). destruct (stopped_step _ _ _ Hl Hs) as [Hl1 Hlen].
  rewrite <- Hlen. by apply IH.
Qed.

Lemma cinv_init w servers : cinv (cinit w servers).
Proof. split; [constructor|done|done]. Qed.

Lemma req_runs (sys : system (Method := Method) (World := World)) k q : sys_ok sys -> sy_reqs sys !! k = Some q ->
  (rs_runs q <= 1)%nat /\ forall r, rs_dispatch q = Dispatched r -> rs_runs q = 1%nat.
Proof.
  intros Hok Hk. destruct (Forall_lookup_1 _ _ _ _ Hok Hk) as [H _]. rewrite H.
  destruct (rs_dispatch q); split; try lia; intros r Hr; done.
Qed.
End Calls.
Arguments call_stage : clear implicits.
Arguments call : clear implicits.
Arguments csys : clear implicits.

(** C15: the result of a call.  Whatever the network loses, delays and reorders, however
    its configuration changes and whenever it is cleaned up: a [Call] that returns true
    has had its handler run exactly once on its own argument and returns the decoded
    reply of that run; a [Call] that waits, or returns false after its request was
    taken, has had it run at most once; a [Call] whose request was not taken has none;
    no two calls share a request.  And once the goroutine of a network that is cleaned
    up has gone, no request is taken any more. *)
Theorem Call_at_most_once {Method World Args Reply} invoke (encode : Args -> option (list Byte.byte))
    (decode : list Byte.byte -> option Reply) (w : World) (servers : nat -> Server (Method := Method)) ls s :
  crun invoke encode decode (cinit w servers) ls = Ret s ->
  (forall c ca, cs_calls s !! c = Some ca ->
     match ca_stage ca with
     | CSending | CReturned None None => True
     | CWaiting k | CReturned (Some k) None =>
         exists q, sy_reqs (cs_sys s) !! k = Some q /\ rs_msg q = ca_req ca /\ (rs_runs q <= 1)%nat
     | CReturned None (Some _) => False
     | CReturned (Some k) (Some v) =>
         exists q r, sy_reqs (cs_sys s) !! k = Some q /\ rs_msg q = ca_req ca /\ rs_runs q = 1%nat /\
           rs_dispatch q = Dispatched r /\ decode (rm_reply r) = Some v
     end) /\
  (forall c c' ca ca' k, cs_calls s !! c = Some ca -> cs_calls s !! c' = Some ca' ->
     taken (ca_stage ca) = Some k -> taken (ca_stage ca') = Some k -> c = c') /\
  (forall ls' s', cs_loop s = false -> crun invoke encode decode s ls' = Ret s' ->
     length (sy_reqs (cs_sys s')) = length (sy_reqs (cs_sys s))).
Proof.
  intros Hr. pose proof (cinv_run _ _ _ _ _ _ (cinv_init _ _ _) Hr) as [H1 H2 H3]. split; [|split].
  - intros c ca Hc. specialize (H2 c ca Hc). unfold call_ok in H2.
    destruct (ca_stage ca) as [|k|[k|] [v|]]; simpl in H2; try done.
    + destruct H2 as (q & Hq & Hm & _). exists q. split; [done|]. split; [done|]. by eapply req_runs.
    + destruct H2 as (q & Hq & Hm & Hv). destruct (Hv v eq_refl) as (r & Hd & Hdec).
      exists q, r. split; [done|]. split; [done|]. split; [|done]. by eapply req_runs.
    + destruct H2 as (q & Hq & Hm & _). exists q. split; [done|]. split; [done|]. by eapply req_runs.
    + by destruct (H2 v).
  - exact H3.
  - intros ls' s' Hl Hr'. by eapply stopped_run.
Qed.

(** A call that is answered, and after the cleanup a call that is refused. *)
Module CallDemo.
Definition labels : list (clabel (Args := list Byte.byte)) :=
  [CNet (LConfig (OMakeEnd "e")); CNet (LConfig (OConnect "e" "s")); CNet (LConfig (OAddServer "s" 0));
   CNet (LConfig (OEnable "e" true)); CCall "e" "Raft.Append" [Byte.x01; Byte.x02]; CTake 0;
   CNet (LRead 0 0); CNet (LDispatch 0); CNet (LDispatch 0); CNet (LFinish 0 0 0); CRecv 0;
   CCall "e" "Raft.Append" []; CCleanup; CStop; CTake 1; CRefuse 1].

Definition run : outcome (csys nat (list nat) (list Byte.byte)) :=
  crun LabrpcDemo.invoke Some Some (cinit [] (fun _ => LabrpcDemo.server)) labels.

Definition good (s : csys nat (list nat) (list Byte.byte)) : bool :=
  match cs_calls s with
  | [mkCall _ (CReturned (Some k) (Some v)); mkCall _ (CReturned None None)] =>
      (k =? 0)%nat && (length v =? 2)%nat
  | _ => false
  end.
End CallDemo.

Lemma Call_at_most_once_witness :
  exists s q, CallDemo.run = Ret s /\ CallDemo.good s = true /\
    sy_reqs (cs_sys s) !! 0%nat = Some q /\ rs_runs q = 1%nat.
Proof.
  destruct (LabrpcDemo.oke_inv CallDemo.good CallDemo.run) as (s & Hs & Hg); [by vm_compute|].
  destruct (Call_at_most_once LabrpcDemo.invoke Some Some [] (fun _ => LabrpcDemo.server)
    CallDemo.labels s Hs) as (Hc & _).
  pose proof Hg as Hg'. unfold CallDemo.good in Hg'. destruct (cs_calls s) as [|ca cas] eqn:Ec; [discriminate Hg'|].
  specialize (Hc 0%nat ca). rewrite ?Ec in Hc. specialize (Hc eq_refl).
  destruct ca as [rq [|k|[k|] [v|]]]; try discriminate Hg'.
  destruct cas as [|[? [|?|[?|] [?|]]] [|]]; try discriminate Hg'.
  apply andb_true_iff in Hg' as [Hk%Nat.eqb_eq _]. subst k. simpl in Hc.
  destruct Hc as (q & r & Hq & _ & Hruns & _). exists s, q. split; [exact Hs|]. split; [exact Hg|].
  split; [exact Hq|exact Hruns].
Defined.
