(* ===== verification/Tester.v ===== *)
(** The server groups, clients and persisters of the test framework
    ([tester1/group.go], [tester1/srv.go], [tester1/clnts.go],
    [tester1/persister.go]) on the network of [Labrpc.v]: partitions, shutdown
    and restart, and which ends a client may use. *)
From S2P Require Import Prelude.
From S2P Require Import Labrpc.
From stdpp Require Import pretty.
Open Scope Z_scope.

(** ** Persister *)

Record Persister := mkPersister { ps_raftstate : list Byte.byte; ps_snapshot : list Byte.byte }.

Definition MakePersister : Persister := mkPersister [] [].
Definition clone (orig : list Byte.byte) : list Byte.byte := orig.
(** The slices are shared by the copy; [Save] replaces them and never writes into them. *)
Definition Copy (ps : Persister) : Persister := mkPersister (ps_raftstate ps) (ps_snapshot ps).
Definition ReadRaftState (ps : Persister) : list Byte.byte := clone (ps_raftstate ps).
Definition RaftStateSize (ps : Persister) : Z := Z.of_nat (length (ps_raftstate ps)).
Definition Save (ps : Persister) (raftstate snapshot : list Byte.byte) : Persister :=
  mkPersister (clone raftstate) (clone snapshot).
Definition ReadSnapshot (ps : Persister) : list Byte.byte := clone (ps_snapshot ps).
Definition SnapshotSize (ps : Persister) : Z := Z.of_nat (length (ps_snapshot ps)).

(** ** Server groups *)

Definition ServerName (gid i : Z) : string := "server-" +:+ pretty gid +:+ "-" +:+ pretty i.

(** [saved] is a reference to a persister; [svcs] is whether services run.  No code
    sets [endNames] to nil once [makeServer] has filled it. *)
Record TServer := mkTServer {
  ts_saved : option nat;
  ts_svcs : bool;
  ts_endNames : list string
}.

(** A group with what its operations reach: the network, the store of persisters
    that [saved] points into, the number of names drawn by [Randstring] and of
    [labrpc] servers made so far. *)
Record group := mkGroup {
  g_net : Network;
  g_srvs : list TServer;
  g_connected : list bool;
  g_gid : Z;
  g_persisters : list Persister;
  g_names : nat;
  g_labsrvs : nat
}.

Definition with_net (g : group) (net : Network) : group :=
  mkGroup net (g_srvs g) (g_connected g) (g_gid g) (g_persisters g) (g_names g) (g_labsrvs g).
Definition with_connected (g : group) (c : list bool) : group :=
  mkGroup (g_net g) (g_srvs g) c (g_gid g) (g_persisters g) (g_names g) (g_labsrvs g).
Definition with_srvs (g : group) (srvs : list TServer) : group :=
  mkGroup (g_net g) srvs (g_connected g) (g_gid g) (g_persisters g) (g_names g) (g_labsrvs g).
Definition with_persisters (g : group) (ps : list Persister) : group :=
  mkGroup (g_net g) (g_srvs g) (g_connected g) (g_gid g) ps (g_names g) (g_labsrvs g).

Definition N (g : group) : nat := length (g_srvs g).
Definition all (g : group) : list nat := seq 0 (length (g_srvs g)).
Definition IsConnected (g : group) (i : nat) : outcome bool := at_ (g_connected g) i.

(** [Server.connect] and [Server.disconnect]: the outgoing ends of one server. *)
Definition Server_connect (g : group) (s : TServer) (to : list nat) : outcome group :=
  foldM (fun g j =>
    c ← IsConnected g j;
    if c : bool then e ← at_ (ts_endNames s) j; Ret (with_net g (Enable (g_net g) e true))
    else Ret g) to g.

Definition Server_disconnect (g : group) (s : TServer) (from : list nat) : outcome group :=
  foldM (fun g j =>
    e ← at_ (ts_endNames s) j; Ret (with_net g (Enable (g_net g) e false))) from g.

Definition connect (g : group) (i : nat) (to : list nat) : outcome group :=
  connected ← set_at (g_connected g) i true;
  let g := with_connected g connected in
  s ← at_ (g_srvs g) i;
  g ← Server_connect g s to;
  foldM (fun g j =>
    c ← IsConnected g j;
    if c : bool then
      sj ← at_ (g_srvs g) j;
      e ← at_ (ts_endNames sj) i; Ret (with_net g (Enable (g_net g) e true))
    else Ret g) to g.

Definition disconnect (g : group) (i : nat) (from : list nat) : outcome group :=
  connected ← set_at (g_connected g) i false;
  let g := with_connected g connected in
  s ← at_ (g_srvs g) i;
  g ← Server_disconnect g s from;
  foldM (fun g j =>
    sj ← at_ (g_srvs g) j;
    e ← at_ (ts_endNames sj) i; Ret (with_net g (Enable (g_net g) e false))) from g.

Definition ConnectOne (g : group) (i : nat) : outcome group := connect g i (all g).
Definition ConnectAll (g : group) : outcome group := foldM ConnectOne (all g) g.
Definition DisconnectAll (g : group) (i : nat) : outcome group := disconnect g i (all g).

Definition Partition (g : group) (p1 p2 : list nat) : outcome group :=
  g ← foldM (fun g i => g ← disconnect g i p2; connect g i p1) p1 g;
  foldM (fun g i => g ← disconnect g i p1; connect g i p2) p2 g.

(** [MakePartition]: the two arrays and the counter [j] of its loop. *)
Definition partition_step (l : nat) (acc : list nat * list nat * nat) (i : nat)
  : outcome (list nat * list nat * nat) :=
  let '(p1, p2, j) := acc in
  if Nat.eqb i l then Ret (p1, p2, j)
  else if (j <? length p1)%nat then p1 ← set_at p1 j i; Ret (p1, p2, S j)
  else p2 ← set_at p2 (j - length p1) i; Ret (p1, p2, S j).

Definition MakePartition (n l : nat) : outcome (list nat * list nat) :=
  '(p1, p2, _) ← foldM (partition_step l) (seq 0 n)
                   (replicate (n / 2 + 1) 0%nat, replicate (n / 2) 0%nat, 0%nat);
  if decide (p2 = []) then Panic
  else p2 ← set_at p2 (length p2 - 1) l; Ret (p1, p2).

(** ** Starting and stopping servers *)

Section Servers.
(** [Randstring(20)]: the k-th name drawn. *)
Variable Randstring : nat -> string.

Definition makeServer_loop (g : group) (gid : Z) (nsrv : nat) : outcome (group * list string) :=
  foldM (fun '(g, names) j =>
    let e := Randstring (g_names g) in
    net ← MakeEnd (g_net g) e;
    let net := Connect net e (ServerName gid (Z.of_nat j)) in
    Ret (mkGroup net (g_srvs g) (g_connected g) (g_gid g) (g_persisters g) (S (g_names g)) (g_labsrvs g),
         names ++ [e])) (seq 0 nsrv) (g, []).

Definition makeServer (g : group) (gid : Z) (nsrv : nat) : outcome (group * TServer) :=
  '(g, names) ← makeServer_loop g gid nsrv; Ret (g, mkTServer None false names).

(** Allocating a persister. *)
Definition new_persister (g : group) (ps : Persister) : group * nat :=
  (with_persisters g (g_persisters g ++ [ps]), length (g_persisters g)).

Definition startServer (g : group) (s : TServer) : outcome (group * TServer) :=
  '(g, srv) ← makeServer g (g_gid g) (length (ts_endNames s));
  ps ← match ts_saved s with
       | Some p => old ← at_ (g_persisters g) p; Ret (Copy old)
       | None => Ret MakePersister
       end;
  let '(g, p) := new_persister g ps in
  Ret (g, mkTServer (Some p) false (ts_endNames srv)).

(** [mks], which starts the services, gets the new persister. *)
Definition StartServer (g : group) (i : nat) : outcome group :=
  s ← at_ (g_srvs g) i;
  '(g, srv) ← startServer g s;
  let srv := mkTServer (ts_saved srv) true (ts_endNames srv) in
  let net := AddServer (g_net g) (ServerName (g_gid g) (Z.of_nat i)) (g_labsrvs g) in
  Ret (mkGroup net (<[i := srv]> (g_srvs g)) (g_connected g) (g_gid g) (g_persisters g)
         (g_names g) (S (g_labsrvs g))).

Definition shutdownServer (g : group) (s : TServer) : outcome (group * TServer) :=
  match ts_saved s with
  | Some p =>
      old ← at_ (g_persisters g) p;
      let '(g, p') := new_persister g (Copy old) in
      Ret (g, mkTServer (Some p') false (ts_endNames s))
  | None => Ret (g, mkTServer None false (ts_endNames s))
  end.

Definition ShutdownServer (g : group) (i : nat) : outcome group :=
  g ← disconnect g i (all g);
  let g := with_net g (DeleteServer (g_net g) (ServerName (g_gid g) (Z.of_nat i))) in
  s ← at_ (g_srvs g) i;
  '(g, s) ← shutdownServer g s;
  Ret (with_srvs g (<[i := s]> (g_srvs g))).

Definition start (g : group) : outcome group := foldM StartServer (all g) g.
Definition StartServers (g : group) : outcome group := g ← start g; ConnectAll g.
Definition Shutdown (g : group) : outcome group := foldM ShutdownServer (all g) g.

Definition makeSrvGrp (net : Network) (gid : Z) (n names labsrvs : nat) : outcome group :=
  foldM (fun g _ => '(g, s) ← makeServer g gid n; Ret (with_srvs g (g_srvs g ++ [s]))) (seq 0 n)
    (mkGroup net [] (replicate n false) gid [] names labsrvs).
End Servers.

(** ** Partitions *)

Lemma is_enabled_Enable net e b e' :
  is_enabled (Enable net e b) e' = if decide (e = e') then b else is_enabled net e'.
Proof.
  unfold is_enabled. simpl. destruct (decide (e = e')) as [->|Hne];
    [by rewrite lookup_insert_eq|by rewrite lookup_insert_ne].
Qed.

(** The name of the end of server [a] for server [b], and whether it is enabled. *)
Definition en (g : group) (a b : nat) : string :=
  match g_srvs g !! a with Some s => nth b (ts_endNames s) "" | None => "" end.
Definition linked (g : group) (a b : nat) : bool := is_enabled (g_net g) (en g a b).
Definition conn (g : group) (j : nat) : bool := default false (g_connected g !! j).

(** [n] servers, each with an end for every server, all ends distinct. *)
Record grp_wf (n : nat) (g : group) : Prop := {
  gw_srvs : length (g_srvs g) = n;
  gw_conn : length (g_connected g) = n;
  gw_ends i s : g_srvs g !! i = Some s -> length (ts_endNames s) = n;
  gw_inj a b a' b' : (a < n)%nat -> (b < n)%nat -> (a' < n)%nat -> (b' < n)%nat ->
    en g a b = en g a' b' -> a = a' /\ b = b'
}.

(** A loop that enables or disables ends, one per element of [to] that passes [cond]. *)
Lemma enable_loop (v : bool) (cond : nat -> bool) (name : nat -> string) f to : forall g,
  (forall g' j, j ∈ to -> g_srvs g' = g_srvs g -> g_connected g' = g_connected g ->
     f g' j = Ret (if cond j then with_net g' (Enable (g_net g') (name j) v) else g')) ->
  exists net, foldM f to g = Ret (with_net g net) /\
    forall e, is_enabled net e =
      if decide (Exists (fun j => cond j = true /\ name j = e) to) then v
      else is_enabled (g_net g) e.
Proof.
  induction to as [|j to IH]; intros g Hf.
  - exists (g_net g). split; [by destruct g|]. intros e. rewrite decide_False; [done|].
    by intros ?%Exists_nil.
  - simpl. rewrite Hf by (done || auto with go). simpl.
    assert (Hf' : forall g' j', j' ∈ to -> g_srvs g' = g_srvs g -> g_connected g' = g_connected g ->
      f g' j' = Ret (if cond j' then with_net g' (Enable (g_net g') (name j') v) else g')).
    { intros g' j' Hj'. apply Hf. auto with go. }
    destruct (cond j) eqn:Hc.
    + destruct (IH (with_net g (Enable (g_net g) (name j) v)) Hf') as (net & E & Hnet).
      exists net. split; [exact E|]. intros e. rewrite Hnet. simpl. rewrite is_enabled_Enable.
      destruct (decide (Exists _ to)) as [Ht|Ht].
      * rewrite decide_True; [done|]. by apply Exists_cons_tl.
      * destruct (decide (name j = e)) as [He|He].
        -- rewrite decide_True; [done|]. by apply Exists_cons_hd.
        -- rewrite decide_False; [done|]. rewrite Exists_cons. tauto.
    + destruct (IH g Hf') as (net & E & Hnet). exists net. split; [exact E|]. intros e. rewrite Hnet.
      destruct (decide (Exists _ to)) as [Ht|Ht].
      * rewrite decide_True; [done|]. by apply Exists_cons_tl.
      * rewrite decide_False; [done|]. rewrite Exists_cons. rewrite Hc. intros [[? _]|?]; done.
Qed.

Lemma at_srv g n a : grp_wf n g -> (a < n)%nat ->
  exists s, g_srvs g !! a = Some s /\ length (ts_endNames s) = n /\
    forall b, (b < n)%nat -> at_ (ts_endNames s) b = Ret (en g a b).
Proof.
  intros Hwf Ha. destruct (lookup_lt_is_Some_2 (g_srvs g) a) as [s Hs]; [by rewrite (gw_srvs _ _ Hwf)|].
  pose proof (gw_ends _ _ Hwf a s Hs) as Hlen. exists s. split; [done|]. split; [done|].
  intros b Hb. unfold at_, en. rewrite Hs.
  destruct (lookup_lt_is_Some_2 (ts_endNames s) b) as [e He]; [lia|]. rewrite He.
  by rewrite (nth_lookup_Some _ _ _ _ He).
Qed.

Lemma at_conn g n j : grp_wf n g -> (j < n)%nat -> IsConnected g j = Ret (conn g j).
Proof.
  intros Hwf Hj. unfold IsConnected, conn, at_.
  destruct (lookup_lt_is_Some_2 (g_connected g) j) as [c ->]; [by rewrite (gw_conn _ _ Hwf)|done].
Qed.

Lemma grp_wf_upd n g net c :
  grp_wf n g -> length c = n -> grp_wf n (with_net (with_connected g c) net).
Proof. intros [H1 H2 H3 H4] Hc. by split. Qed.

(** A pair of ends in terms of the servers. *)
Lemma link_iff n g i to cond a b :
  grp_wf n g -> (i < n)%nat -> (forall j, j ∈ to -> (j < n)%nat) -> (a < n)%nat -> (b < n)%nat ->
  (Exists (fun j => cond j = true /\ en g i j = en g a b) to <-> a = i /\ b ∈ to /\ cond b = true) /\
  (Exists (fun j => cond j = true /\ en g j i = en g a b) to <-> b = i /\ a ∈ to /\ cond a = true).
Proof.
  intros Hwf Hi Hto Ha Hb. rewrite !Exists_exists. split; split.
  - intros (j & Hj & Hc & He). apply (gw_inj _ _ Hwf) in He as [-> ->]; auto.
  - intros (-> & Hj & Hc). by exists b.
  - intros (j & Hj & Hc & He). apply (gw_inj _ _ Hwf) in He as [-> ->]; auto.
  - intros (-> & Hj & Hc). by exists a.
Qed.

Lemma conn_insert g n i v j :
  grp_wf n g -> (i < n)%nat ->
  conn (with_connected g (<[i := v]> (g_connected g))) j = if decide (i = j) then v else conn g j.
Proof.
  intros Hwf Hi. unfold conn. simpl. destruct (decide (i = j)) as [->|Hne].
  - by rewrite list_lookup_insert_eq by (by rewrite (gw_conn _ _ Hwf)).
  - by rewrite list_lookup_insert_ne.
Qed.

Lemma connect_spec n g i to :
  grp_wf n g -> (i < n)%nat -> (forall j, j ∈ to -> (j < n)%nat) ->
  exists g', connect g i to = Ret g' /\ grp_wf n g' /\ g_srvs g' = g_srvs g /\
    (forall j, conn g' j = if decide (i = j) then true else conn g j) /\
    (forall a b, (a < n)%nat -> (b < n)%nat ->
       linked g' a b = if decide ((a = i /\ b ∈ to /\ conn g' b = true) \/
                                  (b = i /\ a ∈ to /\ conn g' a = true))
                       then true else linked g a b).
Proof.
  intros Hwf Hi Hto. unfold connect, set_at.
  destruct (lookup_lt_is_Some_2 (g_connected g) i) as [c0 ->]; [by rewrite (gw_conn _ _ Hwf)|].
  step_bind. set (c := <[i := true]> (g_connected g)). set (g1 := with_connected g c).
  assert (Hlc : length c = n) by (unfold c; rewrite length_insert; apply Hwf).
  assert (Hwf1 : grp_wf n g1) by (pose proof (grp_wf_upd n g (g_net g) c Hwf Hlc); by destruct g).
  destruct (at_srv g1 n i Hwf1 Hi) as (s & Hs & Hls & Hat). rewrite (at_Ret _ _ _ Hs).
  step_bind.
  destruct (enable_loop true (conn g1) (en g1 i) (fun g j => c ← IsConnected g j;
    if c : bool then e ← at_ (ts_endNames s) j; Ret (with_net g (Enable (g_net g) e true)) else Ret g) to g1)
    as (net1 & E1 & Hnet1).
  { intros g' j Hj Hsr Hcn. replace (IsConnected g' j) with (IsConnected g1 j) by (unfold IsConnected; by rewrite Hcn).
    rewrite (at_conn g1 n j Hwf1 (Hto j Hj)). step_bind.
    destruct (conn g1 j); [|done]. by rewrite Hat by (by apply Hto). }
  unfold Server_connect. rewrite E1. step_bind.
  destruct (enable_loop true (conn g1) (fun j => en g1 j i) (fun g j => c ← IsConnected g j;
    if c : bool then sj ← at_ (g_srvs g) j; e ← at_ (ts_endNames sj) i;
      Ret (with_net g (Enable (g_net g) e true)) else Ret g) to (with_net g1 net1)) as (net2 & E2 & Hnet2).
  { intros g' j Hj Hsr Hcn. replace (IsConnected g' j) with (IsConnected g1 j) by (unfold IsConnected; by rewrite Hcn).
    rewrite (at_conn g1 n j Hwf1 (Hto j Hj)). step_bind.
    destruct (conn g1 j); [|done]. destruct (at_srv g1 n j Hwf1 (Hto j Hj)) as (sj & Hsj & _ & Hatj).
    assert (Hsr' : g_srvs g' = g_srvs g1) by exact Hsr.
    rewrite Hsr', (at_Ret _ _ _ Hsj). step_bind. by rewrite Hatj. }
  rewrite E2. eexists. split; [reflexivity|].
  assert (Hconn : forall j, conn (with_net (with_net g1 net1) net2) j = conn g1 j) by done.
  split; [by apply (grp_wf_upd n g net2 c)|]. split; [done|]. split.
  { intros j. rewrite Hconn. by apply (conn_insert g n). }
  intros a b Ha Hb. rewrite !Hconn. unfold linked.
  change (en (with_net (with_net g1 net1) net2) a b) with (en g1 a b). simpl g_net at 1.
  rewrite Hnet2. simpl g_net at 1. rewrite Hnet1.
  destruct (link_iff n g1 i to (conn g1) a b Hwf1 Hi Hto Ha Hb) as [L1 L2].
  repeat case_decide; try done; tauto.
Qed.

Lemma disconnect_spec n g i from :
  grp_wf n g -> (i < n)%nat -> (forall j, j ∈ from -> (j < n)%nat) ->
  exists g', disconnect g i from = Ret g' /\ grp_wf n g' /\ g_srvs g' = g_srvs g /\
    (forall j, conn g' j = if decide (i = j) then false else conn g j) /\
    (forall a b, (a < n)%nat -> (b < n)%nat ->
       linked g' a b = if decide ((a = i /\ b ∈ from) \/ (b = i /\ a ∈ from))
                       then false else linked g a b) /\
    g_persisters g' = g_persisters g /\ g_gid g' = g_gid g /\ g_names g' = g_names g.
Proof.
  intros Hwf Hi Hfrom. unfold disconnect, set_at.
  destruct (lookup_lt_is_Some_2 (g_connected g) i) as [c0 ->]; [by rewrite (gw_conn _ _ Hwf)|].
  step_bind. set (c := <[i := false]> (g_connected g)). set (g1 := with_connected g c).
  assert (Hlc : length c = n) by (unfold c; rewrite length_insert; apply Hwf).
  assert (Hwf1 : grp_wf n g1) by (pose proof (grp_wf_upd n g (g_net g) c Hwf Hlc); by destruct g).
  destruct (at_srv g1 n i Hwf1 Hi) as (s & Hs & Hls & Hat). rewrite (at_Ret _ _ _ Hs).
  step_bind.
  destruct (enable_loop false (fun _ => true) (en g1 i) (fun g j =>
    e ← at_ (ts_endNames s) j; Ret (with_net g (Enable (g_net g) e false))) from g1) as (net1 & E1 & Hnet1).
  { intros g' j Hj _ _. by rewrite Hat by (by apply Hfrom). }
  unfold Server_disconnect. rewrite E1. step_bind.
  destruct (enable_loop false (fun _ => true) (fun j => en g1 j i) (fun g j =>
    sj ← at_ (g_srvs g) j; e ← at_ (ts_endNames sj) i; Ret (with_net g (Enable (g_net g) e false)))
    from (with_net g1 net1)) as (net2 & E2 & Hnet2).
  { intros g' j Hj Hsr _. destruct (at_srv g1 n j Hwf1 (Hfrom j Hj)) as (sj & Hsj & _ & Hatj).
    assert (Hsr' : g_srvs g' = g_srvs g1) by exact Hsr.
    rewrite Hsr', (at_Ret _ _ _ Hsj). step_bind. by rewrite Hatj. }
  rewrite E2. eexists. split; [reflexivity|]. split; [by apply (grp_wf_upd n g net2 c)|].
  split; [done|]. split; [|split; [|done]].
  { intros j. by apply (conn_insert g n). }
  intros a b Ha Hb. unfold linked.
  change (en (with_net (with_net g1 net1) net2) a b) with (en g1 a b). simpl g_net at 1.
  rewrite Hnet2. simpl g_net at 1. rewrite Hnet1.
  destruct (link_iff n g1 i from (fun _ => true) a b Hwf1 Hi Hfrom Ha Hb) as [L1 L2].
  repeat case_decide; try done; tauto.
Qed.

(** The state of a loop of [Partition] over [ps] after the servers [done]: [g0] is the
    group before the loop. *)
Record parted (n : nat) (g0 : group) (ps other done : list nat) (g : group) : Prop := {
  pt_wf : grp_wf n g;
  pt_srvs : g_srvs g = g_srvs g0;
  pt_conn j : j ∈ done -> conn g j = true;
  pt_in a b : a ∈ done -> b ∈ done -> linked g a b = true;
  pt_cross a b : a ∈ done -> b ∈ other -> linked g a b = false /\ linked g b a = false;
  pt_rest a b : (a < n)%nat -> (b < n)%nat -> a ∉ ps -> b ∉ ps -> linked g a b = linked g0 a b
}.

Lemma parted_step n g0 ps other done g i :
  (forall j, j ∈ ps -> (j < n)%nat) -> (forall j, j ∈ other -> (j < n)%nat) ->
  (forall j, j ∈ ps -> j ∉ other) -> i ∈ ps -> (forall j, j ∈ done -> j ∈ ps) ->
  parted n g0 ps other done g ->
  exists g', (g1 ← disconnect g i other; connect g1 i ps) = Ret g' /\ parted n g0 ps other (i :: done) g'.
Proof.
  intros Hps Hot Hdis Hi Hsub [P1 P2 P3 P4 P5 P6].
  destruct (disconnect_spec n g i other P1 (Hps i Hi) Hot) as (g1 & -> & W1 & S1 & C1 & L1 & _).
  destruct (connect_spec n g1 i ps W1 (Hps i Hi) Hps) as (g2 & E2 & W2 & S2 & C2 & L2).
  exists g2. split; [exact E2|].
  assert (Hconn : forall j, j ∈ i :: done -> conn g2 j = true).
  { intros j Hj. rewrite C2, C1. destruct (decide (i = j)); [done|].
    apply elem_of_cons in Hj as [->|Hj]; [done|by apply P3]. }
  assert (Hin : forall j, j ∈ i :: done -> j ∈ ps) by (intros j [->|Hj]%elem_of_cons; auto).
  split; [done|congruence|exact Hconn| | |].
  - intros a b Ha Hb. rewrite L2 by (apply Hps; by apply Hin). case_decide as Hc; [done|].
    rewrite L1 by (apply Hps; by apply Hin).
    rewrite decide_False by (intros [[_ Hx]|[_ Hx]]; [by apply (Hdis b); [apply Hin|]|by apply (Hdis a); [apply Hin|]]).
    assert (Hai : a <> i) by (intros ->; apply Hc; left; auto).
    assert (Hbi : b <> i) by (intros ->; apply Hc; right; auto).
    apply P4; [by apply elem_of_cons in Ha as [?|?]|by apply elem_of_cons in Hb as [?|?]].
  - intros a b Ha Hb. assert (Hap : a ∈ ps) by auto.
    assert (Hbn : b ∉ ps) by (intros Hbp; by apply (Hdis b)).
    assert (Hbi : b <> i) by (intros ->; done).
    rewrite !L2 by auto. rewrite !decide_False by (intros [(-> & ? & _)|(-> & ? & _)]; done).
    rewrite !L1 by auto. apply elem_of_cons in Ha as [->|Ha].
    + by rewrite !decide_True by auto.
    + destruct (P5 a b Ha Hb) as [-> ->]. split; by case_decide.
  - intros a b Ha Hb Hna Hnb. rewrite L2, L1 by done.
    rewrite !decide_False; [by apply P6| |]; intros [(-> & _)|(-> & _)]; done.
Qed.

Lemma parted_loop n g0 ps other l : forall done g,
  (forall j, j ∈ ps -> (j < n)%nat) -> (forall j, j ∈ other -> (j < n)%nat) ->
  (forall j, j ∈ ps -> j ∉ other) -> (forall j, j ∈ l -> j ∈ ps) -> (forall j, j ∈ done -> j ∈ ps) ->
  parted n g0 ps other done g ->
  exists g', foldM (fun g i => g ← disconnect g i other; connect g i ps) l g = Ret g' /\
    parted n g0 ps other (reverse l ++ done) g'.
Proof.
  induction l as [|i l IH]; intros done g Hps Hot Hdis Hl Hd Hp; [by exists g|].
  destruct (parted_step n g0 ps other done g i Hps Hot Hdis (Hl i (list_elem_of_here _ _)) Hd Hp) as (g1 & E1 & P1).
  simpl. rewrite E1. simpl.
  destruct (IH (i :: done) g1 Hps Hot Hdis) as (g2 & E2 & P2); [|
    intros j [->|Hj]%elem_of_cons; [apply Hl, list_elem_of_here|by apply Hd]|exact P1|].
  { intros j Hj. apply Hl. auto with go. }
  exists g2. split; [exact E2|]. by rewrite reverse_cons, <- app_assoc.
Qed.

(** [Partition].  For disjoint lists of servers of the group, whatever was connected
    before, afterwards a server of the lists reaches another (its end is enabled)
    exactly when both are in the same list. *)
Theorem Partition_spec n g p1 p2 :
  grp_wf n g -> (forall j, j ∈ p1 ++ p2 -> (j < n)%nat) -> (forall j, j ∈ p1 -> j ∉ p2) ->
  exists g', Partition g p1 p2 = Ret g' /\
    forall a b, a ∈ p1 ++ p2 -> b ∈ p1 ++ p2 ->
      linked g' a b = bool_decide (a ∈ p1 <-> b ∈ p1).
Proof.
  intros Hwf Hlt Hdis. setoid_rewrite elem_of_app in Hlt. unfold Partition.
  assert (H0 : forall g ps other, grp_wf n g -> parted n g ps other [] g)
    by (intros g' ps other Hg; split; try done; intros;
        match goal with H : _ ∈ [] |- _ => by apply elem_of_nil in H end).
  assert (Hnil : forall (j : nat) (l : list nat), j ∈ ([] : list nat) -> j ∈ l) by (intros j l ?%elem_of_nil; done).
  assert (Hl1 : forall j, j ∈ p1 -> (j < n)%nat) by auto.
  assert (Hl2 : forall j, j ∈ p2 -> (j < n)%nat) by auto.
  assert (Hdis' : forall j, j ∈ p2 -> j ∉ p1) by (intros j H2 H1; by apply (Hdis j)).
  destruct (parted_loop n g p1 p2 p1 [] g Hl1 Hl2 Hdis (fun j H => H) (fun j => Hnil j p1)
    (H0 g p1 p2 Hwf)) as (g1 & -> & P1).
  destruct (parted_loop n g1 p2 p1 p2 [] g1 Hl2 Hl1 Hdis' (fun j H => H) (fun j => Hnil j p2)
    (H0 g1 p2 p1 (pt_wf _ _ _ _ _ _ P1))) as (g2 & E2 & P2).
  simpl. exists g2. split; [exact E2|].
  destruct P1 as [_ _ _ I1 _ _]. destruct P2 as [_ _ _ I2 C2 R2].
  setoid_rewrite elem_of_app in I1. setoid_rewrite elem_of_reverse in I1.
  setoid_rewrite elem_of_app in I2. setoid_rewrite elem_of_reverse in I2.
  setoid_rewrite elem_of_app in C2. setoid_rewrite elem_of_reverse in C2.
  intros a b [Ha|Ha]%elem_of_app [Hb|Hb]%elem_of_app.
  - rewrite bool_decide_eq_true_2 by done. rewrite R2 by auto. by apply I1; left.
  - rewrite bool_decide_eq_false_2 by (intros [H _]; by apply (Hdis b); [apply H|]).
    exact (proj2 (C2 b a (or_introl Hb) Ha)).
  - rewrite bool_decide_eq_false_2 by (intros [_ H]; by apply (Hdis a); [apply H|]).
    exact (proj1 (C2 a b (or_introl Ha) Hb)).
  - rewrite bool_decide_eq_true_2 by (split; intros H; exfalso; by eapply Hdis).
    by apply I2; left.
Qed.

(** ** [MakePartition] *)

Lemma partition_step_ne l p1 p2 j i :
  i <> l ->
  partition_step l (p1, p2, j) i =
    if (j <? length p1)%nat then p1 ← set_at p1 j i; Ret (p1, p2, S j)
    else p2 ← set_at p2 (j - length p1) i; Ret (p1, p2, S j).
Proof. intros H. unfold partition_step. by rewrite (proj2 (Nat.eqb_neq _ _)). Qed.

Lemma partition_step_eq l acc : partition_step l acc l = Ret acc.
Proof. destruct acc as [[p1 p2] j]. unfold partition_step. by rewrite Nat.eqb_refl. Qed.

(** Servers other than [l] fill the slots of the two arrays in order. *)
Lemma partition_fold l is_ : forall p1 p2 j out,
  (forall i, i ∈ is_ -> i <> l) -> (j + length is_ <= length p1 + length p2)%nat ->
  p1 ++ p2 = out -> 
  exists p1' p2', foldM (partition_step l) is_ (p1, p2, j) = Ret (p1', p2', (j + length is_)%nat) /\
    length p1' = length p1 /\ length p2' = length p2 /\
    p1' ++ p2' = take j out ++ is_ ++ drop (j + length is_) out.
Proof.
  induction is_ as [|i is_ IH]; intros p1 p2 j out Hne Hlen Hout.
  - exists p1, p2. simpl. rewrite Nat.add_0_r. split; [done|]. do 2 (split; [done|]).
    by rewrite Hout, take_drop.
  - assert (Hi : i <> l) by (apply Hne, list_elem_of_here).
    assert (Hne' : forall i', i' ∈ is_ -> i' <> l) by (intros i' H; apply Hne; auto with go).
    simpl in Hlen. cbn [foldM]. rewrite partition_step_ne by done.
    assert (Hgoal : forall p1' p2', length p1' = length p1 -> length p2' = length p2 ->
      p1' ++ p2' = <[j := i]> out ->
      exists q1 q2, foldM (partition_step l) is_ (p1', p2', S j) = Ret (q1, q2, (j + S (length is_))%nat) /\
        length q1 = length p1 /\ length q2 = length p2 /\
        q1 ++ q2 = take j out ++ (i :: is_) ++ drop (j + S (length is_)) out).
    { intros p1' p2' H1 H2 Hins.
      destruct (IH p1' p2' (S j) (<[j := i]> out) Hne') as (q1 & q2 & E & L1 & L2 & Hq); [lia|done|].
      exists q1, q2. split; [by replace (j + S (length is_))%nat with (S j + length is_)%nat by lia|].
      split; [lia|]. split; [lia|]. rewrite Hq.
      assert (Hjl : (j < length out)%nat) by (rewrite <- Hout, length_app; lia).
      rewrite (take_S_r _ _ i) by (by apply list_lookup_insert_eq).
      rewrite take_insert_ge, drop_insert_lt by lia. rewrite <- app_assoc. simpl.
      do 3 f_equal. f_equal. lia. }
    destruct (Nat.ltb_spec j (length p1)) as [Hlt|Hge].
    + unfold set_at. destruct (lookup_lt_is_Some_2 p1 j Hlt) as [x ->]. step_bind.
      apply Hgoal; [by rewrite length_insert|done|]. by rewrite <- Hout, insert_app_l.
    + unfold set_at. destruct (lookup_lt_is_Some_2 p2 (j - length p1)) as [x ->]; [lia|].
      step_bind.
      apply Hgoal; [done|by rewrite length_insert|]. rewrite <- Hout.
      by rewrite insert_app_r_alt by lia.
Qed.

Lemma partition_skip l is_ : forall acc,
  foldM (partition_step l) is_ acc = foldM (partition_step l) (filter (fun i => i <> l) is_) acc.
Proof.
  induction is_ as [|i is_ IH]; intros acc; [done|].
  destruct (decide (i = l)) as [->|Hne].
  - rewrite filter_cons_False by (intros H; by apply H). cbn [foldM].
    rewrite partition_step_eq. apply IH.
  - rewrite filter_cons_True by done. cbn [foldM]. destruct (partition_step l acc i); [apply IH|done..].
Qed.

Lemma length_filter_ne n l :
  (l < n)%nat -> length (filter (fun i => i <> l) (seq 0 n)) = (n - 1)%nat.
Proof.
  intros Hl. replace n with (l + S (n - S l))%nat at 1 by lia.
  rewrite seq_app, filter_app, length_app. simpl.
  rewrite filter_cons_False by (intros H; by apply H).
  rewrite !filter_all; [rewrite !length_seq; lia| |];
    apply Forall_forall; intros x Hx%elem_of_seq; lia.
Qed.

(** [MakePartition] on an odd number of servers.  The two lists are a partition of
    all the servers, the first is the majority, and the given server (the leader)
    is in the minority. *)
Theorem MakePartition_odd k l :
  (1 <= k)%nat -> (l < 2 * k + 1)%nat ->
  exists p1 p2, MakePartition (2 * k + 1) l = Ret (p1, p2) /\
    length p1 = (k + 1)%nat /\ length p2 = k /\ p1 ++ p2 ≡ₚ seq 0 (2 * k + 1) /\ l ∈ p2.
Proof.
  intros Hk Hl. unfold MakePartition.
  assert (Hdiv : ((2 * k + 1) / 2 = k)%nat)
    by (symmetry; apply (Nat.div_unique _ 2 k 1); lia).
  rewrite Hdiv, partition_skip. set (os := filter (fun i => i <> l) (seq 0 (2 * k + 1))).
  assert (Hlen : length os = (2 * k)%nat) by (unfold os; rewrite length_filter_ne; lia).
  destruct (partition_fold l os (replicate (k + 1) 0%nat) (replicate k 0%nat) 0
    (replicate (k + 1) 0%nat ++ replicate k 0%nat)) as (p1 & p2 & -> & L1 & L2 & Hp).
  { intros i. unfold os. by intros [? _]%list_elem_of_filter. }
  { rewrite !length_replicate, Hlen. lia. }
  { done. }
  rewrite !length_replicate in L1, L2. step_bind.
  rewrite decide_False by (intros ->; simpl in L2; lia).
  unfold set_at. destruct (lookup_lt_is_Some_2 p2 (length p2 - 1)) as [x Hx]; [lia|]. rewrite Hx.
  step_bind. eexists _, _. split; [reflexivity|]. split; [done|].
  split; [by rewrite length_insert|].
  assert (Hins : p1 ++ <[(length p2 - 1)%nat := l]> p2 = os ++ [l]).
  { replace (length p2 - 1)%nat with ((length os) - length p1)%nat by lia.
    rewrite <- insert_app_r_alt by lia. rewrite Hp. simpl.
    rewrite <- replicate_add, drop_replicate, Hlen. replace (k + 1 + k - 2 * k)%nat with 1%nat by lia.
    simpl. rewrite insert_app_r_alt by lia. by rewrite Hlen, Nat.sub_diag. }
  split.
  - rewrite Hins. apply NoDup_Permutation.
    + apply NoDup_app. split; [apply NoDup_filter, NoDup_seq|]. split; [|apply NoDup_singleton].
      intros y [Hy _]%list_elem_of_filter ->%list_elem_of_singleton. done.
    + apply NoDup_seq.
    + intros y. unfold os. rewrite elem_of_app, list_elem_of_filter, list_elem_of_singleton, elem_of_seq.
      destruct (decide (y = l)); lia.
  - apply list_elem_of_lookup. exists (length p2 - 1)%nat. apply list_lookup_insert_eq. lia.
Qed.

(** With an even number of servers a slot keeps its initial 0: server 0 is put on both
    sides. *)
Example MakePartition_even : MakePartition 4 3 = Ret ([0; 1; 2], [0; 3])%nat.
Proof. reflexivity. Qed.

(** ** Shutdown and restart *)

(** The persister of server [i]. *)
Definition saved_of (g : group) (i : nat) : option Persister :=
  s ← g_srvs g !! i; p ← ts_saved s; g_persisters g !! p.

(** The old instance of a server keeps saving to the persister it was started with. *)
Definition old_saves (g : group) (writes : list (nat * Persister)) : group :=
  foldl (fun g '(p, ps) => with_persisters g (<[p := ps]> (g_persisters g))) g writes.

Lemma old_saves_srvs writes : forall g, g_srvs (old_saves g writes) = g_srvs g.
Proof. induction writes as [|[p ps] writes IH]; intros g; [done|]. simpl. by rewrite IH. Qed.

Lemma old_saves_lookup writes : forall g q,
  (forall p ps, (p, ps) ∈ writes -> p <> q) ->
  g_persisters (old_saves g writes) !! q = g_persisters g !! q.
Proof.
  induction writes as [|[p ps] writes IH]; intros g q Hne; [done|]. simpl.
  rewrite IH by (intros p' ps' H; apply (Hne p' ps'); auto with go). simpl.
  apply list_lookup_insert_ne. apply (Hne p ps), list_elem_of_here.
Qed.

Lemma makeServer_keeps Randstring g gid n g' srv :
  makeServer Randstring g gid n = Ret (g', srv) ->
  g_persisters g' = g_persisters g /\ g_srvs g' = g_srvs g.
Proof.
  unfold makeServer, makeServer_loop.
  intros ([g1 names] & H & [= <- _])%outcome_bind_inv. revert g names H.
  assert (Hgen : forall l g acc g1 names, foldM (fun '(g, names) j =>
      net ← MakeEnd (g_net g) (Randstring (g_names g));
      Ret (mkGroup (Connect net (Randstring (g_names g)) (ServerName gid (Z.of_nat j))) (g_srvs g)
             (g_connected g) (g_gid g) (g_persisters g) (S (g_names g)) (g_labsrvs g),
           names ++ [Randstring (g_names g)])) l (g, acc) = Ret (g1, names) ->
      g_persisters g1 = g_persisters g /\ g_srvs g1 = g_srvs g).
  { induction l as [|j l IH]; intros g acc g1' names; simpl; [by intros [= <- _]|].
    destruct (MakeEnd _ _) as [net| |]; simpl; try done. intros H. by apply IH in H. }
  intros g names H. by eapply Hgen.
Qed.

(** restart.  Shutting a server down and starting it again hands the new instance a
    persister of its own with what was saved at the shutdown: nothing the old
    instance saves to its persister afterwards, before or after the new start,
    reaches it. *)
Theorem restart_keeps_state Randstring n g i p ps g1 writes g2 :
  grp_wf n g -> (i < n)%nat ->
  (exists s, g_srvs g !! i = Some s /\ ts_saved s = Some p) -> g_persisters g !! p = Some ps ->
  ShutdownServer g i = Ret g1 ->
  (forall q qs, (q, qs) ∈ writes -> (q < length (g_persisters g))%nat) ->
  StartServer Randstring (old_saves g1 writes) i = Ret g2 ->
  saved_of g2 i = Some ps /\ saved_of (old_saves g2 writes) i = Some ps.
Proof.
  intros Hwf Hi (s & Hs & Hsv) Hp Hsd Hw Hst.
  destruct (disconnect_spec n g i (all g) Hwf Hi) as (gd & Ed & Wd & Sd & _ & _ & Pd & _).
  { intros j Hj. unfold all in Hj. apply elem_of_seq in Hj. rewrite (gw_srvs _ _ Hwf) in Hj. lia. }
  unfold ShutdownServer in Hsd. rewrite Ed in Hsd. cbn [mbind outcome_bind] in Hsd.
  unfold at_ in Hsd at 1. cbn [with_net g_srvs] in Hsd. rewrite Sd, Hs in Hsd.
  cbn [mbind outcome_bind] in Hsd. unfold shutdownServer in Hsd. rewrite Hsv in Hsd.
  unfold at_ in Hsd. cbn [with_net g_persisters] in Hsd. rewrite Pd, Hp in Hsd.
  cbn in Hsd. injection Hsd as <-.
  assert (Hlen : (i < length (g_srvs g))%nat) by (by rewrite (gw_srvs _ _ Hwf)).
  set (q := length (g_persisters g)) in *.
  match type of Hst with StartServer _ (old_saves ?g0 _) _ = _ => set (g1 := g0) in * end.
  assert (Hs1 : g_srvs (old_saves g1 writes) !! i = Some (mkTServer (Some q) false (ts_endNames s))).
  { rewrite old_saves_srvs. unfold g1. simpl. rewrite Sd, Pd. by apply list_lookup_insert_eq. }
  assert (Hp1 : g_persisters (old_saves g1 writes) !! q = Some ps).
  { rewrite old_saves_lookup.
    - unfold g1. simpl. rewrite Pd. unfold q. rewrite lookup_app_r, Nat.sub_diag by lia. by destruct ps.
    - intros p' ps' H. specialize (Hw p' ps' H). lia. }
  assert (Hl1 : (q < length (g_persisters (old_saves g1 writes)))%nat) by (by eapply lookup_lt_Some).
  unfold StartServer in Hst. rewrite (at_Ret _ _ _ Hs1) in Hst. cbn [mbind outcome_bind] in Hst.
  unfold startServer in Hst. cbn [ts_saved ts_endNames] in Hst.
  destruct (makeServer _ _ _ _) as [[g3 srv]| |] eqn:Em; try done. cbn [mbind outcome_bind] in Hst.
  destruct (makeServer_keeps _ _ _ _ _ _ Em) as [K1 K2].
  rewrite <- K1 in Hp1, Hl1. rewrite (at_Ret _ _ _ Hp1) in Hst. cbn in Hst. injection Hst as <-.
  assert (Hi3 : (i < length (g_srvs g3))%nat).
  { rewrite K2. by eapply lookup_lt_Some. }
  split.
  - unfold saved_of. simpl. rewrite list_lookup_insert_eq by done. simpl.
    rewrite lookup_app_r, Nat.sub_diag by lia. by destruct ps.
  - unfold saved_of. rewrite old_saves_srvs. simpl. rewrite list_lookup_insert_eq by done. simpl.
    rewrite old_saves_lookup; simpl.
    + rewrite lookup_app_r, Nat.sub_diag by lia. by destruct ps.
    + intros p' ps' H. specialize (Hw p' ps' H). lia.
Qed.

(** ** Clients *)

(** [Clnt]: its ends by server, and the servers it may use; [srvs] nil ([None]) is all
    of them. *)
Record Clnt := mkClnt { cl_ends : gmap string string; cl_srvs : option (list string) }.

Definition makeClntTo (srvs : option (list string)) : Clnt := mkClnt ∅ srvs.

Definition allowedL (clnt : Clnt) (server : string) : bool :=
  match cl_srvs clnt with
  | None => true
  | Some srvs => existsb (fun n => String.eqb n server) srvs
  end.

(** [makeEnd]; [name] is the random name of a new end. *)
Definition Clnt_makeEnd (net : Network) (clnt : Clnt) (name server : string)
  : outcome (Network * Clnt * string) :=
  match cl_ends clnt !! server with
  | Some e => Ret (net, clnt, e)
  | None =>
      net ← MakeEnd net name;
      let net := Connect net name server in
      let net := if allowedL clnt server then Enable net name true else Enable net name false in
      Ret (net, mkClnt (<[server := name]> (cl_ends clnt)) (cl_srvs clnt), name)
  end.

(** A loop over the map of ends that sets those whose server passes [f]; its order
    does not matter. *)
Definition set_ends (net : Network) (clnt : Clnt) (f : string -> bool) (v : bool) : Network :=
  foldl (fun net '(srv, e) => if f srv : bool then Enable net e v else net) net
    (map_to_list (cl_ends clnt)).

Definition Clnt_ConnectAll (net : Network) (clnt : Clnt) : Network * Clnt :=
  (set_ends net clnt (fun _ => true) true, mkClnt (cl_ends clnt) None).

Definition Clnt_ConnectTo (net : Network) (clnt : Clnt) (srvs : option (list string)) : Network * Clnt :=
  let clnt := mkClnt (cl_ends clnt) srvs in
  (set_ends net clnt (allowedL clnt) true, clnt).

Definition Clnt_Disconnect (net : Network) (clnt : Clnt) (srv : string) : Network :=
  set_ends net clnt (String.eqb srv) false.

Definition Clnt_DisconnectAll (net : Network) (clnt : Clnt) : Network * Clnt :=
  (set_ends net clnt (fun _ => true) false, mkClnt (cl_ends clnt) (Some [])).

Definition Clnt_remove (net : Network) (clnt : Clnt) : outcome Network :=
  foldM (fun net '(_, e) => DeleteEnd net e) (map_to_list (cl_ends clnt)) net.

Lemma set_ends_spec net clnt f v e :
  is_enabled (set_ends net clnt f v) e = true <->
  ((exists srv, cl_ends clnt !! srv = Some e /\ f srv = true) /\ v = true) \/
  (~ (exists srv, cl_ends clnt !! srv = Some e /\ f srv = true) /\ is_enabled net e = true).
Proof.
  unfold set_ends.
  assert (Hgen : forall l net, is_enabled (foldl (fun net '(srv, e) => if f srv : bool then Enable net e v else net) net l) e =
    if decide (Exists (fun kv => f kv.1 = true /\ kv.2 = e) l) then v else is_enabled net e).
  { induction l as [|[srv e'] l IH]; intros net'; [done|]. cbn [foldl]. rewrite IH.
    destruct (decide (Exists _ l)) as [Hl|Hl].
    - rewrite decide_True; [done|]. by apply Exists_cons_tl.
    - destruct (f srv) eqn:Hf.
      + rewrite is_enabled_Enable. destruct (decide (e' = e)) as [->|Hne].
        * rewrite decide_True; [done|]. by apply Exists_cons_hd.
        * rewrite decide_False; [done|]. rewrite Exists_cons. simpl. intros [[_ ?]|?]; done.
      + rewrite decide_False; [done|]. rewrite Exists_cons. simpl. rewrite Hf. intros [[? _]|?]; done. }
  rewrite Hgen.
  assert (Hiff : Exists (fun kv => f kv.1 = true /\ kv.2 = e) (map_to_list (cl_ends clnt)) <->
    exists srv, cl_ends clnt !! srv = Some e /\ f srv = true).
  { rewrite Exists_exists. split.
    - intros ([srv e'] & Hin & Hf & <-). apply elem_of_map_to_list in Hin. by exists srv.
    - intros (srv & Hs & Hf). exists (srv, e). by rewrite elem_of_map_to_list. }
  case_decide as Hd; rewrite Hiff in Hd; tauto.
Qed.

(** what [ConnectTo] leaves connected.  An end of the client is enabled afterwards
    exactly when its server is in the given list or it was enabled before:
    [ConnectTo] never disables an end, so a client connected to everything and
    then restricted to no server still reaches them all. *)
Theorem ConnectTo_never_disconnects net clnt srvs srv e :
  (forall srv', cl_ends clnt !! srv' = Some e -> srv' = srv) -> cl_ends clnt !! srv = Some e ->
  let '(net', clnt') := Clnt_ConnectTo net clnt srvs in
  is_enabled net' e = allowedL clnt' srv || is_enabled net e.
Proof.
  intros Huniq He. unfold Clnt_ConnectTo. set (clnt' := mkClnt (cl_ends clnt) srvs).
  pose proof (set_ends_spec net clnt' (allowedL clnt') true e) as Hs.
  assert (Hex : (exists srv', cl_ends clnt' !! srv' = Some e /\ allowedL clnt' srv' = true) <->
                allowedL clnt' srv = true).
  { split; [|by exists srv]. intros (srv' & Hs' & Ha). by rewrite <- (Huniq srv' Hs'). }
  rewrite Hex in Hs. apply eq_true_iff_eq. rewrite Hs, orb_true_iff.
  clear Hs Hex. destruct (allowedL clnt' srv); intuition congruence.
Qed.

(** ** Concrete groups *)

Module TesterDemo.
(** Two servers, everything enabled except the ends of server 1. *)
Definition net : Network :=
  Enable (Enable (Enable MakeNetwork "a0" true) "a1" true) "b0" true.
Definition g : group :=
  mkGroup net [mkTServer (Some 0%nat) true ["a0"; "a1"]; mkTServer None true ["b0"; "b1"]]
    [true; false] 0 [mkPersister [Byte.x07] []] 4 2.

Lemma wf : grp_wf 2 g.
Proof.
  split; [done|done| |].
  - intros i s Hs. destruct i as [|[|i]]; simpl in Hs; simplify_eq; done.
  - intros a b a' b' Ha Hb Ha' Hb'.
    destruct a as [|[|a]]; [| |lia]; destruct b as [|[|b]]; try lia;
      destruct a' as [|[|a']]; try lia; destruct b' as [|[|b']]; try lia;
      vm_compute; intros H; by first [split|discriminate H].
Qed.

Definition Randstring (k : nat) : string := "r" +:+ pretty k.
End TesterDemo.

Lemma Partition_spec_witness :
  exists g', Partition TesterDemo.g [0%nat] [1%nat] = Ret g' /\
    linked g' 0 1 = false /\ linked g' 1 1 = true.
Proof.
  destruct (Partition_spec 2 TesterDemo.g [0%nat] [1%nat]) as (g' & E & Hl).
  - apply TesterDemo.wf.
  - intros j [->|[->|?%elem_of_nil]%elem_of_cons]%elem_of_cons; [lia|lia|done].
  - by intros j ->%list_elem_of_singleton ?%list_elem_of_singleton.
  - exists g'. split; [exact E|]. split; rewrite Hl; try (vm_compute; reflexivity); repeat constructor.
Defined.

Lemma MakePartition_odd_witness :
  exists p1 p2, MakePartition 5 4 = Ret (p1, p2) /\ length p1 = 3%nat /\ 4%nat ∈ p2.
Proof.
  destruct (MakePartition_odd 2 4 ltac:(lia) ltac:(lia)) as (p1 & p2 & E & L1 & _ & _ & Hin).
  exists p1, p2. split; [exact E|]. split; [exact L1|exact Hin].
Defined.

Lemma restart_keeps_state_witness :
  exists g1 g2, ShutdownServer TesterDemo.g 0 = Ret g1 /\
    StartServer TesterDemo.Randstring (old_saves g1 [(0%nat, mkPersister [Byte.x09] [])]) 0 = Ret g2 /\
    saved_of g2 0 = Some (mkPersister [Byte.x07] []).
Proof.
  do 2 eexists. split; [vm_compute; reflexivity|]. split; [vm_compute; reflexivity|].
  refine (proj1 (restart_keeps_state TesterDemo.Randstring 2 TesterDemo.g 0 0 (mkPersister [Byte.x07] [])
    _ [(0%nat, mkPersister [Byte.x09] [])] _ TesterDemo.wf _ _ _ _ _ _)).
  - lia.
  - by eexists.
  - reflexivity.
  - vm_compute. reflexivity.
  - intros q qs [= -> ->]%list_elem_of_singleton. simpl. lia.
  - vm_compute. reflexivity.
Defined.

Lemma ConnectTo_never_disconnects_witness :
  is_enabled (Clnt_ConnectTo (Enable MakeNetwork "e" true) (mkClnt {["s" := "e"]} None) (Some [])).1 "e" = true.
Proof.
  exact (ConnectTo_never_disconnects (Enable MakeNetwork "e" true) (mkClnt {["s" := "e"]} None) (Some [])
    "s" "e" (fun srv' H => eq_sym (proj1 (proj1 (lookup_singleton_Some _ _ _ _) H))) eq_refl).
Defined.
