(* ===== verification/TestCfg.v ===== *)
(** The test configuration ([tester1/config.go]), the tables of groups and of clients it
    holds ([tester1/group.go], [tester1/clnts.go]) and the partitioner of
    [kvtest1/kvtest.go], over the groups and clients of [Tester.v] on one shared network:
    how a group is started and left, what a cleanup removes. *)
From S2P Require Import Prelude.
From stdpp Require Import pretty.
From S2P Require Import Labrpc.
From S2P Require Import Tester.
Open Scope Z_scope.

(** ** State *)

(** What a [ServerGrp] holds of its own; the network is shared. *)
Record sgrp := mkSgrp { sg_srvs : list TServer; sg_connected : list bool; sg_gid : Z }.

(** [struct Config] with its [Clnts] and [Groups], and what they reach: the network and
    whether it is cleaned up, the persisters, the names drawn and servers made so far,
    the clients ([clerks] is nil after a cleanup), the services that a cleanup has killed
    (group and server), and whether the test has failed.  Times are in seconds. *)
Record Config := mkConfig {
  cf_net : Network;
  cf_closed : bool;
  cf_persisters : list Persister;
  cf_names : nat;
  cf_labsrvs : nat;
  cf_grps : gmap Z sgrp;
  cf_clnts : list Clnt;
  cf_clerks : option (gset nat);
  cf_killed : list (Z * nat);
  cf_start : Z;
  cf_t0 : Z;
  cf_rpcs0 : Z;
  cf_ops : Z;
  cf_failed : bool
}.

Definition set_net (c : Config) (net : Network) : Config :=
  mkConfig net (cf_closed c) (cf_persisters c) (cf_names c) (cf_labsrvs c) (cf_grps c) (cf_clnts c)
    (cf_clerks c) (cf_killed c) (cf_start c) (cf_t0 c) (cf_rpcs0 c) (cf_ops c) (cf_failed c).
Definition set_grps (c : Config) (grps : gmap Z sgrp) : Config :=
  mkConfig (cf_net c) (cf_closed c) (cf_persisters c) (cf_names c) (cf_labsrvs c) grps (cf_clnts c)
    (cf_clerks c) (cf_killed c) (cf_start c) (cf_t0 c) (cf_rpcs0 c) (cf_ops c) (cf_failed c).
Definition set_clnts (c : Config) (clnts : list Clnt) (clerks : option (gset nat)) : Config :=
  mkConfig (cf_net c) (cf_closed c) (cf_persisters c) (cf_names c) (cf_labsrvs c) (cf_grps c) clnts
    clerks (cf_killed c) (cf_start c) (cf_t0 c) (cf_rpcs0 c) (cf_ops c) (cf_failed c).
Definition set_killed (c : Config) (killed : list (Z * nat)) : Config :=
  mkConfig (cf_net c) (cf_closed c) (cf_persisters c) (cf_names c) (cf_labsrvs c) (cf_grps c) (cf_clnts c)
    (cf_clerks c) killed (cf_start c) (cf_t0 c) (cf_rpcs0 c) (cf_ops c) (cf_failed c).
Definition set_stats (c : Config) (t0 rpcs0 ops : Z) : Config :=
  mkConfig (cf_net c) (cf_closed c) (cf_persisters c) (cf_names c) (cf_labsrvs c) (cf_grps c) (cf_clnts c)
    (cf_clerks c) (cf_killed c) (cf_start c) t0 rpcs0 ops (cf_failed c).
Definition set_closed (c : Config) : Config :=
  mkConfig (cf_net c) true (cf_persisters c) (cf_names c) (cf_labsrvs c) (cf_grps c) (cf_clnts c)
    (cf_clerks c) (cf_killed c) (cf_start c) (cf_t0 c) (cf_rpcs0 c) (cf_ops c) (cf_failed c).

(** A group with the shared parts, and back. *)
Definition load (c : Config) (sg : sgrp) : group :=
  mkGroup (cf_net c) (sg_srvs sg) (sg_connected sg) (sg_gid sg) (cf_persisters c) (cf_names c) (cf_labsrvs c).
Definition store (c : Config) (gid : Z) (g : group) : Config :=
  mkConfig (g_net g) (cf_closed c) (g_persisters g) (g_names g) (g_labsrvs g)
    (<[gid := mkSgrp (g_srvs g) (g_connected g) (g_gid g)]> (cf_grps c)) (cf_clnts c) (cf_clerks c)
    (cf_killed c) (cf_start c) (cf_t0 c) (cf_rpcs0 c) (cf_ops c) (cf_failed c).

(** ** Groups *)

Definition newGroups : gmap Z sgrp := ∅.

(** [lookupGroup]: nil when there is no such group. *)
Definition lookupGroup (c : Config) (gid : Z) : option group := load c <$> cf_grps c !! gid.

(** A method of the group [gid]: on nil it dereferences nil. *)
Definition on_group (c : Config) (gid : Z) (op : group -> outcome group) : outcome Config :=
  match lookupGroup c gid with
  | Some g => g' ← op g; Ret (store c gid g')
  | None => Panic
  end.

Section Config.
Variable Randstring : nat -> string.

(** A group of the same id is replaced, its servers left as they are. *)
Definition MakeGroup (c : Config) (gid : Z) (nsrv : nat) : outcome Config :=
  g ← makeSrvGrp Randstring (cf_net c) gid nsrv (cf_names c) (cf_labsrvs c);
  Ret (store c gid (with_persisters g (cf_persisters c))).

Definition Groups_delete (c : Config) (gid : Z) : Config := set_grps c (delete gid (cf_grps c)).

(** The services of a group that run, as [cleanup] kills them. *)
Definition sg_cleanup (gid : Z) (sg : sgrp) : list (Z * nat) :=
  concat (imap (fun i s => if ts_svcs s then [(gid, i)] else []) (sg_srvs sg)).

Definition Groups_cleanup (c : Config) : Config :=
  foldl (fun c '(gid, sg) => set_killed c (cf_killed c ++ sg_cleanup gid sg)) c (map_to_list (cf_grps c)).

Definition MakeGroupStart (c : Config) (gid : Z) (nsrv : nat) : outcome Config :=
  c ← MakeGroup c gid nsrv; on_group c gid (StartServers Randstring).

Definition ExitGroup (c : Config) (gid : Z) : outcome Config :=
  c ← on_group c gid Shutdown; Ret (Groups_delete c gid).

(** ** Queries of a group *)

Definition SrvNames (g : group) : list string :=
  (fun i => ServerName (g_gid g) (Z.of_nat i)) <$> seq 0 (N g).
Definition SrvName (g : group) (i : nat) : outcome string := at_ (SrvNames g) i.
Definition SrvNamesTo (g : group) (to : list nat) : outcome (list string) :=
  foldM (fun ns i => s ← SrvName g i; Ret (ns ++ [s])) to [].
Definition Services (g : group) : list bool := ts_svcs <$> g_srvs g.
Definition GetConnected (g : group) : list bool := g_connected g.

(** [s.saved.RaftStateSize()]: a nil persister is a nil dereference. *)
Definition saved_size (size : Persister -> Z) (g : group) (s : TServer) : outcome Z :=
  match ts_saved s with Some p => ps ← at_ (g_persisters g) p; Ret (size ps) | None => Panic end.
Definition max_size (size : Persister -> Z) (g : group) : outcome Z :=
  foldM (fun m s => n ← saved_size size g s; Ret (if n >? m then n else m)) (g_srvs g) 0.
Definition LogSize (g : group) : outcome Z := max_size RaftStateSize g.
Definition grp_SnapshotSize (g : group) : outcome Z := max_size SnapshotSize g.

Definition RpcCount {Method} (servers : nat -> Server (Method := Method)) (g : group) (server : nat) : outcome Z :=
  Network_GetCount (g_net g) servers (ServerName (g_gid g) (Z.of_nat server)).

(** ** Clients *)

Definition makeClnts : option (gset nat) := Some ∅.

(** [Clnts.makeEnd]. *)
Definition Clnts_makeEnd (c : Config) (servername : string) : outcome (Config * string) :=
  let name := Randstring (cf_names c) in
  net ← MakeEnd (cf_net c) name;
  let net := Enable (Connect net name servername) name true in
  Ret (mkConfig net (cf_closed c) (cf_persisters c) (S (cf_names c)) (cf_labsrvs c) (cf_grps c) (cf_clnts c)
         (cf_clerks c) (cf_killed c) (cf_start c) (cf_t0 c) (cf_rpcs0 c) (cf_ops c) (cf_failed c), name).

(** The table of clients is nil after a cleanup: an assignment to it panics. *)
Definition MakeClientTo (c : Config) (srvs : option (list string)) : outcome (Config * nat) :=
  match cf_clerks c with
  | Some clerks =>
      let id := length (cf_clnts c) in
      Ret (set_clnts c (cf_clnts c ++ [makeClntTo srvs]) (Some ({[id]} ∪ clerks)), id)
  | None => Panic
  end.
Definition MakeClient (c : Config) : outcome (Config * nat) := MakeClientTo c None.

(** [makeEnd] of client [id], as [Call] does before it sends. *)
Definition client_end (c : Config) (id : nat) (server : string) : outcome (Config * string) :=
  clnt ← at_ (cf_clnts c) id;
  '(net, clnt', e) ← Clnt_makeEnd (cf_net c) clnt (Randstring (cf_names c)) server;
  let names := match cl_ends clnt !! server with Some _ => cf_names c | None => S (cf_names c) end in
  Ret (mkConfig net (cf_closed c) (cf_persisters c) names (cf_labsrvs c) (cf_grps c)
         (<[id := clnt']> (cf_clnts c)) (cf_clerks c) (cf_killed c) (cf_start c) (cf_t0 c) (cf_rpcs0 c)
         (cf_ops c) (cf_failed c), e).

Definition remove_client (c : Config) (id : nat) : outcome Config :=
  clnt ← at_ (cf_clnts c) id; net ← Clnt_remove (cf_net c) clnt; Ret (set_net c net).

(** [Clnts.cleanup]. *)
Definition Clnts_cleanup (c : Config) : outcome Config :=
  c ← foldM remove_client (elements (default ∅ (cf_clerks c))) c;
  Ret (set_clnts c (cf_clnts c) None).

Definition DeleteClient (c : Config) (id : nat) : outcome Config :=
  match cf_clerks c with
  | Some clerks =>
      if decide (id ∈ clerks) then
        c ← remove_client c id; Ret (set_clnts c (cf_clnts c) (Some (clerks ∖ {[id]})))
      else Ret c
  | None => Ret c
  end.

(** ** The configuration *)

Definition GRP0 : Z := 0.

(** [cfg.Clnts] is still nil while the first group is made. *)
Definition MakeConfig (n : nat) (reliable : bool) (now : Z) : outcome Config :=
  let c := mkConfig MakeNetwork false [] 0 0 newGroups [] None [] 0 0 0 0 false in
  c ← MakeGroupStart c GRP0 n;
  let c := set_clnts c (cf_clnts c) makeClnts in
  Ret (mkConfig (Reliable (cf_net c) reliable) (cf_closed c) (cf_persisters c) (cf_names c) (cf_labsrvs c)
         (cf_grps c) (cf_clnts c) (cf_clerks c) (cf_killed c) now (cf_t0 c) (cf_rpcs0 c) (cf_ops c) (cf_failed c)).

Definition SetReliable (c : Config) (reliable : bool) : Config := set_net c (Reliable (cf_net c) reliable).
Definition cf_IsReliable (c : Config) : bool := IsReliable (cf_net c).
Definition SetLongReordering (c : Config) (longrel : bool) : Config := set_net c (LongReordering (cf_net c) longrel).
Definition SetLongDelays (c : Config) (longdel : bool) : Config := set_net c (LongDelays (cf_net c) longdel).

(** [t.Fatal]: the test ends. *)
Definition CheckTimeout (c : Config) (now : Z) : outcome Config :=
  if negb (cf_failed c) && (now - cf_start c >? 120) then Panic else Ret c.

(** [net.Cleanup] closes a channel, which panics when it is closed. *)
Definition net_Cleanup (c : Config) : outcome Config := if cf_closed c then Panic else Ret (set_closed c).

Definition Cleanup (c : Config) (now : Z) : outcome Config :=
  c ← Clnts_cleanup c;
  let c := Groups_cleanup c in
  c ← net_Cleanup c;
  CheckTimeout c now.

Definition RpcTotal (c : Config) : Z := GetTotalCount (cf_net c).
Definition BytesTotal (c : Config) : Z := GetTotalBytes (cf_net c).
Definition Begin (c : Config) (now : Z) : Config := set_stats c now (RpcTotal c) 0.
Definition Op (c : Config) : Config := set_stats c (cf_t0 c) (cf_rpcs0 c) (wrap32 (cf_ops c + 1)).

(** [End]: the figures it prints, seconds, peers, RPCs and operations. *)
Definition End_ (c : Config) (now : Z) : outcome (option (Z * nat * Z * Z)) :=
  c ← CheckTimeout c now;
  if negb (cf_failed c) then
    match lookupGroup c GRP0 with
    | Some g => Ret (Some (now - cf_t0 c, N g, wrap64 (RpcTotal c - cf_rpcs0 c), cf_ops c))
    | None => Panic
    end
  else Ret None.
End Config.

(** [random_handles]: round [i] swaps with the index that [rand.Intn(i + 1)] draws. *)
Definition swap_step {A} (sa : list A) (ij : nat * nat) : outcome (list A) :=
  x ← at_ sa ij.1; y ← at_ sa ij.2;
  sa ← set_at sa ij.1 y; set_at sa ij.2 x.
Definition random_handles {A} (kvh : list A) (draws : list nat) : outcome (list A) :=
  foldM swap_step (imap pair (take (length kvh) draws)) kvh.

(** The test of the key/value server ([kvsrv1/test.go]): one server, and clerks that are a
    client and the name of that server. *)
Definition MakeTestKV (Randstring : nat -> string) (reliable : bool) (now : Z) : outcome Config :=
  MakeConfig Randstring 1 reliable now.
Definition TestKV_MakeClerk (c : Config) : outcome (Config * (nat * string)) :=
  '(c, clnt) ← MakeClient c; Ret (c, (clnt, ServerName GRP0 0)).
Definition TestKV_DeleteClerk (c : Config) (ck : nat * string) : outcome Config := DeleteClient c ck.1.

(** One round of [kvtest.Partitioner]; [draws] are its random numbers. *)
Definition partition_lists (draws : list Z) : list nat * list nat :=
  let a := (fun r => Z.rem r 2) <$> draws in
  (filter (fun j => a !! j = Some 0) (seq 0 (length a)), filter (fun j => a !! j = Some 1) (seq 0 (length a))).
Definition Partitioner_round (c : Config) (gid : Z) (draws : list Z) : outcome Config :=
  on_group c gid (fun g =>
    let '(p0, p1) := partition_lists (take (N g) draws) in Partition g p0 p1).

(** ** What connecting changes *)

(** Only ends of the group's servers are enabled or disabled. *)
Record frame (g g' : group) : Prop := {
  fr_srvs : g_srvs g' = g_srvs g;
  fr_gid : g_gid g' = g_gid g;
  fr_names : g_names g' = g_names g;
  fr_lab : g_labsrvs g' = g_labsrvs g;
  fr_servers : rn_servers (g_net g') = rn_servers (g_net g);
  fr_conns : rn_connections (g_net g') = rn_connections (g_net g);
  fr_ends : rn_ends (g_net g') = rn_ends (g_net g);
  fr_pers : g_persisters g' = g_persisters g;
  fr_enabled e : (forall s, s ∈ g_srvs g -> e ∉ ts_endNames s) ->
    rn_enabled (g_net g') !! e = rn_enabled (g_net g) !! e
}.

Lemma frame_refl g : frame g g.
Proof. by split. Qed.

Lemma frame_trans g1 g2 g3 : frame g1 g2 -> frame g2 g3 -> frame g1 g3.
Proof.
  intros [A1 A2 A3 A4 A5 A6 A7 A8 A9] [B1 B2 B3 B4 B5 B6 B7 B8 B9]. split; try congruence.
  intros e He. rewrite B9, A9; [done|done|]. by rewrite A1.
Qed.

Lemma frame_enable g s j e v :
  s ∈ g_srvs g -> at_ (ts_endNames s) j = Ret e -> frame g (with_net g (Enable (g_net g) e v)).
Proof.
  intros Hs He. split; try done. intros e' He'. simpl. apply lookup_insert_ne. intros ->.
  apply (He' s Hs). unfold at_ in He. destruct (ts_endNames s !! j) eqn:E; simplify_eq.
  by eapply list_elem_of_lookup_2.
Qed.

Lemma at_elem {A} (l : list A) i x : at_ l i = Ret x -> x ∈ l.
Proof. unfold at_. destruct (l !! i) eqn:E; intros [= <-]. by eapply list_elem_of_lookup_2. Qed.

Lemma connect_frame g i to g' : connect g i to = Ret g' -> frame g g'.
Proof.
  unfold connect. intros (c & _ & (s & Hs & (g1 & H1 & H2)%outcome_bind_inv)%outcome_bind_inv)%outcome_bind_inv.
  apply at_elem in Hs. apply (frame_trans _ g1).
  - apply (frame_trans _ (with_connected g c)); [by split|].
    assert (H : s ∈ g_srvs (with_connected g c) -> frame (with_connected g c) g1); [|by apply H].
    revert H1. unfold Server_connect. apply (foldM_rel (fun g g' => s ∈ g_srvs g -> frame g g')).
    + intros ? _. apply frame_refl.
    + intros ? ? ? A B Hin. eapply frame_trans; [by apply A|]. apply B. by rewrite (fr_srvs _ _ (A Hin)).
    + intros g2 j g3 (b & _ & Hb)%outcome_bind_inv Hin. destruct b; [|simplify_eq; apply frame_refl].
      apply outcome_bind_inv in Hb as (e & He & [= <-]). by eapply frame_enable.
  - revert H2. apply foldM_rel; [apply frame_refl|apply frame_trans|].
    intros g2 j g3 (b & _ & Hb)%outcome_bind_inv. destruct b; [|simplify_eq; apply frame_refl].
    apply outcome_bind_inv in Hb as (sj & Hsj & (e & He & [= <-])%outcome_bind_inv).
    eapply frame_enable; [by eapply at_elem|done].
Qed.

Lemma disconnect_frame g i from g' : disconnect g i from = Ret g' -> frame g g'.
Proof.
  unfold disconnect. intros (c & _ & (s & Hs & (g1 & H1 & H2)%outcome_bind_inv)%outcome_bind_inv)%outcome_bind_inv.
  apply at_elem in Hs. apply (frame_trans _ g1).
  - apply (frame_trans _ (with_connected g c)); [by split|].
    assert (H : s ∈ g_srvs (with_connected g c) -> frame (with_connected g c) g1); [|by apply H].
    revert H1. unfold Server_disconnect. apply (foldM_rel (fun g g' => s ∈ g_srvs g -> frame g g')).
    + intros ? _. apply frame_refl.
    + intros ? ? ? A B Hin. eapply frame_trans; [by apply A|]. apply B. by rewrite (fr_srvs _ _ (A Hin)).
    + intros g2 j g3 (e & He & [= <-])%outcome_bind_inv Hin. by eapply frame_enable.
  - revert H2. apply foldM_rel; [apply frame_refl|apply frame_trans|].
    intros g2 j g3 (sj & Hsj & (e & He & [= <-])%outcome_bind_inv)%outcome_bind_inv.
    eapply frame_enable; [by eapply at_elem|done].
Qed.

(** [ConnectAll] on a group no server of which is connected: after [i] rounds the first
    [i] servers reach each other. *)
Record connected_upto (n i : nat) (g0 g : group) : Prop := {
  cu_wf : grp_wf n g;
  cu_frame : frame g0 g;
  cu_conn j : (j < n)%nat -> conn g j = bool_decide (j < i)%nat;
  cu_linked a b : (a < n)%nat -> (b < n)%nat -> linked g a b = bool_decide (a < i)%nat && bool_decide (b < i)%nat
}.

Lemma connected_step n i g0 g :
  (i < n)%nat -> connected_upto n i g0 g -> exists g', ConnectOne g i = Ret g' /\ connected_upto n (S i) g0 g'.
Proof.
  intros Hi [H1 H2 H3 H4]. unfold ConnectOne.
  assert (Hall : forall j, j ∈ all g <-> (j < n)%nat)
    by (intros j; unfold all; rewrite elem_of_seq, (gw_srvs _ _ H1); lia).
  destruct (connect_spec n g i (all g) H1 Hi) as (g' & E & W & S & C & L); [intros j; apply Hall|].
  exists g'. split; [done|]. split; [done|eapply frame_trans; [done|by eapply connect_frame]|..].
  - intros j Hj. rewrite C, H3 by done. case_decide; repeat case_bool_decide; lia || done.
  - intros a b Ha Hb. rewrite L, H4 by done. pose proof (proj2 (Hall a) Ha). pose proof (proj2 (Hall b) Hb).
    case_decide as Hc; rewrite !C, !H3 in Hc by done;
      repeat case_decide; repeat case_bool_decide; simpl; try done; subst; exfalso; intuition (lia || done).
Qed.

Lemma ConnectAll_spec n g :
  grp_wf n g -> (forall j, (j < n)%nat -> conn g j = false) ->
  (forall a b, (a < n)%nat -> (b < n)%nat -> linked g a b = false) ->
  exists g', ConnectAll g = Ret g' /\ connected_upto n n g g'.
Proof.
  intros Hwf Hc Hl. unfold ConnectAll, all. rewrite (gw_srvs _ _ Hwf).
  enough (H : forall m, (m <= n)%nat -> exists g', foldM ConnectOne (seq 0 m) g = Ret g' /\ connected_upto n m g g')
    by (by apply H).
  induction m as [|m IH]; intros Hm.
  - exists g. split; [done|]. split; [done|apply frame_refl|..].
    + intros j Hj. rewrite Hc by done. by rewrite bool_decide_eq_false_2 by lia.
    + intros a b Ha Hb. rewrite Hl by done. by rewrite bool_decide_eq_false_2 by lia.
  - destruct IH as (g1 & E1 & H1); [lia|]. destruct (connected_step n m g g1) as (g2 & E2 & H2); [lia|done|].
    exists g2. split; [|done]. rewrite seq_S, foldM_app, E1. simpl. by rewrite E2.
Qed.

(** The persisters that the servers of a group hold exist. *)
Definition saved_ok (g : group) : Prop :=
  forall s p, s ∈ g_srvs g -> ts_saved s = Some p -> (p < length (g_persisters g))%nat.

(** ** Making ends *)

Section Starting.
Variable Randstring : nat -> string.
Hypothesis Rand_inj : forall i j, Randstring i = Randstring j -> i = j.

(** Every end has one of the first [k] names. *)
Definition names_below (net : Network) (k : nat) : Prop :=
  forall e, e ∈ rn_ends net -> exists j, (j < k)%nat /\ e = Randstring j.

(** [net'] is [net] with ends named from [k] on, one for each server of [l], connected
    and disabled. *)
Record made (gid : Z) (k : nat) (l : list nat) (net net' : Network) : Prop := {
  md_servers : rn_servers net' = rn_servers net;
  md_names : names_below net' (k + length l);
  md_old j : (j < k)%nat -> rn_enabled net' !! Randstring j = rn_enabled net !! Randstring j /\
    rn_connections net' !! Randstring j = rn_connections net !! Randstring j;
  md_ends e : e ∈ rn_ends net -> e ∈ rn_ends net';
  md_new j i : l !! j = Some i -> is_enabled net' (Randstring (k + j)) = false /\
    rn_connections net' !! Randstring (k + j) = Some (Some (ServerName gid (Z.of_nat i)))
}.

Lemma MakeEnd_fresh net e : e ∉ rn_ends net ->
  MakeEnd net e = Ret (with_tables net ({[e]} ∪ rn_ends net) (<[e := false]> (rn_enabled net))
    (rn_servers net) (<[e := None]> (rn_connections net))).
Proof. intros H. unfold MakeEnd. by rewrite decide_False. Qed.

Lemma makeServer_spec gid l : forall g acc,
  names_below (g_net g) (g_names g) ->
  exists net', foldM (fun '(g, names) j =>
      let e := Randstring (g_names g) in
      net ← MakeEnd (g_net g) e;
      let net := Connect net e (ServerName gid (Z.of_nat j)) in
      Ret (mkGroup net (g_srvs g) (g_connected g) (g_gid g) (g_persisters g) (S (g_names g)) (g_labsrvs g),
           names ++ [e])) l (g, acc) =
    Ret (mkGroup net' (g_srvs g) (g_connected g) (g_gid g) (g_persisters g) (g_names g + length l)
           (g_labsrvs g), acc ++ (Randstring <$> seq (g_names g) (length l))) /\
    made gid (g_names g) l (g_net g) net'.
Proof.
  induction l as [|i l IH]; intros g acc Hb.
  - exists (g_net g). rewrite Nat.add_0_r, app_nil_r. split; [by destruct g|].
    split; try done. by rewrite Nat.add_0_r.
  - cbn [foldM]. set (k := g_names g) in *. cbn zeta.
    assert (Hnew : Randstring k ∉ rn_ends (g_net g)).
    { intros (j & Hj & He)%Hb. apply Rand_inj in He. lia. }
    rewrite MakeEnd_fresh by done. step_bind.
    set (net1 := Connect _ _ _). set (g1 := mkGroup net1 _ _ _ _ _ _).
    destruct (IH g1 (acc ++ [Randstring k])) as (net' & E & [M1 M2 M3 M4 M5]).
    { intros e He. unfold net1 in He. simpl in He. apply elem_of_union in He as [->%elem_of_singleton|He].
      - exists k. split; [simpl; lia|done].
      - apply Hb in He as (j & Hj & ->). exists j. split; [simpl; lia|done]. }
    cbn [g_names g1] in *. exists net'. split.
    { rewrite E. simpl. rewrite <- app_assoc. repeat f_equal. lia. }
    split; simpl in *.
    + by rewrite M1.
    + by replace (k + S (length l))%nat with (S k + length l)%nat by lia.
    + intros j Hj. destruct (M3 j) as [-> ->]; [lia|]. unfold net1. simpl.
      assert (Randstring k <> Randstring j) by (intros He%Rand_inj; lia).
      by rewrite !lookup_insert_ne.
    + intros e He. apply M4. unfold net1. simpl. apply elem_of_union. by right.
    + intros [|j] i' Hj; simpl in Hj; simplify_eq.
      * rewrite Nat.add_0_r. destruct (M3 k) as [Hen Hcn]; [lia|].
        unfold is_enabled. rewrite Hen, Hcn. unfold net1. simpl.
        by rewrite !lookup_insert_eq.
      * replace (k + S j)%nat with (S k + j)%nat by lia. by apply M5.
Qed.

Lemma makeServer_made gid n g :
  names_below (g_net g) (g_names g) ->
  exists net', makeServer Randstring g gid n =
    Ret (mkGroup net' (g_srvs g) (g_connected g) (g_gid g) (g_persisters g) (g_names g + n) (g_labsrvs g),
         mkTServer None false (Randstring <$> seq (g_names g) n)) /\
    made gid (g_names g) (seq 0 n) (g_net g) net'.
Proof.
  intros Hb. destruct (makeServer_spec gid (seq 0 n) g [] Hb) as (net' & E & M). exists net'.
  split; [|done]. rewrite length_seq in E. unfold makeServer.
  assert (E' : makeServer_loop Randstring g gid n = Ret
    (mkGroup net' (g_srvs g) (g_connected g) (g_gid g) (g_persisters g) (g_names g + n) (g_labsrvs g),
     Randstring <$> seq (g_names g) n)) by exact E.
  by rewrite E'.
Qed.

Lemma ServerName_inj gid a b :
  ServerName gid (Z.of_nat a) = ServerName gid (Z.of_nat b) -> a = b.
Proof.
  unfold ServerName. intros H. apply (inj (String.app "server-")) in H.
  apply (inj (String.app (pretty gid))) in H. apply (inj (String.app "-")) in H.
  apply (inj pretty) in H. lia.
Qed.

(** ** Starting the servers of a group, new or shut down *)

Section Group.
(** The group before its servers are started. *)
Variable n : nat.
Variable g0 : group.
Hypothesis Hlen : length (g_srvs g0) = n.
Hypothesis Hends : forall s, s ∈ g_srvs g0 -> length (ts_endNames s) = n.
Hypothesis Hsaved : saved_ok g0.
Hypothesis Hbelow : names_below (g_net g0) (g_names g0).

(** The ends of server [a] once it is started. *)
Definition ends_of (a : nat) : list string := Randstring <$> seq (g_names g0 + n * a) n.

(** The first [i] servers are started. *)
Record started_upto (i : nat) (g : group) : Prop := {
  su_gid : g_gid g = g_gid g0;
  su_conn : g_connected g = g_connected g0;
  su_len : length (g_srvs g) = n;
  su_names : g_names g = (g_names g0 + n * i)%nat;
  su_lab : g_labsrvs g = (g_labsrvs g0 + i)%nat;
  su_below : names_below (g_net g) (g_names g);
  su_pers : (length (g_persisters g0) <= length (g_persisters g))%nat;
  su_saved : saved_ok g;
  su_up a : (a < i)%nat -> exists p, g_srvs g !! a = Some (mkTServer (Some p) true (ends_of a));
  su_todo a : (i <= a)%nat -> g_srvs g !! a = g_srvs g0 !! a;
  su_old j : (j < g_names g0)%nat ->
    rn_enabled (g_net g) !! Randstring j = rn_enabled (g_net g0) !! Randstring j /\
    rn_connections (g_net g) !! Randstring j = rn_connections (g_net g0) !! Randstring j;
  su_ends e : e ∈ rn_ends (g_net g0) -> e ∈ rn_ends (g_net g);
  su_new a b : (a < i)%nat -> (b < n)%nat ->
    is_enabled (g_net g) (Randstring (g_names g0 + n * a + b)) = false /\
    rn_connections (g_net g) !! Randstring (g_names g0 + n * a + b) =
      Some (Some (ServerName (g_gid g0) (Z.of_nat b)));
  su_srv a : (a < i)%nat ->
    server_of (g_net g) (ServerName (g_gid g0) (Z.of_nat a)) = Some (g_labsrvs g0 + a)%nat;
  su_other name : (forall a, (a < n)%nat -> name <> ServerName (g_gid g0) (Z.of_nat a)) ->
    rn_servers (g_net g) !! name = rn_servers (g_net g0) !! name
}.

Lemma started_step i g :
  (i < n)%nat -> started_upto i g -> exists g', StartServer Randstring g i = Ret g' /\ started_upto (S i) g'.
Proof.
  intros Hi H. destruct (lookup_lt_is_Some_2 (g_srvs g0) i) as [s Hs]; [by rewrite Hlen|].
  pose proof (Hends s (list_elem_of_lookup_2 _ _ _ Hs)) as Hse.
  assert (Hps : exists ps, match ts_saved s with
    | Some p => old ← at_ (g_persisters g) p; Ret (Copy old) | None => Ret MakePersister end = Ret ps).
  { destruct (ts_saved s) as [p|] eqn:Hsv; [|by eexists].
    destruct (lookup_lt_is_Some_2 (g_persisters g) p) as [old Hold].
    - pose proof (Hsaved s p (list_elem_of_lookup_2 _ _ _ Hs) Hsv). pose proof (su_pers i g H). lia.
    - rewrite (at_Ret _ _ _ Hold). by eexists. }
  destruct Hps as [ps Hps].
  unfold StartServer. rewrite (at_Ret (g_srvs g) i s) by (by rewrite (su_todo i g H) by lia). step_bind.
  unfold startServer. rewrite Hse.
  destruct (makeServer_made (g_gid g) n g (su_below i g H)) as (net & E & [M1 M2 M3 M4 M5]).
  rewrite E. step_bind. cbn zeta beta iota. cbn [g_persisters]. rewrite Hps. step_bind. cbn [new_persister].
  eexists. split; [reflexivity|]. rewrite length_seq in *.
  pose proof (su_names i g H) as Hnm. pose proof (su_lab i g H) as Hlb. pose proof (su_gid i g H) as Hgd.
  split; cbn [g_gid g_connected g_srvs g_names g_labsrvs g_net with_persisters AddServer with_tables
    rn_servers rn_enabled rn_connections rn_ends ts_saved ts_endNames g_persisters]; rewrite ?Hgd.
  - done.
  - apply H.
  - rewrite length_insert. apply H.
  - rewrite Hnm. lia.
  - rewrite Hlb. lia.
  - intros e He. by apply M2.
  - pose proof (su_pers i g H). rewrite length_app. lia.
  - intros s2 p [a Ha]%list_elem_of_lookup Hp. simpl in *. rewrite length_app. simpl.
    apply list_lookup_insert_Some in Ha as [(_ & <- & _)|(_ & Ha)]; [simpl in Hp; injection Hp as <-; lia|].
    pose proof (su_saved i g H s2 p (list_elem_of_lookup_2 _ _ _ Ha) Hp). lia.
  - intros a Ha. destruct (decide (a = i)) as [->|Hne].
    + eexists. rewrite list_lookup_insert_eq by (by rewrite (su_len i g H)). unfold ends_of. by rewrite Hnm.
    + rewrite list_lookup_insert_ne by done. apply H. lia.
  - intros a Ha. rewrite list_lookup_insert_ne by lia. apply H. lia.
  - intros j Hj. destruct (M3 j) as [-> ->]; [lia|]. by apply H.
  - intros e He. apply M4. by apply (su_ends i g H).
  - intros a b Ha Hb. destruct (decide (a = i)) as [->|Hne].
    + rewrite <- Hnm, <- Hgd. apply M5. by apply lookup_seq.
    + destruct (M3 (g_names g0 + n * a + b)%nat) as [Hen Hcn].
      { rewrite Hnm. assert (n * a + b < n * S a)%nat by lia.
        assert (n * S a <= n * i)%nat by (apply Nat.mul_le_mono_l; lia). lia. }
      unfold is_enabled. simpl. rewrite Hen, Hcn. apply (su_new i g H); lia.
  - intros a Ha. unfold server_of. simpl. rewrite M1. destruct (decide (a = i)) as [->|Hne].
    + rewrite lookup_insert_eq. simpl. by rewrite Hlb.
    + rewrite lookup_insert_ne by (intros He%ServerName_inj; lia). apply (su_srv i g H). lia.
  - intros name Hname. rewrite M1, lookup_insert_ne by (by apply not_eq_sym, Hname). by apply (su_other i g H).
Qed.

Lemma start_spec : exists g, start Randstring g0 = Ret g /\ started_upto n g.
Proof.
  unfold start, all. rewrite Hlen.
  enough (H : forall m, (m <= n)%nat ->
    exists g, foldM (StartServer Randstring) (seq 0 m) g0 = Ret g /\ started_upto m g) by (by apply H).
  induction m as [|m IH]; intros Hm.
  - exists g0. split; [done|]. split; try done; lia.
  - destruct IH as (g1 & E1 & H1); [lia|]. destruct (started_step m g1) as (g2 & E2 & H2); [lia|done|].
    exists g2. split; [|done]. rewrite seq_S, foldM_app, E1. simpl. by rewrite E2.
Qed.

Lemma ends_of_nth a b : (b < n)%nat -> nth b (ends_of a) "" = Randstring (g_names g0 + n * a + b).
Proof.
  intros Hb. apply nth_lookup_Some. unfold ends_of. rewrite list_lookup_fmap.
  rewrite lookup_seq_lt by done. done.
Qed.

Lemma started_en g a b : started_upto n g -> (a < n)%nat -> (b < n)%nat ->
  en g a b = Randstring (g_names g0 + n * a + b).
Proof.
  intros H Ha Hb. unfold en. destruct (su_up n g H a Ha) as (p & ->). by apply ends_of_nth.
Qed.

Lemma started_wf g : started_upto n g -> length (g_connected g0) = n -> grp_wf n g.
Proof.
  intros H Hc. split.
  - apply H.
  - by rewrite (su_conn _ _ H).
  - intros a s Hs. assert (Ha : (a < n)%nat) by (rewrite <- (su_len _ _ H); by eapply lookup_lt_Some).
    destruct (su_up n g H a Ha) as (p & Hp). simplify_eq. simpl. unfold ends_of.
    by rewrite length_fmap, length_seq.
  - intros a b a' b' Ha Hb Ha' Hb'. rewrite !started_en by done. intros He%Rand_inj.
    assert (Hd : (n * a + b = n * a' + b')%nat) by lia.
    apply (Nat.div_mod_unique n a a' b b') in Hd; [done|lia|lia].
Qed.

(** What [StartServers] makes of the group. *)
Lemma StartServers_spec :
  length (g_connected g0) = n -> (forall j, (j < n)%nat -> conn g0 j = false) ->
  exists g1 g, StartServers Randstring g0 = Ret g /\ started_upto n g1 /\ connected_upto n n g1 g.
Proof.
  intros Hc Hcf. destruct start_spec as (g1 & E1 & H1). pose proof (started_wf g1 H1 Hc) as Hwf.
  destruct (ConnectAll_spec n g1 Hwf) as (g & E & H).
  - intros j Hj. unfold conn. rewrite (su_conn _ _ H1). by apply Hcf.
  - intros a b Ha Hb. unfold linked. rewrite started_en by done. by apply (su_new n g1 H1).
  - exists g1, g. split; [|done]. unfold StartServers. by rewrite E1.
Qed.
End Group.

(** ** Making a group *)

Lemma makeSrvGrp_spec net gid n names labsrvs :
  names_below net names ->
  exists g, makeSrvGrp Randstring net gid n names labsrvs = Ret g /\
    (length (g_srvs g) = n /\ (forall s, s ∈ g_srvs g -> ts_saved s = None /\ length (ts_endNames s) = n)) /\
    (g_connected g = replicate n false /\ g_gid g = gid /\ g_labsrvs g = labsrvs /\ (names <= g_names g)%nat) /\
    names_below (g_net g) (g_names g) /\ rn_servers (g_net g) = rn_servers net /\
    (forall j, (j < names)%nat -> rn_enabled (g_net g) !! Randstring j = rn_enabled net !! Randstring j /\
       rn_connections (g_net g) !! Randstring j = rn_connections net !! Randstring j) /\
    (forall e, e ∈ rn_ends net -> e ∈ rn_ends (g_net g)).
Proof.
  intros Hb. unfold makeSrvGrp.
  enough (H : forall m, exists g, foldM (fun g (_ : nat) => '(g, s) ← makeServer Randstring g gid n;
      Ret (with_srvs g (g_srvs g ++ [s]))) (seq 0 m) (mkGroup net [] (replicate n false) gid [] names labsrvs) = Ret g /\
    (length (g_srvs g) = m /\ (forall s, s ∈ g_srvs g -> ts_saved s = None /\ length (ts_endNames s) = n)) /\
    (g_connected g = replicate n false /\ g_gid g = gid /\ g_labsrvs g = labsrvs /\ (names <= g_names g)%nat) /\
    names_below (g_net g) (g_names g) /\ rn_servers (g_net g) = rn_servers net /\
    (forall j, (j < names)%nat -> rn_enabled (g_net g) !! Randstring j = rn_enabled net !! Randstring j /\
       rn_connections (g_net g) !! Randstring j = rn_connections net !! Randstring j) /\
    (forall e, e ∈ rn_ends net -> e ∈ rn_ends (g_net g))) by apply H.
  induction m as [|m (g & E & (L1 & L2) & (G1 & G2 & G3 & G4) & B & S & O & En)].
  - eexists. split; [reflexivity|]. split; [split; [done|by intros s ?%elem_of_nil]|]. done.
  - destruct (makeServer_made gid n g B) as (net' & E' & [M1 M2 M3 M4 M5]). rewrite length_seq in M2.
    eexists. split; [rewrite seq_S, foldM_app, E; simpl; rewrite E'; reflexivity|].
    cbn [with_srvs g_srvs g_connected g_gid g_labsrvs g_names g_net]. split; [split|].
    + rewrite length_app, L1. simpl. lia.
    + intros s [Hs| ->%list_elem_of_singleton]%elem_of_app; [by apply L2|].
      split; [done|]. simpl. by rewrite length_fmap, length_seq.
    + split; [repeat split; try done; lia|]. split; [done|]. split; [by rewrite M1|]. split.
      * intros j Hj. destruct (M3 j) as [-> ->]; [lia|]. by apply O.
      * intros e He. by apply M4, En.
Qed.
End Starting.

Lemma lookup_store c gid g : lookupGroup (store c gid g) gid = Some g.
Proof. unfold lookupGroup, store. simpl. rewrite lookup_insert_eq. by destruct g. Qed.

Lemma MakeGroupStart_ok Randstring c gid n :
  (forall i j, Randstring i = Randstring j -> i = j) -> names_below Randstring (cf_net c) (cf_names c) ->
  exists c' g, MakeGroupStart Randstring c gid n = Ret c' /\ lookupGroup c' gid = Some g /\
    names_below Randstring (cf_net c') (cf_names c') /\
    (N g = n /\ Services g = replicate n true /\ GetConnected g = replicate n true) /\
    (forall a b, (a < n)%nat -> (b < n)%nat ->
       let '(enabled, servername, server, _, _) := readEndnameInfo (cf_net c') (en g a b) in
       enabled = true /\ servername = Some (ServerName gid (Z.of_nat b)) /\
       server = Some (cf_labsrvs c + b)%nat) /\
    (forall e, e ∈ rn_ends (cf_net c) -> is_enabled (cf_net c') e = is_enabled (cf_net c) e /\
       rn_connections (cf_net c') !! e = rn_connections (cf_net c) !! e) /\
    (forall name, (forall a, (a < n)%nat -> name <> ServerName gid (Z.of_nat a)) ->
       server_of (cf_net c') name = server_of (cf_net c) name) /\
    (forall gid', gid' <> gid -> cf_grps c' !! gid' = cf_grps c !! gid') /\
    (g_gid g = gid /\ grp_wf n g /\ saved_ok g) /\
    (length (cf_persisters c) <= length (cf_persisters c'))%nat.
Proof.
  intros Rand_inj Hb.
  destruct (makeSrvGrp_spec Randstring Rand_inj (cf_net c) gid n (cf_names c) (cf_labsrvs c) Hb)
    as (gm & Em & (L1 & L2) & (G1 & G2 & G3 & G4) & B & S & O & En).
  set (g0 := with_persisters gm (cf_persisters c)).
  destruct (StartServers_spec Randstring Rand_inj n g0 L1) as (g1 & g & E & H1 & [W F C L]).
  { intros s Hs. by apply L2. }
  { intros s p Hs Hp. destruct (L2 s Hs) as [Hno _]. congruence. }
  { exact B. }
  { simpl. by rewrite G1, length_replicate. }
  { intros j Hj. unfold conn. simpl. by rewrite G1, lookup_replicate_2. }
  exists (store (store c gid g0) gid g), g. unfold MakeGroupStart, MakeGroup. rewrite Em. step_bind.
  fold g0. unfold on_group. rewrite lookup_store, E. step_bind. split; [done|].
  split; [apply lookup_store|].
  assert (Hen : forall a b, en g a b = en g1 a b) by (intros; unfold en; by rewrite (fr_srvs _ _ F)).
  assert (Hg2 : g_gid g0 = gid) by done. assert (Hg3 : g_labsrvs g0 = cf_labsrvs c) by done.
  assert (Hold : forall e, e ∈ rn_ends (cf_net c) -> rn_enabled (g_net g) !! e = rn_enabled (cf_net c) !! e /\
    rn_connections (g_net g) !! e = rn_connections (cf_net c) !! e).
  { intros e He. destruct (Hb e He) as (j & Hj & ->). destruct (O j Hj) as [<- <-].
    destruct (su_old _ _ _ _ _ H1 j) as [Ho1 Ho2]; [change (g_names g0) with (g_names gm); lia|].
    change (g_net g0) with (g_net gm) in Ho1. rewrite (fr_conns _ _ F), Ho2. split; [|done]. rewrite <- Ho1. apply (fr_enabled _ _ F).
    intros s (a & Ha)%list_elem_of_lookup Hin.
    assert (Han : (a < n)%nat) by (rewrite <- (su_len _ _ _ _ _ H1); by eapply lookup_lt_Some).
    destruct (su_up _ _ _ _ _ H1 a Han) as (p & Hp). simplify_eq. simpl in Hin.
    unfold ends_of in Hin. apply list_elem_of_fmap in Hin as (k & He'%Rand_inj & Hk%elem_of_seq).
    change (g_names g0) with (g_names gm) in Hk. lia. }
  split; [|split; [split; [|split]|split; [|split; [|split; [|split; [|split; [split; [|split]|]]]]]]];
    cbn [cf_net cf_names cf_grps cf_persisters store].
  - intros e. rewrite (fr_ends _ _ F), (fr_names _ _ F). apply (su_below _ _ _ _ _ H1).
  - unfold N. by rewrite (gw_srvs _ _ W).
  - unfold Services. rewrite (fr_srvs _ _ F). apply list_eq. intros a. rewrite list_lookup_fmap.
    destruct (decide (a < n)%nat) as [Ha|Ha].
    + destruct (su_up _ _ _ _ _ H1 a Ha) as (p & ->). by rewrite lookup_replicate_2.
    + rewrite !lookup_ge_None_2; [done|rewrite length_replicate; lia|rewrite (su_len _ _ _ _ _ H1); lia].
  - unfold GetConnected. apply list_eq. intros a. destruct (decide (a < n)%nat) as [Ha|Ha].
    + specialize (C a Ha). unfold conn in C. rewrite lookup_replicate_2 by done.
      destruct (lookup_lt_is_Some_2 (g_connected g) a) as [v Hv]; [by rewrite (gw_conn _ _ W)|].
      rewrite Hv in C |- *. simpl in C. rewrite C, bool_decide_eq_true_2 by done. done.
    + rewrite !lookup_ge_None_2; [done|rewrite length_replicate; lia|rewrite (gw_conn _ _ W); lia].
  - intros a b Ha Hbn. unfold readEndnameInfo. pose proof (L a b Ha Hbn) as Hl. unfold linked in Hl.
    rewrite !bool_decide_eq_true_2 in Hl by done. split; [done|].
    rewrite Hen, (started_en Randstring n g0 g1 a b H1 Ha Hbn), (fr_conns _ _ F).
    destruct (su_new _ _ _ _ _ H1 a b Ha Hbn) as [_ ->]. rewrite Hg2. split; [done|].
    step_bind. change (mjoin (Some (Some (ServerName gid (Z.of_nat b))))) with (Some (ServerName gid (Z.of_nat b))).
    cbn [option_bind mbind].
    unfold server_of. rewrite (fr_servers _ _ F). rewrite <- Hg2, <- Hg3. by apply (su_srv _ _ _ _ _ H1).
  - intros e He. unfold is_enabled. by destruct (Hold e He) as [-> ->].
  - intros name Hname. unfold server_of. rewrite (fr_servers _ _ F), (su_other _ _ _ _ _ H1 name) by (by rewrite Hg2).
    change (g_net g0) with (g_net gm). by rewrite S.
  - intros gid' Hne. unfold store. simpl. by rewrite !lookup_insert_ne.
  - by rewrite (fr_gid _ _ F), (su_gid _ _ _ _ _ H1).
  - done.
  - intros s p. rewrite (fr_srvs _ _ F), (fr_pers _ _ F). apply (su_saved _ _ _ _ _ H1).
  - rewrite (fr_pers _ _ F). apply (su_pers _ _ _ _ _ H1).
Qed.

(** starting a group.  Whatever else the configuration holds, [MakeGroupStart] makes
    a group of [n] running servers, all connected, in which the end of server [a] for
    server [b] is enabled and leads to the [labrpc] server that was just made for [b];
    the ends that existed keep their state, the names of other servers their servers,
    and the other groups are untouched. *)
Theorem MakeGroupStart_spec Randstring c gid n :
  (forall i j, Randstring i = Randstring j -> i = j) -> names_below Randstring (cf_net c) (cf_names c) ->
  exists c' g, MakeGroupStart Randstring c gid n = Ret c' /\ lookupGroup c' gid = Some g /\
    names_below Randstring (cf_net c') (cf_names c') /\
    (N g = n /\ Services g = replicate n true /\ GetConnected g = replicate n true) /\
    (forall a b, (a < n)%nat -> (b < n)%nat ->
       let '(enabled, servername, server, _, _) := readEndnameInfo (cf_net c') (en g a b) in
       enabled = true /\ servername = Some (ServerName gid (Z.of_nat b)) /\
       server = Some (cf_labsrvs c + b)%nat) /\
    (forall e, e ∈ rn_ends (cf_net c) -> is_enabled (cf_net c') e = is_enabled (cf_net c) e /\
       rn_connections (cf_net c') !! e = rn_connections (cf_net c) !! e) /\
    (forall name, (forall a, (a < n)%nat -> name <> ServerName gid (Z.of_nat a)) ->
       server_of (cf_net c') name = server_of (cf_net c) name) /\
    (forall gid', gid' <> gid -> cf_grps c' !! gid' = cf_grps c !! gid').
Proof.
  intros Rand_inj Hb. destruct (MakeGroupStart_ok Randstring c gid n Rand_inj Hb)
    as (c' & g & H1 & H2 & H3 & H4 & H5 & H6 & H7 & H8 & _).
  by exists c', g.
Qed.

(** ** Leaving a group *)

(** The first [i] servers of [g0] are shut down. *)
Record shut_upto (n i : nat) (g0 g : group) : Prop := {
  sh_wf : grp_wf n g;
  sh_gid : g_gid g = g_gid g0;
  sh_names : g_names g = g_names g0;
  sh_en a : ts_endNames <$> g_srvs g !! a = ts_endNames <$> g_srvs g0 !! a;
  sh_saved : saved_ok g;
  sh_rn : rn_ends (g_net g) = rn_ends (g_net g0);
  sh_pers : (length (g_persisters g0) <= length (g_persisters g))%nat;
  sh_down a s : (a < i)%nat -> g_srvs g !! a = Some s -> ts_svcs s = false;
  sh_conn a : conn g a = if decide (a < i)%nat then false else conn g0 a;
  sh_link a b : (a < n)%nat -> (b < n)%nat -> (a < i)%nat \/ (b < i)%nat -> linked g a b = false;
  sh_gone a : (a < i)%nat -> server_of (g_net g) (ServerName (g_gid g0) (Z.of_nat a)) = None;
  sh_ends e : (forall s, s ∈ g_srvs g0 -> e ∉ ts_endNames s) ->
    is_enabled (g_net g) e = is_enabled (g_net g0) e;
  sh_other name : (forall a, (a < n)%nat -> name <> ServerName (g_gid g0) (Z.of_nat a)) ->
    server_of (g_net g) name = server_of (g_net g0) name
}.

Lemma en_ends g g' : (forall a, ts_endNames <$> g_srvs g' !! a = ts_endNames <$> g_srvs g !! a) ->
  forall a b, en g' a b = en g a b.
Proof.
  intros H a b. unfold en. specialize (H a).
  destruct (g_srvs g' !! a), (g_srvs g !! a); simplify_eq/=; congruence.
Qed.

(** Replacing a server by one with the same ends. *)
Lemma grp_wf_srv n g g' :
  grp_wf n g -> length (g_srvs g') = length (g_srvs g) -> g_connected g' = g_connected g ->
  (forall a, ts_endNames <$> g_srvs g' !! a = ts_endNames <$> g_srvs g !! a) -> grp_wf n g'.
Proof.
  intros [H1 H2 H3 H4] Hl Hc He. split; [congruence|congruence|..].
  - intros a s Hs. specialize (He a). rewrite Hs in He.
    destruct (g_srvs g !! a) as [s'|] eqn:Es; simplify_eq/=. rewrite He. by eapply H3.
  - intros a b a' b'. rewrite !(en_ends g g' He). apply H4.
Qed.

(** [shutdownServer] leaves the ends and the network alone. *)
Lemma shutdownServer_spec g s : (forall p, ts_saved s = Some p -> (p < length (g_persisters g))%nat) ->
  exists ps s', shutdownServer g s = Ret (with_persisters g ps, s') /\ ts_endNames s' = ts_endNames s /\
    ts_svcs s' = false /\ (length (g_persisters g) <= length ps)%nat /\
    (forall p, ts_saved s' = Some p -> (p < length ps)%nat).
Proof.
  intros Hp. unfold shutdownServer. destruct (ts_saved s) as [p|].
  - destruct (lookup_lt_is_Some_2 (g_persisters g) p (Hp p eq_refl)) as [old Hold].
    rewrite (at_Ret _ _ _ Hold). step_bind. cbn [new_persister].
    eexists _, _. split; [reflexivity|]. simpl. rewrite length_app. simpl.
    repeat split; try lia. intros p' [= <-]. lia.
  - exists (g_persisters g). eexists. split; [destruct g; reflexivity|]. by repeat split.
Qed.

Lemma shut_step n g0 i g :
  (i < n)%nat -> shut_upto n i g0 g -> exists g', ShutdownServer g i = Ret g' /\ shut_upto n (S i) g0 g'.
Proof.
  intros Hi [H1 H2 H3 H4 H5 HR HP H6 HC H7 H8 H9 H10]. unfold ShutdownServer.
  destruct (disconnect_spec n g i (all g) H1 Hi) as (gd & Ed & W & S & Cn & L & P & G & Nm).
  { intros j Hj. unfold all in Hj. apply elem_of_seq in Hj. rewrite (gw_srvs _ _ H1) in Hj. lia. }
  pose proof (disconnect_frame _ _ _ _ Ed) as F. rewrite Ed. step_bind.
  set (g1 := with_net gd _). destruct (lookup_lt_is_Some_2 (g_srvs g1) i) as [s Hs];
    [unfold g1; simpl; by rewrite (gw_srvs _ _ W)|]. rewrite (at_Ret _ _ _ Hs). step_bind.
  assert (Hsg : s ∈ g_srvs g) by (rewrite <- S; by eapply list_elem_of_lookup_2).
  destruct (shutdownServer_spec g1 s) as (ps & s' & -> & He & Hsv & Hle & Hp).
  { intros p Hsp. unfold g1. simpl. rewrite P. by eapply H5. }
  step_bind. set (g2 := with_srvs (with_persisters g1 ps) _). exists g2. split; [reflexivity|].
  assert (Hends : forall a, ts_endNames <$> <[i := s']> (g_srvs g1) !! a = ts_endNames <$> g_srvs g !! a).
  { intros a. unfold g1 in Hs |- *. simpl in Hs |- *. rewrite S in Hs |- *. destruct (decide (i = a)) as [->|Hne].
    - rewrite list_lookup_insert_eq by (by eapply lookup_lt_Some). rewrite Hs. simpl. by rewrite He.
    - by rewrite list_lookup_insert_ne. }
  assert (Hnet : forall a b, (a < n)%nat -> (b < n)%nat -> is_enabled (g_net gd) (en g a b) = linked gd a b).
  { intros a b _ _. unfold linked, en. by rewrite S. }
  split; unfold g2; cbn [with_srvs with_persisters g_srvs g_net g_gid g_names g_persisters].
  - apply (grp_wf_srv n gd); [done|simpl; by rewrite length_insert|done|].
    intros a. simpl. rewrite Hends. by rewrite S.
  - unfold g1. simpl. congruence.
  - unfold g1. simpl. congruence.
  - intros a. by rewrite Hends.
  - intros s2 p [a Ha]%list_elem_of_lookup Hsp. simpl in *. apply list_lookup_insert_Some in Ha as [(-> & <- & _)|(Hne & Ha)].
    + by apply Hp.
    + unfold g1 in Ha, Hle. simpl in Ha, Hle. rewrite S in Ha. rewrite P in Hle.
      assert (Hb : (p < length (g_persisters g))%nat); [|lia].
      apply (H5 s2); [by eapply list_elem_of_lookup_2|done].
  - simpl. by rewrite (fr_ends _ _ F), HR.
  - unfold g1 in Hle. simpl in Hle. rewrite P in Hle. lia.
  - intros a s2 Ha Hs2. apply list_lookup_insert_Some in Hs2 as [(-> & <- & _)|(Hne & Hs2)]; [done|].
    apply (H6 a); [lia|]. unfold g1 in Hs2. simpl in Hs2. by rewrite <- S.
  - intros a. transitivity (conn gd a); [done|]. rewrite Cn, HC. repeat case_decide; try lia; done.
  - intros a b Ha Hb Hor. unfold linked. rewrite (en_ends g g2 Hends).
    unfold g2, g1. simpl. unfold is_enabled. simpl. fold (is_enabled (g_net gd) (en g a b)).
    rewrite Hnet, L by done.
    case_decide as Hc; [done|]. apply H7; [done|done|].
    assert (Hin : forall j, (j < n)%nat -> j ∈ all g)
      by (intros j Hj; unfold all; rewrite elem_of_seq, (gw_srvs _ _ H1); lia).
    assert (a <> i) by (intros ->; apply Hc; left; auto). assert (b <> i) by (intros ->; apply Hc; right; auto). lia.
  - intros a Ha. unfold server_of. simpl. rewrite G, H2, (fr_servers _ _ F).
    destruct (decide (a = i)) as [->|Hne]; [by rewrite lookup_insert_eq|].
    rewrite lookup_insert_ne by (intros Hn%ServerName_inj; done). apply H8. lia.
  - intros e Hin. unfold is_enabled. simpl. rewrite (fr_enabled _ _ F); [by apply H9|].
    intros s2 (a & Ha)%list_elem_of_lookup. specialize (H4 a). rewrite Ha in H4.
    destruct (g_srvs g0 !! a) as [s3|] eqn:E3; simplify_eq/=. rewrite H4. apply Hin.
    by eapply list_elem_of_lookup_2.
  - intros name Hname. unfold server_of. simpl. rewrite G, H2, (fr_servers _ _ F).
    rewrite lookup_insert_ne by (by apply not_eq_sym, Hname). by apply H10.
Qed.

Lemma Shutdown_ok n g : grp_wf n g -> saved_ok g -> exists g', Shutdown g = Ret g' /\ shut_upto n n g g'.
Proof.
  intros Hwf Hsv. unfold Shutdown, all. rewrite (gw_srvs _ _ Hwf).
  enough (H : forall m, (m <= n)%nat -> exists g', foldM ShutdownServer (seq 0 m) g = Ret g' /\ shut_upto n m g g')
    by (by apply H).
  induction m as [|m IH]; intros Hm.
  - exists g. split; [done|]. split; try done; lia.
  - destruct IH as (g1 & E1 & H1); [lia|]. destruct (shut_step n g m g1) as (g2 & E2 & H2); [lia|done|].
    exists g2. split; [|done]. rewrite seq_S, foldM_app, E1. simpl. by rewrite E2.
Qed.

(** A group that is part of a configuration shares the tables of the configuration. *)
Lemma lookupGroup_tables c gid g : lookupGroup c gid = Some g ->
  g_net g = cf_net c /\ g_persisters g = cf_persisters c /\ g_names g = cf_names c.
Proof. unfold lookupGroup. destruct (cf_grps c !! gid); intros; by simplify_eq/=. Qed.

Lemma ExitGroup_ok c gid n g :
  lookupGroup c gid = Some g -> grp_wf n g -> saved_ok g ->
  exists c', ExitGroup c gid = Ret c' /\ lookupGroup c' gid = None /\
    (forall a b, (a < n)%nat -> (b < n)%nat -> is_enabled (cf_net c') (en g a b) = false) /\
    (forall a, (a < n)%nat -> server_of (cf_net c') (ServerName (g_gid g) (Z.of_nat a)) = None) /\
    (forall e, (forall s, s ∈ g_srvs g -> e ∉ ts_endNames s) ->
       is_enabled (cf_net c') e = is_enabled (cf_net c) e) /\
    (forall name, (forall a, (a < n)%nat -> name <> ServerName (g_gid g) (Z.of_nat a)) ->
       server_of (cf_net c') name = server_of (cf_net c) name) /\
    (forall gid', gid' <> gid -> cf_grps c' !! gid' = cf_grps c !! gid') /\
    (length (cf_persisters c) <= length (cf_persisters c'))%nat /\
    rn_ends (cf_net c') = rn_ends (cf_net c) /\ cf_names c' = cf_names c.
Proof.
  intros Hg Hwf Hsv.
  destruct (Shutdown_ok n g Hwf Hsv) as (g' & E & [S1 S2 S3 S4 S5 SR SP S6 SC S7 S8 S9 S10]).
  exists (Groups_delete (store c gid g') gid). unfold ExitGroup, on_group. rewrite Hg, E. step_bind. split; [done|].
  destruct (lookupGroup_tables c gid g Hg) as (Hn & Hp & Hnm).
  unfold Groups_delete, lookupGroup. cbn [set_grps cf_grps cf_net store]. rewrite <- Hn.
  split; [by rewrite lookup_delete_eq|]. split; [|split; [|split; [|split; [|split]]]].
  - intros a b Ha Hb. rewrite <- (en_ends g g' S4). apply S7; auto.
  - exact S8.
  - exact S9.
  - exact S10.
  - intros gid' Hne. by rewrite lookup_delete_ne, lookup_insert_ne.
  - simpl. rewrite <- Hp, <- Hnm. done.
Qed.

(** What stays of a group between [Shutdown] and [StartServers]. *)
Record group_down (n : nat) (g : group) : Prop := {
  gd_wf : grp_wf n g;
  gd_saved : saved_ok g;
  gd_conn j : (j < n)%nat -> conn g j = false;
  gd_svcs s : s ∈ g_srvs g -> ts_svcs s = false
}.

(** Shutting the servers of a group down. *)
Lemma on_group_Shutdown c gid n g :
  lookupGroup c gid = Some g -> grp_wf n g -> saved_ok g ->
  exists c' g', on_group c gid Shutdown = Ret c' /\ lookupGroup c' gid = Some g' /\ g_gid g' = g_gid g /\
    group_down n g' /\
    (forall gid', gid' <> gid -> cf_grps c' !! gid' = cf_grps c !! gid') /\
    (length (cf_persisters c) <= length (cf_persisters c'))%nat /\
    rn_ends (cf_net c') = rn_ends (cf_net c) /\ cf_names c' = cf_names c /\ cf_clerks c' = cf_clerks c.
Proof.
  intros Hg Hwf Hsv. destruct (Shutdown_ok n g Hwf Hsv) as (g' & E & [S1 S2 S3 S4 S5 SR SP S6 SC S7 S8 S9 S10]).
  destruct (lookupGroup_tables c gid g Hg) as (Hn & Hp & Hnm).
  exists (store c gid g'), g'. unfold on_group. rewrite Hg, E. step_bind. split; [done|].
  split; [apply lookup_store|]. split; [done|]. split; [|split; [|split; [|split; [|split]]]].
  - split; [done|done|..].
    + intros j Hj. by rewrite SC, decide_True.
    + intros s (a & Ha)%list_elem_of_lookup. apply (S6 a); [|done].
      rewrite <- (gw_srvs _ _ S1). by eapply lookup_lt_Some.
  - intros gid' Hne. simpl. by rewrite lookup_insert_ne.
  - simpl. by rewrite <- Hp.
  - simpl. by rewrite SR, Hn.
  - simpl. congruence.
  - done.
Qed.

(** Starting them again. *)
Lemma on_group_StartServers Randstring c gid n g :
  (forall i j, Randstring i = Randstring j -> i = j) ->
  names_below Randstring (cf_net c) (cf_names c) -> lookupGroup c gid = Some g -> group_down n g ->
  exists c' g', on_group c gid (StartServers Randstring) = Ret c' /\ lookupGroup c' gid = Some g' /\
    g_gid g' = g_gid g /\ grp_wf n g' /\ saved_ok g' /\
    Services g' = replicate n true /\ (forall a b, (a < n)%nat -> (b < n)%nat -> linked g' a b = true) /\
    names_below Randstring (cf_net c') (cf_names c') /\
    (forall gid', gid' <> gid -> cf_grps c' !! gid' = cf_grps c !! gid') /\
    (length (cf_persisters c) <= length (cf_persisters c'))%nat /\ cf_clerks c' = cf_clerks c.
Proof.
  intros Hinj Hb Hg [D1 D2 D3 _]. destruct (lookupGroup_tables c gid g Hg) as (Hn & Hp & Hnm).
  destruct (StartServers_spec Randstring Hinj n g (gw_srvs _ _ D1)) as (g1 & g' & E & H1 & [W F C L]); [|done| |apply D1|done|].
  { intros s (a & Ha)%list_elem_of_lookup. by eapply (gw_ends _ _ D1). }
  { by rewrite Hn, Hnm. }
  exists (store c gid g'), g'. unfold on_group. rewrite Hg, E. step_bind. split; [done|].
  split; [apply lookup_store|]. split; [by rewrite (fr_gid _ _ F), (su_gid _ _ _ _ _ H1)|].
  split; [done|]. split; [|split; [|split; [|split; [|split; [|split]]]]]; cbn [cf_net cf_names cf_grps cf_persisters store].
  - unfold saved_ok. rewrite (fr_srvs _ _ F), (fr_pers _ _ F). apply (su_saved _ _ _ _ _ H1).
  - unfold Services. rewrite (fr_srvs _ _ F). apply list_eq. intros a. rewrite list_lookup_fmap.
    destruct (decide (a < n)%nat) as [Ha|Ha].
    + destruct (su_up _ _ _ _ _ H1 a Ha) as (p & ->). by rewrite lookup_replicate_2.
    + rewrite !lookup_ge_None_2; [done|rewrite length_replicate; lia|rewrite (su_len _ _ _ _ _ H1); lia].
  - intros a b Ha Hbn. rewrite (L a b Ha Hbn). by rewrite !bool_decide_eq_true_2.
  - intros e. rewrite (fr_ends _ _ F), (fr_names _ _ F). apply (su_below _ _ _ _ _ H1).
  - intros gid' Hne. by rewrite lookup_insert_ne.
  - rewrite (fr_pers _ _ F), <- Hp. apply (su_pers _ _ _ _ _ H1).
  - done.
Qed.

(** leaving a group.  [ExitGroup] shuts every server of the group down and forgets the
    group: none of its names is bound to a server, none of its ends is enabled, so no
    request reaches the group any more; other ends, names and groups are untouched. *)
Theorem ExitGroup_spec c gid n g :
  lookupGroup c gid = Some g -> grp_wf n g -> saved_ok g ->
  exists c', ExitGroup c gid = Ret c' /\ lookupGroup c' gid = None /\
    (forall a b, (a < n)%nat -> (b < n)%nat -> is_enabled (cf_net c') (en g a b) = false) /\
    (forall a, (a < n)%nat -> server_of (cf_net c') (ServerName (g_gid g) (Z.of_nat a)) = None) /\
    (forall e, (forall s, s ∈ g_srvs g -> e ∉ ts_endNames s) ->
       is_enabled (cf_net c') e = is_enabled (cf_net c) e) /\
    (forall name, (forall a, (a < n)%nat -> name <> ServerName (g_gid g) (Z.of_nat a)) ->
       server_of (cf_net c') name = server_of (cf_net c) name) /\
    (forall gid', gid' <> gid -> cf_grps c' !! gid' = cf_grps c !! gid').
Proof.
  intros Hg Hwf Hsv. destruct (ExitGroup_ok c gid n g Hg Hwf Hsv) as (c' & H1 & H2 & H3 & H4 & H5 & H6 & H7 & _).
  by exists c'.
Qed.

(** ** Random handles *)

(** Swapping two elements permutes a list. *)
Lemma swap_step_perm {A} (sa : list A) i j :
  (i < length sa)%nat -> (j <= i)%nat -> exists sa', swap_step sa (i, j) = Ret sa' /\ sa' ≡ₚ sa.
Proof.
  intros Hi Hj. destruct (lookup_lt_is_Some_2 sa i Hi) as [x Hx].
  destruct (lookup_lt_is_Some_2 sa j) as [y Hy]; [lia|].
  unfold swap_step. cbn [fst snd]. rewrite (at_Ret _ _ _ Hx), (at_Ret _ _ _ Hy). step_bind.
  unfold set_at. rewrite Hx. step_bind.
  destruct (lookup_lt_is_Some_2 (<[i := y]> sa) j) as [z ->]; [rewrite length_insert; lia|].
  eexists. split; [reflexivity|]. by apply Permutation_insert_swap.
Qed.

(** [random_handles] returns the same handles in some order, whatever is drawn. *)
Lemma random_handles_perm {A} (kvh : list A) draws :
  (forall i j, draws !! i = Some j -> (j <= i)%nat) ->
  exists sa, random_handles kvh draws = Ret sa /\ sa ≡ₚ kvh.
Proof.
  intros Hd. unfold random_handles.
  enough (H : forall l (sa : list A), (forall ij, ij ∈ l -> (ij.1 < length sa)%nat /\ (ij.2 <= ij.1)%nat) ->
    exists sa', foldM swap_step l sa = Ret sa' /\ sa' ≡ₚ sa).
  { apply H. intros [i j] Hin. apply elem_of_lookup_imap in Hin as (i' & j' & [= -> ->] & Hl).
    apply lookup_take_Some in Hl as [Hl Hi]. split; [done|by apply Hd]. }
  induction l as [|[i j] l IH]; intros sa Hl; [by exists sa|].
  destruct (Hl (i, j)) as [Hi Hj]; [auto with go|]. destruct (swap_step_perm sa i j Hi Hj) as (sa1 & E1 & P1).
  cbn [foldM]. rewrite E1. step_bind. destruct (IH sa1) as (sa2 & E2 & P2).
  { intros ij Hin. rewrite P1. apply Hl. auto with go. }
  exists sa2. split; [exact E2|]. by rewrite P2.
Qed.

(** ** A concrete configuration *)

Module CfgDemo.
Definition empty : Config := mkConfig MakeNetwork false [] 0 0 newGroups [] makeClnts [] 0 0 0 0 false.

Lemma Rand_inj i j : TesterDemo.Randstring i = TesterDemo.Randstring j -> i = j.
Proof. intros H. apply (inj (String.app "r")) in H. by apply (inj pretty) in H. Qed.

Lemma below : names_below TesterDemo.Randstring (cf_net empty) (cf_names empty).
Proof. intros e He. set_solver. Qed.

Definition c : Config := store empty 3 TesterDemo.g.

Lemma saved : saved_ok TesterDemo.g.
Proof.
  intros s p [->|[->|[]%elem_of_nil]%elem_of_cons]%elem_of_cons Hp; simpl in *; simplify_eq. lia.
Qed.
End CfgDemo.

Lemma MakeGroupStart_spec_witness :
  exists c' g, MakeGroupStart TesterDemo.Randstring CfgDemo.empty 5 2 = Ret c' /\ lookupGroup c' 5 = Some g /\
    let '(enabled, servername, server, _, _) := readEndnameInfo (cf_net c') (en g 0 1) in
    enabled = true /\ servername = Some "server-5-1" /\ server = Some 1%nat.
Proof.
  destruct (MakeGroupStart_spec TesterDemo.Randstring CfgDemo.empty 5 2 CfgDemo.Rand_inj CfgDemo.below)
    as (c' & g & E & Hg & _ & _ & Hl & _).
  exists c', g. split; [exact E|]. split; [exact Hg|]. apply (Hl 0%nat 1%nat); lia.
Defined.

Lemma ExitGroup_spec_witness :
  exists c', ExitGroup CfgDemo.c 3 = Ret c' /\ lookupGroup c' 3 = None /\
    is_enabled (cf_net CfgDemo.c) "a1" = true /\ is_enabled (cf_net c') "a1" = false.
Proof.
  destruct (ExitGroup_spec CfgDemo.c 3 2 TesterDemo.g (lookup_store _ _ _) TesterDemo.wf CfgDemo.saved)
    as (c' & E & Hg & Hl & _).
  exists c'. split; [exact E|]. split; [exact Hg|]. split; [vm_compute; reflexivity|].
  apply (Hl 0%nat 1%nat); lia.
Defined.
