(* ===== verification/Rsm.v ===== *)
(** The replicated state machine of [kvraft1/rsm] and its test harness: the interface
    [StateMachine] between the machine and the replication layer, with the laws a
    replica needs, the counter of [rsm/server.go] and the server of
    [kvraft1/server.go] as its implementations, and the clients and checks of
    [rsm/test.go] for any [Submit], the unfinished one of [rsm.go] among them. *)
From S2P Require Import Prelude.
From S2P Require Import KvSrv.
From S2P Require Import Raft.
From S2P Require Import Labrpc.
From S2P Require Import Tester.
From S2P Require Import TestCfg.
Open Scope Z_scope.

(** ** State machines *)

(** [interface StateMachine]; an [any] that is nil is [None], a nil slice is empty. *)
Class StateMachine (S Req Rep : Type) := {
  DoOp : S -> Req -> outcome (S * option Rep);
  Snapshot : S -> list Byte.byte;
  Restore : S -> list Byte.byte -> outcome S
}.

(** How outcomes of equivalent states compare: the same reply, or both end the process. *)
Definition outcome_rel {A} (R : relation A) (m1 m2 : outcome A) : Prop :=
  match m1, m2 with
  | Ret a, Ret b => R a b
  | Panic, Panic | Blocked, Blocked => True
  | _, _ => False
  end.
Definition replies_rel {S} `{Equiv S} {R} : relation (S * R) :=
  fun p q => p.1 ≡ q.1 /\ p.2 = q.2.

(** What replication relies on: [≡] is what a machine shows of its state, operations
    respect it, and the snapshot of a valid state restored anywhere gives it back. *)
Class Replicable (S Req Rep : Type) `{Equiv S, StateMachine S Req Rep} := {
  valid : S -> Prop;
  equiv_equiv :: Equivalence (≡@{S});
  DoOp_proper :: Proper ((≡) ==> (=) ==> outcome_rel replies_rel) (DoOp (S := S));
  DoOp_valid s r s' p : DoOp s r = Ret (s', p) -> valid s -> valid s';
  Restore_Snapshot s t : valid s -> exists t', Restore t (Snapshot s) = Ret t' /\ t' ≡ s
}.

Section Replicas.
Context {S Req Rep : Type} `{Equiv S, SM : StateMachine S Req Rep, !Replicable S Req Rep}.

(** What a replica does with the committed requests, in order: its state afterwards and
    the replies. *)
Fixpoint apply_log (s : S) (log : list Req) : outcome (S * list (option Rep)) :=
  match log with
  | [] => Ret (s, [])
  | r :: log' => '(s1, p) ← DoOp s r; '(s2, ps) ← apply_log s1 log'; Ret (s2, p :: ps)
  end.

#[export] Instance apply_log_proper : Proper ((≡) ==> (=) ==> outcome_rel replies_rel) apply_log.
Proof.
  intros s t Hst log ? <-. revert s t Hst. induction log as [|r log IH]; intros s t Hst; [done|].
  simpl. pose proof (DoOp_proper s t Hst r r eq_refl) as Hd.
  destruct (DoOp s r) as [[s1 p1]| |], (DoOp t r) as [[t1 p2]| |]; try done.
  destruct Hd as [H1' H2']. simpl in *. subst p2. specialize (IH s1 t1 H1').
  destruct (apply_log s1 log) as [[s2 ps]| |], (apply_log t1 log) as [[t2 qs]| |]; try done.
  destruct IH as [H3 H4]. simpl in *. subst qs. by split.
Qed.

Lemma apply_log_app a : forall s b,
  apply_log s (a ++ b) =
  '(s1, ps) ← apply_log s a; '(s2, qs) ← apply_log s1 b; Ret (s2, ps ++ qs).
Proof.
  induction a as [|r a IH]; intros s b; simpl.
  - destruct (apply_log s b) as [[??]| |]; done.
  - destruct (DoOp s r) as [[s1 p]| |]; simpl; [|done..]. rewrite IH.
    destruct (apply_log s1 a) as [[s2 ps]| |]; simpl; [|done..].
    destruct (apply_log s2 b) as [[s3 qs]| |]; done.
Qed.

Lemma apply_log_valid log : forall s s' ps, apply_log s log = Ret (s', ps) -> valid s -> valid s'.
Proof.
  induction log as [|r log IH]; intros s s' ps; simpl; [by intros [= <- _]|].
  intros ([s1 p] & Hd & ([s2 qs] & Hl & [= <- _])%outcome_bind_inv)%outcome_bind_inv Hv.
  eapply IH; [done|]. by eapply DoOp_valid.
Qed.

(** A replica that restores a snapshot goes on like the one that took it. *)
Lemma snapshot_replay s t log s' ps :
  valid s -> apply_log s log = Ret (s', ps) ->
  exists t', Restore t (Snapshot s') = Ret t' /\
    forall log', outcome_rel replies_rel (apply_log t' log') (apply_log s' log').
Proof.
  intros Hv Hl. destruct (Restore_Snapshot s' t) as (t' & Hr & Ht); [by eapply apply_log_valid|].
  exists t'. split; [done|]. intros log'. by apply apply_log_proper.
Qed.
End Replicas.

(** ** [rsm.go] *)

(** The value of an [any] that a test submits, and of one that [DoOp] returns; the
    others are told apart by the name of their type only. *)
Inductive request_any := Inc | Null | Dec | OtherReq (type : string).
#[export] Instance request_any_eq_dec : EqDecision request_any.
Proof. solve_decision. Defined.
Inductive reply_any := IncRep (N : Z) | NullRep | OtherRep (type : string).

(** [struct RSM]; [sm] is the server that owns it, [applyCh] is read by nobody. *)
Record RSM := mkRSM { rsm_me : nat; rsm_rf : option (Raft request_any); rsm_maxraftstate : Z }.

(** [useRaftStateMachine] is never set in the repository.  The persister goes to
    [raft.Make], which reads nothing from it. *)
Definition MakeRSM (useRaftStateMachine : bool) (now : Z) (servers me : nat) (maxraftstate : Z) : RSM :=
  mkRSM me (if negb useRaftStateMachine then Some (Make now servers (Z.of_nat me)) else None)
    maxraftstate.
Definition RSM_Raft (rsm : RSM) : option (Raft request_any) := rsm_rf rsm.
Definition Submit (rsm : RSM) (req : request_any) : Err * option reply_any := (ErrWrongLeader, None).

(** ** The counter of [rsm/server.go] *)

(** [rs_rsm] is nil after [Kill]; the test is shared and not part of the server. *)
Record rsmSrv := mkRsmSrv { rs_me : nat; rs_rsm : option RSM; rs_counter : Z }.

Definition makeRsmSrv (now : Z) (srv ends : nat) (maxraftstate : Z) (snapshot : bool) : rsmSrv :=
  mkRsmSrv srv (Some (MakeRSM false now ends srv maxraftstate)) 0.

Definition set_counter (rs : rsmSrv) (c : Z) : rsmSrv := mkRsmSrv (rs_me rs) (rs_rsm rs) c.

(** [DoOp], called by one goroutine at a time; [log.Fatalf] ends the process. *)
Definition rsmSrv_DoOp (rs : rsmSrv) (req : request_any) : outcome (rsmSrv * option reply_any) :=
  match req with
  | Inc =>
      let rs := set_counter rs (wrap64 (rs_counter rs + 1)) in
      Ret (rs, Some (IncRep (rs_counter rs)))
  | Null => Ret (rs, Some NullRep)
  | _ => Panic
  end.

Definition rsmSrv_Kill (rs : rsmSrv) : rsmSrv := mkRsmSrv (rs_me rs) None (rs_counter rs).
Definition rsmSrv_Raft (rs : rsmSrv) : outcome (option (Raft request_any)) :=
  match rs_rsm rs with Some rsm => Ret (RSM_Raft rsm) | None => Panic end.

Section Counter.
(** [labgob]'s encoding of an [int]. *)
Variable encode : Z -> list Byte.byte.
Variable decode : list Byte.byte -> option Z.

Definition rsmSrv_Snapshot (rs : rsmSrv) : list Byte.byte := encode (rs_counter rs).
Definition rsmSrv_Restore (rs : rsmSrv) (data : list Byte.byte) : outcome rsmSrv :=
  match decode data with Some c => Ret (set_counter rs c) | None => Panic end.

#[local] Instance rsmSrv_machine : StateMachine rsmSrv request_any reply_any :=
  {| DoOp := rsmSrv_DoOp; Snapshot := rsmSrv_Snapshot; Restore := rsmSrv_Restore |}.

(** Replicas show their counters, which fit an [int]. *)
#[local] Instance rsmSrv_equiv : Equiv rsmSrv := fun s t => rs_counter s = rs_counter t.

Hypothesis decode_encode : forall z, int_min <= z <= int_max -> decode (encode z) = Some z.

#[local] Instance rsmSrv_replicable : Replicable rsmSrv request_any reply_any.
Proof.
  refine {| valid rs := int_min <= rs_counter rs <= int_max |}.
  - split; unfold equiv, rsmSrv_equiv; [by intros ?|by intros ??|by intros ?? ? -> ->].
  - intros s t Hst r ? <-. unfold equiv, rsmSrv_equiv in Hst.
    destruct r; simpl; try done; rewrite ?Hst; by split.
  - intros s r s' p. simpl. destruct r; simpl; intros Hr; try discriminate Hr; injection Hr as <- _;
      [intros _; apply wrap64_range|done].
  - intros s t Hv. exists (set_counter t (rs_counter s)). simpl. unfold rsmSrv_Restore, rsmSrv_Snapshot.
    by rewrite decode_encode.
Defined.

(** What the counter executes: everything else ends the process. *)
Definition executable (r : request_any) : bool :=
  match r with Inc | Null => true | _ => false end.
Definition incs (log : list request_any) : Z := Z.of_nat (length (filter (.= Inc) log)).

Lemma incs_cons r log : incs (r :: log) = (if decide (r = Inc) then 1 else 0) + incs log.
Proof. unfold incs. rewrite filter_cons. case_decide; simpl length; lia. Qed.

Lemma counter_log log : forall s,
  int_min <= rs_counter s <= int_max -> Forall executable log ->
  exists ps, apply_log s log = Ret (set_counter s (wrap64 (rs_counter s + incs log)), ps) /\
    length ps = length log /\
    forall i r, log !! i = Some r ->
      ps !! i = Some (Some (match r with
        | Inc => IncRep (wrap64 (rs_counter s + incs (take (S i) log)))
        | _ => NullRep end)).
Proof.
  induction log as [|r log IH]; intros s Hs Hl.
  - exists []. split; [|done]. simpl. do 2 f_equal. destruct s as [me rsm c]. unfold set_counter. simpl in *.
    f_equal. rewrite wrap64_id; unfold incs; simpl; lia.
  - apply Forall_cons in Hl as [Hr Hl].
    set (s1 := if decide (r = Inc) then set_counter s (wrap64 (rs_counter s + 1)) else s).
    assert (Hc : forall k, wrap64 (rs_counter s1 + k) =
                           wrap64 (rs_counter s + ((if decide (r = Inc) then 1 else 0) + k))).
    { intros k. unfold s1. case_decide; simpl; [rewrite wrap64_add|]; f_equal; lia. }
    destruct (IH s1) as (ps & Hps & Hlen & Hi); [|done|].
    { unfold s1. case_decide; [apply wrap64_range|done]. }
    exists (Some (match r with Inc => IncRep (wrap64 (rs_counter s + 1)) | _ => NullRep end) :: ps).
    split; [|split; [simpl; by rewrite Hlen|]].
    + rewrite incs_cons, <- Hc. destruct r; try done; simpl; unfold s1 in Hps; simpl in Hps;
        by rewrite Hps.
    + intros [|i] r' Hr'.
      * injection Hr' as <-. destruct r; done.
      * etrans; [exact (Hi i r' Hr')|].
        change (take (S (S i)) (r :: log)) with (r :: take (S i) log). by rewrite incs_cons, <- Hc.
Qed.

Lemma counter_log_fatal log : forall s, ~ Forall executable log -> apply_log s log = Panic.
Proof.
  induction log as [|r log IH]; intros s Hl; [by destruct Hl|].
  destruct (executable r) eqn:Hr; [|by destruct r].
  assert (Hn : ~ Forall executable log) by (intros ?; apply Hl; by constructor; [rewrite Hr|]).
  destruct r; try done; simpl; by rewrite IH.
Qed.

(** C35: The counter is a replicable state machine.  Whatever sequence of [Inc] and [Null]
    was executed, a server of any state that restores the snapshot and executes the
    requests that follow answers each of them as the server that took the snapshot does
    and ends with its counter, the number of increments in the whole log with the
    overflow of [int]; the reply to an [Inc] is the number of increments up to it. *)
Theorem rsmSrv_replay (s t : rsmSrv) (log log' : list request_any) :
  int_min <= rs_counter s <= int_max -> Forall executable log -> Forall executable log' ->
  exists s1 ps t1 s2 t2 qs,
    apply_log s log = Ret (s1, ps) /\ Restore t (Snapshot s1) = Ret t1 /\
    apply_log s1 log' = Ret (s2, qs) /\ apply_log t1 log' = Ret (t2, qs) /\
    rs_counter s2 = rs_counter t2 /\
    rs_counter t2 = wrap64 (rs_counter s + incs (log ++ log')) /\
    length qs = length log' /\
    forall i, log' !! i = Some Inc ->
      qs !! i = Some (Some (IncRep (wrap64 (rs_counter s + incs (log ++ take (S i) log'))))).
Proof.
  intros Hs Hl Hl'. destruct (counter_log log s Hs Hl) as (ps & Hps & _).
  assert (Happ : forall l, incs (log ++ l) = incs log + incs l)
    by (intros l; unfold incs; rewrite filter_app, length_app; lia).
  set (s1 := set_counter s (wrap64 (rs_counter s + incs log))) in *.
  destruct (counter_log log' s1 ltac:(apply wrap64_range) Hl') as (qs & Hqs & Hlen & Hi).
  destruct (snapshot_replay s t log s1 ps) as (t1 & Ht & Hr); [exact Hs|exact Hps|].
  specialize (Hr log'). rewrite Hqs in Hr.
  destruct (apply_log t1 log') as [[t2 qs']| |] eqn:Ht2; [|destruct Hr..].
  destruct Hr as [Hc Hq]. simpl in Hc, Hq. subst qs'. unfold equiv, rsmSrv_equiv in Hc.
  eexists _, _, _, _, _, _. do 4 (split; [done|]). split; [done|].
  rewrite Hc. simpl. rewrite wrap64_add, Happ, Z.add_assoc. split; [done|]. split; [done|].
  intros i Hin. rewrite (Hi i Inc Hin). simpl. by rewrite wrap64_add, Happ, Z.add_assoc.
Qed.
End Counter.

(** [DoOp] on [Inc] as its two steps: the increment under the mutex, and the read of the
    counter for the reply, which comes after the unlock. *)
Inductive dop := DopStart | DopReply | DopDone (N : Z).

Definition dop_step (st : Z * list dop) (i : nat) : option (Z * list dop) :=
  let '(counter, calls) := st in
  match calls !! i with
  | Some DopStart => Some (wrap64 (counter + 1), <[i := DopReply]> calls)
  | Some DopReply => Some (counter, <[i := DopDone counter]> calls)
  | _ => None
  end.
Fixpoint dop_run (st : Z * list dop) (is_ : list nat) : option (Z * list dop) :=
  match is_ with [] => Some st | i :: is_' => st' ← dop_step st i; dop_run st' is_' end.

(** A call that nobody interrupts is [rsmSrv_DoOp]. *)
Lemma dop_uninterrupted rs :
  exists rs' N, rsmSrv_DoOp rs Inc = Ret (rs', Some (IncRep N)) /\
    dop_run (rs_counter rs, [DopStart]) [0%nat; 0%nat] = Some (rs_counter rs', [DopDone N]).
Proof. by eexists _, _. Qed.

Definition dop_started (d : dop) : Prop := d <> DopStart.
#[export] Instance dop_started_dec d : Decision (dop_started d).
Proof. destruct d; [right|left..]; unfold dop_started; congruence. Defined.
Definition started (calls : list dop) : Z := Z.of_nat (length (filter dop_started calls)).

Lemma started_insert calls i d d' :
  calls !! i = Some d -> dop_started d' ->
  started (<[i := d']> calls) = started calls + (if decide (dop_started d) then 0 else 1).
Proof.
  intros Hi Hd'. unfold started. rewrite insert_take_drop by (by eapply lookup_lt_Some).
  rewrite <- (take_drop_middle calls i d Hi) at 3.
  rewrite !filter_app, !filter_cons, !length_app, (decide_True (P := dop_started d')) by done.
  case_decide; simpl; lia.
Qed.

Lemma started_le calls : 0 <= started calls <= Z.of_nat (length calls).
Proof. unfold started. pose proof (length_filter dop_started calls). lia. Qed.

(** The counter counts the calls that have incremented it, and every reply is between. *)
Definition dop_inv (c : Z) (n : nat) (st : Z * list dop) : Prop :=
  length st.2 = n /\ st.1 = c + started st.2 /\
  forall i N, st.2 !! i = Some (DopDone N) -> c < N <= st.1.

Lemma dop_step_inv c n st i st' :
  int_min <= c -> c + Z.of_nat n <= int_max ->
  dop_inv c n st -> dop_step st i = Some st' -> dop_inv c n st'.
Proof.
  intros Hc Hn (Hlen & Hcnt & Hrep) Hst. destruct st as [counter calls]. simpl in *.
  pose proof (started_le calls) as Hle.
  destruct (calls !! i) as [[| |N]|] eqn:Hi; try discriminate Hst; injection Hst as <-.
  - pose proof (started_insert calls i _ DopReply Hi ltac:(discriminate)) as Hs. simpl in Hs.
    pose proof (started_le (<[i := DopReply]> calls)) as Hle'. rewrite length_insert in Hle'.
    split; [simpl; by rewrite length_insert|]. simpl. rewrite wrap64_id by lia. split; [lia|].
    intros j N Hj. apply list_lookup_insert_Some in Hj as [(_ & Hj & _)|[_ Hj]]; [discriminate Hj|].
    specialize (Hrep j N Hj). lia.
  - pose proof (started_insert calls i _ (DopDone counter) Hi ltac:(discriminate)) as Hs. simpl in Hs.
    split; [simpl; by rewrite length_insert|]. simpl. split; [lia|].
    intros j N Hj. apply list_lookup_insert_Some in Hj as [(_ & Hj & _)|[_ Hj]]; [|by apply (Hrep j)].
    injection Hj as <-. assert (0 < started calls); [|lia].
    unfold started. assert (Hin : DopReply ∈ filter dop_started calls).
    { apply list_elem_of_filter. split; [discriminate|by eapply list_elem_of_lookup_2]. }
    destruct (filter dop_started calls); [by apply elem_of_nil in Hin|simpl; lia].
Qed.

Lemma dop_run_inv c n is_ : forall st st',
  int_min <= c -> c + Z.of_nat n <= int_max ->
  dop_inv c n st -> dop_run st is_ = Some st' -> dop_inv c n st'.
Proof.
  induction is_ as [|i is_ IH]; intros st st' Hc Hn Hinv; simpl; [by intros [= <-]|].
  destruct (dop_step st i) as [st1|] eqn:Hs; [|discriminate]. simpl. apply IH; [done..|].
  by eapply dop_step_inv.
Qed.

Lemma dop_init_inv c n : dop_inv c n (c, replicate n DopStart).
Proof.
  split; [apply length_replicate|]. simpl. split.
  - enough (started (replicate n DopStart) = 0) by lia.
    unfold started. induction n as [|n IH]; [done|]. by cbn [replicate].
  - intros i N Hi. apply lookup_replicate in Hi as [? _]. discriminate.
Qed.

(** [n] calls of [DoOp] on [Inc] that run at the same time: when all have returned the
    counter has grown by exactly [n], no increment is lost, and each reply is a value the
    counter had after an increment, though not necessarily the caller's own. *)
Theorem DoOp_concurrent c n is_ c' calls :
  int_min <= c -> c + Z.of_nat n <= int_max ->
  dop_run (c, replicate n DopStart) is_ = Some (c', calls) ->
  (forall d, d ∈ calls -> exists N, d = DopDone N) ->
  c' = c + Z.of_nat n /\ forall i N, calls !! i = Some (DopDone N) -> c < N <= c'.
Proof.
  intros Hc Hn Hrun Hall.
  destruct (dop_run_inv c n is_ _ _ Hc Hn (dop_init_inv c n) Hrun) as (Hlen & Hcnt & Hrep).
  simpl in *. split; [|done]. rewrite Hcnt, <- Hlen. unfold started.
  rewrite filter_all; [done|]. apply Forall_forall. intros d (N & ->)%Hall. discriminate.
Qed.

Lemma DoOp_concurrent_witness :
  dop_run (0, replicate 2 DopStart) [0; 1; 0; 1]%nat = Some (2, [DopDone 2; DopDone 2]) /\ 2 = 0 + Z.of_nat 2.
Proof.
  split; [vm_compute; reflexivity|].
  refine (proj1 (DoOp_concurrent 0 2 [0; 1; 0; 1]%nat 2 [DopDone 2; DopDone 2] _ _ _ _)).
  - by vm_compute.
  - by vm_compute.
  - vm_compute. reflexivity.
  - intros d Hd. exists 2. repeat (apply elem_of_cons in Hd as [Hd|Hd]; [exact Hd|]). by apply elem_of_nil in Hd.
Defined.

(** A sign byte, then one byte per unit. *)
Module IntCodec.
Definition encode (z : Z) : list Byte.byte :=
  (if z <? 0 then Byte.x01 else Byte.x00) :: replicate (Z.abs_nat z) Byte.x00.
Definition decode (data : list Byte.byte) : option Z :=
  match data with
  | [] => None
  | b :: l => Some (if Byte.eqb b Byte.x01 then - Z.of_nat (length l) else Z.of_nat (length l))
  end.

Lemma decode_encode z : decode (encode z) = Some z.
Proof.
  unfold decode, encode. rewrite length_replicate.
  destruct (Z.ltb_spec z 0); simpl; f_equal; lia.
Qed.
End IntCodec.

Lemma rsmSrv_replay_witness :
  let s := makeRsmSrv 0 0 3 (-1) false in
  exists t2 qs, rs_counter t2 = 3 /\ length qs = 2%nat /\ qs !! 1%nat = Some (Some (IncRep 3)) /\
    apply_log (S := rsmSrv) (SM := rsmSrv_machine IntCodec.encode IntCodec.decode)
      (set_counter s 2) [Null; Inc] = Ret (t2, qs).
Proof.
  destruct (rsmSrv_replay IntCodec.encode IntCodec.decode (fun z _ => IntCodec.decode_encode z)
    (makeRsmSrv 0 0 3 (-1) false) (makeRsmSrv 7 1 3 (-1) false) [Inc; Inc] [Null; Inc])
    as (s1 & ps & t1 & s2 & t2 & qs & H1 & H2 & H3 & H4 & H5 & H6 & H7 & H8).
  - by vm_compute.
  - by repeat constructor.
  - by repeat constructor.
  - simpl in H1. injection H1 as <- <-. exists s2, qs. rewrite H5, H6. split; [reflexivity|].
    split; [exact H7|]. split; [exact (H8 1%nat eq_refl)|]. exact H3.
Defined.

(** ** [kvraft1/server.go] *)

(** The key/value server on top of Raft as the repository has it: [DoOp], [Snapshot],
    [Restore] and the handlers are to be written. *)
Module KvRaft.
Record KVServer := mkKVServer { kv_me : nat; kv_dead : Z; kv_rsm : option RSM }.

Section Server.
Context {Req Rep : Type}.
Definition KVServer_DoOp (kv : KVServer) (req : Req) : outcome (KVServer * option Rep) := Ret (kv, None).
Definition KVServer_Snapshot (kv : KVServer) : list Byte.byte := [].
Definition KVServer_Restore (kv : KVServer) (data : list Byte.byte) : outcome KVServer := Ret kv.

#[export] Instance KVServer_machine : StateMachine KVServer Req Rep :=
  {| DoOp := KVServer_DoOp; Snapshot := KVServer_Snapshot; Restore := KVServer_Restore |}.
End Server.

Definition Get (kv : KVServer) (args : GetArgs) (reply : GetReply) : GetReply := reply.
Definition Put (kv : KVServer) (args : PutArgs) (reply : PutReply) : PutReply := reply.
Definition Kill (kv : KVServer) : KVServer := mkKVServer (kv_me kv) 1 (kv_rsm kv).
Definition killed (kv : KVServer) : bool := kv_dead kv =? 1.

(** The services a server registers: itself and its Raft. *)
Definition StartKVServer (now : Z) (servers me : nat) (maxraftstate : Z)
  : KVServer * option (Raft request_any) :=
  let kv := mkKVServer me 0 (Some (MakeRSM false now servers me maxraftstate)) in
  (kv, match kv_rsm kv with Some rsm => RSM_Raft rsm | None => None end).

(** The clerk, and the tester's wrapper of it: a client and the servers of group 0. *)
Record Clerk := mkClerk { ck_clnt : nat; ck_servers : list string }.
Definition MakeClerk (clnt : nat) (servers : list string) : Clerk := mkClerk clnt servers.

Definition Clerk_Get (key : string) : string * Tversion * Err := ("", 0, "").
Definition Clerk_Put (key value : string) (version : Tversion) : Err := "".

Definition group0 (c : Config) : outcome group :=
  match lookupGroup c GRP0 with Some g => Ret g | None => Panic end.
Definition Test_MakeClerk (c : Config) : outcome (Config * Clerk) :=
  '(c, clnt) ← MakeClient c; g ← group0 c; Ret (c, MakeClerk clnt (SrvNames g)).
(** The client may reach the servers [to] only; the clerk knows all of them. *)
Definition Test_MakeClerkTo (c : Config) (to : list nat) : outcome (Config * Clerk) :=
  g ← group0 c; ns ← SrvNamesTo g to;
  '(c, clnt) ← MakeClientTo c (Some ns); g ← group0 c; Ret (c, MakeClerk clnt (SrvNames g)).
Definition Test_DeleteClerk (c : Config) (ck : Clerk) : outcome Config := DeleteClient c (ck_clnt ck).

Definition makeTitle (crash partitions : bool) (maxraftstate : Z) (randomkeys : bool) (nclients : Z)
    (part : string) : string :=
  "Test: " +:+ (if crash then "restarts, " else "") +:+ (if partitions then "partitions, " else "") +:+
  (if negb (maxraftstate =? -1) then "snapshots, " else "") +:+ (if randomkeys then "random keys, " else "") +:+
  (if nclients >? 1 then "many clients" else "one client") +:+ " (" +:+ part +:+ ")".
End KvRaft.

(** ** The harness of [rsm/test.go] *)

Definition NSRV : nat := 3.

(** [struct Test] but for the configuration; a slot is nil until its server is made. *)
Record rtest := mkRtest { rt_maxraftstate : Z; rt_srvs : list (option rsmSrv); rt_leader : nat }.

Definition srv_at (srvs : list (option rsmSrv)) (i : nat) : outcome rsmSrv :=
  p ← at_ srvs i; match p with Some s => Ret s | None => Panic end.

(** [mksrv], called by the group for each server it starts. *)
Definition mksrv (ts : rtest) (now : Z) (ends srv : nat) : outcome rtest :=
  let s := makeRsmSrv now srv ends (rt_maxraftstate ts) false in
  srvs ← set_at (rt_srvs ts) srv (Some s);
  _ ← rsmSrv_Raft s;
  Ret (mkRtest (rt_maxraftstate ts) srvs (rt_leader ts)).

Definition makeTest (Randstring : nat -> string) (now maxraftstate : Z) : outcome (Config * rtest) :=
  cfg ← MakeConfig Randstring NSRV true now;
  ts ← foldM (fun ts i => mksrv ts now NSRV i) (seq 0 NSRV)
         (mkRtest maxraftstate (replicate NSRV None) 0);
  Ret (cfg, ts).

Definition inPartition (s : nat) (p : option (list nat)) : bool :=
  match p with None => true | Some p => existsb (Nat.eqb s) p end.

(** What a try sees at its moment: the group, the servers, and what [Submit] answers. *)
Record view := mkView {
  v_grp : group;
  v_srvs : list (option rsmSrv);
  v_submit : RSM -> request_any -> Err * option reply_any
}.

(** The body of the inner loop of [onePartition]: the reply when [Submit] says [OK]. *)
Definition submit_to (v : view) (p : option (list nat)) (req : request_any) (index : nat)
  : outcome (option (option reply_any)) :=
  c ← IsConnected (v_grp v) index;
  if c : bool then
    s ← srv_at (v_srvs v) index;
    match rs_rsm s with
    | Some rsm =>
        if inPartition index p then
          let '(err, rep) := v_submit v rsm req in
          Ret (if bool_decide (err = OK) then Some rep else None)
        else Ret None
    | None => Ret None
    end
  else Ret None.

(** The inner loop: [for range ts.srvs]; try [k] happens at the moment [vs k]. *)
Fixpoint try_servers (vs : nat -> view) (p : option (list nat)) (req : request_any)
    (len k tries index : nat) : outcome (option (nat * option reply_any)) :=
  match tries with
  | O => Ret None
  | S tries' =>
      r ← submit_to (vs k) p req index;
      match r with
      | Some rep => Ret (Some (index, rep))
      | None => try_servers vs p req len (S k) tries' ((index + 1) mod len)%nat
      end
  end.

(** One round of the ten seconds: the leader it reads and what its tries see. *)
Record sround := mkSround { sr_leader : nat; sr_tries : nat -> view }.

(** [onePartition]: the new [ts.leader] and the reply, or nothing when time is up. *)
Fixpoint onePartition (rounds : list sround) (p : option (list nat)) (req : request_any) (len : nat)
  : outcome (option (nat * option reply_any)) :=
  match rounds with
  | [] => Ret None
  | rd :: rounds' =>
      r ← try_servers (sr_tries rd) p req len 0 len (sr_leader rd);
      match r with Some lr => Ret (Some lr) | None => onePartition rounds' p req len end
  end.

(** [oneInc] and [oneNull]: a type assertion that fails is a panic. *)
Definition reply_of (r : option (nat * option reply_any)) : option reply_any := lr ← r; lr.2.
Definition oneInc (rounds : list sround) (len : nat) : outcome (option Z) :=
  r ← onePartition rounds None Inc len;
  match reply_of r with
  | None => Ret None
  | Some (IncRep n) => Ret (Some n)
  | Some _ => Panic
  end.
Definition oneNull (rounds : list sround) (len : nat) : outcome (option unit) :=
  r ← onePartition rounds None Null len;
  match reply_of r with
  | None => Ret None
  | Some NullRep => Ret (Some tt)
  | Some _ => Panic
  end.

(** [countValue]: server [j] is read at the moment [ss j]. *)
Definition count_step (ss : nat -> list (option rsmSrv)) (v : Z) (i : Z) (j : nat) : outcome Z :=
  s ← srv_at (ss j) j; Ret (if rs_counter s =? v then i + 1 else i).
Definition countValue (n : nat) (ss : nat -> list (option rsmSrv)) (v : Z) : outcome Z :=
  foldM (count_step ss v) (seq 0 n) 0.

(** [checkCounter]: whether it passes ([false] is [ts.Fatalf]) and how many milliseconds
    it slept; iteration [i] reads the servers [ws i]. *)
Fixpoint checkCounter_loop (n : nat) (ws : nat -> nat -> list (option rsmSrv)) (v nsrv : Z)
    (iters i : nat) (to slept : Z) : outcome (bool * Z) :=
  match iters with
  | O => Ret (false, slept)
  | S iters' =>
      c ← countValue n (ws i) v;
      if c >=? nsrv then Ret (true, slept)
      else checkCounter_loop n ws v nsrv iters' (S i) (if to <? 1000 then to * 2 else to) (slept + to)
  end.
Definition checkCounter (n : nat) (ws : nat -> nat -> list (option rsmSrv)) (v nsrv : Z)
  : outcome (bool * Z) :=
  checkCounter_loop n ws v nsrv 30 0 10 0.

(** [disconnectLeader] and [connect]. *)
Definition disconnectLeader (g : group) (ts : rtest) : outcome (group * nat) :=
  g ← DisconnectAll g (rt_leader ts); Ret (g, rt_leader ts).
Definition rsm_connect (g : group) (i : nat) : outcome group := ConnectOne g i.

(** What a server registers: a Raft peer, as it is when [Leader] asks it, or anything else. *)
Inductive service := SvcRaft (rf : Raft request_any) | SvcOther.
Definition leads (s : service) : bool := match s with SvcRaft rf => (GetState rf).2 | SvcOther => false end.

(** [Leader] over the services of the servers of a group. *)
Fixpoint Leader_from (i : nat) (services : list (list service)) : bool * nat :=
  match services with
  | [] => (false, 0%nat)
  | ss :: services' => if existsb leads ss then (true, i) else Leader_from (S i) services'
  end.
Definition Leader (services : list (list service)) : bool * nat := Leader_from 0 services.

(** ** What the harness finds *)

(** The server in slot [j] is connected, in the partition and running, and its [Submit]
    answers [OK] with [rep]. *)
Definition accepts (v : view) (p : option (list nat)) (req : request_any) (j : nat)
    (rep : option reply_any) : Prop :=
  IsConnected (v_grp v) j = Ret true /\ inPartition j p = true /\
  exists s rsm, v_srvs v !! j = Some (Some s) /\ rs_rsm s = Some rsm /\ v_submit v rsm req = (OK, rep).

(** All [len] servers have been made. *)
Definition servers_ok (len : nat) (srvs : list (option rsmSrv)) : Prop :=
  length srvs = len /\ Forall is_Some srvs.
Definition view_ok (len : nat) (v : view) : Prop :=
  length (g_connected (v_grp v)) = len /\ servers_ok len (v_srvs v).

Lemma srv_at_ok len srvs i :
  servers_ok len srvs -> (i < len)%nat -> exists s, srvs !! i = Some (Some s) /\ srv_at srvs i = Ret s.
Proof.
  intros [Hlen Hall] Hi. destruct (lookup_lt_is_Some_2 srvs i ltac:(lia)) as [p Hp].
  destruct (Forall_lookup_1 _ _ _ _ Hall Hp) as [s ->]. exists s. split; [done|].
  unfold srv_at. rewrite (at_Ret _ _ _ Hp). done.
Qed.

Lemma submit_to_ok len v p req j :
  view_ok len v -> (j < len)%nat ->
  exists r, submit_to v p req j = Ret r /\
    match r with Some rep => accepts v p req j rep | None => forall rep, ~ accepts v p req j rep end.
Proof.
  intros [Hc Hs] Hj. unfold submit_to, accepts, IsConnected, at_.
  destruct (lookup_lt_is_Some_2 (g_connected (v_grp v)) j ltac:(lia)) as [c Hcj]. rewrite Hcj. step_bind.
  destruct (srv_at_ok len _ j Hs Hj) as (s & Hsj & Hat).
  destruct c; [|exists None; split; [done|]; intros rep (? & _); congruence].
  rewrite Hat. step_bind. destruct (rs_rsm s) as [rsm|] eqn:Hrsm.
  2: { exists None. split; [done|]. intros rep (_ & _ & s' & rsm' & Hs' & Hr' & _). congruence. }
  destruct (inPartition j p); [|exists None; split; [done|]; by intros rep (_ & ? & _)].
  destruct (v_submit v rsm req) as [err rep] eqn:He. case_bool_decide as Hok.
  - exists (Some rep). split; [done|]. subst err. eauto 10.
  - exists None. split; [done|]. intros rep' (_ & _ & s' & rsm' & Hs' & Hr' & Hsub).
    assert (s' = s) by congruence. assert (rsm' = rsm) by congruence. congruence.
Qed.

Lemma try_servers_ok len vs p req tries : forall k index,
  (forall k, view_ok len (vs k)) -> (index < len)%nat ->
  exists r, try_servers vs p req len k tries index = Ret r /\
    match r with
    | Some (l, rep) => exists i, (i < tries)%nat /\ accepts (vs (k + i)%nat) p req l rep
    | None => forall i, (i < tries)%nat ->
        forall rep, ~ accepts (vs (k + i)%nat) p req ((index + i) mod len)%nat rep
    end.
Proof.
  induction tries as [|tries IH]; intros k index Hvs Hi; simpl; [exists None; split; [done|lia]|].
  destruct (submit_to_ok len (vs k) p req index (Hvs k) Hi) as ([rep|] & -> & Ha); step_bind.
  - eexists. split; [done|]. exists 0%nat. rewrite Nat.add_0_r. split; [lia|done].
  - destruct (IH (S k) ((index + 1) mod len)%nat Hvs) as (r & Hr & Hrest);
      [apply Nat.mod_upper_bound; lia|].
    exists r. split; [done|]. destruct r as [[l rep]|].
    + destruct Hrest as (i & Hlt & Hacc). exists (S i). split; [lia|]. by rewrite Nat.add_succ_r.
    + intros [|i] Hlt; rewrite ?Nat.add_0_r; [by rewrite Nat.mod_small by done|].
      rewrite Nat.add_succ_r. specialize (Hrest i ltac:(lia)).
      rewrite Nat.Div0.add_mod_idemp_l in Hrest. by replace (index + S i)%nat with (index + 1 + i)%nat by lia.
Qed.

(** The ring of tries visits every server. *)
Lemma ring_covers len index j :
  (index < len)%nat -> (j < len)%nat -> exists i, (i < len)%nat /\ ((index + i) mod len = j)%nat.
Proof.
  intros Hi Hj. destruct (Nat.le_gt_cases index j).
  - exists (j - index)%nat. split; [lia|]. rewrite Nat.mod_small; lia.
  - exists (len + j - index)%nat. split; [lia|].
    replace (index + (len + j - index))%nat with (j + 1 * len)%nat by lia.
    rewrite Nat.Div0.mod_add. by apply Nat.mod_small.
Qed.

(** [onePartition] for any [Submit], whatever crashes and partitions happen meanwhile.
    It never panics once the servers are made; an answer is the one that a connected,
    running server of the partition gave with [OK], and that server is the new leader;
    and it gives up only when every server has refused, in every round, at the moment it
    was tried. *)
Theorem onePartition_spec len rounds p req :
  (forall rd, rd ∈ rounds -> (sr_leader rd < len)%nat /\ forall k, view_ok len (sr_tries rd k)) ->
  exists r, onePartition rounds p req len = Ret r /\
    match r with
    | Some (l, rep) => exists rd k, rd ∈ rounds /\ (k < len)%nat /\ accepts (sr_tries rd k) p req l rep
    | None => forall rd j, rd ∈ rounds -> (j < len)%nat ->
        exists k, (k < len)%nat /\ forall rep, ~ accepts (sr_tries rd k) p req j rep
    end.
Proof.
  induction rounds as [|rd rounds IH]; intros Hok.
  { exists None. split; [done|]. by intros rd j ?%elem_of_nil. }
  destruct (Hok rd ltac:(apply list_elem_of_here)) as [Hl Hv]. simpl.
  destruct (try_servers_ok len (sr_tries rd) p req len 0 (sr_leader rd) Hv Hl) as ([[l rep]|] & -> & Hr).
  - step_bind. eexists. split; [done|]. destruct Hr as (i & Hi & Ha).
    exists rd, i. split; [apply list_elem_of_here|done].
  - step_bind. destruct IH as (r & Hr' & Hrest); [intros; apply Hok; by apply list_elem_of_further|].
    exists r. split; [done|]. destruct r as [[l rep]|].
    + destruct Hrest as (rd' & k & ? & Hk). exists rd', k. split; [by apply list_elem_of_further|done].
    + intros rd' j [->|Hin]%elem_of_cons Hj; [|by apply Hrest].
      destruct (ring_covers len (sr_leader rd) j Hl Hj) as (i & Hi & <-). exists i. split; [done|].
      by apply Hr.
Qed.

(** With the [Submit] of [rsm.go], the harness never gets an answer, whatever it
    submits and however the network behaves: [oneInc] and [oneNull] return nil. *)
Theorem Submit_never_answers len rounds :
  (forall rd, rd ∈ rounds -> (sr_leader rd < len)%nat /\
     forall k, view_ok len (sr_tries rd k) /\ v_submit (sr_tries rd k) = Submit) ->
  (forall p req, onePartition rounds p req len = Ret None) /\
  oneInc rounds len = Ret None /\ oneNull rounds len = Ret None.
Proof.
  intros Hok. enough (H : forall p req, onePartition rounds p req len = Ret None)
    by (unfold oneInc, oneNull; by rewrite !H).
  intros p req. induction rounds as [|rd rounds IH]; [done|]. simpl.
  destruct (Hok rd ltac:(apply list_elem_of_here)) as [Hl Hv].
  destruct (try_servers_ok len (sr_tries rd) p req len 0 (sr_leader rd)) as (r & -> & Hr);
    [intros k; apply Hv|done|]. step_bind. destruct r as [[l rep]|].
  - destruct Hr as (i & _ & _ & _ & s & rsm & _ & _ & Hs). destruct (Hv (0 + i)%nat) as [_ Hsub].
    rewrite Hsub in Hs. discriminate Hs.
  - apply IH. intros; apply Hok. by apply list_elem_of_further.
Qed.

(** The servers whose counter is [v] when they are read. *)
Definition agreeing (n : nat) (ss : nat -> list (option rsmSrv)) (v : Z) : Z :=
  Z.of_nat (length (filter (fun j => rs_counter <$> mjoin (ss j !! j) = Some v) (seq 0 n))).

Lemma countValue_ok n ss v :
  (forall j, servers_ok n (ss j)) -> countValue n ss v = Ret (agreeing n ss v).
Proof.
  intros Hss. unfold countValue, agreeing.
  assert (H : forall m, (m <= n)%nat -> foldM (count_step ss v) (seq 0 m) 0 =
    Ret (Z.of_nat (length (filter (fun j => rs_counter <$> mjoin (ss j !! j) = Some v) (seq 0 m)))));
    [|by apply H].
  induction m as [|m IH]; intros Hm; [done|]. rewrite seq_S, foldM_app, IH by lia. step_bind.
  rewrite filter_app, length_app, filter_cons, filter_nil. cbn [foldM Nat.add]. unfold count_step.
  destruct (srv_at_ok n (ss m) m (Hss m) ltac:(lia)) as (s & Hs & ->). step_bind. rewrite Hs. cbn [mjoin option_join fmap option_fmap option_map].
  destruct (Z.eqb_spec (rs_counter s) v); case_decide as Hd; try congruence; simpl; f_equal; lia.
Qed.

(** The milliseconds slept in the first [i] iterations: 10, 20, 40, ..., 1280, 1280, ... *)
Definition slept_ms (i : Z) : Z := if i <=? 7 then 10 * (2 ^ i - 1) else 1270 + 1280 * (i - 7).
Definition timeout_ms (i : Z) : Z := if i <=? 7 then 10 * 2 ^ i else 1280.

Lemma sleep_step i : 0 <= i ->
  slept_ms i + timeout_ms i = slept_ms (i + 1) /\
  (if timeout_ms i <? 1000 then timeout_ms i * 2 else timeout_ms i) = timeout_ms (i + 1).
Proof.
  intros Hi. destruct (Z.le_gt_cases 7 i) as [H|H].
  - unfold slept_ms, timeout_ms. rewrite !(proj2 (Z.leb_gt (i + 1) 7)) by lia.
    destruct (Z.leb_spec i 7); [replace i with 7 by lia; by vm_compute|]. split; [lia|done].
  - assert (Hc : i ∈ range 7) by (apply elem_of_range; lia). unfold range in Hc. simpl in Hc.
    repeat (apply elem_of_cons in Hc as [->|Hc]; [by vm_compute|]). by apply elem_of_nil in Hc.
Qed.

Lemma checkCounter_loop_ok n ws v nsrv :
  (forall i j, servers_ok n (ws i j)) ->
  forall iters k, (k + iters = 30)%nat -> (forall i, (i < k)%nat -> agreeing n (ws i) v < nsrv) ->
  let r := checkCounter_loop n ws v nsrv iters k (timeout_ms (Z.of_nat k)) (slept_ms (Z.of_nat k)) in
  (exists i : nat, (i < 30)%nat /\ agreeing n (ws i) v >= nsrv /\
     (forall i', (i' < i)%nat -> agreeing n (ws i') v < nsrv) /\ r = Ret (true, slept_ms (Z.of_nat i))) \/
  ((forall i, (i < 30)%nat -> agreeing n (ws i) v < nsrv) /\ r = Ret (false, slept_ms 30)).
Proof.
  intros Hok. induction iters as [|iters IH]; intros k Hk Hlow; cbn [checkCounter_loop].
  - right. replace k with 30%nat in * by lia. done.
  - rewrite countValue_ok by done. step_bind.
    destruct (Z.geb_spec (agreeing n (ws k) v) nsrv) as [Hge|Hlt].
    + left. exists k. repeat split; [lia|lia|done].
    + destruct (sleep_step (Z.of_nat k) ltac:(lia)) as [-> ->].
      replace (Z.of_nat k + 1) with (Z.of_nat (S k)) by lia.
      apply IH; [lia|]. intros i Hi. destruct (decide (i = k)) as [->|]; [done|apply Hlow; lia].
Qed.

(** [checkCounter] reads the servers one after the other, 30 times: it passes in the
    first iteration that counts enough servers with the value, having slept
    10 * (2^i - 1) ms before iteration [i] up to the seventh and 1280 ms before each
    later one, and otherwise fails the test after 30710 ms. *)
Theorem checkCounter_spec n ws v nsrv :
  (forall i j, servers_ok n (ws i j)) ->
  (exists i : nat, (i < 30)%nat /\ agreeing n (ws i) v >= nsrv /\
     (forall i', (i' < i)%nat -> agreeing n (ws i') v < nsrv) /\
     checkCounter n ws v nsrv = Ret (true, slept_ms (Z.of_nat i))) \/
  ((forall i, (i < 30)%nat -> agreeing n (ws i) v < nsrv) /\
   checkCounter n ws v nsrv = Ret (false, 30710)).
Proof.
  intros Hok. unfold checkCounter. change 30710 with (slept_ms 30).
  apply (checkCounter_loop_ok n ws v nsrv Hok 30 0); [done|lia].
Qed.

(** [Leader] finds the first server that leads. *)
Lemma Leader_from_spec services : forall i,
  match Leader_from i services with
  | (true, j) => exists k ss, j = (i + k)%nat /\ services !! k = Some ss /\ existsb leads ss = true /\
      forall k' ss', (k' < k)%nat -> services !! k' = Some ss' -> existsb leads ss' = false
  | (false, _) => Forall (fun ss => existsb leads ss = false) services
  end.
Proof.
  induction services as [|ss services IH]; intros i; simpl; [by constructor|].
  destruct (existsb leads ss) eqn:Hs.
  - exists 0%nat, ss. repeat split; [lia|done|]. lia.
  - specialize (IH (S i)). destruct (Leader_from (S i) services) as [[] j]; [|by constructor].
    destruct IH as (k & ss1 & -> & Hk & Hl & Hfirst). exists (S k), ss1. repeat split; [lia|done|done|].
    intros [|k'] ss' Hlt Hk'; [by injection Hk' as <-|]. apply (Hfirst k'); [lia|done].
Qed.

Module RsmDemo.
(** What the harness sees of a new test: server 1 is its leader, server 2 is cut off. *)
Definition view_of (submit : RSM -> request_any -> Err * option reply_any) (ct : Config * rtest) : option view :=
  g ← lookupGroup ct.1 GRP0;
  match DisconnectAll g 2 with
  | Ret g => Some (mkView g (rt_srvs ct.2) submit)
  | _ => None
  end.
Definition start (submit : RSM -> request_any -> Err * option reply_any) : option view :=
  match makeTest (fun i => String.string_of_list_ascii (replicate i "a"%char)) 0 (-1) with
  | Ret ct => view_of submit ct
  | _ => None
  end.
Definition leader1 (rsm : RSM) (req : request_any) : Err * option reply_any :=
  if (rsm_me rsm =? 1)%nat then (OK, Some (IncRep 1)) else Submit rsm req.
Definition well_formed (v : view) : bool :=
  bool_decide (length (g_connected (v_grp v)) = 3%nat) && bool_decide (length (v_srvs v) = 3%nat) &&
  forallb (fun p => match p with Some _ => true | None => false end) (v_srvs v).

Lemma well_formed_ok v : well_formed v = true -> view_ok 3 v.
Proof.
  unfold well_formed. intros [[Hc%bool_decide_eq_true Hl%bool_decide_eq_true]%andb_prop Hs]%andb_prop.
  split; [done|]. split; [done|]. apply Forall_forall. intros p Hp. rewrite forallb_forall in Hs.
  apply list_elem_of_In, Hs in Hp. by destruct p.
Qed.
Lemma start_submit submit v : start submit = Some v -> v_submit v = submit.
Proof.
  unfold start. destruct (makeTest _ _ _) as [ct| |]; [|discriminate..]. unfold view_of.
  destruct (lookupGroup ct.1 GRP0) as [g|]; [|discriminate]. simpl.
  destruct (DisconnectAll g 2); [by intros [= <-]|discriminate..].
Qed.

Definition rounds (v : view) : list sround := [mkSround 2 (fun _ => v); mkSround 0 (fun _ => v)].

Lemma rounds_ok v rd :
  well_formed v = true -> rd ∈ rounds v -> (sr_leader rd < 3)%nat /\ forall k, view_ok 3 (sr_tries rd k).
Proof.
  intros Hv%well_formed_ok Hrd. unfold rounds in Hrd.
  apply elem_of_cons in Hrd as [->|Hrd]; [split; [simpl; lia|done]|].
  apply elem_of_cons in Hrd as [->|Hrd]; [split; [simpl; lia|done]|]. by apply elem_of_nil in Hrd.
Qed.

Lemma rounds_submit v rd k : rd ∈ rounds v -> v_submit (sr_tries rd k) = v_submit v.
Proof. unfold rounds. by intros [->|[->|?%elem_of_nil]%elem_of_cons]%elem_of_cons. Qed.

Definition finds (v : view) : bool :=
  well_formed v && match onePartition (rounds v) None Inc 3 with
                   | Ret (Some (1%nat, Some (IncRep 1))) => true | _ => false end.
Definition counts (v : view) : bool :=
  well_formed v && (agreeing 3 (fun _ => v_srvs v) 0 =? 3) && (agreeing 3 (fun _ => v_srvs v) 1 =? 0).
End RsmDemo.

Lemma onePartition_spec_witness :
  exists v r, RsmDemo.start RsmDemo.leader1 = Some v /\
    onePartition (RsmDemo.rounds v) None Inc 3 = Ret (Some r) /\ r = (1%nat, Some (IncRep 1)) /\
    exists rd k, rd ∈ RsmDemo.rounds v /\ (k < 3)%nat /\ accepts (sr_tries rd k) None Inc r.1 r.2.
Proof.
  destruct (passes_inv RsmDemo.finds (RsmDemo.start RsmDemo.leader1)) as (v & Hv & Hf);
    [vm_compute; reflexivity|].
  apply andb_prop in Hf as [Hwf Hf].
  destruct (onePartition_spec 3 (RsmDemo.rounds v) None Inc (fun rd => RsmDemo.rounds_ok v rd Hwf))
    as (r & Hr & Hspec).
  rewrite Hr in Hf.
  destruct r as [[[|[|l]] [[[|[]|]| |]|]]|]; try discriminate Hf.
  exists v, (1%nat, Some (IncRep 1)). split; [exact Hv|]. split; [exact Hr|]. split; [reflexivity|exact Hspec].
Defined.

Lemma Submit_never_answers_witness :
  exists v, RsmDemo.start Submit = Some v /\ oneInc (RsmDemo.rounds v) 3 = Ret None.
Proof.
  destruct (passes_inv RsmDemo.well_formed (RsmDemo.start Submit)) as (v & Hv & Hwf);
    [vm_compute; reflexivity|].
  exists v. split; [exact Hv|]. apply (Submit_never_answers 3 (RsmDemo.rounds v)).
  intros rd Hrd. destruct (RsmDemo.rounds_ok v rd Hwf Hrd) as [Hl Hk]. split; [exact Hl|].
  intros k. split; [exact (Hk k)|]. rewrite (RsmDemo.rounds_submit v rd k Hrd).
  exact (RsmDemo.start_submit Submit v Hv).
Defined.

Lemma checkCounter_spec_witness :
  exists v, RsmDemo.start Submit = Some v /\
    checkCounter 3 (fun _ _ => v_srvs v) 0 3 = Ret (true, 0) /\
    checkCounter 3 (fun _ _ => v_srvs v) 1 3 = Ret (false, 30710).
Proof.
  destruct (passes_inv RsmDemo.counts (RsmDemo.start Submit)) as (v & Hv & Hf); [vm_compute; reflexivity|].
  apply andb_prop in Hf as [[Hwf Hc]%andb_prop Hc1]. apply Z.eqb_eq in Hc, Hc1.
  pose proof (RsmDemo.well_formed_ok v Hwf) as [_ Hs].
  exists v. split; [exact Hv|]. split.
  - destruct (checkCounter_spec 3 (fun _ _ => v_srvs v) 0 3 (fun _ _ => Hs)) as [(i & _ & _ & Hi & ->)|[H _]].
    + destruct i as [|i]; [reflexivity|]. specialize (Hi 0%nat ltac:(lia)). simpl in Hi. lia.
    + specialize (H 0%nat ltac:(lia)). simpl in H. lia.
  - destruct (checkCounter_spec 3 (fun _ _ => v_srvs v) 1 3 (fun _ _ => Hs)) as [(i & _ & H & _)|[_ H]]; [|exact H].
    simpl in H. lia.
Defined.
