(* ===== verification/ShardTest.v ===== *)
(** The harness of the sharded key/value tests ([shardkv1/test.go]): groups that are
    started and join, leave and are taken down, for any shard controller.  What the
    harness asks of a controller is a class; a controller that keeps the contract is
    driven through all joins and leaves, and the one of
    [shardkv1/shardctrler/shardctrler.go], whose methods are still empty, is not. *)
From S2P Require Import Prelude.
From S2P Require Import Names.
From stdpp Require Import pretty.
From S2P Require Import Labrpc.
From S2P Require Import Tester.
From S2P Require Import TestCfg.
From S2P Require Import ShardCfg.
From S2P Require Import Rsm.
Open Scope Z_scope.

(** ** The controller *)

(** The methods of [ShardCtrler] on the state they share, the store of group 0; a nil
    configuration is [None]. *)
Class ShardCtrler (C : Type) := {
  InitController : C -> outcome C;
  InitConfig : C -> ShardConfig -> outcome C;
  ChangeConfigTo : C -> ShardConfig -> outcome C;
  Query : C -> outcome (C * option ShardConfig)
}.

(** What the comments of [shardctrler.go] promise when one controller is used at a time:
    [InitConfig] supplies the first configuration, [ChangeConfigTo] changes the current
    one to the next, [Query] returns the current one. *)
Class Sequential (C : Type) `{ShardCtrler C} := {
  current : C -> option ShardConfig;
  Query_current c : exists c', Query c = Ret (c', current c) /\ current c' = current c;
  InitConfig_current c cfg : current c = None ->
    exists c', InitConfig c cfg = Ret c' /\ current c' = Some cfg;
  ChangeConfigTo_current c cfg new : current c = Some cfg -> Num new = wrap64 (Num cfg + 1) ->
    exists c', ChangeConfigTo c new = Ret c' /\ current c' = Some new
}.

(** The methods of the repository; [Query] answers nil. *)
Module Stub.
Definition ShardCtrler_InitController {C} (c : C) : outcome C := Ret c.
Definition ShardCtrler_InitConfig {C} (c : C) (cfg : ShardConfig) : outcome C := Ret c.
Definition ShardCtrler_ChangeConfigTo {C} (c : C) (new : ShardConfig) : outcome C := Ret c.
Definition ShardCtrler_Query {C} (c : C) : outcome (C * option ShardConfig) := Ret (c, None).

Definition ctrler (C : Type) : ShardCtrler C :=
  {| InitController := ShardCtrler_InitController; InitConfig := ShardCtrler_InitConfig;
     ChangeConfigTo := ShardCtrler_ChangeConfigTo; Query := ShardCtrler_Query |}.
End Stub.

(** ** The harness *)

(** Servers per group. *)
Definition NSRV : nat := 3.

(** [struct Test] with the configuration and what the controllers share. *)
Record stest (C : Type) := mkStest { st_cfg : Config; st_ctl : C; st_ngid : Z }.
Arguments mkStest {C}.
Arguments st_cfg {C}.
Arguments st_ctl {C}.
Arguments st_ngid {C}.

Section Harness.
Context {C : Type} `{ShardCtrler C}.
Variable Randstring : nat -> string.

Definition set_cfg (ts : stest C) (cfg : Config) : stest C := mkStest cfg (st_ctl ts) (st_ngid ts).
Definition set_ctl (ts : stest C) (ctl : C) : stest C := mkStest (st_cfg ts) ctl (st_ngid ts).

Definition newGid (ts : stest C) : stest C * Z :=
  (mkStest (st_cfg ts) (st_ctl ts) (wrap64 (st_ngid ts + 1)), st_ngid ts).
Fixpoint groups (ts : stest C) (n : nat) : stest C * list Z :=
  match n with
  | O => (ts, [])
  | S n' => let '(ts, gid) := newGid ts in let '(ts, gids) := groups ts n' in (ts, gid :: gids)
  end.

(** Each controller and each clerk has a client of its own. *)
Definition makeShardCtrlerClnt (ts : stest C) : outcome (stest C * nat) :=
  '(cfg, clnt) ← MakeClient (st_cfg ts); Ret (set_cfg ts cfg, clnt).

(** A method on a nil configuration dereferences nil. *)
Definition deref_cfg (cfg : option ShardConfig) : outcome ShardConfig :=
  match cfg with Some cfg => Ret cfg | None => Panic end.
Definition grp_SrvNames (ts : stest C) (gid : Z) : outcome (list string) :=
  match lookupGroup (st_cfg ts) gid with Some g => Ret (SrvNames g) | None => Panic end.
Definition start_group (ts : stest C) (gid : Z) : outcome (stest C) :=
  cfg ← MakeGroupStart Randstring (st_cfg ts) gid NSRV; Ret (set_cfg ts cfg).

(** The answer of [JoinBalance] is not looked at. *)
Definition setupKVService (ts : stest C) : outcome (stest C * Z) :=
  '(ts, _) ← makeShardCtrlerClnt ts;
  ts ← start_group ts Gid1;
  srvs ← grp_SrvNames ts Gid1;
  '(scfg, _) ← JoinBalance MakeShardConfig [(Gid1, srvs)];
  ctl ← InitConfig (st_ctl ts) scfg;
  Ret (set_ctl ts ctl, Gid1).

Definition checkMember (ts : stest C) (gid : Z) : outcome (stest C * bool) :=
  '(ctl, cfg) ← Query (st_ctl ts);
  cfg ← deref_cfg cfg;
  Ret (set_ctl ts ctl, IsMember cfg gid).

Definition join (ts : stest C) (gid : Z) (srvs : list string) : outcome (stest C) :=
  '(ctl, cfg) ← Query (st_ctl ts);
  cfg ← deref_cfg cfg;
  '(newcfg, ok) ← JoinBalance (Copy cfg) [(gid, srvs)];
  if ok : bool then ctl ← ChangeConfigTo ctl newcfg; Ret (set_ctl ts ctl) else Panic.

Fixpoint joinGroups (ts : stest C) (gids : list Z) : outcome (stest C * bool) :=
  match gids with
  | [] => Ret (ts, true)
  | gid :: gids' =>
      ts ← start_group ts gid;
      srvs ← grp_SrvNames ts gid;
      ts ← join ts gid srvs;
      '(ts, ok) ← checkMember ts gid;
      if ok : bool then joinGroups ts gids' else Ret (ts, false)
  end.

Definition leave (ts : stest C) (gid : Z) : outcome (stest C) :=
  '(ctl, cfg) ← Query (st_ctl ts);
  cfg ← deref_cfg cfg;
  '(newcfg, ok) ← LeaveBalance (Copy cfg) [gid];
  if ok : bool then ctl ← ChangeConfigTo ctl newcfg; Ret (set_ctl ts ctl) else Panic.

Fixpoint leaveGroups (ts : stest C) (gids : list Z) : outcome (stest C * bool) :=
  match gids with
  | [] => Ret (ts, true)
  | gid :: gids' =>
      ts ← leave ts gid;
      '(ts, ok) ← checkMember ts gid;
      if ok : bool then Ret (ts, false)
      else
        cfg ← ExitGroup (st_cfg ts) gid;
        leaveGroups (set_cfg ts cfg) gids'
  end.

(** [disconnectClntFromLeader]: the leader found among the services of the group is shut
    down. *)
Definition disconnectClntFromLeader (ts : stest C) (gid : Z) (services : list (list service))
  : outcome (stest C * nat) :=
  let '(ok, l) := Leader services in
  if ok : bool then
    cfg ← on_group (st_cfg ts) gid (fun g => ShutdownServer g l); Ret (set_cfg ts cfg, l)
  else Panic.

(** The select of [checkShutdownSharding]: a Get that returned ([true] when its value was
    the expected one) or two seconds without one; only the latter ends the loop. *)
Inductive shutdown_event := GetReturned (ok : bool) | TwoSeconds.
Fixpoint collect (events : list shutdown_event) (ndone : Z) : outcome Z :=
  match events with
  | [] => Blocked
  | GetReturned ok :: events' => if ok then collect events' (wrap64 (ndone + 1)) else Panic
  | TwoSeconds :: _ => Ret ndone
  end.

(** [n] keys are read while the group [down] is shut down; one client per key. *)
Definition checkShutdownSharding (ts : stest C) (down : Z) (n : nat) (events : list shutdown_event)
  : outcome (stest C) :=
  cfg ← on_group (st_cfg ts) down Shutdown;
  cfg ← foldM (fun cfg (_ : nat) => '(cfg, _) ← MakeClient cfg; '(cfg, _) ← MakeClient cfg; Ret cfg) (seq 0 n) cfg;
  ndone ← collect events 0;
  if ndone >=? Z.of_nat n then Panic
  else cfg ← on_group cfg down (StartServers Randstring); Ret (set_cfg ts cfg).
End Harness.

(** ** Names of servers *)

Definition group_srvs (gid : Z) : list string :=
  (fun i => ServerName gid (Z.of_nat i)) <$> seq 0 NSRV.

Lemma ServerName_gid gid gid' i i' :
  0 <= gid -> 0 <= gid' -> ServerName gid i = ServerName gid' i' -> gid = gid'.
Proof.
  intros Hg Hg'. rewrite <- (Z2Nat.id gid Hg), <- (Z2Nat.id gid' Hg'). unfold ServerName. intros H.
  apply (inj (String.app "server-")) in H. apply dash_split in H as [H _]; [|apply pretty_no_dash..].
  apply pretty_of_nat_inj in H. by rewrite H.
Qed.

Lemma group_srvs_disjoint gid gid' x :
  0 <= gid -> 0 <= gid' -> x ∈ group_srvs gid -> x ∈ group_srvs gid' -> gid = gid'.
Proof.
  unfold group_srvs. intros ?? (i & -> & _)%list_elem_of_fmap (i' & He & _)%list_elem_of_fmap.
  by apply ServerName_gid in He.
Qed.

(** ** Groups that are up *)

(** The group [gid] has been started and not left. *)
Definition group_up (c : Config) (gid : Z) : Prop :=
  exists g, lookupGroup c gid = Some g /\ g_gid g = gid /\ grp_wf NSRV g /\ saved_ok g.

Lemma group_up_mono c c' gid :
  cf_grps c' !! gid = cf_grps c !! gid -> (length (cf_persisters c) <= length (cf_persisters c'))%nat ->
  group_up c gid -> group_up c' gid.
Proof.
  intros He Hle (g & Hg & Hid & [W1 W2 W3 W4] & Hs). unfold lookupGroup in Hg.
  destruct (cf_grps c !! gid) as [sg|] eqn:Hsg; [|done]. simpl in Hg. injection Hg as <-.
  exists (load c' sg). unfold lookupGroup. rewrite He. split; [done|]. split; [exact Hid|].
  split; [by split|]. intros s p Hin Hp. specialize (Hs s p Hin Hp). simpl in *. lia.
Qed.

Lemma group_up_SrvNames c gid g : lookupGroup c gid = Some g -> g_gid g = gid -> N g = NSRV ->
  SrvNames g = group_srvs gid.
Proof. intros _ <- Hn. unfold SrvNames. by rewrite Hn. Qed.

Section Control.
Context {C : Type} `{Sequential C}.
Variable Randstring : nat -> string.
Hypothesis Rand_inj : forall i j, Randstring i = Randstring j -> i = j.

(** The current configuration is good, and its groups are exactly the ones it names and
    run with the servers it lists. *)
Record ready (ts : stest C) (cfg : ShardConfig) : Prop := {
  rd_current : current (st_ctl ts) = Some cfg;
  rd_good : cfg_good cfg;
  rd_num : int_min <= Num cfg <= int_max;
  rd_srvs g srvs : Groups cfg !! g = Some srvs -> 0 < g /\ srvs = group_srvs g;
  rd_up g : is_Some (Groups cfg !! g) -> group_up (st_cfg ts) g;
  rd_names : names_below Randstring (cf_net (st_cfg ts)) (cf_names (st_cfg ts))
}.

Lemma checkMember_ready ts cfg gid :
  ready ts cfg -> (size (Groups cfg) <= NShards)%nat -> 0 < gid ->
  exists ts', checkMember ts gid = Ret (ts', bool_decide (is_Some (Groups cfg !! gid))) /\
    ready ts' cfg /\ st_cfg ts' = st_cfg ts.
Proof.
  intros [Hc Hg Hb Hs Hu Hn] Hsz H0'. unfold checkMember.
  destruct (Query_current (st_ctl ts)) as (ctl & -> & Hcur). step_bind. rewrite Hc. step_bind.
  exists (set_ctl ts ctl). cbn [deref_cfg mbind outcome_bind]. rewrite (IsMember_spec cfg gid Hg Hsz) by lia.
  split; [done|]. split; [|done]. split; try done. simpl. congruence.
Qed.

(** A controller that follows one more change. *)
Lemma change_ready ts cfg new :
  current (st_ctl ts) = Some cfg -> Num new = wrap64 (Num cfg + 1) ->
  exists ctl ctl', Query (st_ctl ts) = Ret (ctl, Some cfg) /\
    ChangeConfigTo ctl new = Ret ctl' /\ current ctl' = Some new.
Proof.
  intros Hc Hn. destruct (Query_current (st_ctl ts)) as (ctl & Hq & Hcur).
  destruct (ChangeConfigTo_current ctl cfg new) as (ctl' & Hch & Hcur'); [congruence|done|].
  exists ctl, ctl'. by rewrite Hq, Hc.
Qed.

(** A group that is started and has joined. *)
Lemma join_started ts cfg gid :
  ready ts cfg -> Groups cfg !! gid = None -> 0 < gid ->
  shares_server (group_srvs gid) (Groups cfg) = false /\
  exists ts' cfg',
    (forall gids, joinGroups Randstring ts (gid :: gids) =
       '(ts, ok) ← checkMember ts' gid;
       if ok : bool then joinGroups Randstring ts gids else Ret (ts, false)) /\
    JoinBalance cfg [(gid, group_srvs gid)] = Ret (cfg', true) /\ ready ts' cfg' /\
    Groups cfg' = <[gid := group_srvs gid]> (Groups cfg) /\ Num cfg' = wrap64 (Num cfg + 1).
Proof.
  intros [Hc Hg Hb Hs Hu Hn] Hnone H0'.
  assert (Hsh : shares_server (group_srvs gid) (Groups cfg) = false).
  { apply shares_server_false. intros g' xs x Hg' Hx Hx'. destruct (Hs _ _ Hg') as [Hpos ->].
    assert (He : g' = gid) by (apply (group_srvs_disjoint g' gid x); [lia|lia|done|done]). subst g'. congruence. }
  split; [done|].
  destruct (MakeGroupStart_ok Randstring (st_cfg ts) gid NSRV Rand_inj Hn)
    as (c' & g & Hstart & Hlk & Hnb & (HN & _) & _ & _ & _ & Hother & (Hid & Hwf & Hsv) & Hle).
  destruct (JoinBalance_one cfg gid (group_srvs gid) (cg_wf _ Hg) Hnone Hsh) as (cfg' & Hj & Hg' & Hnum & Hgrp).
  destruct (change_ready (set_cfg ts c') cfg cfg' Hc Hnum) as (ctl & ctl' & Hq & Hch & Hcur).
  exists (set_ctl (set_cfg ts c') ctl'), cfg'. split; [|split; [exact Hj|split]].
  - intros gids. cbn [joinGroups]. unfold start_group. rewrite Hstart. step_bind.
    unfold grp_SrvNames. cbn [set_cfg st_cfg]. rewrite Hlk. step_bind.
    rewrite (group_up_SrvNames c' gid g Hlk Hid HN).
    unfold join. rewrite Hq. step_bind. cbn [deref_cfg mbind outcome_bind]. rewrite Copy_id, Hj. step_bind.
    by rewrite Hch.
  - clear Hj. split; cbn [set_ctl set_cfg st_ctl st_cfg]; try done.
    + rewrite Hnum. apply wrap64_range.
    + intros g' srvs. rewrite Hgrp. intros [[<- <-]|[_ Hl]]%lookup_insert_Some; [done|by apply Hs].
    + intros g' [srvs Hl]. rewrite Hgrp in Hl. destruct (decide (g' = gid)) as [->|Hne]; [by exists g|].
      rewrite lookup_insert_ne in Hl by done. apply (group_up_mono (st_cfg ts)); [by apply Hother|done|].
      apply Hu. by exists srvs.
  - by split.
Qed.

Lemma joinGroups_step ts cfg gid gids :
  ready ts cfg -> Groups cfg !! gid = None -> 0 < gid -> (size (Groups cfg) < NShards)%nat ->
  exists ts' cfg', joinGroups Randstring ts (gid :: gids) = joinGroups Randstring ts' gids /\ ready ts' cfg' /\
    Groups cfg' = <[gid := group_srvs gid]> (Groups cfg) /\ Num cfg' = wrap64 (Num cfg + 1).
Proof.
  intros Hr Hnone Hpos Hsz.
  destruct (join_started ts cfg gid Hr Hnone Hpos) as (_ & ts1 & cfg' & -> & _ & Hr1 & Hgrp & Hnum).
  destruct (checkMember_ready ts1 cfg' gid Hr1) as (ts' & -> & Hr' & _); [|done|].
  { rewrite Hgrp, map_size_insert_None by done. lia. }
  step_bind. rewrite Hgrp, lookup_insert_eq, bool_decide_eq_true_2 by done. by exists ts', cfg'.
Qed.

Lemma leaveGroups_step ts cfg gid gids :
  ready ts cfg -> is_Some (Groups cfg !! gid) -> (size (Groups cfg) <= NShards)%nat ->
  exists ts' cfg', leaveGroups ts (gid :: gids) = leaveGroups ts' gids /\ ready ts' cfg' /\
    Groups cfg' = delete gid (Groups cfg) /\ Num cfg' = wrap64 (Num cfg + 1) /\
    lookupGroup (st_cfg ts') gid = None /\
    (forall g, g <> gid -> lookupGroup (st_cfg ts) g = None -> lookupGroup (st_cfg ts') g = None).
Proof.
  intros [Hc Hg Hb Hs Hu Hn] Hin Hsz. destruct Hin as [srvs Hgid]. destruct (Hs gid srvs Hgid) as [Hpos _].
  cbn [leaveGroups]. destruct (LeaveBalance_one cfg gid (cg_wf _ Hg)) as (cfg' & Hl & Hg' & Hnum & Hgrp); [by exists srvs|].
  destruct (change_ready ts cfg cfg' Hc Hnum) as (ctl & ctl' & Hq & Hch & Hcur).
  unfold leave. rewrite Hq. step_bind. cbn [deref_cfg mbind outcome_bind]. rewrite Copy_id, Hl. step_bind.
  rewrite Hch. step_bind.
  assert (Hr : ready (set_ctl ts ctl') cfg').
  { split; cbn [set_ctl st_ctl st_cfg]; try done.
    - rewrite Hnum. apply wrap64_range.
    - intros g' srvs'. rewrite Hgrp. intros [_ Hlk]%lookup_delete_Some. by apply Hs.
    - intros g' [srvs' Hlk]. rewrite Hgrp in Hlk. apply lookup_delete_Some in Hlk as [_ Hlk].
      apply Hu. by exists srvs'. }
  destruct (checkMember_ready _ cfg' gid Hr) as (ts' & -> & Hr' & Hcfg); [|done|].
  { rewrite Hgrp. etrans; [apply map_subseteq_size, delete_subseteq|done]. }
  step_bind. rewrite Hgrp, lookup_delete_eq, bool_decide_eq_false_2 by (by intros [? ?]).
  destruct (Hu gid) as (g & Hlk & Hid & Hwf & Hsv); [by exists srvs|].
  rewrite Hcfg. cbn [set_ctl st_cfg].
  destruct (ExitGroup_ok (st_cfg ts) gid NSRV g Hlk Hwf Hsv)
    as (c' & -> & Hgone & _ & _ & _ & _ & Hother & Hle & Hrn & Hnm).
  step_bind. exists (set_cfg ts' c'), cfg'. split; [done|]. split; [|split; [done|split; [done|split; [done|]]]].
  - destruct Hr' as [R1 R2 R3 R4 R5 R6]. split; cbn [set_cfg st_ctl st_cfg]; try done.
    + intros g' [srvs' Hlk']. rewrite Hgrp in Hlk'. apply lookup_delete_Some in Hlk' as [Hne Hlk'].
      apply (group_up_mono (st_cfg ts)); [by apply Hother|done|]. apply Hu. by exists srvs'.
    + unfold names_below. rewrite Hrn, Hnm. exact Hn.
  - intros g' Hne Hnone. unfold lookupGroup in *. cbn [set_cfg st_cfg]. rewrite Hother by done.
    by destruct (cf_grps (st_cfg ts) !! g').
Qed.

Lemma ready_check ts cfg gs :
  ready ts cfg -> NoDup gs -> (forall g, g ∈ gs <-> is_Some (Groups cfg !! g)) -> CheckConfig cfg gs = Ret tt.
Proof. intros Hr. apply cfg_good_check, Hr. Qed.

Lemma joinGroups_ok gids : forall ts cfg,
  ready ts cfg -> NoDup gids -> (forall gid, gid ∈ gids -> 0 < gid /\ Groups cfg !! gid = None) ->
  (size (Groups cfg) + length gids <= NShards)%nat ->
  exists ts' cfg', joinGroups Randstring ts gids = Ret (ts', true) /\ ready ts' cfg' /\
    (forall g, Groups cfg' !! g = if decide (g ∈ gids) then Some (group_srvs g) else Groups cfg !! g) /\
    size (Groups cfg') = (size (Groups cfg) + length gids)%nat /\
    Num cfg' = wrap64 (Num cfg + Z.of_nat (length gids)).
Proof.
  induction gids as [|gid gids IH]; intros ts cfg Hr Hnd Hnew Hsz.
  - exists ts, cfg. split; [done|]. split; [done|]. split; [done|]. simpl.
    rewrite Z.add_0_r, Nat.add_0_r, wrap64_id by apply Hr. done.
  - apply NoDup_cons in Hnd as [Hni Hnd]. simpl in Hsz.
    destruct (Hnew gid) as [Hpos Hnone]; [apply list_elem_of_here|].
    destruct (joinGroups_step ts cfg gid gids Hr Hnone Hpos ltac:(lia)) as (ts1 & cfg1 & -> & Hr1 & Hg1 & Hn1).
    assert (Hs1 : size (Groups cfg1) = S (size (Groups cfg))) by (rewrite Hg1; by apply map_size_insert_None).
    destruct (IH ts1 cfg1 Hr1 Hnd) as (ts' & cfg' & Hj & Hr' & Hg' & Hs' & Hn').
    { intros g Hin. destruct (Hnew g) as [? ?]; [by apply list_elem_of_further|].
      split; [done|]. rewrite Hg1, lookup_insert_ne; [done|]. by intros ->. }
    { lia. }
    exists ts', cfg'. split; [done|]. split; [done|]. split; [|split].
    + intros g. rewrite Hg', Hg1. destruct (decide (gid = g)) as [<-|Hne].
      * rewrite decide_False by done. rewrite lookup_insert_eq. by rewrite decide_True by apply list_elem_of_here.
      * rewrite lookup_insert_ne by done. destruct (decide (g ∈ gids)) as [Hin|Hnin].
        -- by rewrite decide_True by (by apply list_elem_of_further).
        -- rewrite decide_False; [done|]. intros [->|?]%elem_of_cons; done.
    + simpl. lia.
    + rewrite Hn', Hn1, wrap64_add. simpl. f_equal. lia.
Qed.

Lemma leaveGroups_ok gids : forall ts cfg,
  ready ts cfg -> NoDup gids -> (forall gid, gid ∈ gids -> is_Some (Groups cfg !! gid)) ->
  (size (Groups cfg) <= NShards)%nat ->
  exists ts' cfg', leaveGroups ts gids = Ret (ts', true) /\ ready ts' cfg' /\
    (forall g, Groups cfg' !! g = if decide (g ∈ gids) then None else Groups cfg !! g) /\
    (forall g, g ∈ gids -> lookupGroup (st_cfg ts') g = None) /\
    (forall g, g ∉ gids -> lookupGroup (st_cfg ts) g = None -> lookupGroup (st_cfg ts') g = None) /\
    Num cfg' = wrap64 (Num cfg + Z.of_nat (length gids)).
Proof.
  induction gids as [|gid gids IH]; intros ts cfg Hr Hnd Hin Hsz.
  - exists ts, cfg. split; [done|]. split; [done|]. split; [done|]. split; [by intros g ?%elem_of_nil|].
    split; [done|]. simpl. rewrite Z.add_0_r, wrap64_id by apply Hr. done.
  - apply NoDup_cons in Hnd as [Hni Hnd].
    destruct (leaveGroups_step ts cfg gid gids Hr) as (ts1 & cfg1 & -> & Hr1 & Hg1 & Hn1 & Hl1 & Ho1);
      [apply Hin, list_elem_of_here|done|].
    destruct (IH ts1 cfg1 Hr1 Hnd) as (ts' & cfg' & Hj & Hr' & Hg' & Hl' & Ho' & Hn').
    { intros g Hg. rewrite Hg1, lookup_delete_ne by (by intros ->). by apply Hin, list_elem_of_further. }
    { rewrite Hg1. etrans; [apply map_subseteq_size, delete_subseteq|done]. }
    exists ts', cfg'. split; [done|]. split; [done|]. split; [|split; [|split]].
    + intros g. rewrite Hg', Hg1. destruct (decide (gid = g)) as [<-|Hne].
      * rewrite (decide_True (P := gid ∈ gid :: gids)) by apply list_elem_of_here.
        rewrite decide_False by done. apply lookup_delete_eq.
      * rewrite lookup_delete_ne by done. destruct (decide (g ∈ gids)) as [Hgin|Hnin].
        -- by rewrite decide_True by (by apply list_elem_of_further).
        -- rewrite decide_False; [done|]. intros [->|?]%elem_of_cons; done.
    + intros g [->|Hg]%elem_of_cons; [by apply Ho'|by apply Hl'].
    + intros g Hg Hnone. apply not_elem_of_cons in Hg as [Hne Hg]. apply Ho'; [done|]. by apply Ho1.
    + rewrite Hn', Hn1, wrap64_add. simpl. f_equal. lia.
Qed.

(** [setupKVService] on a configuration that has no controller state yet. *)
Lemma setupKVService_ok ts clerks :
  cf_clerks (st_cfg ts) = Some clerks -> current (st_ctl ts) = None ->
  names_below Randstring (cf_net (st_cfg ts)) (cf_names (st_cfg ts)) ->
  exists ts' cfg, setupKVService Randstring ts = Ret (ts', Gid1) /\ ready ts' cfg /\
    Groups cfg = {[Gid1 := group_srvs Gid1]} /\ Num cfg = 1 /\
    (forall s g, Shards cfg !! s = Some g -> g = Gid1) /\
    (forall g, g <> Gid1 -> lookupGroup (st_cfg ts') g = None <-> lookupGroup (st_cfg ts) g = None).
Proof.
  intros Hcl Hcur Hn. unfold setupKVService, makeShardCtrlerClnt, MakeClient, MakeClientTo. rewrite Hcl. step_bind.
  unfold start_group. cbn [set_cfg st_cfg].
  match goal with |- context [MakeGroupStart Randstring ?c Gid1 NSRV] =>
    destruct (MakeGroupStart_ok Randstring c Gid1 NSRV Rand_inj Hn)
      as (c' & g & -> & Hlk & Hnb & (HN & _) & _ & _ & _ & Hother & (Hid & Hwf & Hsv) & Hle) end.
  step_bind. unfold grp_SrvNames. cbn [set_cfg st_cfg]. rewrite Hlk. step_bind.
  rewrite (group_up_SrvNames c' Gid1 g Hlk Hid HN).
  destruct (JoinBalance_one MakeShardConfig Gid1 (group_srvs Gid1)) as (cfg & Hj & Hg' & Hnum & Hgrp); [done..|].
  rewrite Hj. clear Hj. step_bind. cbn [set_cfg st_ctl].
  destruct (InitConfig_current (st_ctl ts) cfg Hcur) as (ctl & -> & Hc'). step_bind.
  change (Groups MakeShardConfig) with (∅ : gmap Z (list string)) in Hgrp.
  assert (Honly : forall g' srvs, Groups cfg !! g' = Some srvs -> g' = Gid1 /\ srvs = group_srvs Gid1).
  { intros g' srvs Hl. rewrite Hgrp in Hl. destruct (decide (Gid1 = g')) as [He|He].
    - rewrite <- He, lookup_insert_eq in Hl. split; congruence.
    - rewrite lookup_insert_ne, lookup_empty in Hl by exact He. discriminate Hl. }
  eexists _, cfg. split; [done|]. split; [|split; [exact Hgrp|split; [exact Hnum|split]]].
  - split; cbn [set_ctl set_cfg st_ctl st_cfg].
    + exact Hc'.
    + exact Hg'.
    + rewrite Hnum. apply wrap64_range.
    + intros g' srvs Hl. destruct (Honly g' srvs Hl) as [-> ->]. by split.
    + intros g' [srvs Hl]. destruct (Honly g' srvs Hl) as [-> _].
      exists g. exact (conj Hlk (conj Hid (conj Hwf Hsv))).
    + exact Hnb.
  - intros s g' Hs. assert (Hne : Groups cfg <> ∅) by (rewrite Hgrp; apply insert_non_empty).
    destruct (cg_assigned _ Hg' Hne s g' Hs) as [srvs Hl]. by destruct (Honly g' srvs Hl).
  - intros g' Hne. unfold lookupGroup. cbn [set_ctl set_cfg st_ctl st_cfg]. rewrite Hother by done. simpl.
    by destruct (cf_grps (st_cfg ts) !! g').
Qed.
End Control.

(** C27: The harness and a controller that keeps its contract.  On a fresh store
    [setupKVService] gives all shards to group 1; then any groups, no more of them than
    there are shards, are joined one by one and any of them left one by one, and
    [joinGroups] and [leaveGroups] answer true.  The configuration has exactly the
    remaining groups with their servers and passes [CheckConfig], its number has counted
    every change, the remaining groups are up and the others are no longer known. *)
Theorem join_leave_spec {C} `{Sequential C} Randstring (ts : stest C) clerks gids gids' :
  (forall i j, Randstring i = Randstring j -> i = j) ->
  cf_clerks (st_cfg ts) = Some clerks -> current (st_ctl ts) = None ->
  names_below Randstring (cf_net (st_cfg ts)) (cf_names (st_cfg ts)) ->
  NoDup gids -> (forall gid, gid ∈ gids -> Gid1 < gid) -> (length gids < NShards)%nat ->
  NoDup gids' -> (forall gid, gid ∈ gids' -> gid ∈ gids) ->
  exists ts1 ts2 ts3 cfg,
    setupKVService Randstring ts = Ret (ts1, Gid1) /\ joinGroups Randstring ts1 gids = Ret (ts2, true) /\
    leaveGroups ts2 gids' = Ret (ts3, true) /\ current (st_ctl ts3) = Some cfg /\
    (forall g, Groups cfg !! g =
       if decide ((g = Gid1 \/ g ∈ gids) /\ g ∉ gids') then Some (group_srvs g) else None) /\
    (forall gs, NoDup gs -> (forall g, g ∈ gs <-> is_Some (Groups cfg !! g)) -> CheckConfig cfg gs = Ret tt) /\
    Num cfg = 1 + Z.of_nat (length gids) + Z.of_nat (length gids') /\
    (forall g, is_Some (Groups cfg !! g) -> group_up (st_cfg ts3) g) /\
    (forall g, g ∈ gids' -> lookupGroup (st_cfg ts3) g = None).
Proof.
  intros Hinj Hcl Hcur Hnb Hnd Hgt Hlen Hnd' Hsub.
  destruct (setupKVService_ok Randstring Hinj ts clerks Hcl Hcur Hnb) as (ts1 & cfg1 & Hs & Hr1 & Hg1 & Hn1 & _).
  assert (Hs1 : size (Groups cfg1) = 1%nat) by (rewrite Hg1; apply map_size_singleton).
  destruct (joinGroups_ok Randstring Hinj gids ts1 cfg1 Hr1 Hnd) as (ts2 & cfg2 & Hj & Hr2 & Hg2 & Hs2 & Hn2).
  { intros gid Hin. specialize (Hgt gid Hin). split; [unfold Gid1 in Hgt; lia|].
    rewrite Hg1, lookup_singleton_ne by lia. done. }
  { lia. }
  destruct (leaveGroups_ok Randstring gids' ts2 cfg2 Hr2 Hnd') as (ts3 & cfg3 & Hl & Hr3 & Hg3 & Hgone & _ & Hn3).
  { intros gid Hin%Hsub. rewrite Hg2, decide_True by done. by eexists. }
  { lia. }
  exists ts1, ts2, ts3, cfg3. split; [done|]. split; [done|]. split; [done|]. split; [apply Hr3|]. split; [|split; [|split; [|split]]].
  - intros g. rewrite Hg3, Hg2, Hg1. destruct (decide (g ∈ gids')) as [Hin|Hnin].
    + rewrite decide_False; [done|]. tauto.
    + destruct (decide (g ∈ gids)) as [Hin|Hnin'].
      * rewrite decide_True; [done|]. tauto.
      * destruct (decide (Gid1 = g)) as [<-|Hne].
        -- rewrite lookup_singleton_eq, decide_True; [done|]. tauto.
        -- rewrite lookup_singleton_ne, decide_False by (done || (intros [[->|?] ?]; done)). done.
  - intros gs. by apply (ready_check Randstring ts3).
  - pose proof (submseteq_length _ _ (NoDup_submseteq _ _ Hnd' Hsub)) as Hle. unfold NShards in Hlen.
    rewrite Hn3, Hn2, Hn1, wrap64_add, wrap64_id by (unfold int_min, int_max; lia). done.
  - apply (rd_up _ _ _ Hr3).
  - exact Hgone.
Qed.

(** [checkMember] asks whether the group has a shard.  Once there are as many groups as
    shards, one more group is started, joins, is in the current configuration, and
    [joinGroups] nevertheless answers false. *)
Theorem thirteenth_group {C} `{Sequential C} Randstring (ts : stest C) cfg gid gids :
  (forall i j, Randstring i = Randstring j -> i = j) ->
  ready Randstring ts cfg -> size (Groups cfg) = NShards -> Groups cfg !! gid = None -> 0 < gid ->
  exists ts' cfg', joinGroups Randstring ts (gid :: gids) = Ret (ts', false) /\
    current (st_ctl ts') = Some cfg' /\ Groups cfg' = <[gid := group_srvs gid]> (Groups cfg) /\
    Num cfg' = wrap64 (Num cfg + 1) /\ Shards cfg' = Shards cfg.
Proof.
  intros Hinj Hr Hsz Hnone Hpos.
  destruct (join_started Randstring Hinj ts cfg gid Hr Hnone Hpos) as (Hsh & ts1 & cfg' & -> & Hj & Hr1 & Hgrp & Hnum).
  destruct (JoinBalance_full cfg gid (group_srvs gid) (rd_good _ _ _ Hr) Hsz Hnone Hsh) as [Hj' Hni].
  rewrite Hj in Hj'. clear Hj. injection Hj' as ->.
  unfold checkMember. destruct (Query_current (st_ctl ts1)) as (ctl & -> & Hcur). step_bind.
  rewrite (rd_current _ _ _ Hr1). cbn [deref_cfg mbind outcome_bind].
  destruct (IsMember _ gid) eqn:Hm; [by apply IsMember_shards in Hm|].
  eexists _, _. split; [done|]. split; [|done]. simpl. by rewrite Hcur, (rd_current _ _ _ Hr1).
Qed.

(** The controller of the repository: [Query] answers nil, so that after a
    [setupKVService] that succeeds every [joinGroups] of some group, every
    [leaveGroups] and every [checkMember] ends the test with a nil dereference. *)
Theorem stub_controller_panics {C} Randstring (ts : stest C) clerks gid gids :
  (forall i j, Randstring i = Randstring j -> i = j) ->
  cf_clerks (st_cfg ts) = Some clerks ->
  names_below Randstring (cf_net (st_cfg ts)) (cf_names (st_cfg ts)) ->
  is_Ret (setupKVService (H := Stub.ctrler C) Randstring ts) = true /\
  joinGroups (H := Stub.ctrler C) Randstring ts (gid :: gids) = Panic /\
  leaveGroups (H := Stub.ctrler C) ts (gid :: gids) = Panic /\
  checkMember (H := Stub.ctrler C) ts gid = Panic.
Proof.
  intros Hinj Hcl Hn. split; [|split; [|done]].
  - unfold setupKVService, makeShardCtrlerClnt, MakeClient, MakeClientTo. rewrite Hcl. step_bind.
    unfold start_group. cbn [set_cfg st_cfg].
    match goal with |- context [MakeGroupStart Randstring ?c Gid1 NSRV] =>
      destruct (MakeGroupStart_ok Randstring c Gid1 NSRV Hinj Hn) as (c' & g & -> & Hlk & _) end.
    step_bind. unfold grp_SrvNames. cbn [set_cfg st_cfg]. rewrite Hlk. step_bind.
    destruct (JoinBalance_one MakeShardConfig Gid1 (SrvNames g)) as (cfg & -> & _); done.
  - cbn [joinGroups]. unfold start_group.
    destruct (MakeGroupStart_ok Randstring (st_cfg ts) gid NSRV Hinj Hn) as (c' & g & -> & Hlk & _).
    step_bind. unfold grp_SrvNames. cbn [set_cfg st_cfg]. by rewrite Hlk.
Qed.

(** A controller that keeps the configuration in one cell. *)
Module ShardDemo.
#[global] Instance cell : ShardCtrler (option ShardConfig) :=
  {| InitController c := Ret c; InitConfig _ cfg := Ret (Some cfg);
     ChangeConfigTo _ new := Ret (Some new); Query c := Ret (c, c) |}.

#[global] Instance cell_sequential : Sequential (option ShardConfig).
Proof.
  refine {| current c := c |}.
  - intros c. by exists c.
  - intros c cfg _. by exists (Some cfg).
  - intros c cfg new _ _. by exists (Some new).
Defined.

Definition ts : stest (option ShardConfig) := mkStest CfgDemo.empty None (Gid1 + 1).

Lemma gids_ok l : forallb (fun g => Gid1 <? g) l = true -> forall gid, gid ∈ l -> Gid1 < gid.
Proof.
  intros Hl gid Hin. rewrite forallb_forall in Hl. apply list_elem_of_In, Hl in Hin. by apply Z.ltb_lt.
Qed.
End ShardDemo.

Lemma join_leave_spec_witness :
  exists (ts3 : stest (option ShardConfig)) cfg, current (st_ctl ts3) = Some cfg /\ Num cfg = 4 /\
    Groups cfg !! 2 = Some (group_srvs 2) /\ Groups cfg !! 3 = None /\ lookupGroup (st_cfg ts3) 3 = None.
Proof.
  destruct (join_leave_spec TesterDemo.Randstring ShardDemo.ts ∅ [2; 3] [3])
    as (ts1 & ts2 & ts3 & cfg & _ & _ & _ & Hc & Hg & _ & Hn & _ & Hgone).
  - exact CfgDemo.Rand_inj.
  - reflexivity.
  - reflexivity.
  - exact CfgDemo.below.
  - apply (bool_decide_unpack _). vm_compute. exact I.
  - apply ShardDemo.gids_ok. reflexivity.
  - vm_compute. lia.
  - apply NoDup_singleton.
  - intros gid Hin. apply list_elem_of_further. exact Hin.
  - exists ts3, cfg. split; [exact Hc|]. split; [exact Hn|]. rewrite !Hg.
    rewrite decide_True by (split; [right; apply list_elem_of_here|]; intros Hin%list_elem_of_singleton; discriminate Hin).
    rewrite decide_False by (intros [_ Hin]; apply Hin, list_elem_of_here).
    split; [reflexivity|]. split; [reflexivity|]. apply Hgone, list_elem_of_here.
Defined.

Lemma thirteenth_group_witness :
  exists (ts ts' : stest (option ShardConfig)) cfg, joinGroups TesterDemo.Randstring ts [13] = Ret (ts', false) /\
    current (st_ctl ts') = Some cfg /\ Groups cfg !! 13 = Some (group_srvs 13).
Proof.
  destruct (setupKVService_ok TesterDemo.Randstring CfgDemo.Rand_inj ShardDemo.ts ∅)
    as (ts1 & cfg1 & _ & Hr1 & Hg1 & _); [reflexivity|reflexivity|exact CfgDemo.below|].
  assert (Hs1 : size (Groups cfg1) = 1%nat) by (rewrite Hg1; apply map_size_singleton).
  destruct (joinGroups_ok TesterDemo.Randstring CfgDemo.Rand_inj (Z.of_nat <$> seq 2 11) ts1 cfg1 Hr1)
    as (ts2 & cfg2 & _ & Hr2 & Hg2 & Hs2 & _).
  - apply (bool_decide_unpack _). vm_compute. exact I.
  - intros gid (i & -> & Hin%elem_of_seq)%list_elem_of_fmap. split; [lia|].
    rewrite Hg1, lookup_singleton_ne; [reflexivity|unfold Gid1; lia].
  - rewrite Hs1. vm_compute. lia.
  - destruct (thirteenth_group TesterDemo.Randstring ts2 cfg2 13 []) as (ts' & cfg' & Hj & Hc & Hg & _).
    + exact CfgDemo.Rand_inj.
    + exact Hr2.
    + rewrite Hs2, Hs1. reflexivity.
    + rewrite Hg2, Hg1. rewrite decide_False by (intros (i & ? & Hin%elem_of_seq)%list_elem_of_fmap; lia).
      rewrite lookup_singleton_ne; [reflexivity|discriminate].
    + reflexivity.
    + exists ts2, ts', cfg'. split; [exact Hj|]. split; [exact Hc|]. rewrite Hg. apply lookup_insert_eq.
Defined.

Lemma stub_controller_panics_witness :
  joinGroups (H := Stub.ctrler (option ShardConfig)) TesterDemo.Randstring ShardDemo.ts [2] = Panic.
Proof.
  apply (stub_controller_panics TesterDemo.Randstring ShardDemo.ts ∅ 2 [] CfgDemo.Rand_inj eq_refl CfgDemo.below).
Defined.
