(* ===== verification/TestLife.v ===== *)
(** The life of a test: making it around a configuration ([kvtest1/kvtest.go] and the
    [test.go] of the three key/value services), clerks that come and go through the
    interface [IClerkMaker], groups that are started, changed and left meanwhile, and the
    cleanup at the end.  No end of a client is made twice or deleted twice, whatever the
    test does. *)
From S2P Require Import Prelude.
From stdpp Require Import pretty.
From S2P Require Import Labrpc.
From S2P Require Import Tester.
From S2P Require Import TestCfg.
From S2P Require Import ShardCfg.
From S2P Require Import KvSrv.
From S2P Require Import KvModel.
From S2P Require Import Rsm.
From S2P Require Import ShardTest.
Open Scope Z_scope.

(** ** The interface [IClerkMaker] *)

(** [M] is the test that makes the clerks, without the configuration that it shares with
    the rest of the program. *)
Class ClerkMaker (M K : Type) := {
  mck_MakeClerk : M -> Config -> outcome (Config * K);
  mck_DeleteClerk : M -> Config -> K -> outcome Config
}.

(** The clients of a clerk, made one after the other. *)
Definition MakeClients (c : Config) (srvs : list (option (list string))) : outcome (Config * list nat) :=
  foldM (fun '(c, ids) s => '(c, id) ← MakeClientTo c s; Ret (c, ids ++ [id])) srvs (c, []).

(** What the cleanup relies on: a clerk is made of new clients only, and to delete it is
    to delete one of them. *)
Class ClerkMakerOk (M K : Type) `{ClerkMaker M K} := {
  clients : K -> list nat;
  make_clients m c c' k : mck_MakeClerk m c = Ret (c', k) -> exists srvs, MakeClients c srvs = Ret (c', clients k);
  delete_client m c k : exists id, id ∈ clients k /\ mck_DeleteClerk m c k = DeleteClient c id
}.

(** ** [kvtest.Test] *)

Record Test (M : Type) := mkTest {
  ts_Config : Config; ts_oplog : list Operation; ts_mck : M; ts_randomkeys : bool
}.
Arguments mkTest {M}.
Arguments ts_Config {M}.
Arguments ts_oplog {M}.
Arguments ts_mck {M}.
Arguments ts_randomkeys {M}.

Definition MakeTest {M} (cfg : Config) (randomkeys : bool) (mck : M) : Test M := mkTest cfg [] mck randomkeys.

Definition set_Config {M} (ts : Test M) (cfg : Config) : Test M :=
  mkTest cfg (ts_oplog ts) (ts_mck ts) (ts_randomkeys ts).

Definition Test_MakeClerk {M K} `{ClerkMaker M K} (ts : Test M) : outcome (Test M * K) :=
  '(cfg, ck) ← mck_MakeClerk (ts_mck ts) (ts_Config ts); Ret (set_Config ts cfg, ck).

(** [End] and [Cleanup] read the clock one after the other. *)
Definition Test_Cleanup {M} (ts : Test M) (now now' : Z) : outcome (Test M) :=
  _ ← End_ (ts_Config ts) now;
  cfg ← Cleanup (ts_Config ts) now';
  Ret (set_Config ts cfg).

(** [raft1/test.go]: [finished] is set first, and looked at by [checkFinished]. *)
Definition raft_cleanup (c : Config) (now now' now'' : Z) : outcome (Config * Z) :=
  let finished := 1 in
  _ ← End_ c now;
  c ← Cleanup c now';
  c ← CheckTimeout c now'';
  Ret (c, finished).
Definition checkFinished (z : Z) : bool := negb (z =? 0).

Definition Config_ConnectAll (c : Config) (id : nat) : outcome Config :=
  clnt ← at_ (cf_clnts c) id;
  let '(net, clnt') := Clnt_ConnectAll (cf_net c) clnt in
  Ret (set_clnts (set_net c net) (<[id := clnt']> (cf_clnts c)) (cf_clerks c)).
Definition ConnectClnts {M} (ts : Test M) (clnts : list nat) : outcome (Test M) :=
  cfg ← foldM Config_ConnectAll clnts (ts_Config ts); Ret (set_Config ts cfg).

(** The goroutine [Partitioner]: the random numbers of its rounds until it is told to end. *)
Definition Partitioner {M} (ts : Test M) (gid : Z) (rounds : list (list Z)) : outcome (Test M) :=
  cfg ← foldM (fun cfg draws => Partitioner_round cfg gid draws) rounds (ts_Config ts); Ret (set_Config ts cfg).

(** ** The three tests of key/value services *)

(** [kvsrv1/test.go]: the test has [reliable] of its own. *)
#[export] Instance kvsrv_maker : ClerkMaker bool (nat * string) := {|
  mck_MakeClerk _ := TestKV_MakeClerk;
  mck_DeleteClerk _ := TestKV_DeleteClerk
|}.
Definition kvsrv_MakeTest (Randstring : nat -> string) (reliable : bool) (now : Z) : outcome (Test bool) :=
  cfg ← MakeTestKV Randstring reliable now; Ret (MakeTest cfg false reliable).

#[export] Instance kvsrv_maker_ok : ClerkMakerOk bool (nat * string).
Proof.
  refine {| clients ck := [ck.1] |}.
  - intros m c c' k Hm. exists [None]. unfold MakeClients. cbn [foldM].
    unfold mck_MakeClerk, kvsrv_maker, TestKV_MakeClerk, MakeClient in Hm.
    apply outcome_bind_inv in Hm as ([c1 id] & -> & [= <- <-]). done.
  - intros m c k. exists k.1. split; [by left|done].
Defined.

(** [kvraft1/test.go]. *)
Module KvRaftTest.
Record Fields := mkFields {
  part : string; nclients : Z; nservers : nat; crash : bool; partitions : bool; maxraftstate : Z; randomkeys : bool
}.

#[export] Instance maker : ClerkMaker Fields KvRaft.Clerk := {|
  mck_MakeClerk _ := KvRaft.Test_MakeClerk;
  mck_DeleteClerk _ := KvRaft.Test_DeleteClerk
|}.

(** The title is what [Begin] prints. *)
Definition title (m : Fields) : string :=
  KvRaft.makeTitle (crash m) (partitions m) (maxraftstate m) (randomkeys m) (nclients m) (part m).
Definition MakeTest (Randstring : nat -> string) (m : Fields) (reliable : bool) (now now' : Z)
  : outcome (Test Fields * string) :=
  cfg ← MakeConfig Randstring (nservers m) reliable now;
  Ret (MakeTest (Begin cfg now') (randomkeys m) m, title m).

Definition cleanup (ts : Test Fields) (now now' : Z) : outcome (Test Fields) := Test_Cleanup ts now now'.

#[export] Instance maker_ok : ClerkMakerOk Fields KvRaft.Clerk.
Proof.
  refine {| clients ck := [KvRaft.ck_clnt ck] |}.
  - intros m c c' k Hm. exists [None]. unfold MakeClients. cbn [foldM].
    unfold mck_MakeClerk, maker, KvRaft.Test_MakeClerk, MakeClient in Hm.
    apply outcome_bind_inv in Hm as ([c1 id] & -> & (g & _ & [= <- <-])%outcome_bind_inv). done.
  - intros m c k. eexists. split; [by left|done].
Defined.
End KvRaftTest.

(** [shardkv1/test.go]. *)
Module ShardKvTest.
Section Make.
Context {C : Type}.

(** [struct Test] with the configuration, what the controllers share and [ngid]. *)
Record STest := mkSTest {
  sh_test : stest C; sh_part : string; sh_partition : bool; sh_maxraftstate : Z
}.

(** [ctl] is the store of group 0 as it is when the test starts. *)
Definition MakeTestMaxRaft (Randstring : nat -> string) (ctl : C) (part : string) (reliable partition : bool)
    (maxraftstate now now' : Z) : outcome STest :=
  cfg ← MakeConfig Randstring 1 reliable now;
  Ret (mkSTest (mkStest (Begin cfg now') ctl (wrap64 (Gid1 + 1))) part partition maxraftstate).
Definition MakeTest (Randstring : nat -> string) (ctl : C) (part : string) (reliable : bool) (now now' : Z) :=
  MakeTestMaxRaft Randstring ctl part reliable false (-1) now now'.
Definition MakeTestLeases (Randstring : nat -> string) (ctl : C) (part : string) (reliable : bool) (now now' : Z) :=
  MakeTestMaxRaft Randstring ctl part reliable true (-1) now now'.
End Make.
Arguments STest : clear implicits.

(** A clerk has a client and a controller, which has a client of its own. *)
Record Clerk := mkClerk { ck_Clnt : nat; ck_sck : nat }.
Definition makeShardCtrler (c : Config) : outcome (Config * nat) := MakeClient c.
Definition MakeClerk (c : Config) : outcome (Config * Clerk) :=
  '(c, clnt) ← MakeClient c; '(c, sck) ← makeShardCtrler c; Ret (c, mkClerk clnt sck).
Definition DeleteClerk (c : Config) (ck : Clerk) : outcome Config := DeleteClient c (ck_Clnt ck).
(** A clerk of the controllers' group. *)
Definition makeKVClerk (c : Config) : outcome (Config * (nat * string)) :=
  let srv := ServerName GRP0 0 in '(c, clnt) ← MakeClient c; Ret (c, (clnt, srv)).

#[export] Instance maker {C} : ClerkMaker (STest C) Clerk := {|
  mck_MakeClerk _ := MakeClerk;
  mck_DeleteClerk _ := DeleteClerk
|}.

#[export] Instance maker_ok {C} : ClerkMakerOk (STest C) Clerk.
Proof.
  refine {| clients ck := [ck_Clnt ck; ck_sck ck] |}.
  - intros m c c' k Hm. exists [None; None]. unfold MakeClients. cbn [foldM].
    unfold mck_MakeClerk, maker, MakeClerk, makeShardCtrler, MakeClient in Hm.
    apply outcome_bind_inv in Hm as ([c1 id] & -> & ([c2 id2] & E & [= <- <-])%outcome_bind_inv).
    simpl. by rewrite E.
  - intros m c k. eexists. split; [by left|done].
Defined.
End ShardKvTest.

(** ** What a test does meanwhile *)

Inductive group_op :=
| GStartServer (i : nat) | GShutdownServer (i : nat) | GStartServers | GShutdown
| GConnectOne (i : nat) | GConnectAll | GDisconnectAll (i : nat) | GPartition (p1 p2 : list nat).

Inductive clnt_op := CConnectAll | CConnectTo (srvs : option (list string)) | CDisconnect (srv : string) | CDisconnectAll.

(** [LEnd] is what a [Call] of a client does before it sends: its end for the server. *)
Inductive life_op (K : Type) :=
| LMakeClerk
| LDeleteClerk (k : K)
| LMakeClient (srvs : option (list string))
| LDeleteClient (id : nat)
| LEnd (id : nat) (server : string)
| LClnt (id : nat) (op : clnt_op)
| LMakeGroupStart (gid : Z) (n : nat)
| LExitGroup (gid : Z)
| LGroup (gid : Z) (op : group_op)
| LReliable (b : bool)
| LOp.
Arguments LMakeClerk {K}.
Arguments LDeleteClerk {K}.
Arguments LMakeClient {K}.
Arguments LDeleteClient {K}.
Arguments LEnd {K}.
Arguments LClnt {K}.
Arguments LMakeGroupStart {K}.
Arguments LExitGroup {K}.
Arguments LGroup {K}.
Arguments LReliable {K}.
Arguments LOp {K}.

Definition Clnt_op (net : Network) (clnt : Clnt) (op : clnt_op) : Network * Clnt :=
  match op with
  | CConnectAll => Clnt_ConnectAll net clnt
  | CConnectTo srvs => Clnt_ConnectTo net clnt srvs
  | CDisconnect srv => (Clnt_Disconnect net clnt srv, clnt)
  | CDisconnectAll => Clnt_DisconnectAll net clnt
  end.

Section Life.
Variable Randstring : nat -> string.

Definition run_group_op (g : group) (op : group_op) : outcome group :=
  match op with
  | GStartServer i => StartServer Randstring g i
  | GShutdownServer i => ShutdownServer g i
  | GStartServers => StartServers Randstring g
  | GShutdown => Shutdown g
  | GConnectOne i => ConnectOne g i
  | GConnectAll => ConnectAll g
  | GDisconnectAll i => DisconnectAll g i
  | GPartition p1 p2 => Partition g p1 p2
  end.

Definition life_step {M K} `{ClerkMaker M K} (m : M) (c : Config) (op : life_op K) : outcome Config :=
  match op with
  | LMakeClerk => '(c, _) ← mck_MakeClerk m c; Ret c
  | LDeleteClerk k => mck_DeleteClerk m c k
  | LMakeClient srvs => '(c, _) ← MakeClientTo c srvs; Ret c
  | LDeleteClient id => DeleteClient c id
  | LEnd id server => '(c, _) ← client_end Randstring c id server; Ret c
  | LClnt id op =>
      clnt ← at_ (cf_clnts c) id;
      let '(net, clnt') := Clnt_op (cf_net c) clnt op in
      Ret (set_clnts (set_net c net) (<[id := clnt']> (cf_clnts c)) (cf_clerks c))
  | LMakeGroupStart gid n => MakeGroupStart Randstring c gid n
  | LExitGroup gid => ExitGroup c gid
  | LGroup gid op => on_group c gid (fun g => run_group_op g op)
  | LReliable b => Ret (SetReliable c b)
  | LOp => Ret (Op c)
  end.

Definition life_run {M K} `{ClerkMaker M K} (m : M) (c : Config) (ops : list (life_op K)) : outcome Config :=
  foldM (life_step m) ops c.

(** ** Groups only add ends *)

Hypothesis Rand_inj : forall i j, Randstring i = Randstring j -> i = j.

Record grp_grows (g g' : group) : Prop := {
  gr_ends : rn_ends (g_net g) ⊆ rn_ends (g_net g');
  gr_names : (g_names g <= g_names g')%nat;
  gr_below : names_below Randstring (g_net g) (g_names g) -> names_below Randstring (g_net g') (g_names g')
}.

Lemma grp_grows_refl g : grp_grows g g.
Proof. by split. Qed.

Lemma grp_grows_trans g1 g2 g3 : grp_grows g1 g2 -> grp_grows g2 g3 -> grp_grows g1 g3.
Proof.
  intros [A1 A2 A3] [B1 B2 B3]. split; [set_solver|lia|]. intros H. by apply B3, A3.
Qed.

(** The ends are the same. *)
Lemma grows_same g g' : rn_ends (g_net g') = rn_ends (g_net g) -> g_names g' = g_names g -> grp_grows g g'.
Proof. intros He Hn. split; [by rewrite He|lia|]. unfold names_below. by rewrite He, Hn. Qed.

Lemma grows_frame g g' : frame g g' -> grp_grows g g'.
Proof. intros F. apply grows_same; apply F. Qed.

Lemma connect_grows g i to g' : connect g i to = Ret g' -> grp_grows g g'.
Proof. intros H. by eapply grows_frame, connect_frame. Qed.

Lemma disconnect_grows g i from g' : disconnect g i from = Ret g' -> grp_grows g g'.
Proof. intros H. by eapply grows_frame, disconnect_frame. Qed.

Lemma grows_foldM {A} (f : group -> A -> outcome group) l g g' :
  (forall g a g', f g a = Ret g' -> grp_grows g g') -> foldM f l g = Ret g' -> grp_grows g g'.
Proof. intros Hf. apply foldM_rel; [apply grp_grows_refl|apply grp_grows_trans|apply Hf]. Qed.

Lemma makeServer_grows g gid n g' s : makeServer Randstring g gid n = Ret (g', s) -> grp_grows g g'.
Proof.
  unfold makeServer, makeServer_loop. intros ([g1 names] & H & [= -> _])%outcome_bind_inv. revert H.
  apply (foldM_rel (fun a b => grp_grows a.1 b.1)); [intros; apply grp_grows_refl|intros; by eapply grp_grows_trans|].
  intros [g2 ns] j [g3 ns'] (net & He & [= <- <-])%outcome_bind_inv. unfold MakeEnd in He.
  destruct (decide _) as [?|Hn]; [done|]. injection He as <-. split; simpl; [set_solver|lia|].
  intros Hb e [->%elem_of_singleton|He]%elem_of_union; [by exists (g_names g2); split; [lia|]|].
  destruct (Hb e He) as (k & Hk & ->). exists k. split; [lia|done].
Qed.

Lemma StartServer_grows g i g' : StartServer Randstring g i = Ret g' -> grp_grows g g'.
Proof.
  unfold StartServer, startServer. intros (s & _ & ([g1 srv] & H & [= <-])%outcome_bind_inv)%outcome_bind_inv.
  apply outcome_bind_inv in H as ([g2 srv2] & H & (ps & _ & [= <- _])%outcome_bind_inv).
  apply makeServer_grows in H. destruct H as [H1 H2 H3]. by split.
Qed.

Lemma ShutdownServer_grows g i g' : ShutdownServer g i = Ret g' -> grp_grows g g'.
Proof.
  unfold ShutdownServer. intros (g1 & H & (s & _ & ([g2 s2] & Hs & [= <-])%outcome_bind_inv)%outcome_bind_inv)%outcome_bind_inv.
  eapply grp_grows_trans; [by eapply disconnect_grows|]. unfold shutdownServer in Hs. destruct (ts_saved s).
  - apply outcome_bind_inv in Hs as (old & _ & [= <- _]). by apply grows_same.
  - injection Hs as <- _. by apply grows_same.
Qed.

Lemma run_group_op_grows g op g' : run_group_op g op = Ret g' -> grp_grows g g'.
Proof.
  assert (Hone : forall g i g', ConnectOne g i = Ret g' -> grp_grows g g') by (intros ? ? ?; apply connect_grows).
  assert (Hall : forall g g', ConnectAll g = Ret g' -> grp_grows g g') by (intros ? ?; by apply grows_foldM).
  destruct op as [i|i| | |i| |i|p1 p2]; simpl.
  - apply StartServer_grows.
  - apply ShutdownServer_grows.
  - unfold StartServers. intros (g1 & H & Hc)%outcome_bind_inv. eapply grp_grows_trans; [|by apply Hall].
    revert H. apply grows_foldM. apply StartServer_grows.
  - apply grows_foldM. apply ShutdownServer_grows.
  - apply Hone.
  - apply Hall.
  - apply disconnect_grows.
  - unfold Partition. intros (g1 & H1 & H2)%outcome_bind_inv. apply (grp_grows_trans _ g1).
    + revert H1. apply grows_foldM. intros g2 i g3 (g4 & Hd & Hc)%outcome_bind_inv.
      eapply grp_grows_trans; [by eapply disconnect_grows|by eapply connect_grows].
    + revert H2. apply grows_foldM. intros g2 i g3 (g4 & Hd & Hc)%outcome_bind_inv.
      eapply grp_grows_trans; [by eapply disconnect_grows|by eapply connect_grows].
Qed.

(** ** The invariant *)

Definition end_of (c : Config) (id : nat) (srv e : string) : Prop :=
  exists clnt, cf_clnts c !! id = Some clnt /\ cl_ends clnt !! srv = Some e.

(** No two ends of clients have one name, the ends of a client that is not deleted are in
    the network, and new names are new. *)
Record life_ok (c : Config) : Prop := {
  lo_names : names_below Randstring (cf_net c) (cf_names c);
  lo_drawn id srv e : end_of c id srv e -> exists j, (j < cf_names c)%nat /\ e = Randstring j;
  lo_inj id srv id' srv' e : end_of c id srv e -> end_of c id' srv' e -> id = id' /\ srv = srv';
  lo_clerks clerks id : cf_clerks c = Some clerks -> id ∈ clerks -> (id < length (cf_clnts c))%nat;
  lo_live clerks id srv e : cf_clerks c = Some clerks -> id ∈ clerks -> end_of c id srv e -> e ∈ rn_ends (cf_net c)
}.

(** The clients are the same and the network has grown. *)
Lemma life_ok_grows c c' :
  life_ok c -> cf_clnts c' = cf_clnts c -> cf_clerks c' = cf_clerks c ->
  rn_ends (cf_net c) ⊆ rn_ends (cf_net c') -> (cf_names c <= cf_names c')%nat ->
  names_below Randstring (cf_net c') (cf_names c') -> life_ok c'.
Proof.
  intros [H1 H2 H3 H4 H5] Hc Hk He Hn Hb.
  assert (Hend : forall id srv e, end_of c' id srv e -> end_of c id srv e) by (unfold end_of; by rewrite Hc).
  split; [done|..].
  - intros id srv e H%Hend. destruct (H2 id srv e H) as (j & Hj & ->). exists j. split; [lia|done].
  - intros id srv id' srv' e A%Hend B%Hend. by eapply H3.
  - intros clerks id. rewrite Hk, Hc. apply H4.
  - intros clerks id srv e Hcl Hin H%Hend. apply He. rewrite Hk in Hcl. by eapply H5.
Qed.

Lemma on_group_life c gid op c' :
  (forall g g', op g = Ret g' -> grp_grows g g') -> life_ok c -> on_group c gid op = Ret c' -> life_ok c'.
Proof.
  intros Hop Hok H. unfold on_group in H. destruct (lookupGroup c gid) as [g|] eqn:Hg; [|done].
  apply outcome_bind_inv in H as (g' & Hg' & [= <-]). apply Hop in Hg' as [G1 G2 G3].
  assert (Hn : g_net g = cf_net c /\ g_names g = cf_names c)
    by (unfold lookupGroup in Hg; destruct (cf_grps c !! gid); by simplify_eq/=). destruct Hn as [Hn1 Hn2].
  rewrite Hn1, Hn2 in *. apply (life_ok_grows c); try done. simpl. apply G3, Hok.
Qed.

Lemma MakeGroup_life c gid n c' : life_ok c -> MakeGroup Randstring c gid n = Ret c' -> life_ok c'.
Proof.
  intros Hok (g & Hg & [= <-])%outcome_bind_inv. unfold makeSrvGrp in Hg.
  apply (grows_foldM (fun g _ => '(g, s) ← makeServer Randstring g gid n; Ret (with_srvs g (g_srvs g ++ [s])))) in Hg.
  - destruct Hg as [G1 G2 G3]. apply (life_ok_grows c); try done. simpl. apply G3, Hok.
  - intros g1 a g2 ([g3 s] & Hs & [= <-])%outcome_bind_inv. apply makeServer_grows in Hs as [G1 G2 G3]. by split.
Qed.

(** ** Removing clients *)

Definition client_ends (c : Config) (id : nat) : gset string :=
  match cf_clnts c !! id with Some clnt => list_to_set (map_to_list (cl_ends clnt)).*2 | None => ∅ end.

Lemma elem_of_client_ends c id e : e ∈ client_ends c id <-> exists srv, end_of c id srv e.
Proof.
  unfold client_ends, end_of. destruct (cf_clnts c !! id) as [clnt|]; [|split; [set_solver|by intros (? & ? & ? & _)]].
  rewrite elem_of_list_to_set, list_elem_of_fmap. split.
  - intros ([srv e'] & -> & Hin). apply elem_of_map_to_list in Hin. by exists srv, clnt.
  - intros (srv & clnt' & [= <-] & Hs). exists (srv, e). by rewrite elem_of_map_to_list.
Qed.

Lemma delete_ends (l : list (string * string)) : forall net,
  NoDup l.*2 -> (forall e, e ∈ l.*2 -> e ∈ rn_ends net) ->
  exists net', foldM (fun net '(_, e) => DeleteEnd net e) l net = Ret net' /\
    rn_ends net' = rn_ends net ∖ list_to_set l.*2.
Proof.
  induction l as [|[srv e] l IH]; intros net Hnd Hin.
  - exists net. split; [done|]. simpl. set_solver.
  - rewrite fmap_cons in *. apply NoDup_cons in Hnd as [Hn Hnd]. cbn [foldM].
    assert (Hd : exists net1, DeleteEnd net e = Ret net1 /\ rn_ends net1 = rn_ends net ∖ {[e]}).
    { unfold DeleteEnd. rewrite decide_True by (apply Hin; by left). by eexists. }
    destruct Hd as (net1 & Hd & He1). rewrite Hd. step_bind. destruct (IH net1 Hnd) as (net' & E & He).
    { intros e' He'. rewrite He1. apply elem_of_difference. split; [apply Hin; by right|].
      intros ->%elem_of_singleton. by apply Hn. }
    exists net'. split; [exact E|]. rewrite He, He1. simpl. set_solver.
Qed.

(** The ends that a client still has in the network. *)
Definition attached (c : Config) (id : nat) : Prop :=
  (id < length (cf_clnts c))%nat /\ (forall srv e, end_of c id srv e -> e ∈ rn_ends (cf_net c)) /\
  (forall srv srv' e, end_of c id srv e -> end_of c id srv' e -> srv = srv').

Lemma remove_client_ok c id :
  attached c id -> exists net, remove_client c id = Ret (set_net c net) /\
    rn_ends net = rn_ends (cf_net c) ∖ client_ends c id.
Proof.
  intros ([clnt Hc]%lookup_lt_is_Some_2 & Hin & Hinj). unfold remove_client, client_ends.
  rewrite (at_Ret _ _ _ Hc), Hc. step_bind. unfold Clnt_remove.
  destruct (delete_ends (map_to_list (cl_ends clnt)) (cf_net c)) as (net & -> & He).
  - apply NoDup_fmap_2_strong; [|apply NoDup_map_to_list].
    intros [s1 e1] [s2 e2] H1%elem_of_map_to_list H2%elem_of_map_to_list He. simpl in *. subst e2.
    f_equal. apply (Hinj s1 s2 e1); by exists clnt.
  - intros e ([srv e'] & -> & H%elem_of_map_to_list)%list_elem_of_fmap. apply (Hin srv). by exists clnt.
  - by exists net.
Qed.

Lemma remove_clients_ok ids : forall c,
  NoDup ids -> (forall id, id ∈ ids -> attached c id) ->
  (forall id srv id' srv' e, end_of c id srv e -> end_of c id' srv' e -> id = id') ->
  exists net, foldM remove_client ids c = Ret (set_net c net) /\
    rn_ends net = rn_ends (cf_net c) ∖ ⋃ (client_ends c <$> ids).
Proof.
  induction ids as [|id ids IH]; intros c Hnd Hat Hinj.
  - exists (cf_net c). split; [by destruct c|]. simpl. set_solver.
  - apply NoDup_cons in Hnd as [Hni Hnd]. cbn [foldM].
    destruct (remove_client_ok c id) as (net & -> & He); [apply Hat; by left|]. step_bind.
    destruct (IH (set_net c net) Hnd) as (net' & E & He').
    + intros id' Hin. destruct (Hat id') as (A1 & A2 & A3); [by right|]. split; [done|]. split; [|done].
      intros srv e Hend. simpl. rewrite He. apply elem_of_difference. split; [by apply (A2 srv)|].
      rewrite elem_of_client_ends. intros [srv' Hend']. apply Hni.
      by rewrite (Hinj id srv' id' srv e).
    + exact Hinj.
    + exists net'. split; [exact E|]. rewrite He'. simpl. rewrite He.
      change (client_ends (set_net c net)) with (client_ends c). set_solver.
Qed.

Lemma live_attached c clerks id : life_ok c -> cf_clerks c = Some clerks -> id ∈ clerks -> attached c id.
Proof.
  intros [H1 H2 H3 H4 H5] Hc Hin. split; [by eapply H4|]. split; [intros srv e He; by eapply H5|].
  intros srv srv' e A B. by destruct (H3 _ _ _ _ _ A B).
Qed.

(** ** Every operation keeps the invariant *)

Lemma make_client_life c srvs c' id : life_ok c -> MakeClientTo c srvs = Ret (c', id) -> life_ok c'.
Proof.
  intros [H1 H2 H3 H4 H5] Hm. unfold MakeClientTo in Hm. destruct (cf_clerks c) as [clerks|] eqn:Hk; [|done].
  injection Hm as <- <-.
  assert (Hend : forall id srv e, end_of (set_clnts c (cf_clnts c ++ [makeClntTo srvs])
      (Some ({[length (cf_clnts c)]} ∪ clerks))) id srv e -> end_of c id srv e /\ (id < length (cf_clnts c))%nat).
  { intros id srv e (clnt & [Hl|[_ Hl]]%lookup_app_Some & He); [split; [by exists clnt|by eapply lookup_lt_Some]|].
    apply list_lookup_singleton_Some in Hl as [_ <-]. simpl in He; by rewrite lookup_empty in He. }
  split; simpl.
  - done.
  - intros id srv e [He _]%Hend. by eapply H2.
  - intros id srv id' srv' e [A _]%Hend [B _]%Hend. by eapply H3.
  - intros cl id [= <-] [->%elem_of_singleton|Hin]%elem_of_union; rewrite length_app; simpl; [lia|].
    specialize (H4 _ _ eq_refl Hin). lia.
  - intros cl id srv e [= <-] Hin [He Hlt]%Hend. apply elem_of_union in Hin as [->%elem_of_singleton|Hin]; [lia|].
    by eapply H5.
Qed.

Lemma delete_client_life c id c' : life_ok c -> DeleteClient c id = Ret c' -> life_ok c'.
Proof.
  intros Hok Hd. unfold DeleteClient in Hd. destruct (cf_clerks c) as [clerks|] eqn:Hk; [|by simplify_eq].
  destruct (decide (id ∈ clerks)) as [Hin|Hin]; [|by simplify_eq].
  destruct (remove_client_ok c id) as (net & Hr & He); [by eapply live_attached|].
  rewrite Hr in Hd. injection Hd as <-. destruct Hok as [H1 H2 H3 H4 H5]. split; simpl.
  - intros e Hin'. rewrite He in Hin'. apply H1. set_solver.
  - exact H2.
  - exact H3.
  - intros cl id' [= <-] Hin'. eapply H4; [done|]. set_solver.
  - intros cl id' srv e [= <-] Hin' Hend. rewrite He. apply elem_of_difference in Hin' as [Hin' Hne].
    apply elem_of_difference. split; [by eapply H5|]. rewrite elem_of_client_ends. intros [srv' Hend'].
    apply Hne, elem_of_singleton. by destruct (H3 _ _ _ _ _ Hend Hend').
Qed.

(** [makeEnd] never finds its name taken. *)
Lemma client_end_ok c id server :
  life_ok c -> (id < length (cf_clnts c))%nat -> is_Ret (client_end Randstring c id server) = true.
Proof.
  intros [H1 _ _ _ _] [clnt Hc]%lookup_lt_is_Some_2. unfold client_end. rewrite (at_Ret _ _ _ Hc). step_bind.
  unfold Clnt_makeEnd. destruct (cl_ends clnt !! server) as [e|]; [done|].
  rewrite MakeEnd_fresh; [done|]. intros (j & Hj & He)%H1. apply Rand_inj in He. lia.
Qed.

Lemma client_end_life c id server c' e : life_ok c -> client_end Randstring c id server = Ret (c', e) -> life_ok c'.
Proof.
  intros Hok Hm. pose proof Hok as [H1 H2 H3 H4 H5]. unfold client_end in Hm.
  apply outcome_bind_inv in Hm as (clnt & Hat & Hm). unfold at_ in Hat.
  destruct (cf_clnts c !! id) as [clnt'|] eqn:Hc; [|done]. injection Hat as ->.
  unfold Clnt_makeEnd in Hm. destruct (cl_ends clnt !! server) as [e0|] eqn:He.
  - simpl in Hm. injection Hm as <- <-. rewrite list_insert_id by done. by apply (life_ok_grows c).
  - assert (Hfresh : Randstring (cf_names c) ∉ rn_ends (cf_net c)).
    { intros (j & Hj & Hr)%H1. apply Rand_inj in Hr. lia. }
    rewrite MakeEnd_fresh in Hm by done. simpl in Hm. injection Hm as <- <-.
    set (x := Randstring (cf_names c)) in *. match goal with |- life_ok ?c2 => set (c' := c2) end.
    assert (Hlt : (id < length (cf_clnts c))%nat) by (by eapply lookup_lt_Some).
    assert (Hend : forall id' srv e, end_of c' id' srv e -> end_of c id' srv e \/ (id' = id /\ srv = server /\ e = x)).
    { intros id' srv e (cl & Hcl & Hse). unfold c' in Hcl. simpl in Hcl.
      apply list_lookup_insert_Some in Hcl as [(<- & <- & _)|(Hne & Hcl)]; [|left; by exists cl].
      simpl in Hse. apply lookup_insert_Some in Hse as [[<- <-]|[_ Hse]]; [by right|]. left. by exists clnt. }
    assert (Hold : forall id' srv, end_of c id' srv x -> False).
    { intros id' srv (j & Hj & Hr)%H2. apply Rand_inj in Hr. lia. }
    assert (Hends : rn_ends (cf_net c') = {[x]} ∪ rn_ends (cf_net c)) by (unfold c'; simpl; by case_match).
    split.
    + intros e. rewrite Hends. intros [->%elem_of_singleton|Hin]%elem_of_union; [by exists (cf_names c); split; [unfold c'; simpl; lia|]|].
      destruct (H1 e Hin) as (j & Hj & ->). exists j. split; [unfold c'; simpl; lia|done].
    + intros id' srv e [Hin|(_ & _ & ->)]%Hend; [|exists (cf_names c); split; [unfold c'; simpl; lia|done]].
      destruct (H2 _ _ _ Hin) as (j & Hj & ->). exists j. split; [unfold c'; simpl; lia|done].
    + intros i1 s1 i2 s2 e A B. destruct (Hend _ _ _ A) as [A'|(-> & -> & ->)], (Hend _ _ _ B) as [B'|(-> & -> & Hx)];
        try subst e; try done; try (by exfalso; eapply Hold). by eapply H3.
    + intros cl i Hcl Hin. unfold c' in *. simpl in *. rewrite length_insert. by eapply H4.
    + intros cl i srv e Hcl Hin [Hi|(-> & -> & ->)]%Hend; rewrite Hends; [|set_solver].
      apply elem_of_union. right. by eapply H5.
Qed.

Lemma set_ends_ends net clnt f v : rn_ends (set_ends net clnt f v) = rn_ends net.
Proof.
  unfold set_ends. generalize (map_to_list (cl_ends clnt)). intros l. revert net.
  induction l as [|[srv e] l IH]; intros net; [done|]. simpl. rewrite IH. by case_match.
Qed.

Lemma Clnt_op_ends net clnt op net' clnt' :
  Clnt_op net clnt op = (net', clnt') -> rn_ends net' = rn_ends net /\ cl_ends clnt' = cl_ends clnt.
Proof.
  destruct op; simpl; intros H; injection H as <- <-; (split; [apply set_ends_ends|done]).
Qed.

Lemma clnt_op_life c id op c' :
  life_ok c ->
  (clnt ← at_ (cf_clnts c) id;
   let '(net, clnt') := Clnt_op (cf_net c) clnt op in
   Ret (set_clnts (set_net c net) (<[id := clnt']> (cf_clnts c)) (cf_clerks c))) = Ret c' -> life_ok c'.
Proof.
  intros [H1 H2 H3 H4 H5] (clnt & Hat & Hm)%outcome_bind_inv. unfold at_ in Hat.
  destruct (cf_clnts c !! id) as [cl0|] eqn:Hc; [|done]. injection Hat as ->.
  destruct (Clnt_op (cf_net c) clnt op) as [net clnt'] eqn:Eop. injection Hm as <-.
  apply Clnt_op_ends in Eop as [He Hcl].
  assert (Hend : forall id' srv e, end_of (set_clnts (set_net c net) (<[id := clnt']> (cf_clnts c)) (cf_clerks c)) id' srv e ->
    end_of c id' srv e).
  { intros id' srv e (cl & Hl & Hs). simpl in Hl. apply list_lookup_insert_Some in Hl as [(<- & <- & _)|(Hne & Hl)]; [|by exists cl].
    exists clnt. split; [done|]. by rewrite <- Hcl. }
  split; simpl.
  - unfold names_below. by rewrite He.
  - intros id' srv e Hin%Hend. by eapply H2.
  - intros i1 s1 i2 s2 e A%Hend B%Hend. by eapply H3.
  - intros cl i Hk Hin. rewrite length_insert. by eapply H4.
  - intros cl i srv e Hk Hin Hi%Hend. rewrite He. by eapply H5.
Qed.

Lemma MakeClients_life srvs : forall c ids c' ids',
  life_ok c -> foldM (fun '(c, ids) s => '(c, id) ← MakeClientTo c s; Ret (c, ids ++ [id])) srvs (c, ids) = Ret (c', ids') ->
  life_ok c'.
Proof.
  induction srvs as [|s srvs IH]; intros c ids c' ids' Hok H; [by injection H as <- <-|].
  cbn [foldM] in H. apply outcome_bind_inv in H as ([c1 i1] & H1 & H2).
  apply outcome_bind_inv in H1 as ([c2 id2] & Hm & [= <- <-]). eapply IH; [|exact H2]. by eapply make_client_life.
Qed.

Lemma life_step_ok {M K} `{ClerkMakerOk M K} (m : M) c (op : life_op K) c' :
  life_ok c -> life_step m c op = Ret c' -> life_ok c'.
Proof.
  intros Hok. destruct op as [|k|srvs|id|id server|id op|gid n|gid|gid op|b|]; simpl.
  - intros ([c1 k] & (srvs & Hm)%make_clients & [= <-])%outcome_bind_inv. by eapply MakeClients_life.
  - destruct (delete_client m c k) as (id & _ & ->). by apply delete_client_life.
  - intros ([c1 id] & Hm & [= <-])%outcome_bind_inv. by eapply make_client_life.
  - by apply delete_client_life.
  - intros ([c1 e] & Hm & [= <-])%outcome_bind_inv. by eapply client_end_life.
  - by apply clnt_op_life.
  - intros (c1 & Hm & Hs)%outcome_bind_inv. eapply (on_group_life c1); [|by eapply MakeGroup_life|exact Hs].
    intros g g'. apply (run_group_op_grows g GStartServers).
  - intros (c1 & Hm & [= <-])%outcome_bind_inv.
    assert (H1 : life_ok c1) by (eapply on_group_life; [intros; by eapply (run_group_op_grows _ GShutdown)|done|exact Hm]).
    by apply (life_ok_grows c1); try done; apply H1.
  - apply on_group_life; [|done]. intros g g'. apply run_group_op_grows.
  - intros [= <-]. by apply (life_ok_grows c); try done; apply Hok.
  - intros [= <-]. by apply (life_ok_grows c); try done; apply Hok.
Qed.

Lemma life_run_ok {M K} `{ClerkMakerOk M K} (m : M) ops : forall c c', life_ok c -> life_run m c ops = Ret c' -> life_ok c'.
Proof.
  induction ops as [|op ops IH]; intros c c' Hok Hr; [by injection Hr as <-|].
  unfold life_run in Hr. cbn [foldM] in Hr. apply outcome_bind_inv in Hr as (c1 & Hs & Hr).
  eapply IH; [|exact Hr]. by eapply life_step_ok.
Qed.

(** A configuration without clients. *)
Lemma life_ok_no_clients c :
  names_below Randstring (cf_net c) (cf_names c) -> cf_clnts c = [] -> cf_clerks c = None \/ cf_clerks c = makeClnts ->
  life_ok c.
Proof.
  intros Hb Hc Hk. assert (Hno : forall id srv e, ~ end_of c id srv e).
  { intros id srv e (cl & Hl & _). by rewrite Hc in Hl. }
  split; [done|..].
  - by intros id srv e ?%Hno.
  - by intros id srv id' srv' e ?%Hno.
  - intros cl id Hcl Hin. destruct Hk as [Hk|Hk]; rewrite Hk in Hcl; [done|]. injection Hcl as <-. by apply not_elem_of_empty in Hin.
  - by intros cl id srv e _ _ ?%Hno.
Qed.

Lemma life_ok_MakeConfig n reliable now :
  exists c, MakeConfig Randstring n reliable now = Ret c /\ life_ok c /\
    cf_killed c = [] /\ cf_closed c = false /\ cf_start c = now /\ cf_clerks c = makeClnts.
Proof.
  unfold MakeConfig. set (c0 := mkConfig _ _ _ _ _ _ _ _ _ _ _ _ _ _).
  assert (H0 : life_ok c0) by (apply life_ok_no_clients; [by intros e He|done|by left]).
  destruct (MakeGroupStart_ok Randstring c0 GRP0 n Rand_inj (lo_names _ H0)) as (c1 & g & Hg & _ & Hb & _).
  rewrite Hg. step_bind. eexists. split; [reflexivity|].
  assert (Hstat : cf_killed c1 = [] /\ cf_closed c1 = false /\ cf_clnts c1 = []).
  { apply outcome_bind_inv in Hg as (cg & (g1 & _ & [= <-])%outcome_bind_inv & Hs). unfold on_group in Hs.
    rewrite lookup_store in Hs. by apply outcome_bind_inv in Hs as (g2 & _ & [= <-]). }
  destruct Hstat as (Hk & Hcl & Hcn). split; [|by repeat split].
  apply life_ok_no_clients; simpl; [done|done|by right].
Qed.

(** ** What no operation changes *)

Record same_life (c c' : Config) : Prop := {
  sl_killed : cf_killed c' = cf_killed c;
  sl_closed : cf_closed c' = cf_closed c;
  sl_start : cf_start c' = cf_start c;
  sl_clerks : is_Some (cf_clerks c) -> is_Some (cf_clerks c')
}.

Lemma same_life_refl c : same_life c c.
Proof. by split. Qed.

Lemma same_life_trans c1 c2 c3 : same_life c1 c2 -> same_life c2 c3 -> same_life c1 c3.
Proof. intros [A1 A2 A3 A4] [B1 B2 B3 B4]. split; [congruence..|auto]. Qed.

Lemma on_group_same c gid op c' : on_group c gid op = Ret c' -> same_life c c'.
Proof.
  unfold on_group. destruct (lookupGroup c gid); [|done]. by intros (g' & _ & [= <-])%outcome_bind_inv.
Qed.

Lemma MakeClientTo_same c s c' id : MakeClientTo c s = Ret (c', id) -> same_life c c'.
Proof.
  unfold MakeClientTo. destruct (cf_clerks c) eqn:E; [|done]. by intros [= <- _].
Qed.

Lemma DeleteClient_same c id c' : DeleteClient c id = Ret c' -> same_life c c'.
Proof.
  unfold DeleteClient. destruct (cf_clerks c) eqn:E; [|intros [= <-]; apply same_life_refl].
  case_decide; [|intros [= <-]; apply same_life_refl].
  intros (c1 & (cl & _ & (net & _ & [= <-])%outcome_bind_inv)%outcome_bind_inv & [= <-])%outcome_bind_inv.
  by split.
Qed.

Lemma MakeClients_same srvs : forall c ids c' ids',
  foldM (fun '(c, ids) s => '(c, id) ← MakeClientTo c s; Ret (c, ids ++ [id])) srvs (c, ids) = Ret (c', ids') ->
  same_life c c'.
Proof.
  induction srvs as [|s srvs IH]; intros c ids c' ids' H; [injection H as <- _; apply same_life_refl|].
  cbn [foldM] in H. apply outcome_bind_inv in H as ([c1 i1] & H1 & H2).
  apply outcome_bind_inv in H1 as ([c2 id2] & Hm & [= <- <-]).
  eapply same_life_trans; [by eapply MakeClientTo_same|by eapply IH].
Qed.

Lemma life_step_same {M K} `{ClerkMakerOk M K} (m : M) c (op : life_op K) c' :
  life_step m c op = Ret c' -> same_life c c'.
Proof.
  destruct op as [|k|srvs|id|id server|id op|gid n|gid|gid op|b|]; simpl.
  - intros ([c1 k] & (srvs & Hm)%make_clients & [= <-])%outcome_bind_inv. by eapply MakeClients_same.
  - destruct (delete_client m c k) as (id & _ & ->). by apply DeleteClient_same.
  - intros ([c1 id] & Hm & [= <-])%outcome_bind_inv. by eapply MakeClientTo_same.
  - by apply DeleteClient_same.
  - intros ([c1 e] & (cl & _ & ([[net cl'] e'] & _ & [= <- _])%outcome_bind_inv)%outcome_bind_inv & [= <-])%outcome_bind_inv.
    by split.
  - intros (cl & _ & H1)%outcome_bind_inv. destruct (Clnt_op _ _ _) as [net cl']. injection H1 as <-. by split.
  - intros (c1 & (g & _ & [= <-])%outcome_bind_inv & Hs)%outcome_bind_inv.
    eapply same_life_trans; [|by eapply on_group_same]. by split.
  - intros (c1 & Hm & [= <-])%outcome_bind_inv. eapply same_life_trans; [by eapply on_group_same|]. by split.
  - apply on_group_same.
  - intros [= <-]. by split.
  - intros [= <-]. by split.
Qed.

Lemma life_run_same {M K} `{ClerkMakerOk M K} (m : M) ops : forall c c', life_run m c ops = Ret c' -> same_life c c'.
Proof.
  induction ops as [|op ops IH]; intros c c' Hr; [injection Hr as <-; apply same_life_refl|].
  unfold life_run in Hr. cbn [foldM] in Hr. apply outcome_bind_inv in Hr as (c1 & Hs & Hr).
  eapply same_life_trans; [by eapply life_step_same|by eapply IH].
Qed.

(** ** The cleanup *)

Definition services_of (c : Config) : list (Z * nat) :=
  concat ((fun '(gid, sg) => sg_cleanup gid sg) <$> map_to_list (cf_grps c)).

Lemma Groups_cleanup_spec c : Groups_cleanup c = set_killed c (cf_killed c ++ services_of c).
Proof.
  unfold Groups_cleanup, services_of. generalize (map_to_list (cf_grps c)). intros l. revert c.
  induction l as [|[gid sg] l IH]; intros c; simpl; [rewrite app_nil_r; by destruct c|].
  rewrite IH. simpl. by rewrite app_assoc.
Qed.

Lemma elem_of_services c gid i :
  (gid, i) ∈ services_of c <->
  exists sg s, cf_grps c !! gid = Some sg /\ sg_srvs sg !! i = Some s /\ ts_svcs s = true.
Proof.
  assert (Hsg : forall gid' sg, (gid, i) ∈ sg_cleanup gid' sg <->
    gid' = gid /\ exists s, sg_srvs sg !! i = Some s /\ ts_svcs s = true).
  { intros gid' sg. unfold sg_cleanup. rewrite list_elem_of_In, in_concat. split.
    - intros (x & (j & s & -> & Hj)%list_elem_of_In%elem_of_lookup_imap & Hin).
      destruct (ts_svcs s) eqn:E; [|done]. destruct Hin as [[= -> ->]|[]]. split; [done|]. by exists s.
    - intros (-> & s & Hs & Hv). exists [(gid, i)]. split; [|by left].
      apply list_elem_of_In, elem_of_lookup_imap. exists i, s. by rewrite Hv. }
  unfold services_of. rewrite list_elem_of_In, in_concat. split.
  - intros (x & ([gid' sg] & -> & Hin)%list_elem_of_In%list_elem_of_fmap & Hx%list_elem_of_In%Hsg).
    apply elem_of_map_to_list in Hin. destruct Hx as (-> & s & Hs & Hv). by exists sg, s.
  - intros (sg & s & Hg & Hs & Hv). exists (sg_cleanup gid sg). split.
    + apply list_elem_of_In, list_elem_of_fmap. exists (gid, sg). by rewrite elem_of_map_to_list.
    + apply list_elem_of_In, Hsg. split; [done|]. by exists s.
Qed.

Lemma Cleanup_ok c clerks now :
  life_ok c -> cf_clerks c = Some clerks -> cf_closed c = false -> now - cf_start c <= 120 ->
  exists net, Cleanup c now = Ret (set_closed (set_killed (set_clnts (set_net c net) (cf_clnts c) None)
      (cf_killed c ++ services_of c))) /\
    rn_ends net = rn_ends (cf_net c) ∖ ⋃ (client_ends c <$> elements clerks).
Proof.
  intros Hok Hk Hcl Hnow. unfold Cleanup, Clnts_cleanup. rewrite Hk. cbn [default from_option].
  destruct (remove_clients_ok (elements clerks) c) as (net & E & He).
  - apply NoDup_elements.
  - intros id Hin%elem_of_elements. by eapply live_attached.
  - intros id srv id' srv' e A B. by destruct (lo_inj _ Hok _ _ _ _ _ A B).
  - exists net. split; [|done]. unfold id. rewrite E. step_bind. rewrite Groups_cleanup_spec. unfold net_Cleanup.
    simpl. rewrite Hcl. step_bind. unfold CheckTimeout. simpl.
    destruct (now - cf_start c >? 120) eqn:Et; [apply Z.gtb_lt in Et; lia|]. by rewrite andb_false_r.
Qed.
End Life.

(** C36: the end of a test.  Around a configuration with any number of servers a test of any
    of the services makes and deletes clerks and clients, calls, connects and disconnects
    them, starts, changes and leaves groups, in any order.  Then no call of a client fails
    for the name of its new end and no client fails to be deleted (both would end the
    process); within the two minutes [Config.Cleanup] returns, has removed exactly the ends
    of the clients that were left, kills exactly the services that run; and after it clerks
    cannot be made, deleting one does nothing, and a second one panics.  The cleanup of the
    test, which first reports on group 0, returns when that group has not been left. *)
Theorem test_cleanup {M K} `{ClerkMakerOk M K} Randstring (m : M) n reliable start (ops : list (life_op K)) c0 c now :
  (forall i j, Randstring i = Randstring j -> i = j) ->
  MakeConfig Randstring n reliable start = Ret c0 -> life_run Randstring m c0 ops = Ret c -> now <= start + 120 ->
  (forall id server, (id < length (cf_clnts c))%nat -> is_Ret (client_end Randstring c id server) = true) /\
  (forall id, is_Ret (DeleteClient c id) = true) /\
  exists clerks c', cf_clerks c = Some clerks /\ Cleanup c now = Ret c' /\
    rn_ends (cf_net c') = rn_ends (cf_net c) ∖ ⋃ (client_ends c <$> elements clerks) /\
    (forall gid i, (gid, i) ∈ cf_killed c' <->
       exists sg s, cf_grps c !! gid = Some sg /\ sg_srvs sg !! i = Some s /\ ts_svcs s = true) /\
    is_Ret (mck_MakeClerk m c') = false /\ (forall k, mck_DeleteClerk m c' k = Ret c') /\
    (forall now', Cleanup c' now' = Panic) /\
    (forall log randomkeys, is_Some (cf_grps c !! GRP0) ->
       Test_Cleanup (mkTest c log m randomkeys) now now = Ret (mkTest c' log m randomkeys)).
Proof.
  intros Hinj Hm Hr Hnow.
  destruct (life_ok_MakeConfig Randstring Hinj n reliable start) as (c1 & Hm1 & Hok & Hk & Hcl & Hst & Hcs).
  rewrite Hm in Hm1. injection Hm1 as <-.
  pose proof (life_run_ok Randstring Hinj m ops c0 c Hok Hr) as Hok'.
  destruct (life_run_same Randstring m ops c0 c Hr) as [S1 S2 S3 S4].
  destruct S4 as [clerks Hclerks]; [rewrite Hcs; by eexists|].
  split; [intros id server; by apply client_end_ok|]. split.
  { intros id. unfold DeleteClient. rewrite Hclerks. destruct (decide (id ∈ clerks)) as [Hin|]; [|done].
    destruct (remove_client_ok Randstring Hinj c id) as (net & -> & _); [by eapply live_attached|done]. }
  destruct (Cleanup_ok Randstring Hinj c clerks now Hok' Hclerks) as (net & Hc & He); [congruence|lia|].
  rewrite S1, Hk in Hc. eexists clerks, _. split; [done|]. split; [exact Hc|]. split; [exact He|].
  split; [intros gid i; apply elem_of_services|]. split; [|split; [|split]].
  - destruct (mck_MakeClerk m _) as [[c2 k]| |] eqn:Emk; [|done..]. apply make_clients in Emk as (srvs & Hms).
    destruct (delete_client m c k) as (id & Hin & _). destruct srvs as [|s srvs]; [|done].
    injection Hms as _ Hms. rewrite <- Hms in Hin. by apply elem_of_nil in Hin.
  - intros k. destruct (delete_client m (set_closed (set_killed (set_clnts (set_net c net) (cf_clnts c) None)
      ([] ++ services_of c))) k) as (id & _ & ->). done.
  - intros now'. unfold Cleanup, Clnts_cleanup. cbn [set_closed set_killed set_clnts cf_clerks cf_clnts default from_option].
    unfold id. rewrite elements_empty. cbn [foldM]. step_bind. by rewrite Groups_cleanup_spec.
  - intros log rk [sg Hsg]. unfold Test_Cleanup, End_, CheckTimeout, lookupGroup. cbn [ts_Config].
    destruct (now - cf_start c >? 120) eqn:Et; [apply Z.gtb_lt in Et; lia|]. rewrite andb_false_r. step_bind.
    rewrite Hsg. simpl. destruct (negb (cf_failed c)); step_bind; by rewrite Hc.
Qed.

(** A clerk that calls and is deleted, a clerk and a client that stay, a group that is left. *)
Module LifeDemo.
Definition ops : list (life_op (nat * string)) :=
  [LMakeClerk; LEnd 0 "server-0-0"; LMakeClerk; LEnd 1 "server-0-0"; LMakeGroupStart 5 2; LEnd 1 "server-5-1";
   LDeleteClerk (0%nat, "server-0-0"); LMakeClient (Some []); LEnd 2 "server-0-0"; LClnt 2 CConnectAll;
   LGroup 0 (GShutdownServer 0); LExitGroup 5].
Definition final : outcome Config :=
  c ← MakeConfig TesterDemo.Randstring 2 true 0; life_run TesterDemo.Randstring true c ops.
Definition live (c : Config) : list (list string) :=
  (fun id => elements (client_ends c id)) <$> elements (default ∅ (cf_clerks c)).
End LifeDemo.

Lemma test_cleanup_witness :
  exists c c', LifeDemo.final = Ret c /\ Cleanup c 60 = Ret c' /\
    (length (LifeDemo.live c), size (rn_ends (cf_net c))) = (2%nat, 19%nat) /\
    (forall now, Cleanup c' now = Panic).
Proof.
  assert (Hf : match LifeDemo.final with
    | Ret c => (length (LifeDemo.live c), size (rn_ends (cf_net c))) = (2%nat, 19%nat)
    | _ => False end) by (vm_compute; reflexivity).
  destruct LifeDemo.final as [c| |] eqn:E; [|destruct Hf..].
  unfold LifeDemo.final in E. apply outcome_bind_inv in E as (c0 & Hm & Hr).
  destruct (test_cleanup TesterDemo.Randstring true 2 true 0 LifeDemo.ops c0 c 60)
    as (_ & _ & clerks & c' & _ & Hc & _ & _ & _ & _ & Hp & _).
  - exact CfgDemo.Rand_inj.
  - exact Hm.
  - exact Hr.
  - lia.
  - exists c, c'. split; [reflexivity|]. split; [exact Hc|]. split; [exact Hf|exact Hp].
Defined.

(** ** [Fatalf] *)

(** A frame of the stack: its file and line. *)
Abbreviation frame := (string * Z)%type.

(** [strings.Contains]. *)
Definition Contains (s sub : string) : bool := match String.index 0 sub s with Some _ => true | None => false end.

Definition eol : string := String (Ascii.ascii_of_nat 10) EmptyString.

(** The loop over [frames.Next()], which says with each frame whether there are more. *)
Fixpoint print_frames (f : frame) (more : list frame) : string :=
  (if Contains f.1 "test.go" then "        " +:+ f.1 +:+ ":" +:+ pretty f.2 +:+ eol else "") +:+
  match more with [] => "" | f' :: more' => print_frames f' more' end.

(** What [Fatalf] prints before [FailNow] ends the test, given the callers it finds; with
    none it panics. *)
Definition Config_Fatalf (message : string) (callers : list frame) : outcome string :=
  match callers with
  | [] => Panic
  | f :: more => Ret ("Fatal: " +:+ message +:+ eol +:+ print_frames f more)
  end.

(** The frames of the framework stay out of the report. *)
Lemma print_frames_test f more :
  print_frames f more =
    foldr (fun f s => "        " +:+ f.1 +:+ ":" +:+ pretty f.2 +:+ eol +:+ s) ""
      (filter (fun f => Contains f.1 "test.go" = true) (f :: more)).
Proof.
  revert f. induction more as [|f' more IH]; intros f.
  - simpl. rewrite filter_cons. destruct (Contains f.1 "test.go"); simpl; by rewrite ?string_app_nil_r.
  - cbn [print_frames]. rewrite IH, (filter_cons _ f). destruct (Contains f.1 "test.go"); [|done].
    rewrite decide_True by done. cbn [foldr]. by rewrite <- !string_app_assoc.
Qed.

Example Config_Fatalf_frames :
  Config_Fatalf "no leader" [("tester1/config.go", 90); ("raft1/raft_test.go", 31); ("testing/testing.go", 1690)] =
  Ret ("Fatal: no leader" +:+ eol +:+ "        raft1/raft_test.go:31" +:+ eol).
Proof. reflexivity. Qed.
