(* ===== verification/RaftSrv.v ===== *)
(** The server of the Raft tests and the checks of the test harness
    ([raft1/server.go], [raft1/test.go]): what arrives on a server's apply channel
    is compared with the logs of all servers, snapshots are taken and ingested, and
    [one], [wait], [checkOneLeader] and the other checks read the servers.  A server
    that is restarted is a new instance in the same slot; the reader of the old
    instance may still run and then writes through the slot. *)
From S2P Require Import Prelude.
From S2P Require Import Raft.
From S2P Require Import Labrpc.
From S2P Require Import Tester.
Open Scope Z_scope.

Definition SnapShotInterval : Z := 10.

Section RaftSrv.
Context {Cmd : Type} `{EqDecision Cmd}.

(** An [interface{}], nil or a value. *)
Definition any : Type := option Cmd.

(** [raftapi.ApplyMsg]; a nil [Snapshot] is [None]. *)
Record ApplyMsg := mkApplyMsg {
  CommandValid : bool;
  Command : any;
  CommandIndex : Z;
  SnapshotValid : bool;
  MsgSnapshot : option (list Byte.byte);
  SnapshotTerm : Z;
  SnapshotIndex : Z
}.

(** The error texts, by the values printed in them. *)
Inductive apply_error :=
| CommitDiffers (index : Z) (server : nat) (v : any) (other : nat) (old : any)
| OutOfOrder (server : nat) (index : Z)
| OutOfOrderSnap (server : nat) (expected got : Z)
| SnapshotMismatch (server : nat).

(** [struct rfsrv]; [rs_raft] is nil after [Kill]. *)
Record rfsrv := mkRfsrv {
  rs_me : nat;
  rs_applyErr : option apply_error;
  rs_lastApplied : Z;
  rs_persister : option Persister;
  rs_raft : option (Raft Cmd);
  rs_logs : gmap Z any
}.

(** All instances ever made, and the one in each slot of [ts.srvs]; [ts_n] and
    [ts_snapshot] are [n] and [snapshot] of the test. *)
Record rstore := mkRstore {
  st_inst : list rfsrv;
  st_slots : list (option nat);
  st_maxIndex : Z;
  st_snapshot : bool
}.

Definition set_applied (rs : rfsrv) (last : Z) (logs : gmap Z any) : rfsrv :=
  mkRfsrv (rs_me rs) (rs_applyErr rs) last (rs_persister rs) (rs_raft rs) logs.
Definition set_raft (rs : rfsrv) (rf : option (Raft Cmd)) : rfsrv :=
  mkRfsrv (rs_me rs) (rs_applyErr rs) (rs_lastApplied rs) (rs_persister rs) rf (rs_logs rs).
Definition set_inst (st : rstore) (id : nat) (rs : rfsrv) : rstore :=
  mkRstore (<[id := rs]> (st_inst st)) (st_slots st) (st_maxIndex st) (st_snapshot st).

(** The instance a pointer leads to: a nil pointer is a panic. *)
Definition deref (st : rstore) (p : option nat) : outcome rfsrv :=
  match p with Some id => at_ (st_inst st) id | None => Panic end.
Definition inst (st : rstore) (i : nat) : outcome rfsrv :=
  p ← at_ (st_slots st) i; deref st p.

(** ** The tester's log of every server *)

Definition Logs (rs : rfsrv) (i : Z) : option any := rs_logs rs !! i.

Definition Kill (rs : rfsrv) : rfsrv :=
  let rs := set_raft rs None in
  match rs_persister rs with
  | Some ps =>
      let raftlog := ReadRaftState ps in
      let snapshot := ReadSnapshot ps in
      mkRfsrv (rs_me rs) (rs_applyErr rs) (rs_lastApplied rs) (Some (Save ps raftlog snapshot))
        (rs_raft rs) (rs_logs rs)
  | None => rs
  end.

Definition rfsrv_GetState (rs : rfsrv) : outcome (Z * bool) :=
  match rs_raft rs with Some rf => Ret (GetState rf) | None => Panic end.

Definition rfsrv_Raft (rs : rfsrv) : option (Raft Cmd) := rs_raft rs.

(** [PersistBytes] of [raft.go]: what its persister holds. *)
Definition PersistBytes (ps : Persister) : Z := RaftStateSize ps.

(** The loop of [checkLogs]: the last server whose entry differs makes the error. *)
Definition check_slot (st : rstore) (i : nat) (m : ApplyMsg) (err : option apply_error)
    (jp : nat * option nat) : outcome (option apply_error) :=
  rs ← deref st jp.2;
  match Logs rs (CommandIndex m) with
  | Some old =>
      if bool_decide (old = Command m) then Ret err
      else Ret (Some (CommitDiffers (CommandIndex m) i (Command m) jp.1 old))
  | None => Ret err
  end.

Definition checkLogs (st : rstore) (i : nat) (m : ApplyMsg)
  : outcome (rstore * option apply_error * bool) :=
  me ← at_ (st_slots st) i;
  err ← foldM (check_slot st i m) (imap pair (st_slots st)) None;
  match me with
  | None => Panic
  | Some id =>
      rs ← at_ (st_inst st) id;
      let prevok := bool_decide (is_Some (rs_logs rs !! wrap64 (CommandIndex m - 1))) in
      let rs' := set_applied rs (rs_lastApplied rs) (<[CommandIndex m := Command m]> (rs_logs rs)) in
      Ret (mkRstore (<[id := rs']> (st_inst st)) (st_slots st)
             (if CommandIndex m >? st_maxIndex st then CommandIndex m else st_maxIndex st)
             (st_snapshot st), err, prevok)
  end.

(** One message in [applier] of instance [id]; [log.Fatalf] ends the process. *)
Definition applier (st : rstore) (id : nat) (m : ApplyMsg) : outcome rstore :=
  rs ← at_ (st_inst st) id;
  if negb (CommandValid m) then Ret st
  else
    '(st', err, prevok) ← checkLogs st (rs_me rs) m;
    let err := if (CommandIndex m >? 1) && negb prevok
               then Some (OutOfOrder (rs_me rs) (CommandIndex m)) else err in
    match err with Some _ => Panic | None => Ret st' end.

(** ** Snapshots *)

(** [labgob]'s encoding of an index and a list of values. *)
Variable encode : Z * list any -> list Byte.byte.
Variable decode : list Byte.byte -> option (Z * list any).

(** The index of a slice element, as a key of [logs]. *)
Definition logs_of (xlog : list any) : gmap Z any := list_to_map (zip (range (length xlog)) xlog).

Definition ingestSnap (rs : rfsrv) (snapshot : option (list Byte.byte)) (index : Z)
  : outcome (rfsrv * option apply_error) :=
  match snapshot with
  | None => Panic
  | Some data =>
      match decode data with
      | None => Panic
      | Some (lastIncludedIndex, xlog) =>
          if negb (index =? -1) && negb (index =? lastIncludedIndex) then
            Ret (rs, Some (SnapshotMismatch (rs_me rs)))
          else Ret (set_applied rs lastIncludedIndex (logs_of xlog), None)
      end
  end.

(** The entries up to [index], nil where there is none. *)
Definition snapshot_log (logs : gmap Z any) (index : Z) : list any :=
  (fun j => default None (logs !! j)) <$> range (Z.to_nat (index + 1)).

(** The snapshot [applierSnap] makes at some indexes and hands to Raft. *)
Definition take_snapshot (rs : rfsrv) (index : Z) : outcome rfsrv :=
  if Z.rem (wrap64 (index + 1)) SnapShotInterval =? 0 then
    match rs_raft rs with
    | Some rf => Ret (set_raft rs (Some (Snapshot rf index (encode (index, snapshot_log (rs_logs rs) index)))))
    | None => Panic
    end
  else Ret rs.

(** [applierSnap] returns at once when the server has been killed before it starts; then it
    makes none of the steps below. *)
Definition applierSnap_reads (rs : rfsrv) : bool :=
  match rs_raft rs with Some _ => true | None => false end.

(** One message in [applierSnap]. *)
Definition applierSnap (st : rstore) (id : nat) (m : ApplyMsg) : outcome rstore :=
  rs ← at_ (st_inst st) id;
  if SnapshotValid m then
    '(rs', err) ← ingestSnap rs (MsgSnapshot m) (SnapshotIndex m);
    match err with Some _ => Panic | None => Ret (set_inst st id rs') end
  else if CommandValid m then
    '(st1, err) ←
      (if negb (CommandIndex m =? wrap64 (rs_lastApplied rs + 1)) then
         Ret (st, Some (OutOfOrderSnap (rs_me rs) (wrap64 (rs_lastApplied rs + 1)) (CommandIndex m)))
       else
         '(st1, err, prevok) ← checkLogs st (rs_me rs) m;
         Ret (st1, if (CommandIndex m >? 1) && negb prevok
                   then Some (OutOfOrder (rs_me rs) (CommandIndex m)) else err));
    rs1 ← at_ (st_inst st1) id;
    rs2 ← take_snapshot (set_applied rs1 (CommandIndex m) (rs_logs rs1)) (CommandIndex m);
    match err with Some _ => Panic | None => Ret (set_inst st1 id rs2) end
  else Ret st.

(** [newRfsrv]; nothing in the package sets [useRaftStateMachine]. *)
Definition newRfsrv (snapshot : bool) (now : Z) (peers srv : nat)
    (persister : Persister) : outcome rfsrv :=
  let s := mkRfsrv srv None 0 (Some persister) (Some (Make now peers (Z.of_nat srv))) ∅ in
  if snapshot then
    let data := ReadSnapshot persister in
    if (0 <? Z.of_nat (length data)) then
      '(s', err) ← ingestSnap s (Some data) (-1);
      match err with Some _ => Panic | None => Ret s' end
    else Ret s
  else Ret s.

(** [mksrv]: a new instance in slot [srv]. *)
Definition mksrv (st : rstore) (now : Z) (peers srv : nat)
    (persister : Persister) : outcome rstore :=
  s ← newRfsrv (st_snapshot st) now peers srv persister;
  slots ← set_at (st_slots st) srv (Some (length (st_inst st)));
  Ret (mkRstore (st_inst st ++ [s]) slots (st_maxIndex st) (st_snapshot st)).

(** [makeTest]: no server yet. *)
Definition makeTest (n : nat) (snapshot : bool) : rstore :=
  mkRstore [] (replicate n None) 0 snapshot.

(** ** The checks of the harness *)

(** What a check sees at one moment: the servers and [g.IsConnected]. *)
Record world := mkWorld { w_store : rstore; w_conn : nat -> bool }.

(** The loop of [nCommitted]; [cmd] is nil until a server has the index. *)
Definition count_slot (index : Z) (st : rstore) (acc : Z * any) (p : option nat) : outcome (Z * any) :=
  let '(count, cmd) := acc in
  rs ← deref st p;
  match rs_applyErr rs with
  | Some _ => Panic
  | None =>
      match Logs rs index with
      | Some cmd1 =>
          if (count >? 0) && negb (bool_decide (cmd = cmd1)) then Panic else Ret (count + 1, cmd1)
      | None => Ret (count, cmd)
      end
  end.

Definition nCommitted (st : rstore) (index : Z) : outcome (Z * any) :=
  foldM (count_slot index st) (st_slots st) (0, None).

Definition checkNoAgreement (st : rstore) (index : Z) : outcome unit :=
  '(nd, _) ← nCommitted st index; if nd >? 0 then Panic else Ret tt.

(** [ts.srvs[i].GetState()] at one moment. *)
Definition state_of (w : world) (i : nat) : outcome (Z * bool) :=
  rs ← inst (w_store w) i; rfsrv_GetState rs.

(** One iteration of [checkOneLeader]: server [i] is read at the moment [ws i]. *)
Definition add_leader (leaders : gmap Z (list nat)) (term : Z) (i : nat) : gmap Z (list nat) :=
  <[term := default [] (leaders !! term) ++ [i]]> leaders.
Definition read_leader (ws : nat -> world) (leaders : gmap Z (list nat)) (i : nat)
  : outcome (gmap Z (list nat)) :=
  if w_conn (ws i) i then
    '(term, leader) ← state_of (ws i) i;
    Ret (if leader : bool then add_leader leaders term i else leaders)
  else Ret leaders.
Definition check_term (last : Z) (tl : Z * list nat) : outcome Z :=
  if (1 <? length tl.2)%nat then Panic else Ret (if tl.1 >? last then tl.1 else last).
Definition leader_pass (n : nat) (ws : nat -> world) : outcome (option nat) :=
  leaders ← foldM (read_leader ws) (seq 0 n) ∅;
  last ← foldM check_term (map_to_list leaders) (-1);
  if bool_decide (leaders = ∅) then Ret None
  else i ← at_ (default [] (leaders !! last)) 0; Ret (Some i).

(** [checkOneLeader]: ten iterations at most. *)
Fixpoint checkOneLeader_loop (n : nat) (passes : list (nat -> world)) : outcome nat :=
  match passes with
  | [] => Panic
  | ws :: passes' =>
      r ← leader_pass n ws;
      match r with Some i => Ret i | None => checkOneLeader_loop n passes' end
  end.
Definition checkOneLeader (n : nat) (ws : nat -> nat -> world) : outcome nat :=
  checkOneLeader_loop n (ws <$> seq 0 10).

Definition term_step (ws : nat -> world) (term : Z) (i : nat) : outcome Z :=
  if w_conn (ws i) i then
    '(xterm, _) ← state_of (ws i) i;
    if term =? -1 then Ret xterm else if negb (term =? xterm) then Panic else Ret term
  else Ret term.
Definition checkTerms (n : nat) (ws : nat -> world) : outcome Z := foldM (term_step ws) (seq 0 n) (-1).

Definition checkNoLeader (n : nat) (ws : nat -> world) : outcome unit :=
  foldM (fun (_ : unit) i =>
    if w_conn (ws i) i then
      '(_, is_leader) ← state_of (ws i) i;
      if is_leader : bool then Panic else Ret tt
    else Ret tt) (seq 0 n) tt.

(** ** [one] *)

(** The peers are tried in turn from [starts]; try [k] happens at the moment [ws k]. *)
Fixpoint try_start (ws : nat -> world) (cmd : any) (len k tries starts : nat) : outcome (Z * nat) :=
  match tries with
  | O => Ret (-1, starts)
  | S tries' =>
      let starts := ((starts + 1) mod len)%nat in
      rf ← (if w_conn (ws k) starts then rs ← inst (w_store (ws k)) starts; Ret (rs_raft rs)
            else Ret None);
      match rf with
      | Some rf =>
          let '(_, (index1, _, ok)) := Start rf cmd in
          if ok : bool then Ret (index1, starts) else try_start ws cmd len (S k) tries' starts
      | None => try_start ws cmd len (S k) tries' starts
      end
  end.

(** The two seconds in which the harness polls [nCommitted]. *)
Fixpoint poll (polls : list rstore) (cmd : any) (index expectedServers : Z) : outcome bool :=
  match polls with
  | [] => Ret false
  | st :: polls' =>
      '(nd, cmd1) ← nCommitted st index;
      if (nd >? 0) && (nd >=? expectedServers) && bool_decide (cmd1 = cmd) then Ret true
      else poll polls' cmd index expectedServers
  end.

(** One round of the ten seconds: when the servers are tried and polled. *)
Record round := mkRound { rd_tries : nat -> world; rd_polls : list rstore }.

(** [finished] is what [checkFinished] answers after the loop. *)
Fixpoint one (rounds : list round) (finished : bool) (cmd : any) (expectedServers : Z) (retry : bool)
    (len starts : nat) : outcome Z :=
  match rounds with
  | [] => if finished then Ret (-1) else Panic
  | rd :: rounds' =>
      '(index, starts) ← try_start (rd_tries rd) cmd len 0 len starts;
      if negb (index =? -1) then
        agreed ← poll (rd_polls rd) cmd index expectedServers;
        if agreed : bool then Ret index
        else if negb retry then Panic
        else one rounds' finished cmd expectedServers retry len starts
      else one rounds' finished cmd expectedServers retry len starts
  end.

(** ** [wait] *)

(** Has a server moved on?  The loop of [wait] reads every Raft, killed or not. *)
Definition moved_on (st : rstore) (startTerm : Z) : outcome bool :=
  foldM (fun (moved : bool) p =>
    if moved then Ret true
    else rs ← deref st p; '(t, _) ← rfsrv_GetState rs; Ret (t >? startTerm)) (st_slots st) false.

(** An iteration polls at one moment and reads the terms at another; [int_ i] is the
    [interface{}] that holds [i]. *)
Variable int_ : Z -> Cmd.

Fixpoint wait_loop (ws : list (rstore * rstore)) (index n startTerm : Z) : outcome bool :=
  match ws with
  | [] => Ret false
  | (st, st') :: ws' =>
      '(nd, _) ← nCommitted st index;
      if nd >=? n then Ret false
      else
        moved ← (if startTerm >? -1 then moved_on st' startTerm else Ret false);
        if moved : bool then Ret true else wait_loop ws' index n startTerm
  end.

Definition wait (ws : list (rstore * rstore)) (final : rstore) (index n startTerm : Z) : outcome any :=
  moved ← wait_loop (take 30 ws) index n startTerm;
  if moved : bool then Ret (Some (int_ (-1)))
  else
    '(nd, cmd) ← nCommitted final index;
    if nd <? n then Panic else Ret cmd.
End RaftSrv.
Arguments ApplyMsg : clear implicits.
Arguments rfsrv : clear implicits.
Arguments rstore : clear implicits.
Arguments any : clear implicits.
Arguments world : clear implicits.
Arguments round : clear implicits.

(** ** Runs of the servers *)

Section Runs.
Context {Cmd : Type} `{EqDecision Cmd}.
Variable encode : Z * list (any Cmd) -> list Byte.byte.
Variable decode : list Byte.byte -> option (Z * list (any Cmd)).

(** A message arrives at the reader of an instance, a server is made, an instance is
    killed, or the peer an instance holds moves. *)
Inductive rlabel :=
| RApply (id : nat) (m : ApplyMsg Cmd)
| RMake (now : Z) (peers srv : nat) (persister : Persister)
| RKill (id : nat)
| RPeer (id : nat) (rf : Raft Cmd).

Definition rstep (st : rstore Cmd) (l : rlabel) : outcome (rstore Cmd) :=
  match l with
  | RApply id m =>
      if st_snapshot st then applierSnap encode decode st id m else applier st id m
  | RMake now peers srv ps => mksrv decode st now peers srv ps
  | RKill id => rs ← at_ (st_inst st) id; Ret (set_inst st id (Kill rs))
  | RPeer id rf => rs ← at_ (st_inst st) id; Ret (set_inst st id (set_raft rs (Some rf)))
  end.

(** The contents of a snapshot that differs from no server's log. *)
Definition snap_ok (st : rstore Cmd) (data : list Byte.byte) : Prop :=
  forall last xlog idx v j rs w, decode data = Some (last, xlog) ->
    logs_of xlog !! idx = Some v -> inst st j = Ret rs -> rs_logs rs !! idx = Some w -> v = w.

(** Snapshots come from servers: they hold what the servers have. *)
Definition rlabel_ok (st : rstore Cmd) (l : rlabel) : Prop :=
  match l with
  | RApply id m =>
      forall data, MsgSnapshot m = Some data -> SnapshotValid m = true -> snap_ok st data
  | RMake _ _ _ ps => snap_ok st (ReadSnapshot ps)
  | _ => True
  end.

Inductive reach (n : nat) (snapshot : bool) : rstore Cmd -> Prop :=
| reach_init : reach n snapshot (makeTest n snapshot)
| reach_step st l st' :
    reach n snapshot st -> rlabel_ok st l -> rstep st l = Ret st' -> reach n snapshot st'.

(** ** The logs of the servers agree *)

Definition gap_free (logs : gmap Z (any Cmd)) : Prop :=
  forall idx, 1 < idx <= int_max -> is_Some (logs !! idx) -> is_Some (logs !! (idx - 1)).

Record rinv (st : rstore Cmd) : Prop := {
  ri_slot i id : st_slots st !! i = Some (Some id) -> exists rs, st_inst st !! id = Some rs /\ rs_me rs = i;
  ri_agree i j a b idx v w : inst st i = Ret a -> inst st j = Ret b ->
    rs_logs a !! idx = Some v -> rs_logs b !! idx = Some w -> v = w;
  ri_gap i a : inst st i = Ret a -> gap_free (rs_logs a);
  ri_err id a : st_inst st !! id = Some a -> rs_applyErr a = None
}.

Lemma at_inv {A} (l : list A) i x : at_ l i = Ret x -> l !! i = Some x.
Proof. unfold at_. destruct (l !! i); congruence. Qed.

Lemma inst_inv (st : rstore Cmd) i a :
  inst st i = Ret a <-> exists id, st_slots st !! i = Some (Some id) /\ st_inst st !! id = Some a.
Proof.
  unfold inst. split.
  - intros (p & Hp%at_inv & Hd)%outcome_bind_inv. destruct p as [id|]; [|done].
    exists id. split; [done|by apply at_inv].
  - intros (id & Hs & Hi). rewrite (at_Ret _ _ _ Hs). step_bind. simpl. by apply at_Ret.
Qed.

(** The obligations for a store whose instance [id] is changed. *)
Lemma rinv_set (st : rstore Cmd) id rs rs' mx :
  rinv st -> st_inst st !! id = Some rs -> rs_me rs' = rs_me rs -> rs_applyErr rs' = None ->
  (st_slots st !! rs_me rs = Some (Some id) ->
     gap_free (rs_logs rs') /\
     forall idx v j b w, rs_logs rs' !! idx = Some v -> j <> rs_me rs -> inst st j = Ret b ->
       rs_logs b !! idx = Some w -> v = w) ->
  rinv (mkRstore (<[id := rs']> (st_inst st)) (st_slots st) mx (st_snapshot st)).
Proof.
  intros [H1 H2 H3 H4] Hid Hme Herr Hcur. set (st' := mkRstore _ _ _ _).
  assert (Hlen : (id < length (st_inst st))%nat) by (by eapply lookup_lt_Some).
  assert (Hc : forall i a, inst st' i = Ret a ->
    (i = rs_me rs /\ st_slots st !! rs_me rs = Some (Some id) /\ a = rs') \/
    (inst st i = Ret a /\ (st_slots st !! rs_me rs = Some (Some id) -> i <> rs_me rs))).
  { intros i a (id' & Hs & Hi)%inst_inv. simpl in Hs, Hi. destruct (decide (id' = id)) as [->|Hne].
    - left. rewrite list_lookup_insert_eq in Hi by done. injection Hi as <-.
      destruct (H1 i id Hs) as (r & Hr & <-). assert (r = rs) as -> by congruence. done.
    - right. rewrite list_lookup_insert_ne in Hi by done. split; [apply inst_inv; by exists id'|].
      intros Hsl ->. congruence. }
  split.
  - intros i id' Hs. simpl in *. destruct (decide (id' = id)) as [->|Hne].
    + exists rs'. rewrite list_lookup_insert_eq by done. split; [done|].
      destruct (H1 i id Hs) as (r & Hr & <-). congruence.
    + rewrite list_lookup_insert_ne by done. by apply H1.
  - intros i j a b idx v w Ha Hb Hv Hw.
    destruct (Hc i a Ha) as [(-> & Hs & ->)|[Ha' Hni]], (Hc j b Hb) as [(-> & Hs' & ->)|[Hb' Hnj]];
      [congruence| | |by apply (H2 i j a b idx)].
    + apply (proj2 (Hcur Hs) idx v j b w); [done|by apply Hnj|done|done].
    + symmetry. apply (proj2 (Hcur Hs') idx w i a v); [done|by apply Hni|done|done].
  - intros i a Ha. destruct (Hc i a Ha) as [(-> & Hs & ->)|[Ha' _]]; [by apply Hcur|by eapply H3].
  - intros id' a. simpl. destruct (decide (id' = id)) as [->|Hne].
    + rewrite list_lookup_insert_eq by done. by intros [= <-].
    + rewrite list_lookup_insert_ne by done. apply H4.
Qed.

(** ** One message *)

Lemma check_loop (st : rstore Cmd) i m l : forall err,
  foldM (check_slot st i m) l err = Ret None ->
  err = None /\ forall jp, jp ∈ l -> exists rs, deref st jp.2 = Ret rs /\
    forall old, rs_logs rs !! CommandIndex m = Some old -> old = Command m.
Proof.
  induction l as [|[j p] l IH]; intros err; simpl; [intros [= ->]; split; [done|set_solver]|].
  intros (err1 & Hs & Hl)%outcome_bind_inv. destruct (IH err1 Hl) as [-> Hall].
  unfold check_slot in Hs. cbn [fst snd] in Hs. apply outcome_bind_inv in Hs as (rs & Hrs & Hs).
  assert (Hx : err = None /\ forall old, rs_logs rs !! CommandIndex m = Some old -> old = Command m).
  { unfold Logs in Hs. destruct (rs_logs rs !! CommandIndex m) as [old|]; [|by injection Hs as <-].
    case_bool_decide as Ho; [|discriminate]. injection Hs as <-. split; [done|]. congruence. }
  split; [apply Hx|]. intros jp [->|Hin]%elem_of_cons; [|by apply Hall].
  exists rs. split; [done|apply Hx].
Qed.

(** A message that passes: no current server has another entry at its index. *)
Lemma checkLogs_passes (st st' : rstore Cmd) i m prevok :
  checkLogs st i m = Ret (st', None, prevok) ->
  exists id rs, st_slots st !! i = Some (Some id) /\ st_inst st !! id = Some rs /\
    st' = mkRstore (<[id := set_applied rs (rs_lastApplied rs) (<[CommandIndex m := Command m]> (rs_logs rs))]>
                      (st_inst st)) (st_slots st)
            (if CommandIndex m >? st_maxIndex st then CommandIndex m else st_maxIndex st) (st_snapshot st) /\
    prevok = bool_decide (is_Some (rs_logs rs !! wrap64 (CommandIndex m - 1))) /\
    forall j b old, inst st j = Ret b -> rs_logs b !! CommandIndex m = Some old -> old = Command m.
Proof.
  unfold checkLogs. intros (p & Hp%at_inv & (err & Herr & Hme)%outcome_bind_inv)%outcome_bind_inv.
  destruct p as [id|]; [|done]. apply outcome_bind_inv in Hme as (rs & Hrs%at_inv & Heq).
  injection Heq as <- -> <-. exists id, rs. do 4 (split; [done|]).
  intros j b old (id' & Hs & Hb)%inst_inv Hold.
  destruct (check_loop st i m _ _ Herr) as [_ Hall].
  destruct (Hall (j, Some id')) as (b' & Hb' & Ho).
  { apply list_elem_of_lookup. exists j. rewrite list_lookup_imap, Hs. done. }
  simpl in Hb'. apply at_inv in Hb'. apply Ho. congruence.
Qed.

Lemma gap_free_insert logs idx v :
  gap_free logs -> (1 < idx -> is_Some (logs !! wrap64 (idx - 1))) -> gap_free (<[idx := v]> logs).
Proof.
  intros Hg Hp i Hi. destruct (decide (i = idx)) as [->|Hne].
  - intros _. rewrite lookup_insert_ne by lia. specialize (Hp ltac:(lia)).
    by rewrite wrap64_id in Hp by (unfold int_min, int_max in *; lia).
  - rewrite lookup_insert_ne by done. intros Hs.
    destruct (decide (i - 1 = idx)) as [->|]; [rewrite lookup_insert_eq; by eexists|].
    rewrite lookup_insert_ne by done. by apply Hg.
Qed.

(** The store after a message that passes [checkLogs] and the order check. *)
Lemma rinv_checkLogs (st st' : rstore Cmd) i m prevok :
  rinv st -> checkLogs st i m = Ret (st', None, prevok) ->
  ((CommandIndex m >? 1) && negb prevok = false) -> rinv st'.
Proof.
  intros H Hc Hp. apply checkLogs_passes in Hc as (id & rs & Hs & Hi & -> & -> & Hall).
  destruct (ri_slot _ H i id Hs) as (r & Hr & <-). assert (r = rs) as -> by congruence.
  apply (rinv_set st id rs); [done|done|done|exact (ri_err _ H id rs Hi)|].
  intros _. cbn [rs_logs set_applied]. split.
  - apply gap_free_insert; [by apply (ri_gap _ H (rs_me rs)), inst_inv; exists id|].
    intros H1. rewrite Z.gtb_ltb, (proj2 (Z.ltb_lt _ _)) in Hp by done.
    apply negb_false_iff, bool_decide_eq_true_1 in Hp. done.
  - intros idx v j b w Hv Hj Hb Hw. destruct (decide (idx = CommandIndex m)) as [->|Hne].
    + rewrite lookup_insert_eq in Hv. injection Hv as <-. symmetry. by eapply Hall.
    + rewrite lookup_insert_ne in Hv by done.
      apply (ri_agree _ H (rs_me rs) j rs b idx); [apply inst_inv; by exists id|done..].
Qed.

Lemma rinv_applier (st st' : rstore Cmd) id m :
  rinv st -> applier st id m = Ret st' -> rinv st'.
Proof.
  intros H. unfold applier. intros (rs & Hrs & Ha)%outcome_bind_inv.
  destruct (CommandValid m); simpl in Ha; [|by injection Ha as <-].
  apply outcome_bind_inv in Ha as ([[st1 err] prevok] & Hc & Ha).
  destruct (_ && negb prevok) eqn:E; [done|]. destruct err; [done|]. injection Ha as <-.
  by eapply rinv_checkLogs.
Qed.

(** An instance changes but for its log. *)
Lemma rinv_set_same (st : rstore Cmd) id rs rs' :
  rinv st -> st_inst st !! id = Some rs -> rs_me rs' = rs_me rs -> rs_applyErr rs' = rs_applyErr rs ->
  rs_logs rs' = rs_logs rs -> rinv (set_inst st id rs').
Proof.
  intros H Hi Hme He Hl. apply (rinv_set st id rs); [done..|by rewrite He; apply (ri_err _ H id)|].
  intros Hs. rewrite Hl. assert (Hrs : inst st (rs_me rs) = Ret rs) by (apply inst_inv; by exists id).
  split; [by apply (ri_gap _ H (rs_me rs))|].
  intros idx v j b w Hv _ Hb Hw. by apply (ri_agree _ H (rs_me rs) j rs b idx).
Qed.

Lemma take_snapshot_same (rs rs' : rfsrv Cmd) idx :
  take_snapshot encode rs idx = Ret rs' ->
  rs_me rs' = rs_me rs /\ rs_applyErr rs' = rs_applyErr rs /\ rs_logs rs' = rs_logs rs.
Proof.
  unfold take_snapshot. destruct (_ =? 0); [destruct (rs_raft rs)|]; intros Hr; try discriminate;
    by injection Hr as <-.
Qed.

Lemma ingestSnap_inv (rs rs' : rfsrv Cmd) snap idx :
  ingestSnap decode rs snap idx = Ret (rs', None) ->
  exists data last xlog, snap = Some data /\ decode data = Some (last, xlog) /\
    (idx = -1 \/ idx = last) /\ rs' = set_applied rs last (logs_of xlog).
Proof.
  unfold ingestSnap. destruct snap as [data|]; [|done].
  destruct (decode data) as [[last xlog]|] eqn:Ed; [|done].
  destruct (negb _ && _) eqn:E; [done|]. intros [= <-]. exists data, last, xlog.
  do 3 (split; [done || idtac|]); [|done].
  apply andb_false_iff in E as [E|E]; apply negb_false_iff, Z.eqb_eq in E; auto.
Qed.

Lemma logs_of_lookup (xlog : list (any Cmd)) idx :
  logs_of xlog !! idx = if decide (0 <= idx) then xlog !! Z.to_nat idx else None.
Proof.
  unfold logs_of. apply option_eq. intros v.
  rewrite <- elem_of_list_to_map.
  - rewrite list_elem_of_lookup. split.
    + intros (i & Hi). rewrite lookup_zip_with in Hi. rewrite range_lookup in Hi.
      case_decide as Hd; [|done]. simpl in Hi. destruct (xlog !! i) eqn:Ex; [|done].
      injection Hi as <- <-. rewrite decide_True, Nat2Z.id by lia. done.
    + case_decide as Hd; [|done]. intros Hv. exists (Z.to_nat idx).
      rewrite lookup_zip_with, range_lookup, decide_True by (by apply lookup_lt_Some in Hv).
      simpl. rewrite Hv. simpl. by rewrite Z2Nat.id.
  - rewrite fst_zip; [apply NoDup_range|]. unfold range. by rewrite length_fmap, length_seq.
Qed.

Lemma gap_free_logs_of xlog : gap_free (logs_of xlog).
Proof.
  intros idx Hi. rewrite !logs_of_lookup, !decide_True by lia. rewrite !lookup_lt_is_Some. lia.
Qed.

Lemma rinv_ingest (st : rstore Cmd) id rs rs' snap idx :
  rinv st -> st_inst st !! id = Some rs -> ingestSnap decode rs snap idx = Ret (rs', None) ->
  (forall data, snap = Some data -> snap_ok st data) -> rinv (set_inst st id rs').
Proof.
  intros H Hi Hg Hok. apply ingestSnap_inv in Hg as (data & last & xlog & -> & Hd & _ & ->).
  apply (rinv_set st id rs); [done|done|done|exact (ri_err _ H id rs Hi)|].
  intros Hs. split; [apply gap_free_logs_of|].
  intros k v j b w Hv _ Hb Hw. by eapply (Hok data eq_refl last xlog k v j b w).
Qed.

Lemma rinv_applierSnap (st st' : rstore Cmd) id m :
  rinv st -> rlabel_ok st (RApply id m) -> applierSnap encode decode st id m = Ret st' -> rinv st'.
Proof.
  intros H Hok. unfold applierSnap. intros (rs & Hrs%at_inv & Ha)%outcome_bind_inv.
  destruct (SnapshotValid m) eqn:Esv; [|destruct (CommandValid m); [|by injection Ha as <-]].
  - apply outcome_bind_inv in Ha as ([rs' err] & Hg & Ha). destruct err; [done|]. injection Ha as <-.
    eapply rinv_ingest; [done..|]. intros data Hd. by apply Hok.
  - apply outcome_bind_inv in Ha as ([st1 err] & Hc & Ha).
    apply outcome_bind_inv in Ha as (rs1 & Hrs1%at_inv & Ha).
    apply outcome_bind_inv in Ha as (rs2 & Ht & Ha). destruct err; [done|]. injection Ha as <-.
    destruct (negb _); [done|]. apply outcome_bind_inv in Hc as ([[st2 err] prevok] & Hc & He).
    destruct (_ && negb prevok) eqn:Ep; [done|]. injection He as -> ->.
    pose proof (rinv_checkLogs _ _ _ _ _ H Hc Ep) as H1.
    apply take_snapshot_same in Ht as (? & ? & ?). by apply (rinv_set_same st1 id rs1).
Qed.

Lemma rinv_mksrv (st st' : rstore Cmd) now peers srv ps :
  rinv st -> snap_ok st (ReadSnapshot ps) -> mksrv decode st now peers srv ps = Ret st' -> rinv st'.
Proof.
  intros H Hok. unfold mksrv. intros (s & Hs & Hm)%outcome_bind_inv.
  apply outcome_bind_inv in Hm as (slots & Hsl & Hm). injection Hm as <-.
  unfold set_at in Hsl. destruct (st_slots st !! srv) as [old|] eqn:Eo; [|done]. injection Hsl as <-.
  assert (Hlen : (srv < length (st_slots st))%nat) by (by eapply lookup_lt_Some).
  assert (Hnew : rs_me s = srv /\ rs_applyErr s = None /\ gap_free (rs_logs s) /\
    forall idx v j b w, rs_logs s !! idx = Some v -> inst st j = Ret b -> rs_logs b !! idx = Some w -> v = w).
  { assert (He : forall idx v, (∅ : gmap Z (any Cmd)) !! idx = Some v -> False)
      by (intros idx v; by rewrite lookup_empty).
    unfold newRfsrv in Hs. destruct (st_snapshot st); [destruct (0 <? _)|].
    2,3: injection Hs as <-; do 2 (split; [done|]); split;
      [intros idx _ [v Hv]; by apply He in Hv|intros idx v j b w Hv; by apply He in Hv].
    apply outcome_bind_inv in Hs as ([s' err] & Hg & Hs). destruct err; [done|]. injection Hs as ->.
    apply ingestSnap_inv in Hg as (data & last & xlog & [= <-] & Hd & _ & ->). do 2 (split; [done|]).
    split; [apply gap_free_logs_of|]. intros idx v j b w Hv Hb Hw. by eapply (Hok last xlog). }
  destruct Hnew as (Hme & Herr & Hg & Hag). set (st' := mkRstore _ _ _ _).
  assert (Hc : forall i a, inst st' i = Ret a -> (i = srv /\ a = s) \/ inst st i = Ret a).
  { intros i a (id & Hi & Ha)%inst_inv. simpl in Hi, Ha. destruct (decide (i = srv)) as [->|Hne].
    - left. rewrite list_lookup_insert_eq in Hi by done. injection Hi as <-.
      rewrite lookup_app_r, Nat.sub_diag in Ha by lia. by injection Ha as <-.
    - right. rewrite list_lookup_insert_ne in Hi by done.
      destruct (ri_slot _ H i id Hi) as (r & Hr & _).
      rewrite lookup_app_l in Ha by (by eapply lookup_lt_Some). apply inst_inv. by exists id. }
  split.
  - intros i id Hi. simpl in *. destruct (decide (i = srv)) as [->|Hne].
    + rewrite list_lookup_insert_eq in Hi by done. injection Hi as <-. exists s.
      by rewrite lookup_app_r, Nat.sub_diag by lia.
    + rewrite list_lookup_insert_ne in Hi by done. destruct (ri_slot _ H i id Hi) as (r & Hr & ?).
      exists r. split; [|done]. by apply lookup_app_l_Some.
  - intros i j a b idx v w Ha Hb Hv Hw.
    destruct (Hc i a Ha) as [[-> ->]|Ha'], (Hc j b Hb) as [[-> ->]|Hb']; [congruence|by eapply Hag| |].
    + symmetry. by eapply Hag.
    + by apply (ri_agree _ H i j a b idx).
  - intros i a Ha. destruct (Hc i a Ha) as [[-> ->]|Ha']; [done|by apply (ri_gap _ H i)].
  - intros id a. simpl. intros [Ha|[_ Ha]]%lookup_app_Some; [by apply (ri_err _ H id)|].
    apply list_lookup_singleton_Some in Ha as [_ <-]. done.
Qed.

Lemma rinv_step (st st' : rstore Cmd) l :
  rinv st -> rlabel_ok st l -> rstep st l = Ret st' -> rinv st'.
Proof.
  intros H Hok Hs. destruct l as [id m|now peers srv ps|id|id rf]; simpl in Hs.
  - destruct (st_snapshot st); [by eapply rinv_applierSnap|by eapply rinv_applier].
  - by eapply rinv_mksrv.
  - apply outcome_bind_inv in Hs as (rs & Hrs%at_inv & Hs). injection Hs as <-.
    apply (rinv_set_same st id rs); try done; unfold Kill; simpl; by destruct (rs_persister rs).
  - apply outcome_bind_inv in Hs as (rs & Hrs%at_inv & Hs). injection Hs as <-.
    by apply (rinv_set_same st id rs).
Qed.

Lemma rinv_reach n snapshot st : reach n snapshot st -> rinv st.
Proof.
  induction 1 as [|st l st' _ IH Hok Hs]; [|by eapply rinv_step].
  assert (Hn : forall i a, inst (makeTest n snapshot : rstore Cmd) i = Ret a -> False).
  { intros i a (id & Hs & _)%inst_inv. simpl in Hs. by apply lookup_replicate in Hs as [? _]. }
  split.
  - intros i id Hs. simpl in Hs. by apply lookup_replicate in Hs as [? _].
  - intros i j a b idx v w Ha. by apply Hn in Ha.
  - intros i a Ha. by apply Hn in Ha.
  - intros id a Ha. simpl in Ha. done.
Qed.

(** ** [nCommitted] *)

(** Every slot has a server, as after [StartServers]. *)
Definition started (st : rstore Cmd) : Prop :=
  forall i, (i < length (st_slots st))%nat -> exists rs, inst st i = Ret rs.

(** What the servers hold at index [index], in slot order. *)
Definition held (st : rstore Cmd) (index : Z) (p : option nat) : option (any Cmd) :=
  match deref st p with Ret rs => rs_logs rs !! index | _ => None end.
Definition holders (st : rstore Cmd) (index : Z) : list (any Cmd) := omap (held st index) (st_slots st).

Lemma count_loop (st : rstore Cmd) index l : forall count cmd,
  0 <= count ->
  (forall p, p ∈ l -> exists rs, deref st p = Ret rs /\ rs_applyErr rs = None) ->
  let hs := omap (held st index) l in
  (forall v, v ∈ hs -> (0 < count -> v = cmd) /\ forall w, w ∈ hs -> v = w) ->
  foldM (count_slot index st) l (count, cmd) =
    Ret (count + Z.of_nat (length hs), default cmd (last hs)).
Proof.
  induction l as [|p l IH]; intros count cmd Hc Hd hs Hv; cbn [foldM].
  - subst hs. simpl. by rewrite Z.add_0_r.
  - destruct (Hd p) as (rs & Hrs & He); [apply list_elem_of_here|].
    assert (Hcs : count_slot index st (count, cmd) p =
      match rs_logs rs !! index with
      | Some cmd1 => if (count >? 0) && negb (bool_decide (cmd = cmd1)) then Panic else Ret (count + 1, cmd1)
      | None => Ret (count, cmd)
      end) by (unfold count_slot; rewrite Hrs; step_bind; by rewrite He).
    rewrite Hcs. subst hs. cbn [omap list_omap] in *.
    assert (Hh : held st index p = rs_logs rs !! index) by (unfold held; by rewrite Hrs).
    rewrite Hh in *.
    assert (Hd' : forall p', p' ∈ l -> exists rs, deref st p' = Ret rs /\ rs_applyErr rs = None)
      by (intros p' Hp'; apply Hd; by apply list_elem_of_further).
    destruct (rs_logs rs !! index) as [v|] eqn:Ev.
    + destruct (Hv v) as [Hv1 Hv2]; [apply list_elem_of_here|].
      assert (Hg : (count >? 0) && negb (bool_decide (cmd = v)) = false).
      { destruct (Z.gtb_spec count 0); [|done]. rewrite bool_decide_eq_true_2; [done|]. symmetry. apply Hv1. lia. }
      rewrite Hg. step_bind. rewrite IH; [|lia|done|].
      * cbn [length]. f_equal. f_equal; [lia|].
        rewrite last_cons. by destruct (last _).
      * intros u Hu. split; [|intros w Hw; apply Hv; by apply list_elem_of_further].
        intros _. symmetry. apply Hv2. by apply list_elem_of_further.
    + step_bind. by rewrite IH.
Qed.

Lemma holders_elem (st : rstore Cmd) index v :
  v ∈ holders st index <-> exists i rs, inst st i = Ret rs /\ rs_logs rs !! index = Some v.
Proof.
  unfold holders. rewrite list_elem_of_omap. split.
  - intros (p & (i & Hi)%list_elem_of_lookup & Hv). unfold held in Hv.
    destruct (deref st p) as [rs| |] eqn:Ed; try done. exists i, rs. split; [|done].
    unfold inst. rewrite (at_Ret _ _ _ Hi). done.
  - intros (i & rs & Hr & Hv). unfold inst in Hr. apply outcome_bind_inv in Hr as (p & Hp%at_inv & Hd).
    exists p. split; [by eapply list_elem_of_lookup_2|]. unfold held. by rewrite Hd.
Qed.

Lemma nCommitted_spec (st : rstore Cmd) index :
  rinv st -> started st ->
  nCommitted st index = Ret (Z.of_nat (length (holders st index)), default None (last (holders st index))) /\
  forall v w, v ∈ holders st index -> w ∈ holders st index -> v = w.
Proof.
  intros H Hst.
  assert (Hag : forall v w, v ∈ holders st index -> w ∈ holders st index -> v = w).
  { intros v w (i & a & Ha & Hv)%holders_elem (j & b & Hb & Hw)%holders_elem.
    by apply (ri_agree _ H i j a b index). }
  split; [|done]. unfold nCommitted, holders. rewrite count_loop; [done|lia| |].
  - intros p (i & Hi)%list_elem_of_lookup. destruct (Hst i) as (rs & Hrs); [by eapply lookup_lt_Some|].
    exists rs. apply inst_inv in Hrs as (id & Hs & Hr). assert (p = Some id) as -> by congruence.
    split; [by apply at_Ret|by apply (ri_err _ H id)].
  - intros v Hv. split; [lia|]. intros w Hw. by apply Hag.
Qed.
End Runs.

(** C22: committed logs agree.  Whatever messages arrive at the readers of whichever
    instances, servers being killed, restarted and moved in between, as long as the
    process has not failed and snapshots hold what the servers have: two servers never
    hold different values at an index, no log has a gap, and [nCommitted] never fails
    but answers how many servers hold the index and their common value. *)
Theorem committed_logs_agree {Cmd} `{EqDecision Cmd} encode decode n snapshot (st : rstore Cmd) :
  reach encode decode n snapshot st ->
  (forall i j a b index v w, inst st i = Ret a -> inst st j = Ret b ->
     rs_logs a !! index = Some v -> rs_logs b !! index = Some w -> v = w) /\
  (forall i a index, inst st i = Ret a -> 1 < index <= int_max ->
     is_Some (rs_logs a !! index) -> is_Some (rs_logs a !! (index - 1))) /\
  (started st -> forall index,
     nCommitted st index =
       Ret (Z.of_nat (length (holders st index)), default None (last (holders st index)))).
Proof.
  intros Hr. pose proof (rinv_reach _ _ _ _ _ Hr) as H. split; [apply (ri_agree _ H)|]. split.
  - intros i a index Ha. by apply (ri_gap _ H i).
  - intros Hst index. by apply nCommitted_spec.
Qed.

(** C30: [one] tells the truth.  When it returns an index, at one of the moments it polled
    at least one and at least [expectedServers] servers held exactly the command at that
    index and, the servers being in a reachable state, no server held anything else
    there; it returns -1 only when the test has finished. *)
Theorem one_sound {Cmd} `{EqDecision Cmd} encode decode n snapshot (rounds : list (round Cmd))
    finished cmd expected retry len starts index :
  (forall rd st, rd ∈ rounds -> st ∈ rd_polls rd ->
     reach encode decode n snapshot st /\ started st) ->
  one rounds finished cmd expected retry len starts = Ret index ->
  (index = -1 /\ finished = true) \/
  exists rd st, rd ∈ rounds /\ st ∈ rd_polls rd /\
    0 < Z.of_nat (length (holders st index)) /\ expected <= Z.of_nat (length (holders st index)) /\
    forall v, v ∈ holders st index -> v = cmd.
Proof.
  assert (Hpoll : forall polls, (forall st, st ∈ polls -> reach encode decode n snapshot st /\ started st) ->
    forall idx, poll polls cmd idx expected = Ret true ->
    exists st, st ∈ polls /\ 0 < Z.of_nat (length (holders st idx)) /\
      expected <= Z.of_nat (length (holders st idx)) /\ forall v, v ∈ holders st idx -> v = cmd).
  { induction polls as [|st polls IH]; intros Hst idx; [done|]. cbn [poll].
    destruct (Hst st) as [Hr Hs]; [apply list_elem_of_here|].
    destruct (nCommitted_spec st idx (rinv_reach _ _ _ _ _ Hr) Hs) as [-> Hag]. step_bind.
    destruct (_ && _ && _) eqn:E.
    - intros _. exists st. split; [apply list_elem_of_here|].
      apply andb_true_iff in E as [[E1 E2]%andb_true_iff Hc%bool_decide_eq_true_1].
      rewrite Z.gtb_lt in E1. rewrite Z.geb_le in E2. split; [done|]. split; [done|].
      intros v Hv. destruct (last (holders st idx)) as [w|] eqn:El.
      + rewrite (Hag v w Hv); [done|]. by apply last_Some_elem_of.
      + apply last_None in El. rewrite El in Hv. by apply elem_of_nil in Hv.
    - intros Hp. destruct (IH ltac:(intros; apply Hst; by apply list_elem_of_further) idx Hp)
        as (st' & Hin & Hx). exists st'. split; [by apply list_elem_of_further|done]. }
  revert starts. induction rounds as [|rd rounds IH]; intros starts Hst; cbn [one].
  { destruct finished; [|done]. intros [= <-]. by left. }
  assert (Hrec : forall s, one rounds finished cmd expected retry len s = Ret index ->
    (index = -1 /\ finished = true) \/
    exists rd' st, rd' ∈ rd :: rounds /\ st ∈ rd_polls rd' /\
      0 < Z.of_nat (length (holders st index)) /\ expected <= Z.of_nat (length (holders st index)) /\
      forall v, v ∈ holders st index -> v = cmd).
  { intros s Hs. destruct (IH s) as [?|(rd' & st & Hin & Hx)];
      [intros; by eapply Hst; [apply list_elem_of_further|]|done|by left|].
    right. exists rd', st. split; [by apply list_elem_of_further|done]. }
  intros ([idx starts'] & Ht & Ho)%outcome_bind_inv. destruct (negb _); [|by eapply Hrec].
  apply outcome_bind_inv in Ho as (agreed & Hp & Ho). destruct agreed.
  - injection Ho as ->. right. destruct (Hpoll (rd_polls rd)) with (idx := index) as (st & Hin & Hx);
      [intros st Hin; eapply Hst; [apply list_elem_of_here|done]|done|].
    exists rd, st. split; [apply list_elem_of_here|done].
  - destruct (negb retry); [done|by eapply Hrec].
Qed.

(** ** A run that applies a command at two servers, with a restart *)

Section RunList.
Context {Cmd : Type} `{EqDecision Cmd}.
Variable encode : Z * list (any Cmd) -> list Byte.byte.
Variable decode : list Byte.byte -> option (Z * list (any Cmd)).

Fixpoint rrun (st : rstore Cmd) (ls : list rlabel) : outcome (rstore Cmd) :=
  match ls with
  | [] => Ret st
  | l :: ls' => st' ← rstep encode decode st l; rrun st' ls'
  end.

Lemma rrun_reach n snapshot ls : forall st st',
  reach encode decode n snapshot st -> (forall st l, l ∈ ls -> rlabel_ok decode st l) ->
  rrun st ls = Ret st' -> reach encode decode n snapshot st'.
Proof.
  induction ls as [|l ls IH]; intros st st' Hr Hok; cbn [rrun]; [by intros [= <-]|].
  intros (st1 & Hs & Hrun)%outcome_bind_inv. eapply IH; [|by intros; apply Hok, list_elem_of_further|done].
  eapply reach_step; [done|apply Hok, list_elem_of_here|done].
Qed.
End RunList.

Module RaftSrvDemo.
Definition encode (x : Z * list (any nat)) : list Byte.byte := [].
Definition decode (data : list Byte.byte) : option (Z * list (any nat)) := None.
Definition msg (i : Z) (c : nat) : ApplyMsg nat := mkApplyMsg true (Some c) i false None 0 0.
Definition labels : list (rlabel (Cmd := nat)) :=
  [RMake 0 2 0 MakePersister; RMake 0 2 1 MakePersister; RApply 0 (msg 1 7); RKill 0;
   RMake 5 2 0 MakePersister; RApply 1 (msg 1 7); RApply 1 (msg 2 8); RApply 2 (msg 1 7)].
Definition leader : Raft nat := mkRaft 1 0 0 Leader 1 0 {[0 := mkLogEntry 0 None]} 0 0 ∅ ∅ 0.
Definition led : world nat :=
  mkWorld (mkRstore [mkRfsrv 0 None 0 None (Some leader) ∅] [Some 0%nat] 0 false) (fun _ => true).
Definition good (st : rstore nat) : bool :=
  forallb (fun i => is_Ret (inst st i)) (seq 0 (length (st_slots st))) &&
  (length (st_slots st) =? 2)%nat &&
  match nCommitted st 1 with Ret (nd, cmd) => (nd =? 2) && bool_decide (cmd = Some 7%nat) | _ => false end &&
  match one [mkRound (fun _ => led) [st]] false (Some 8%nat) 1 false 1 0 with
  | Ret i => i =? 2 | _ => false end.
Definition outcome_passes (m : outcome (rstore nat)) : bool :=
  match m with Ret st => good st | _ => false end.
End RaftSrvDemo.

Lemma demo_reach :
  exists st, reach RaftSrvDemo.encode RaftSrvDemo.decode 2 false st /\ RaftSrvDemo.good st = true.
Proof.
  assert (Hc : RaftSrvDemo.outcome_passes (rrun RaftSrvDemo.encode RaftSrvDemo.decode (makeTest 2 false)
    RaftSrvDemo.labels) = true) by (vm_compute; reflexivity).
  destruct (rrun _ _ _ _) as [st| |] eqn:E; try discriminate Hc. exists st. split; [|exact Hc].
  eapply rrun_reach; [apply reach_init| |exact E]. intros st' l _.
  destruct l as [id m|now peers srv ps|id|id rf]; simpl; try exact I.
  - intros data _ _ last xlog idx v j rs w Hd. discriminate Hd.
  - intros last xlog idx v j rs w Hd. discriminate Hd.
Defined.

Lemma demo_started st : RaftSrvDemo.good st = true -> started st.
Proof.
  intros [[[Hall Hlen]%andb_true_iff _]%andb_true_iff _]%andb_true_iff i Hi.
  rewrite forallb_forall in Hall. pose proof (Hall i) as Hi'. rewrite in_seq in Hi'.
  specialize (Hi' ltac:(lia)). cbv beta in Hi'.
  destruct (inst st i) as [rs| |]; [by exists rs|done..].
Qed.

Lemma committed_logs_agree_witness :
  exists st, reach RaftSrvDemo.encode RaftSrvDemo.decode 2 false st /\
    length (holders st 1) = 2%nat /\
    forall a b v w, inst st 0 = Ret a -> inst st 1 = Ret b ->
      rs_logs a !! 1 = Some v -> rs_logs b !! 1 = Some w -> v = w.
Proof.
  destruct demo_reach as (st & Hr & Hg). exists st. split; [exact Hr|].
  destruct (committed_logs_agree RaftSrvDemo.encode RaftSrvDemo.decode 2 false st Hr) as (Hag & _ & Hn).
  split; [|intros a b v w Ha Hb; exact (Hag 0%nat 1%nat a b 1 v w Ha Hb)].
  specialize (Hn (demo_started st Hg) 1). apply andb_true_iff in Hg as [Hg _].
  apply andb_true_iff in Hg as [_ Hg]. rewrite Hn in Hg. apply andb_true_iff in Hg as [Hl _]. apply Z.eqb_eq in Hl. lia.
Defined.

Lemma one_sound_witness :
  exists st, one [mkRound (fun _ => RaftSrvDemo.led) [st]] false (Some 8%nat) 1 false 1 0 = Ret 2 /\
    forall v, v ∈ holders st 2 -> v = Some 8%nat.
Proof.
  destruct demo_reach as (st & Hr & Hg). exists st. pose proof (demo_started st Hg) as Hst.
  apply andb_true_iff in Hg as [_ Hone].
  destruct (one _ _ _ _ _ _ _) as [i| |] eqn:E; try discriminate Hone. apply Z.eqb_eq in Hone as ->.
  split; [reflexivity|].
  destruct (one_sound RaftSrvDemo.encode RaftSrvDemo.decode 2 false
    [mkRound (fun _ => RaftSrvDemo.led) [st]] false (Some 8%nat) 1 false 1 0 2) as [[? _]|(rd & st' & Hrd & Hs & _ & _ & Hv)];
    [|exact E|discriminate|].
  - intros rd st' Hrd Hs. apply list_elem_of_singleton in Hrd as ->. apply list_elem_of_singleton in Hs as ->.
    split; [exact Hr|exact Hst].
  - apply list_elem_of_singleton in Hrd as ->. apply list_elem_of_singleton in Hs as ->. exact Hv.
Defined.

(** ** This Raft: nothing arrives *)

(** [raft.go] sends nothing on the apply channel and saves no snapshot. *)
Definition silent {Cmd} (l : rlabel (Cmd := Cmd)) : Prop :=
  match l with
  | RApply _ _ => False
  | RMake _ _ _ ps => ReadSnapshot ps = []
  | _ => True
  end.

Section Silent.
Context {Cmd : Type} `{EqDecision Cmd}.
Variable encode : Z * list (any Cmd) -> list Byte.byte.
Variable decode : list Byte.byte -> option (Z * list (any Cmd)).

Definition empty_logs (st : rstore Cmd) : Prop :=
  forall id rs, st_inst st !! id = Some rs -> rs_logs rs = ∅ /\ rs_applyErr rs = None.

Lemma empty_set (st : rstore Cmd) id rs rs' :
  empty_logs st -> at_ (st_inst st) id = Ret rs -> rs_logs rs' = rs_logs rs ->
  rs_applyErr rs' = rs_applyErr rs -> empty_logs (set_inst st id rs').
Proof.
  intros H Hi%at_inv Hl He id' a. simpl. destruct (decide (id' = id)) as [->|Hne].
  - rewrite list_lookup_insert_eq by (by eapply lookup_lt_Some). intros [= <-]. rewrite Hl, He. by eapply H.
  - rewrite list_lookup_insert_ne by done. apply H.
Qed.

Lemma silent_step (st st' : rstore Cmd) l :
  empty_logs st -> silent l -> rstep encode decode st l = Ret st' -> empty_logs st'.
Proof.
  intros H Hl Hs. destruct l as [id m|now peers srv ps|id|id rf]; simpl in Hl, Hs; [done| | |].
  - unfold mksrv in Hs. apply outcome_bind_inv in Hs as (s & Hn & Hs).
    apply outcome_bind_inv in Hs as (slots & _ & Hs). injection Hs as <-.
    intros id a. simpl. intros [Ha|[_ Ha]]%lookup_app_Some; [by apply (H id)|].
    apply list_lookup_singleton_Some in Ha as [_ <-].
    unfold newRfsrv in Hn. rewrite Hl in Hn. simpl in Hn. destruct (st_snapshot st); by injection Hn as <-.
  - apply outcome_bind_inv in Hs as (rs & Hrs & Hs). injection Hs as <-.
    eapply empty_set; [done..| |]; unfold Kill; simpl; by destruct (rs_persister rs).
  - apply outcome_bind_inv in Hs as (rs & Hrs & Hs). injection Hs as <-. by eapply empty_set.
Qed.

Lemma silent_run ls : forall st st',
  empty_logs st -> Forall silent ls -> rrun encode decode st ls = Ret st' -> empty_logs st'.
Proof.
  induction ls as [|l ls IH]; intros st st' H Hl; cbn [rrun]; [by intros [= <-]|].
  intros (st1 & Hs & Hrun)%outcome_bind_inv. apply Forall_cons in Hl as [Hl Hls].
  eapply IH; [|done|done]. by eapply silent_step.
Qed.

Lemma empty_nCommitted (st : rstore Cmd) index nd cmd :
  empty_logs st -> nCommitted st index = Ret (nd, cmd) -> nd = 0.
Proof.
  intros H. unfold nCommitted. generalize (st_slots st) as l.
  enough (Hl : forall l acc, foldM (count_slot index st) l (0, acc) = Ret (nd, cmd) -> nd = 0)
    by (intros l; apply Hl).
  induction l as [|p l IH]; intros acc; cbn [foldM]; [by intros [= <-]|].
  intros ([c a] & Hs & Hl)%outcome_bind_inv. unfold count_slot in Hs.
  apply outcome_bind_inv in Hs as (rs & Hrs & Hs).
  assert (Hi : exists id, st_inst st !! id = Some rs).
  { unfold deref in Hrs. destruct p as [id|]; [|done]. exists id. by apply at_inv. }
  destruct Hi as (id & Hi). destruct (H id rs Hi) as [He Herr]. rewrite Herr in Hs. unfold Logs in Hs.
  rewrite He, lookup_empty in Hs. injection Hs as <- <-. by eapply IH.
Qed.

Lemma empty_poll polls cmd index expected :
  (forall st, st ∈ polls -> empty_logs st) -> poll polls cmd index expected <> Ret true.
Proof.
  induction polls as [|st polls IH]; intros H; cbn [poll]; [done|].
  intros ([nd c] & Hn & Hp)%outcome_bind_inv.
  rewrite (empty_nCommitted st index nd c (H st (list_elem_of_here _ _)) Hn) in Hp. simpl in Hp.
  revert Hp. apply IH. intros st' Hin. by apply H, list_elem_of_further.
Qed.
End Silent.

(** no agreement with this Raft.  [raft.go] sends nothing on the apply channel and
    saves no snapshot, so every store of the test is reached by a silent run; then
    [one] returns no index, whatever server claims to lead and however long it polls,
    and [checkNoAgreement] never fails for a commit. *)
Theorem no_agreement {Cmd} `{EqDecision Cmd} encode decode n snapshot (rounds : list (round Cmd))
    cmd expected retry len starts :
  (forall rd st, rd ∈ rounds -> st ∈ rd_polls rd ->
     exists ls, Forall silent ls /\ rrun encode decode (makeTest n snapshot) ls = Ret st) ->
  (forall index, one rounds false cmd expected retry len starts <> Ret index) /\
  (forall rd st index, rd ∈ rounds -> st ∈ rd_polls rd ->
     forall nd c, nCommitted st index = Ret (nd, c) -> nd = 0 /\ checkNoAgreement st index = Ret tt).
Proof.
  intros Hst0.
  assert (Hst : forall rd st, rd ∈ rounds -> st ∈ rd_polls rd -> empty_logs st).
  { intros rd st Hrd Hs. destruct (Hst0 rd st Hrd Hs) as (ls & Hl & Hrun).
    eapply (silent_run encode decode ls); [|done|done]. intros id rs Hi. done. }
  split; [clear Hst0|].
  - intros index. revert starts. induction rounds as [|rd rounds' IH]; intros starts; cbn [one]; [done|].
    intros ([idx starts'] & _ & Ho)%outcome_bind_inv.
    assert (IH' : forall s, one rounds' false cmd expected retry len s <> Ret index)
      by (intros s; apply IH; intros rd' st Hrd'; apply Hst; by apply list_elem_of_further).
    destruct (negb _); [|by apply (IH' starts')].
    apply outcome_bind_inv in Ho as (agreed & Hp & Ho). destruct agreed.
    + apply empty_poll in Hp; [done|]. intros st Hin. eapply Hst; [apply list_elem_of_here|done].
    + destruct (negb retry); [done|by apply (IH' starts')].
  - intros rd st index Hrd Hs nd c Hn.
    assert (nd = 0) as -> by (eapply empty_nCommitted; [by eapply Hst|done]). split; [done|].
    unfold checkNoAgreement. by rewrite Hn.
Qed.

Module SilentDemo.
Definition labels : list (rlabel (Cmd := nat)) :=
  [RMake 0 1 0 MakePersister; RPeer 0 RaftSrvDemo.leader].
End SilentDemo.

Lemma no_agreement_witness :
  exists st, rrun RaftSrvDemo.encode RaftSrvDemo.decode (makeTest 1 false) SilentDemo.labels = Ret st /\
    one [mkRound (fun _ => mkWorld st (fun _ => true)) [st; st]] false (Some 8%nat) 1 true 1 0 <> Ret 2.
Proof.
  assert (Hc : is_Ret (rrun RaftSrvDemo.encode RaftSrvDemo.decode (makeTest 1 false) SilentDemo.labels) = true)
    by (vm_compute; reflexivity).
  destruct (rrun _ _ _ _) as [st| |] eqn:E; try discriminate Hc. exists st. split; [reflexivity|].
  apply (no_agreement RaftSrvDemo.encode RaftSrvDemo.decode 1 false
    [mkRound (fun _ => mkWorld st (fun _ => true)) [st; st]]).
  intros rd st' Hrd Hs. apply list_elem_of_singleton in Hrd as ->. exists SilentDemo.labels.
  split; [repeat constructor|]. simpl in Hs. apply elem_of_cons in Hs as [->|Hs]; [exact E|].
  apply list_elem_of_singleton in Hs as ->. exact E.
Defined.

(** A reader that is still running when its server has been killed ends the process at
    the next index to snapshot: [rs.raft] is nil. *)
Lemma killed_reader_fails {Cmd} `{EqDecision Cmd} encode decode (st st' : rstore Cmd) id rs m :
  rinv st -> st_inst st !! id = Some (Kill rs) -> SnapshotValid m = false -> CommandValid m = true ->
  Z.rem (wrap64 (CommandIndex m + 1)) SnapShotInterval = 0 ->
  applierSnap encode decode st id m <> Ret st'.
Proof.
  intros H Hi Hs Hc Hr. unfold applierSnap. rewrite (at_Ret _ _ _ Hi), Hs, Hc. step_bind.
  intros ([st1 err] & Ho & Ha)%outcome_bind_inv. apply outcome_bind_inv in Ha as (rs1 & Hrs1%at_inv & Ha).
  apply outcome_bind_inv in Ha as (rs2 & Ht & Ha). destruct err; [done|].
  destruct (negb _); [done|]. apply outcome_bind_inv in Ho as ([[st2 err] prevok] & Hl & He).
  destruct (_ && negb prevok); [done|]. injection He as -> ->.
  apply checkLogs_passes in Hl as (id' & r & Hsl & Hr' & -> & _ & _). simpl in Hrs1.
  assert (Hn : rs_raft rs1 = None).
  { destruct (decide (id' = id)) as [->|Hne].
    - rewrite list_lookup_insert_eq in Hrs1 by (by eapply lookup_lt_Some). injection Hrs1 as <-.
      simpl. assert (r = Kill rs) as -> by congruence. unfold Kill. simpl. by destruct (rs_persister rs).
    - rewrite list_lookup_insert_ne in Hrs1 by done. assert (rs1 = Kill rs) as -> by congruence.
      unfold Kill. simpl. by destruct (rs_persister rs). }
  unfold take_snapshot in Ht. rewrite Hr, Z.eqb_refl in Ht. simpl in Ht. by rewrite Hn in Ht.
Qed.

(** ** Snapshots restore the log *)

Section Snapshots.
Context {Cmd : Type} `{EqDecision Cmd}.
Variable encode : Z * list (any Cmd) -> list Byte.byte.
Variable decode : list Byte.byte -> option (Z * list (any Cmd)).
(** [labgob] decodes what it has encoded, and no encoding is empty. *)
Hypothesis decode_encode : forall x, decode (encode x) = Some x.
Hypothesis encode_nonempty : forall x, (0 < length (encode x))%nat.

Lemma logs_of_snapshot (logs : gmap Z (any Cmd)) last idx :
  0 <= last ->
  logs_of (snapshot_log logs last) !! idx =
    if decide (0 <= idx <= last) then Some (default None (logs !! idx)) else None.
Proof.
  intros Hl. rewrite logs_of_lookup. unfold snapshot_log. rewrite list_lookup_fmap, range_lookup.
  destruct (decide (0 <= idx)); [|by rewrite decide_False by lia].
  destruct (decide (idx <= last)).
  - rewrite !decide_True by lia. simpl. by rewrite Z2Nat.id.
  - by rewrite !decide_False by lia.
Qed.

(** C33: a snapshot restores the log.  What a living server hands to Raft when a snapshot is
    due after it has applied [last] ([take_snapshot] of [applierSnap]), ingested by any server from the apply channel or found by a new
    server in its persister, gives exactly the entries up to [last], nil at an index
    that had none, and the reader goes on after [last]. *)
Theorem snapshot_restores (rs rs' : rfsrv Cmd) last index now peers srv ps :
  0 <= last -> index = -1 \/ index = last ->
  ReadSnapshot ps = encode (last, snapshot_log (rs_logs rs) last) ->
  (forall rf, rs_raft rs = Some rf -> Z.rem (wrap64 (last + 1)) SnapShotInterval = 0 ->
     take_snapshot encode rs last =
       Ret (set_raft rs (Some (Snapshot rf last (encode (last, snapshot_log (rs_logs rs) last)))))) /\
  exists s s',
    ingestSnap decode rs' (Some (encode (last, snapshot_log (rs_logs rs) last))) index = Ret (s, None) /\
    newRfsrv decode true now peers srv ps = Ret s' /\
    rs_lastApplied s = last /\ rs_lastApplied s' = last /\ rs_logs s' = rs_logs s /\
    forall idx, rs_logs s !! idx =
      if decide (0 <= idx <= last) then Some (default None (rs_logs rs !! idx)) else None.
Proof.
  intros Hl Hi Hps. split; [intros rf Hrf Hdue; unfold take_snapshot; by rewrite Hdue, Hrf|].
  unfold ingestSnap, newRfsrv. rewrite Hps.
  pose proof (encode_nonempty (last, snapshot_log (rs_logs rs) last)).
  rewrite (proj2 (Z.ltb_lt 0 _)) by lia. unfold ingestSnap. rewrite !decode_encode.
  replace (negb (index =? -1) && negb (index =? last)) with false
    by (destruct Hi as [-> | ->]; [done|by rewrite Z.eqb_refl, andb_false_r]).
  step_bind. eexists _, _. split; [done|]. split; [done|]. do 3 (split; [done|]).
  intros idx. by apply logs_of_snapshot.
Qed.
End Snapshots.

(** A codec with these laws. *)
Module SnapshotDemo.
Fixpoint to_bytes (p : positive) : list Byte.byte :=
  match p with
  | xI p => Byte.x01 :: to_bytes p
  | xO p => Byte.x00 :: to_bytes p
  | xH => [Byte.x02]
  end.
Fixpoint of_bytes (l : list Byte.byte) : option positive :=
  match l with
  | [Byte.x02] => Some xH
  | Byte.x01 :: l => xI <$> of_bytes l
  | Byte.x00 :: l => xO <$> of_bytes l
  | _ => None
  end.
Definition enc (x : Z * list (any nat)) : list Byte.byte := to_bytes (encode x).
Definition dec (data : list Byte.byte) : option (Z * list (any nat)) := p ← of_bytes data; decode p.

Lemma of_to_bytes p : of_bytes (to_bytes p) = Some p.
Proof. induction p as [p IH|p IH|]; cbn [to_bytes of_bytes]; [..|done]; rewrite IH; done. Qed.

Lemma dec_enc x : dec (enc x) = Some x.
Proof. unfold dec, enc. rewrite of_to_bytes. step_bind. apply decode_encode. Qed.

Lemma enc_nonempty x : (0 < length (enc x))%nat.
Proof. unfold enc. destruct (encode x); simpl; lia. Qed.
End SnapshotDemo.

Lemma snapshot_restores_witness :
  let rs := mkRfsrv 0 None 2 None None {[1 := Some 7%nat; 2 := Some 8%nat; 3 := Some 9%nat]} in
  exists s, ingestSnap SnapshotDemo.dec rs (Some (SnapshotDemo.enc (2, snapshot_log (rs_logs rs) 2))) 2 =
      Ret (s, None) /\ rs_logs s !! 1 = Some (Some 7%nat) /\ rs_logs s !! 3 = None.
Proof.
  intros rs.
  destruct (snapshot_restores SnapshotDemo.enc SnapshotDemo.dec SnapshotDemo.dec_enc SnapshotDemo.enc_nonempty
    rs rs 2 2 0 1 0 (mkPersister [] (SnapshotDemo.enc (2, snapshot_log (rs_logs rs) 2))))
    as [_ (s & s' & Hs & _ & _ & _ & _ & Hl)]; [lia|right; reflexivity|reflexivity|].
  exists s. split; [exact Hs|]. rewrite !Hl. split; reflexivity.
Defined.
