(* ===== verification/RaftCheck.v ===== *)
(** The checks of [raft1/test.go] that read the roles of the servers, on the cluster of
    [RaftNet.v]: [checkOneLeader] never sees two leaders of one term, although it reads
    the servers one after the other while the cluster runs on. *)
From S2P Require Import Prelude.
From S2P Require Import Raft.
From S2P Require Import RaftNet.
From S2P Require Import RaftSrv.
Open Scope Z_scope.

Section Check.
Context {Cmd : Type} `{EqDecision Cmd}.
Variable n : nat.

(** The servers hold the peers of the cluster: server [i] is read at the moment when
    the cluster is [ss i]. *)
Definition reads (ws : nat -> world Cmd) (ss : nat -> net (Cmd := Cmd)) : Prop :=
  forall i, (i < n)%nat -> exists rs, inst (w_store (ws i)) i = Ret rs /\
    rs_raft rs = Some (net_srv (ss i) (Z.of_nat i)).

(** Server [i] is connected and leads in term [t] when it is read. *)
Definition seen (ws : nat -> world Cmd) (ss : nat -> net (Cmd := Cmd)) (t : Z) (i : nat) : Prop :=
  (i < n)%nat /\ w_conn (ws i) i = true /\ rf_state (net_srv (ss i) (Z.of_nat i)) = Leader /\
  rf_currentTerm (net_srv (ss i) (Z.of_nat i)) = t.

Lemma state_of_reads ws ss i :
  reads ws ss -> (i < n)%nat -> state_of (ws i) i = Ret (GetState (net_srv (ss i) (Z.of_nat i))).
Proof.
  intros Hr Hi. destruct (Hr i Hi) as (rs & Hrs & Hrf). unfold state_of. rewrite Hrs. step_bind.
  unfold rfsrv_GetState. by rewrite Hrf.
Qed.

(** The map of leaders after the servers of [l]. *)
Definition leaders_ok (ws : nat -> world Cmd) ss (l : list nat) (leaders : gmap Z (list nat)) : Prop :=
  (forall t is_, leaders !! t = Some is_ -> is_ <> [] /\ NoDup is_) /\
  (forall t i, i ∈ default [] (leaders !! t) <-> i ∈ l /\ seen ws ss t i).

Lemma seen_snoc (P : nat -> Prop) (found l : list nat) i j :
  (j ∈ found <-> j ∈ l /\ P j) -> P i -> j ∈ found ++ [i] <-> j ∈ l ++ [i] /\ P j.
Proof.
  intros Hf Hi. rewrite !elem_of_app, Hf, list_elem_of_singleton. split.
  - intros [[? ?]| ->]; (split; [tauto|done]).
  - intros [[?| ->] ?]; tauto.
Qed.

Lemma seen_skip (P : nat -> Prop) (found l : list nat) i j :
  (j ∈ found <-> j ∈ l /\ P j) -> ~ P i -> j ∈ found <-> j ∈ l ++ [i] /\ P j.
Proof.
  intros Hf Hi. rewrite elem_of_app, Hf, list_elem_of_singleton. split.
  - intros [? ?]. tauto.
  - intros [[?| ->] ?]; tauto.
Qed.

Lemma read_leader_ok ws ss l i leaders :
  reads ws ss -> (i < n)%nat -> i ∉ l -> leaders_ok ws ss l leaders ->
  exists leaders', read_leader ws leaders i = Ret leaders' /\ leaders_ok ws ss (l ++ [i]) leaders'.
Proof.
  intros Hr Hi Hni [H1 H2]. unfold read_leader. destruct (w_conn (ws i) i) eqn:Ec.
  - rewrite (state_of_reads ws ss i Hr Hi). step_bind. unfold GetState. eexists. split; [done|].
    set (rf := net_srv (ss i) (Z.of_nat i)). case_bool_decide as Hl.
    + split.
      * intros t is_. unfold add_leader. rewrite lookup_insert. case_decide as Ht; [|apply H1].
        intros [= <-]. split; [by destruct (default [] _)|]. subst t. apply NoDup_app. split; [|split].
        -- destruct (leaders !! _) as [is_|] eqn:E; [by apply (H1 _ _ E)|constructor].
        -- intros j [Hj _]%H2 ->%list_elem_of_singleton. done.
        -- apply NoDup_singleton.
      * assert (Hs : seen ws ss (rf_currentTerm rf) i) by (by repeat split).
        intros t j. unfold add_leader. rewrite lookup_insert. case_decide as Ht; simpl.
        -- subst t. by apply (seen_snoc (seen ws ss (rf_currentTerm rf))).
        -- apply (seen_skip (seen ws ss t)); [apply H2|]. intros Hs'. apply Ht, Hs'.
    + split; [done|]. intros t j. apply (seen_skip (seen ws ss t)); [apply H2|]. intros Hs. apply Hl, Hs.
  - exists leaders. split; [done|]. split; [done|]. intros t j.
    apply (seen_skip (seen ws ss t)); [apply H2|]. intros (_ & Hc & _). congruence.
Qed.

Lemma read_leaders_ok ws ss k :
  reads ws ss -> (k <= n)%nat ->
  exists leaders, foldM (read_leader ws) (seq 0 k) ∅ = Ret leaders /\ leaders_ok ws ss (seq 0 k) leaders.
Proof.
  intros Hr. induction k as [|k IH]; intros Hk.
  - exists ∅. split; [done|]. split; [intros t is_; by rewrite lookup_empty|].
    intros t i. rewrite lookup_empty. simpl. split; [by intros ?%elem_of_nil|by intros [?%elem_of_nil _]].
  - destruct IH as (l1 & H1 & Hl); [lia|].
    destruct (read_leader_ok ws ss (seq 0 k) k l1) as (l2 & H2 & Hl2); [done|lia|rewrite elem_of_seq; lia|done|].
    exists l2. rewrite seq_S, foldM_app, H1. step_bind. simpl. by rewrite H2.
Qed.

(** ** One iteration *)

Lemma foldl_max (l : list (Z * list nat)) : forall m,
  let r := foldl (fun last tl => if tl.1 >? last then tl.1 else last) m l in
  m <= r /\ (forall tl, tl ∈ l -> tl.1 <= r) /\ (r = m \/ exists tl, tl ∈ l /\ tl.1 = r).
Proof.
  induction l as [|tl l IH]; intros m; cbn [foldl]; [split; [done|split; [set_solver|by left]]|].
  destruct (IH (if tl.1 >? m then tl.1 else m)) as (H1 & H2 & H3).
  split; [destruct (Z.gtb_spec tl.1 m); lia|]. split.
  - intros tl' [->|Hin]%elem_of_cons; [destruct (Z.gtb_spec tl.1 m); lia|by apply H2].
  - destruct H3 as [->|(tl' & ? & ?)]; [|right; exists tl'; split; [by apply list_elem_of_further|done]].
    destruct (Z.gtb_spec tl.1 m); [right; exists tl; split; [apply list_elem_of_here|done]|by left].
Qed.

Lemma leader_pass_ok ws ss :
  reads ws ss -> (forall t i j, seen ws ss t i -> seen ws ss t j -> i = j) ->
  (forall t i, seen ws ss t i -> 0 <= t) ->
  exists r, leader_pass n ws = Ret r /\
    match r with
    | Some i => exists t, seen ws ss t i /\ forall t' j, seen ws ss t' j -> t' <= t
    | None => forall t j, ~ seen ws ss t j
    end.
Proof.
  intros Hr Hu Hpos. unfold leader_pass.
  destruct (read_leaders_ok ws ss n Hr ltac:(lia)) as (leaders & -> & H1 & H2). step_bind.
  assert (Hone : forall t is_, leaders !! t = Some is_ -> exists i, is_ = [i] /\ seen ws ss t i).
  { intros t is_ Hl. destruct (H1 t is_ Hl) as [Hne Hnd].
    assert (Hall : forall i, i ∈ is_ -> seen ws ss t i)
      by (intros i Hi; apply H2; by rewrite Hl).
    destruct is_ as [|i [|j is_]]; [done| |].
    - exists i. split; [done|]. apply Hall, list_elem_of_here.
    - exfalso. apply NoDup_cons in Hnd as [Hni _]. apply Hni.
      rewrite (Hu t i j); [apply list_elem_of_here|apply Hall, list_elem_of_here|].
      apply Hall, list_elem_of_further, list_elem_of_here. }
  rewrite (foldM_foldl _ (fun last tl => if tl.1 >? last then tl.1 else last)).
  2: { intros last [t is_] Hin. apply elem_of_map_to_list in Hin.
       destruct (Hone t is_ Hin) as (i & -> & _). done. }
  step_bind. destruct (foldl_max (map_to_list leaders) (-1)) as (Hm1 & Hm2 & Hm3).
  set (lst := foldl _ _ _) in *. case_bool_decide as He.
  - exists None. split; [done|]. intros t j Hs. assert (Hj : j ∈ default [] (leaders !! t)).
    { apply H2. split; [apply elem_of_seq; destruct Hs; lia|done]. }
    rewrite He, lookup_empty in Hj. by apply elem_of_nil in Hj.
  - assert (Hmax : forall t j, seen ws ss t j -> t <= lst).
    { intros t j Hs. assert (Hj : j ∈ default [] (leaders !! t)).
      { apply H2. split; [apply elem_of_seq; destruct Hs; lia|done]. }
      destruct (leaders !! t) as [is_|] eqn:El; [|by apply elem_of_nil in Hj].
      apply (Hm2 (t, is_)). by apply elem_of_map_to_list. }
    assert (Hl : exists is_, leaders !! lst = Some is_).
    { destruct Hm3 as [Hm3|([t is_] & Hin & Ht)].
      - exfalso. apply map_choose in He as (t & is_ & Hl). destruct (Hone t is_ Hl) as (i & _ & Hs).
        pose proof (Hmax t i Hs). pose proof (Hpos t i Hs). lia.
      - simpl in Ht. subst t. exists is_. by apply elem_of_map_to_list in Hin. }
    destruct Hl as (is_ & Hl). destruct (Hone lst is_ Hl) as (i & -> & Hs). rewrite Hl.
    exists (Some i). split; [done|]. exists lst. split; [done|]. done.
Qed.

(** ** On the cluster *)

(** Server [a] is read before server [b] for [a <= b], and the cluster runs in between. *)
Definition chained (ss : nat -> net (Cmd := Cmd)) : Prop :=
  forall a b, (a <= b)%nat -> (b < n)%nat -> exists l1 l2,
    Z.of_nat (length l1 + length l2) <= int_max /\
    net_run n (net_init n) l1 = Some (ss a) /\ net_run n (ss a) l2 = Some (ss b).

Lemma seen_unique ws ss t i j : chained ss -> seen ws ss t i -> seen ws ss t j -> i = j.
Proof.
  intros Ho. assert (Hle : forall i j, (i <= j)%nat -> seen ws ss t i -> seen ws ss t j -> i = j).
  { intros a b Hab (Ha & _ & La & Ta) (Hb & _ & Lb & Tb).
    destruct (Ho a b Hab Hb) as (l1 & l2 & Hlen & Hra & Hrb).
    destruct (net_run_inv n l1 (ss a) ltac:(lia) Hra) as (h & c & Hinv).
    destruct (net_run_inv_from n (Z.of_nat (length l1)) (ss a) h c l2 (ss b) ltac:(lia) Hinv Hrb)
      as (h' & c' & Hh & Hinv').
    enough (Z.of_nat a = Z.of_nat b) by lia.
    eapply (leaders_agree n _ _ (ss a) (ss b) h h' c c'); try done; unfold peer; [lia..|congruence]. }
  intros Hi Hj. destruct (Nat.le_ge_cases i j); [by apply Hle|symmetry; by apply Hle].
Qed.

Lemma seen_term ws ss t i : chained ss -> seen ws ss t i -> 0 <= t.
Proof.
  intros Ho (Hi & _ & _ & Ht). destruct (Ho i i ltac:(lia) Hi) as (l1 & l2 & Hlen & Hr & _).
  destruct (net_run_inv n l1 (ss i) ltac:(lia) Hr) as (h & c & Hinv).
  pose proof (si_term _ _ _ _ (ni_srv _ _ _ _ _ Hinv) (Z.of_nat i) ltac:(unfold peer; lia)). lia.
Qed.

Lemma leader_pass_chained ws ss :
  chained ss -> reads ws ss ->
  exists r, leader_pass n ws = Ret r /\
    match r with
    | Some i => exists t, seen ws ss t i /\ forall t' j, seen ws ss t' j -> t' <= t
    | None => forall t j, ~ seen ws ss t j
    end.
Proof.
  intros Ho Hr. apply leader_pass_ok; [done| |].
  - intros t i j. by apply seen_unique.
  - intros t i. by apply seen_term.
Qed.
End Check.

(** The steps up to the read of server [i], [segs j] being those just before the read of
    server [j]. *)
Definition steps_to {L} (segs : nat -> list L) (i : nat) : list L := concat (segs <$> seq 0 (S i)).

Lemma steps_to_mono {L} (segs : nat -> list L) i j :
  (i <= j)%nat -> exists rest, steps_to segs j = steps_to segs i ++ rest.
Proof.
  intros Hij. exists (concat (segs <$> seq (S i) (j - i))). unfold steps_to.
  rewrite <- concat_app, <- fmap_app, <- seq_app. do 3 f_equal. lia.
Qed.

(** [checkOneLeader] and the cluster.  The harness reads the servers one after the
    other while the cluster runs on and whatever servers are connected: an iteration
    never finds two leaders of one term, so that it never fails the test; it returns a
    server that led, when it was read, in the highest term seen, and goes round again
    exactly when no connected server led. *)
Theorem checkOneLeader_pass {Cmd} `{EqDecision Cmd} n (ws : nat -> world Cmd) segs ss :
  Z.of_nat (length (steps_to segs n)) <= int_max ->
  (forall i, (i < n)%nat -> net_run n (net_init n) (steps_to segs i) = Some (ss i)) -> reads n ws ss ->
  exists r, leader_pass n ws = Ret r /\
    match r with
    | Some i => exists t, seen n ws ss t i /\ forall t' j, seen n ws ss t' j -> t' <= t
    | None => forall t j, ~ seen n ws ss t j
    end.
Proof.
  intros Hlen Ho. apply leader_pass_chained. intros a b Hab Hb.
  destruct (steps_to_mono segs a b Hab) as (rest & Hrest).
  destruct (steps_to_mono segs b n ltac:(lia)) as (rest' & Hrest').
  exists (steps_to segs a), rest. split; [rewrite Hrest', Hrest, !length_app in Hlen; lia|].
  split; [by apply Ho; lia|]. pose proof (Ho b Hb) as Hrb.
  rewrite Hrest, net_run_app, (Ho a ltac:(lia)) in Hrb. exact Hrb.
Qed.

Module CheckDemo.
Definition server (s : net (Cmd := nat)) (i : nat) : rfsrv nat :=
  mkRfsrv i None 0 None (Some (net_srv s (Z.of_nat i))) ∅.
Definition ws (s : net (Cmd := nat)) (i : nat) : world nat :=
  mkWorld (mkRstore [server s 0; server s 1; server s 2] [Some 0%nat; Some 1%nat; Some 2%nat] 0 false)
    (fun _ => true).
Definition segs (i : nat) : list (nlabel (Cmd := nat)) := match i with O => run_elect_0 | _ => [] end.
Definition finds (s : net (Cmd := nat)) : bool :=
  match leader_pass 3 (ws s) with Ret (Some i) => (i =? 0)%nat | _ => false end.
End CheckDemo.

Lemma checkOneLeader_pass_witness :
  exists s, net_run 3 (net_init 3) run_elect_0 = Some s /\
    leader_pass 3 (CheckDemo.ws s) = Ret (Some 0%nat) /\
    exists t, seen 3 (CheckDemo.ws s) (fun _ => s) t 0.
Proof.
  destruct (passes_inv CheckDemo.finds (net_run 3 (net_init 3) run_elect_0)) as (s & Hs & Hl);
    [by vm_compute|]. exists s. split; [exact Hs|].
  destruct (checkOneLeader_pass 3 (CheckDemo.ws s) CheckDemo.segs (fun _ => s)) as (r & Hp & Hr).
  - by vm_compute.
  - intros i Hi. destruct i as [|[|[|i]]]; [exact Hs|exact Hs|exact Hs|lia].
  - intros i Hi. destruct i as [|[|[|i]]]; [..|lia]; (eexists; split; [reflexivity|reflexivity]).
  - unfold CheckDemo.finds in Hl. rewrite Hp in Hl. destruct r as [i|]; [|discriminate Hl].
    apply Nat.eqb_eq in Hl as ->. split; [exact Hp|]. destruct Hr as (t & Ht & _). exists t. exact Ht.
Defined.
