(* ===== verification/RaftTest.v ===== *)
(** The system a Raft test runs ([raft1/test.go]): the peers of [RaftNet.v] behind the
    ends of a server group of [Tester.v].  The harness partitions, disconnects, shuts
    down and restarts servers while the peers run; an RPC reaches a peer only through
    an enabled end that leads to a running server, and its reply comes back only if
    that is still so. *)
From S2P Require Import Prelude.
From S2P Require Import Raft.
From S2P Require Import RaftNet.
From S2P Require Import Labrpc.
From S2P Require Import Tester.
From S2P Require Import TestCfg.
From S2P Require Import RaftSrv.
From S2P Require Import RaftCheck.
Open Scope Z_scope.

Arguments Sent {R}.
Arguments Replied {R} r.
Arguments Over {R}.

(** ** One RPC in the network *)

(** What [processReq] has done for one call: nothing yet, [readEndnameInfo] found the
    server and a goroutine dispatches, the handler has returned, the answer is on its
    way to the caller, or the call has failed. *)
Inductive wstage :=
| WSent
| WBound (name : string) (srv : nat)
| WRan (name : string) (srv : nat)
| WAnswered
| WFailed.

(** The end a call was made on, by which instance of its caller. *)
Record wire := mkWire { wr_end : string; wr_inst : nat; wr_stage : wstage }.

Definition set_wstage (w : wire) (st : wstage) : wire := mkWire (wr_end w) (wr_inst w) st.

Definition bind_wire (rn : Network) (w : wire) : option wire :=
  match wr_stage w with
  | WSent =>
      let '(enabled, servername, server, _, _) := readEndnameInfo rn (wr_end w) in
      match enabled, servername, server with
      | true, Some name, Some srv => Some (set_wstage w (WBound name srv))
      | _, _, _ => Some (set_wstage w WFailed)
      end
  | _ => None
  end.

Definition finish_wire (rn : Network) (w : wire) : option wire :=
  match wr_stage w with
  | WRan name srv =>
      Some (set_wstage w (if isServerDead rn (wr_end w) name srv then WFailed else WAnswered))
  | _ => None
  end.

(** Takes a successful step apart into its binds. *)
Ltac split_step H :=
  repeat match type of H with
    | (_ ← ?x; _) = Some _ => let E := fresh "E" in destruct x eqn:E; [cbn [mbind option_bind] in H|discriminate H]
    | (let '(_, _) := ?x in _) = Some _ => destruct x
    end.

Section RaftTest.
Context {Cmd : Type}.
Variable n : nat.
Variable Randstring : nat -> string.

(** [ty_wv] and [ty_wa] hold the wire of every vote request and every heartbeat;
    [ty_labsrv] the [labrpc] server that leads to each peer, [ty_inst] how often each
    server has been started again. *)
Record tsys := mkTsys {
  ty_grp : group;
  ty_net : net (Cmd := Cmd);
  ty_wv : list wire;
  ty_wa : list wire;
  ty_labsrv : Z -> nat;
  ty_inst : Z -> nat
}.

Definition set_grp (t : tsys) (g : group) : tsys :=
  mkTsys g (ty_net t) (ty_wv t) (ty_wa t) (ty_labsrv t) (ty_inst t).
Definition set_cluster (t : tsys) (s : net (Cmd := Cmd)) (wv wa : list wire) : tsys :=
  mkTsys (ty_grp t) s wv wa (ty_labsrv t) (ty_inst t).

(** A group that has been started ([MakeGroupStart]) with its new peers. *)
Definition t_init (g : group) : tsys :=
  mkTsys g (net_init n) [] []
    (fun i => default 0%nat (server_of (g_net g) (ServerName (g_gid g) i))) (fun _ => 0%nat).

(** What a test does to the network while the servers run. *)
Inductive gop :=
| GPartition (p1 p2 : list nat)
| GConnectOne (i : nat)
| GConnectAll
| GDisconnectAll (i : nat)
| GReliable (yes : bool)
| GLongReordering (yes : bool).

Definition run_gop (g : group) (op : gop) : outcome group :=
  match op with
  | GPartition p1 p2 => Partition g p1 p2
  | GConnectOne i => ConnectOne g i
  | GConnectAll => ConnectAll g
  | GDisconnectAll i => DisconnectAll g i
  | GReliable b => Ret (with_net g (Reliable (g_net g) b))
  | GLongReordering b => Ret (with_net g (LongReordering (g_net g) b))
  end.

Inductive tlabel :=
| TElection (i now timeout : Z)
| THeartbeat (i now : Z)
| TStart (i : Z) (command : option Cmd)
| TVoteBind (k : nat)
| TVoteExec (k : nat)
| TVoteFinish (k : nat)
| TVoteReply (k : nat)
| TAppendBind (k : nat)
| TAppendExec (k : nat) (now : Z)
| TAppendFinish (k : nat)
| TAppendReply (k : nat)
| TGroup (op : gop)
| TShutdown (i : Z)
| TRestart (i now : Z).

(** The wires of the calls [tos] of peer [i]. *)
Definition new_wires (t : tsys) (i : Z) (tos : list Z) : list wire :=
  (fun to => mkWire (en (ty_grp t) (Z.to_nat i) (Z.to_nat to)) (ty_inst t i) WSent) <$> tos.

(** The handler of a bound call runs on the peer its [labrpc] server was made for.
    When that peer has been replaced, it is the old object that changes, which nothing
    reads any more. *)
Definition exec_on (t : tsys) (to : Z) (w : wire) (lab : nlabel) : option (wire * net (Cmd := Cmd)) :=
  match wr_stage w with
  | WBound name srv =>
      if bool_decide (srv = ty_labsrv t to) then
        s ← net_step n (ty_net t) lab; Some (set_wstage w (WRan name srv), s)
      else Some (set_wstage w (WRan name srv), ty_net t)
  | _ => None
  end.

(** An answer for instance [from] of the caller; an instance that has been replaced gets
    its answers in vain. *)
Definition answer_on (t : tsys) (from : Z) (w : wire) (lab : nlabel) : option (wire * net (Cmd := Cmd)) :=
  match wr_stage w with
  | WAnswered =>
      if bool_decide (wr_inst w = ty_inst t from) then
        s ← net_step n (ty_net t) lab; Some (w, s)
      else None
  | _ => None
  end.

Definition t_step (t : tsys) (lab : tlabel) : option tsys :=
  let s := ty_net t in
  match lab with
  | TElection i now timeout =>
      s' ← net_step n s (LElection i now timeout);
      Some (set_cluster t s'
        (ty_wv t ++ new_wires t i (vc_to <$> drop (length (net_votes s)) (net_votes s'))) (ty_wa t))
  | THeartbeat i now =>
      s' ← net_step n s (LHeartbeat i now);
      Some (set_cluster t s' (ty_wv t)
        (ty_wa t ++ new_wires t i (ac_to <$> drop (length (net_appends s)) (net_appends s'))))
  | TStart i command => s' ← net_step n s (LStart i command); Some (set_cluster t s' (ty_wv t) (ty_wa t))
  | TVoteBind k =>
      w ← ty_wv t !! k; w' ← bind_wire (g_net (ty_grp t)) w;
      Some (set_cluster t s (<[k := w']> (ty_wv t)) (ty_wa t))
  | TVoteExec k =>
      w ← ty_wv t !! k; vc ← net_votes s !! k;
      '(w', s') ← exec_on t (vc_to vc) w (LVoteExec k);
      Some (set_cluster t s' (<[k := w']> (ty_wv t)) (ty_wa t))
  | TVoteFinish k =>
      w ← ty_wv t !! k; w' ← finish_wire (g_net (ty_grp t)) w;
      Some (set_cluster t s (<[k := w']> (ty_wv t)) (ty_wa t))
  | TVoteReply k =>
      w ← ty_wv t !! k; vc ← net_votes s !! k; el ← net_elect s !! vc_eid vc;
      '(w', s') ← answer_on t (el_cand el) w (LVoteReply k);
      Some (set_cluster t s' (<[k := w']> (ty_wv t)) (ty_wa t))
  | TAppendBind k =>
      w ← ty_wa t !! k; w' ← bind_wire (g_net (ty_grp t)) w;
      Some (set_cluster t s (ty_wv t) (<[k := w']> (ty_wa t)))
  | TAppendExec k now =>
      w ← ty_wa t !! k; ac ← net_appends s !! k;
      '(w', s') ← exec_on t (ac_to ac) w (LAppendExec k now);
      Some (set_cluster t s' (ty_wv t) (<[k := w']> (ty_wa t)))
  | TAppendFinish k =>
      w ← ty_wa t !! k; w' ← finish_wire (g_net (ty_grp t)) w;
      Some (set_cluster t s (ty_wv t) (<[k := w']> (ty_wa t)))
  | TAppendReply k =>
      w ← ty_wa t !! k; ac ← net_appends s !! k;
      '(w', s') ← answer_on t (ac_from ac) w (LAppendReply k);
      Some (set_cluster t s' (ty_wv t) (<[k := w']> (ty_wa t)))
  | TGroup op => match run_gop (ty_grp t) op with Ret g => Some (set_grp t g) | _ => None end
  | TShutdown i =>
      s' ← net_step n s (LKill i);
      match ShutdownServer (ty_grp t) (Z.to_nat i) with
      | Ret g => Some (set_grp (set_cluster t s' (ty_wv t) (ty_wa t)) g)
      | _ => None
      end
  | TRestart i now =>
      if is_peer n i then
        match StartServer Randstring (ty_grp t) (Z.to_nat i) with
        | Ret g =>
            let s' := mkNet (<[i := Make now n i]> (net_srv s)) (<[i := now]> (net_timer s))
                        (net_elect s) (net_votes s) (net_appends s) in
            Some (mkTsys g s' (ty_wv t) (ty_wa t) (<[i := g_labsrvs (ty_grp t)]> (ty_labsrv t))
                    (<[i := S (ty_inst t i)]> (ty_inst t)))
        | _ => None
        end
      else None
  end.

(** [restart] of the test. *)
Definition restart (i now : Z) : list tlabel := [TRestart i now; TGroup GConnectAll].

Fixpoint t_run (t : tsys) (labs : list tlabel) : option tsys :=
  match labs with
  | [] => Some t
  | lab :: labs' => t' ← t_step t lab; t_run t' labs'
  end.

Lemma t_run_app t labs1 labs2 :
  t_run t (labs1 ++ labs2) = t' ← t_run t labs1; t_run t' labs2.
Proof.
  revert t. induction labs1 as [|lab labs1 IH]; intros t; [done|]. simpl.
  destruct (t_step t lab); simpl; [apply IH|done].
Qed.

(** ** Well-typed peers *)

(** A peer of a run of [k] steps: its term, its vote, its log with the sentinel that
    [Make] puts at index 0, and what a leader knows of the others. *)
Record raft_ty (k i : Z) (rf : Raft Cmd) : Prop := {
  rt_me : rf_me rf = i /\ rf_peers rf = n;
  rt_term : 0 <= rf_currentTerm rf <= k;
  rt_vote : rf_votedFor rf = -1 \/ peer n (rf_votedFor rf);
  rt_own : rf_state rf <> Follower -> rf_votedFor rf = i;
  rt_applied : rf_commitIndex rf = 0 /\ rf_lastApplied rf = 0;
  rt_sentinel : rf_logs rf !! 0 = Some (mkLogEntry 0 None);
  rt_logs j e : rf_logs rf !! j = Some e -> 0 <= j /\ 0 <= LogEntry_Term e <= rf_currentTerm rf;
  rt_leader j : rf_state rf = Leader -> peer n j -> j <> i ->
    rf_matchIndex rf !! j = Some 0 /\ exists x, rf_nextIndex rf !! j = Some x /\ 1 <= x
}.

Lemma raft_ty_weaken k k' i rf : k <= k' -> raft_ty k i rf -> raft_ty k' i rf.
Proof. intros Hk [H1 H2 H3 H4 H5 H6 H7 H8]. split; try done. lia. Qed.

Lemma raft_ty_Make k now i : 0 <= k -> raft_ty k i (Make now n i).
Proof.
  intros Hk. split; simpl; try done; try lia.
  intros j e [<- <-]%lookup_singleton_Some. simpl. lia.
Qed.

(** Stepping down, voting, and hearing from a leader. *)
Lemma raft_ty_follower k i rf t :
  rf_currentTerm rf <= t <= k -> raft_ty k i rf -> raft_ty k i (set_election rf Follower t (-1)).
Proof.
  intros Ht [H1 H2 H3 H4 H5 H6 H7 H8]. split; simpl; try done; [lia|by left|].
  intros j e He. apply H7 in He. lia.
Qed.

Lemma raft_ty_vote k i rf c :
  rf_votedFor rf = -1 \/ rf_votedFor rf = c -> peer n i -> peer n c -> raft_ty k i rf ->
  raft_ty k i (set_election rf (rf_state rf) (rf_currentTerm rf) c).
Proof.
  intros Hv Hi Hc [H1 H2 H3 H4 H5 H6 H7 H8]. split; simpl; try done; [by right|].
  intros Hnf. specialize (H4 Hnf). destruct Hv as [Hv|Hv]; [unfold peer in Hi; lia|congruence].
Qed.

Lemma raft_ty_heartbeat k i rf now : raft_ty k i rf -> raft_ty k i (set_heartbeat rf now).
Proof. by intros [H1 H2 H3 H4 H5 H6 H7 H8]. Qed.

Lemma RequestVote_ty k i rf args :
  peer n i -> peer n (RequestVoteArgs_CandidateId args) -> RequestVoteArgs_Term args <= k ->
  raft_ty k i rf -> raft_ty k i (RequestVote rf args).1 /\
    rf_currentTerm rf <= rf_currentTerm (RequestVote rf args).1 /\
    0 <= RequestVoteReply_Term (RequestVote rf args).2 <= k.
Proof.
  intros Hi Hc Hk Hrf. pose proof (rt_term _ _ _ Hrf) as Ht. unfold RequestVote.
  destruct (Z.ltb_spec (RequestVoteArgs_Term args) (rf_currentTerm rf)); [done|].
  rewrite Z.gtb_ltb. set (p := if _ <? _ then _ else _).
  assert (Hp : raft_ty k i p.1 /\ rf_currentTerm rf <= rf_currentTerm p.1 /\ 0 <= p.2 <= k).
  { unfold p. destruct (Z.ltb_spec (rf_currentTerm rf) (RequestVoteArgs_Term args)); [|done].
    split; [apply raft_ty_follower; [lia|done]|simpl; lia]. }
  clearbody p. destruct p as [rf1 t1]. simpl in Hp. destruct Hp as (Hp & Hle & Hr).
  destruct (((_ =? _) || (_ =? _)) && _) eqn:E; [|done]. simpl. split; [|done].
  apply raft_ty_vote; try done. apply andb_true_iff in E as [E _].
  apply orb_true_iff in E as [E|E]; apply Z.eqb_eq in E; auto.
Qed.

Lemma AppendEntries_ty k i now rf args :
  heartbeat_args args -> AppendEntriesArgs_Term args <= k ->
  raft_ty k i rf -> raft_ty k i (AppendEntries now rf args).1 /\
    rf_currentTerm rf <= rf_currentTerm (AppendEntries now rf args).1 /\
    0 <= AppendEntriesReply_Term (AppendEntries now rf args).2 <= k.
Proof.
  intros (Hprev & Hes & Hlc) Hk Hrf. pose proof (rt_term _ _ _ Hrf) as Ht.
  unfold AppendEntries. rewrite Hprev, Hes, Hlc, !Z.gtb_ltb.
  destruct (Z.ltb_spec (AppendEntriesArgs_Term args) (rf_currentTerm rf)); [done|].
  set (p := if _ <? _ then _ else _).
  assert (Hp : raft_ty k i p.1 /\ rf_currentTerm rf <= rf_currentTerm p.1 /\ 0 <= p.2 <= k).
  { unfold p. destruct (Z.ltb_spec (rf_currentTerm rf) (AppendEntriesArgs_Term args)); [|done].
    split; [apply raft_ty_follower; [lia|done]|simpl; lia]. }
  clearbody p. destruct p as [rf1 t1]. simpl in Hp. destruct Hp as (Hp & Hle & Hr).
  destruct (rt_applied _ _ _ Hp) as [Hci _]. simpl. rewrite Hci. simpl.
  split; [|done]. apply (raft_ty_heartbeat _ _ _ now) in Hp. by destruct Hp.
Qed.

Lemma heartbeat_reply_ty k i rf reply :
  AppendEntriesReply_Term reply <= k -> raft_ty k i rf ->
  raft_ty k i (heartbeat_reply rf reply) /\
    rf_currentTerm rf <= rf_currentTerm (heartbeat_reply rf reply).
Proof.
  intros Hk Hrf. unfold heartbeat_reply. rewrite Z.gtb_ltb.
  destruct (Z.ltb_spec (rf_currentTerm rf) (AppendEntriesReply_Term reply)); [|done].
  split; [apply raft_ty_follower; [lia|done]|simpl; lia].
Qed.

Lemma init_index_lookup js v : forall m j,
  init_index m js v !! j = if decide (j ∈ js) then Some v else m !! j.
Proof.
  unfold init_index. induction js as [|j0 js IH]; intros m j; [done|]. cbn [foldl]. rewrite IH.
  destruct (decide (j ∈ js)) as [Hj|Hj].
  - rewrite decide_True; [done|]. by apply list_elem_of_further.
  - destruct (decide (j = j0)) as [->|Hne].
    + rewrite lookup_insert_eq, decide_True; [done|]. apply list_elem_of_here.
    + rewrite lookup_insert_ne by done. rewrite decide_False; [done|].
      by intros [?|?]%elem_of_cons.
Qed.

Lemma vote_reply_ty k i rf args votes reply :
  RequestVoteReply_Term reply <= k -> raft_ty k i rf ->
  raft_ty k i (vote_reply rf args votes reply).1 /\
    rf_currentTerm rf <= rf_currentTerm (vote_reply rf args votes reply).1.
Proof.
  intros Hk Hrf. unfold vote_reply. case_bool_decide as Hc; simpl; [|done].
  destruct (rf_currentTerm rf =? _); simpl; [|done]. rewrite Z.gtb_ltb.
  destruct (Z.ltb_spec (rf_currentTerm rf) (RequestVoteReply_Term reply)); simpl.
  { split; [apply raft_ty_follower; [lia|done]|lia]. }
  destruct (RequestVoteReply_VoteGranted reply); [|done].
  destruct (_ >? _); [|done]. split; [|done]. destruct Hrf as [[H1 H1'] H2 H3 H4 H5 H6 H7 H8].
  split; simpl; try done; [intros _; apply H4; by rewrite Hc|].
  intros j _ Hj Hne. rewrite !init_index_lookup.
  rewrite !decide_True by (apply (others_spec n); [done|by rewrite H1]). split; [done|].
  eexists. split; [done|]. unfold len_logs. lia.
Qed.

Lemma Start_ty k i rf command :
  raft_ty k i rf -> raft_ty k i (Start rf command).1 /\
    rf_currentTerm (Start rf command).1 = rf_currentTerm rf.
Proof.
  intros Hrf. unfold Start. destruct (bool_decide _); [|done]. split; [|done].
  destruct Hrf as [H1 H2 H3 H4 H5 H6 H7 H8]. split; simpl; try done.
  - rewrite lookup_insert_ne; [done|]. unfold len_logs. lia.
  - intros j e He. destruct (decide (j = len_logs rf + 1)) as [->|Hne].
    + rewrite lookup_insert_eq in He. injection He as <-. simpl. unfold len_logs. lia.
    + rewrite lookup_insert_ne in He by done. by apply H7.
Qed.

Lemma Kill_ty k i rf : raft_ty k i rf -> raft_ty k i (Raft.Kill rf).
Proof. by intros [H1 H2 H3 H4 H5 H6 H7 H8]. Qed.

Lemma raft_ty_candidate k i rf :
  k + 1 <= int_max -> peer n i -> raft_ty k i rf ->
  let rf' := set_election rf Candidate (wrap64 (rf_currentTerm rf + 1)) (rf_me rf) in
  raft_ty (k + 1) i rf' /\ rf_currentTerm rf' = rf_currentTerm rf + 1.
Proof.
  intros Hk Hi Hrf. pose proof (rt_term _ _ _ Hrf) as Ht. simpl.
  rewrite wrap64_id by (unfold int_min, int_max in *; lia). split; [|done].
  destruct Hrf as [[H1 H1'] H2 H3 H4 H5 H6 H7 H8]. split; simpl; try done; try lia.
  - right. by rewrite H1.
  - intros j e He. apply H7 in He. lia.
Qed.

(** ** Well-typed clusters *)

Record election_ty (k : Z) (el : election) : Prop := {
  et_cand : peer n (el_cand el);
  et_term : 0 <= el_term el <= k
}.

Record vote_ty (k : Z) (s : net (Cmd := Cmd)) (vc : vote_call) : Prop := {
  vt_el : exists el, net_elect s !! vc_eid vc = Some el /\ vc_to vc <> el_cand el;
  vt_to : peer n (vc_to vc);
  vt_reply r : vc_state vc = Replied r -> 0 <= RequestVoteReply_Term r <= k
}.

Record append_ty (k : Z) (ac : append_call (Cmd := Cmd)) : Prop := {
  at_from : peer n (ac_from ac);
  at_to : peer n (ac_to ac);
  at_shape : heartbeat_args (ac_args ac);
  at_term : 0 <= AppendEntriesArgs_Term (ac_args ac) <= k;
  at_reply r : ac_state ac = Replied r -> 0 <= AppendEntriesReply_Term r <= k
}.

Record net_ty (k : Z) (s : net (Cmd := Cmd)) : Prop := {
  nt_srv i : peer n i -> raft_ty k i (net_srv s i);
  nt_elect e el : net_elect s !! e = Some el -> election_ty k el;
  nt_votes j vc : net_votes s !! j = Some vc -> vote_ty k s vc;
  nt_uniq : NoDup ((fun vc => (vc_eid vc, vc_to vc)) <$> net_votes s);
  nt_appends j ac : net_appends s !! j = Some ac -> append_ty k ac
}.

Lemma net_ty_weaken k k' s : k <= k' -> net_ty k s -> net_ty k' s.
Proof.
  intros Hk [H1 H2 H3 H4 H5]. split; try done.
  - intros i Hi. by apply (raft_ty_weaken k), H1.
  - intros e el He. destruct (H2 e el He). split; [done|lia].
  - intros j vc Hj. destruct (H3 j vc Hj) as [A1 A2 A3]. split; try done.
    intros r Hr. specialize (A3 r Hr). lia.
  - intros j ac Hj. destruct (H5 j ac Hj) as [A1 A2 A3 A4 A5]. split; try done; [lia|].
    intros r Hr. specialize (A5 r Hr). lia.
Qed.

Lemma net_ty_init : net_ty 0 (net_init n).
Proof.
  split; simpl; try done.
  - intros i Hi. by apply raft_ty_Make.
  - constructor.
Qed.

(** Changing one peer, one election's counter, one call. *)
Lemma net_ty_srv k s i rf' timer :
  net_ty k s -> raft_ty k i rf' ->
  net_ty k (mkNet (<[i := rf']> (net_srv s)) timer (net_elect s) (net_votes s) (net_appends s)).
Proof.
  intros [H1 H2 H3 H4 H5] Hrf. split; simpl; try done.
  - intros i' Hi'. destruct (decide (i' = i)) as [->|Hne].
    + by rewrite fn_lookup_insert.
    + rewrite fn_lookup_insert_ne by done. by apply H1.
  - intros j vc Hj. by destruct (H3 j vc Hj).
Qed.

Lemma net_ty_vote k s j vc st :
  net_ty k s -> net_votes s !! j = Some vc ->
  (forall r, st = Replied r -> 0 <= RequestVoteReply_Term r <= k) ->
  net_ty k (mkNet (net_srv s) (net_timer s) (net_elect s)
    (<[j := mkVoteCall (vc_eid vc) (vc_to vc) st]> (net_votes s)) (net_appends s)).
Proof.
  intros [H1 H2 H3 H4 H5] Hj Hst. split; simpl; try done.
  - intros j' vc' Hj'. destruct (H3 j vc Hj) as [A1 A2 A3].
    apply list_lookup_insert_Some in Hj' as [(<- & <- & _)|[_ Hj']]; [by split|by destruct (H3 j' vc' Hj')].
  - rewrite list_fmap_insert, list_insert_id; [done|]. by rewrite list_lookup_fmap, Hj.
Qed.

Lemma net_ty_elect k s e el votes :
  net_ty k s -> net_elect s !! e = Some el ->
  net_ty k (mkNet (net_srv s) (net_timer s) (<[e := mkElection (el_args el) votes]> (net_elect s))
    (net_votes s) (net_appends s)).
Proof.
  intros [H1 H2 H3 H4 H5] He. split; simpl; try done.
  - intros e' el' He'. destruct (H2 e el He) as [A1 A2].
    apply list_lookup_insert_Some in He' as [(<- & <- & _)|[_ He']]; [by split|by eapply H2].
  - intros j vc Hj. destruct (H3 j vc Hj) as [(el0 & He0 & Hn) A2 A3]. split; try done. simpl.
    destruct (decide (e = vc_eid vc)) as [->|Hne].
    + rewrite list_lookup_insert_eq by (by eapply lookup_lt_Some). eexists. split; [done|].
      simpl. by assert (el0 = el) as -> by congruence.
    + rewrite list_lookup_insert_ne by done. by exists el0.
Qed.

Lemma net_ty_append k s j ac st :
  net_ty k s -> net_appends s !! j = Some ac ->
  (forall r, st = Replied r -> 0 <= AppendEntriesReply_Term r <= k) ->
  net_ty k (mkNet (net_srv s) (net_timer s) (net_elect s) (net_votes s)
    (<[j := mkAppendCall (ac_from ac) (ac_to ac) (ac_args ac) st]> (net_appends s))).
Proof.
  intros [H1 H2 H3 H4 H5] Hj Hst. split; simpl; try done.
  - intros j' vc' Hj'. by destruct (H3 j' vc' Hj').
  - intros j' ac' Hj'. destruct (H5 j ac Hj) as [A1 A2 A3 A4 A5].
    apply list_lookup_insert_Some in Hj' as [(<- & <- & _)|[_ Hj']]; [by split|by eapply H5].
Qed.

(** ** What a step of the cluster keeps *)

(** Terms never go back; elections and calls are never forgotten nor changed in what
    they are about, and a call that is over stays over. *)
Record grows (s s' : net (Cmd := Cmd)) : Prop := {
  gr_term i : peer n i -> rf_currentTerm (net_srv s i) <= rf_currentTerm (net_srv s' i);
  gr_elect e el : net_elect s !! e = Some el ->
    exists v, net_elect s' !! e = Some (mkElection (el_args el) v);
  gr_votes j vc : net_votes s !! j = Some vc ->
    exists st, net_votes s' !! j = Some (mkVoteCall (vc_eid vc) (vc_to vc) st) /\
      (vc_state vc = Over -> st = Over);
  gr_appends : (length (net_appends s) <= length (net_appends s'))%nat
}.

Lemma election_eta el : el = mkElection (el_args el) (el_votes el).
Proof. by destruct el. Qed.
Lemma vote_call_eta vc : vc = mkVoteCall (vc_eid vc) (vc_to vc) (vc_state vc).
Proof. by destruct vc. Qed.

Lemma grows_refl s : grows s s.
Proof.
  split; [done| | |done].
  - intros e el He. exists (el_votes el). by rewrite <- election_eta.
  - intros j vc Hj. exists (vc_state vc). by rewrite <- vote_call_eta.
Qed.

Lemma grows_trans s1 s2 s3 : grows s1 s2 -> grows s2 s3 -> grows s1 s3.
Proof.
  intros [A1 A2 A3 A4] [B1 B2 B3 B4]. split; [| | |lia].
  - intros i Hi. specialize (A1 i Hi). specialize (B1 i Hi). lia.
  - intros e el He. destruct (A2 e el He) as [v Hv]. by apply B2 in Hv.
  - intros j vc Hj. destruct (A3 j vc Hj) as (st & Hst & Ho). apply B3 in Hst as (st' & Hst' & Ho').
    exists st'. split; [done|]. auto.
Qed.

(** One peer moves on, one call changes, new calls are made. *)
Lemma grows_srv s i rf' timer :
  rf_currentTerm (net_srv s i) <= rf_currentTerm rf' ->
  grows s (mkNet (<[i := rf']> (net_srv s)) timer (net_elect s) (net_votes s) (net_appends s)).
Proof.
  intros Ht. destruct (grows_refl s) as [A1 A2 A3 A4]. split; try done. simpl.
  intros i' Hi'. destruct (decide (i' = i)) as [->|Hne].
  - by rewrite fn_lookup_insert.
  - by rewrite fn_lookup_insert_ne.
Qed.

Lemma grows_vote s j vc st :
  net_votes s !! j = Some vc -> (vc_state vc = Over -> st = Over) ->
  grows s (mkNet (net_srv s) (net_timer s) (net_elect s)
    (<[j := mkVoteCall (vc_eid vc) (vc_to vc) st]> (net_votes s)) (net_appends s)).
Proof.
  intros Hj Hst. destruct (grows_refl s) as [A1 A2 A3 A4]. split; try done. simpl.
  intros j' vc' Hj'. destruct (decide (j = j')) as [<-|Hne].
  - rewrite list_lookup_insert_eq by (by eapply lookup_lt_Some). assert (vc' = vc) as -> by congruence.
    by exists st.
  - rewrite list_lookup_insert_ne by done. by apply A3.
Qed.

Lemma grows_elect s e el votes :
  net_elect s !! e = Some el ->
  grows s (mkNet (net_srv s) (net_timer s) (<[e := mkElection (el_args el) votes]> (net_elect s))
    (net_votes s) (net_appends s)).
Proof.
  intros He. destruct (grows_refl s) as [A1 A2 A3 A4]. split; try done. simpl.
  intros e' el' He'. destruct (decide (e = e')) as [<-|Hne].
  - rewrite list_lookup_insert_eq by (by eapply lookup_lt_Some). assert (el' = el) as -> by congruence.
    by exists votes.
  - rewrite list_lookup_insert_ne by done. by apply A2.
Qed.

Lemma grows_new s timer els vcs acs :
  grows s (mkNet (net_srv s) timer (net_elect s ++ els) (net_votes s ++ vcs) (net_appends s ++ acs)).
Proof.
  destruct (grows_refl s) as [A1 A2 A3 A4]. split; simpl; [done| | |].
  - intros e el He. rewrite lookup_app_l by (by eapply lookup_lt_Some). by apply A2.
  - intros j vc Hj. rewrite lookup_app_l by (by eapply lookup_lt_Some). by apply A3.
  - rewrite length_app. lia.
Qed.

(** What a new election adds. *)
Lemma election_shape s i now timeout s' :
  net_step n s (LElection i now timeout) = Some s' -> peer n i /\
  (s' = s \/
   exists (rf' : Raft Cmd) li lt, let term := rf_currentTerm rf' in
     rf' = set_election (net_srv s i) Candidate (wrap64 (rf_currentTerm (net_srv s i) + 1)) (rf_me (net_srv s i)) /\
     s' = mkNet (<[i := rf']> (net_srv s)) (<[i := now]> (net_timer s))
            (net_elect s ++ [mkElection (mkRequestVoteArgs term i li lt) 1])
            (net_votes s ++ ((fun j => mkVoteCall (length (net_elect s)) j Sent) <$> others rf'))
            (net_appends s)).
Proof.
  simpl. destruct (is_peer n i) eqn:Hi; [|done]. apply is_peer_iff in Hi. simpl.
  destruct (negb _ && _ && _); [|done]. unfold ticker_election. destruct (_ && _).
  - intros [= <-]. split; [done|]. right. eexists _, _, _. split; [reflexivity|].
    unfold requestVotes. by rewrite <- list_fmap_compose.
  - intros [= <-]. split; [done|by left].
Qed.

Lemma step_election_ty k s i now timeout s' :
  k + 1 <= int_max -> net_ty k s -> net_step n s (LElection i now timeout) = Some s' ->
  net_ty (k + 1) s' /\ grows s s'.
Proof.
  intros Hk Hty Hstep. apply election_shape in Hstep as (Hi & [->|(rf' & li & lt & Hrf & ->)]).
  { split; [by apply (net_ty_weaken k); [lia|]|apply grows_refl]. }
  pose proof (nt_srv _ _ Hty i Hi) as Hrt.
  destruct (raft_ty_candidate k i (net_srv s i) Hk Hi Hrt) as [Hrf' Hterm].
  rewrite <- Hrf in Hrf', Hterm.
  pose proof (net_ty_srv (k + 1) s i rf' (<[i := now]> (net_timer s))
    (net_ty_weaken k (k + 1) s ltac:(lia) Hty) Hrf') as [J1 J2 J3 J4 J5].
  split.
  - split; simpl; try done.
    + intros e el [He|[_ He]]%lookup_app_Some; [by eapply J2|].
      apply list_lookup_singleton_Some in He as [_ <-]. split; simpl; [done|].
      unfold el_term. simpl. apply (rt_term _ _ _ Hrf').
    + intros j vc [Hj|[_ Hj]]%lookup_app_Some.
      * destruct (J3 j vc Hj) as [(el & He & Hne) A2 A3]. split; try done. exists el.
        split; [|done]. simpl. rewrite lookup_app_l; [done|by eapply lookup_lt_Some].
      * apply list_lookup_fmap_Some in Hj as (x & -> & Hx). apply list_elem_of_lookup_2 in Hx.
        apply (others_spec n) in Hx as [Hx Hne]; [|apply (rt_me _ _ _ Hrf')].
        split; simpl; try done. eexists. rewrite lookup_app_r, Nat.sub_diag by done. split; [done|].
        simpl. by rewrite <- (proj1 (rt_me _ _ _ Hrf')).
    + rewrite fmap_app, fmap_calls_pairs. apply NoDup_app. split; [done|]. split.
      * intros [e j] (vc & Heq & Hvc)%list_elem_of_fmap (j' & Heq' & _)%list_elem_of_fmap.
        apply list_elem_of_lookup in Hvc as [m Hm]. destruct (J3 m vc Hm) as [(el & He & _) _ _].
        apply lookup_lt_Some in He. simpl in He. simplify_eq. lia.
      * apply NoDup_fmap_2; [by intros ?? [= ->]|apply NoDup_others].
  - eapply grows_trans; [apply (grows_srv s i rf' (net_timer s)); lia|].
    pose proof (grows_new (mkNet (<[i := rf']> (net_srv s)) (net_timer s) (net_elect s) (net_votes s)
      (net_appends s)) (<[i := now]> (net_timer s)) [mkElection (mkRequestVoteArgs (rf_currentTerm rf') i li lt) 1]
      ((fun j => mkVoteCall (length (net_elect s)) j Sent) <$> others rf') []) as H.
    simpl in H. by rewrite app_nil_r in H.
Qed.

Lemma step_vote_exec_ty k s j s' :
  net_ty k s -> net_step n s (LVoteExec j) = Some s' -> net_ty k s' /\ grows s s'.
Proof.
  intros Hty Hstep. simpl in Hstep.
  destruct (net_votes s !! j) as [vc|] eqn:Hj; [|done]. simpl in Hstep.
  destruct (nt_votes _ _ Hty j vc Hj) as [(el & He & Hne) Hto _]. rewrite He in Hstep. simpl in Hstep.
  destruct (vc_state vc) eqn:Est; try done. destruct (nt_elect _ _ Hty _ _ He) as [Hcand Hterm].
  destruct (RequestVote_ty k (vc_to vc) (net_srv s (vc_to vc)) (el_args el)) as (H1 & H2 & H3); try done.
  { unfold el_term in Hterm. lia. }
  { by apply (nt_srv _ _ Hty). }
  destruct (RequestVote _ _) as [rf' reply]. injection Hstep as <-. simpl in *. split.
  - apply (net_ty_vote k _ j vc (Replied reply) (net_ty_srv k s _ rf' (net_timer s) Hty H1)); [done|].
    by intros r [= <-].
  - eapply grows_trans; [by apply (grows_srv s (vc_to vc) rf' (net_timer s))|].
    apply (grows_vote (mkNet _ (net_timer s) (net_elect s) (net_votes s) _) j vc); [done|]. by rewrite Est.
Qed.

Lemma step_vote_reply_ty k s j s' :
  net_ty k s -> net_step n s (LVoteReply j) = Some s' -> net_ty k s' /\ grows s s'.
Proof.
  intros Hty Hstep. simpl in Hstep.
  destruct (net_votes s !! j) as [vc|] eqn:Hj; [|done]. simpl in Hstep.
  destruct (nt_votes _ _ Hty j vc Hj) as [(el & He & Hne) Hto Hr]. rewrite He in Hstep. simpl in Hstep.
  destruct (vc_state vc) as [|reply|] eqn:Est; try done. destruct (nt_elect _ _ Hty _ _ He) as [Hcand Hterm].
  destruct (vote_reply_ty k (el_cand el) (net_srv s (el_cand el)) (el_args el) (el_votes el) reply)
    as (H1 & H2); [by apply Hr|by apply (nt_srv _ _ Hty)|].
  fold (el_cand el) in Hstep.
  destruct (vote_reply _ _ _ _) as [rf' votes]. injection Hstep as <-. simpl in *. split.
  - apply (net_ty_vote k _ j vc Over (net_ty_elect k _ (vc_eid vc) el votes
      (net_ty_srv k s (el_cand el) rf' (net_timer s) Hty H1) He)); done.
  - eapply grows_trans; [by apply (grows_srv s (el_cand el) rf' (net_timer s))|].
    eapply grows_trans; [by apply (grows_elect (mkNet _ _ (net_elect s) _ _) (vc_eid vc) el votes)|].
    by apply (grows_vote (mkNet _ _ _ (net_votes s) _) j vc Over).
Qed.

Lemma grows_append s j ac :
  grows s (mkNet (net_srv s) (net_timer s) (net_elect s) (net_votes s) (<[j := ac]> (net_appends s))).
Proof.
  destruct (grows_refl s) as [A1 A2 A3 A4]. split; try done. simpl. by rewrite length_insert.
Qed.

Lemma step_append_exec_ty k s j now s' :
  net_ty k s -> net_step n s (LAppendExec j now) = Some s' -> net_ty k s' /\ grows s s'.
Proof.
  intros Hty Hstep. simpl in Hstep.
  destruct (net_appends s !! j) as [ac|] eqn:Hj; [|done]. simpl in Hstep.
  destruct (ac_state ac) eqn:Est; try done.
  destruct (nt_appends _ _ Hty j ac Hj) as [A1 A2 A3 A4 A5].
  destruct (AppendEntries_ty k (ac_to ac) now (net_srv s (ac_to ac)) (ac_args ac)) as (H1 & H2 & H3);
    [done|lia|by apply (nt_srv _ _ Hty)|].
  destruct (AppendEntries _ _ _) as [rf' reply]. injection Hstep as <-. simpl in *. split.
  - apply (net_ty_append k _ j ac (Replied reply) (net_ty_srv k s _ rf' (net_timer s) Hty H1)); [done|].
    by intros r [= <-].
  - eapply grows_trans; [by apply (grows_srv s (ac_to ac) rf' (net_timer s))|apply (grows_append (mkNet _ _ _ _ (net_appends s)))].
Qed.

Lemma step_append_reply_ty k s j s' :
  net_ty k s -> net_step n s (LAppendReply j) = Some s' -> net_ty k s' /\ grows s s'.
Proof.
  intros Hty Hstep. simpl in Hstep.
  destruct (net_appends s !! j) as [ac|] eqn:Hj; [|done]. simpl in Hstep.
  destruct (ac_state ac) as [|reply|] eqn:Est; try done. injection Hstep as <-.
  destruct (nt_appends _ _ Hty j ac Hj) as [A1 A2 A3 A4 A5].
  destruct (heartbeat_reply_ty k (ac_from ac) (net_srv s (ac_from ac)) reply) as (H1 & H2);
    [apply A5; done|by apply (nt_srv _ _ Hty)|]. split.
  - by apply (net_ty_append k _ j ac Over (net_ty_srv k s _ _ (net_timer s) Hty H1)).
  - eapply grows_trans; [by apply (grows_srv s (ac_from ac) (heartbeat_reply (net_srv s (ac_from ac)) reply) (net_timer s))|apply (grows_append (mkNet _ _ _ _ (net_appends s)))].
Qed.

Lemma step_heartbeat_ty k s i now s' :
  net_ty k s -> net_step n s (LHeartbeat i now) = Some s' -> net_ty k s' /\ grows s s'.
Proof.
  intros Hty Hstep. simpl in Hstep. destruct (is_peer n i) eqn:Hi; [|done]. apply is_peer_iff in Hi.
  pose proof (nt_srv _ _ Hty i Hi) as [[Hme Hp] Ht _ _ [Hci _] _ _ _]. unfold ticker_heartbeat in Hstep.
  destruct (bool_decide _); injection Hstep as <-; simpl.
  - split.
    + destruct Hty as [H1 H2 H3 H4 H5]. split; simpl; try done.
      * intros j vc Hj. by destruct (H3 j vc Hj).
      * intros j ac [Hj|[_ Hj]]%lookup_app_Some; [by eapply H5|].
        apply list_lookup_fmap_Some in Hj as (r & -> & Hr).
        apply list_lookup_fmap_Some in Hr as (to & -> & Hto). apply list_elem_of_lookup_2 in Hto.
        apply (others_spec n) in Hto as [Hto Hne]; [|done]. rewrite Hci. split; simpl; try done; lia.
    + pose proof (grows_new s (<[i := now]> (net_timer s)) [] []) as H. rewrite !app_nil_r in H. apply H.
  - rewrite app_nil_r. split; [|].
    + destruct Hty as [H1 H2 H3 H4 H5]. split; simpl; try done. intros j vc Hj. by destruct (H3 j vc Hj).
    + pose proof (grows_new s (<[i := net_timer s i]> (net_timer s)) [] [] []) as H.
      by rewrite !app_nil_r in H.
Qed.

Lemma net_ty_set k s i rf' :
  net_ty k s -> raft_ty k i rf' -> rf_currentTerm (net_srv s i) <= rf_currentTerm rf' ->
  net_ty k (with_srv s i rf') /\ grows s (with_srv s i rf').
Proof. intros Hty Hrf Ht. split; [by apply net_ty_srv|by apply grows_srv]. Qed.

Lemma net_step_ty k s lab s' :
  k + 1 <= int_max -> net_ty k s -> net_step n s lab = Some s' ->
  net_ty (k + 1) s' /\ grows s s'.
Proof.
  intros Hk Hty Hstep.
  assert (Hw : net_ty k s' /\ grows s s' -> net_ty (k + 1) s' /\ grows s s').
  { intros [H1 H2]. split; [|done]. apply (net_ty_weaken k); [lia|done]. }
  destruct lab as [i now tmo|i now|j|j|j now|j|i c|i].
  - by eapply step_election_ty.
  - by eapply Hw, step_heartbeat_ty.
  - by eapply Hw, step_vote_exec_ty.
  - by eapply Hw, step_vote_reply_ty.
  - by eapply Hw, step_append_exec_ty.
  - by eapply Hw, step_append_reply_ty.
  - simpl in Hstep. destruct (is_peer n i) eqn:Hi; [|done]. apply is_peer_iff in Hi.
    injection Hstep as <-. destruct (Start_ty k i (net_srv s i) c) as [H1 H2]; [by apply Hty|].
    apply Hw, net_ty_set; [done|done|lia].
  - simpl in Hstep. destruct (is_peer n i) eqn:Hi; [|done]. apply is_peer_iff in Hi.
    injection Hstep as <-. apply Hw, net_ty_set; [done|by apply Kill_ty, Hty|done].
Qed.

(** ** Well-typed groups *)

Record grp_ty (g : group) : Prop := {
  gt_srvs : length (g_srvs g) = n;
  gt_conn : length (g_connected g) = n;
  gt_ends s : s ∈ g_srvs g -> length (ts_endNames s) = n;
  gt_saved : saved_ok g
}.

Definition conn_len (g g' : group) : Prop := length (g_connected g') = length (g_connected g).

Lemma set_at_length {A} (l l' : list A) i x : set_at l i x = Ret l' -> length l' = length l.
Proof. unfold set_at. destruct (l !! i); intros [= <-]. apply length_insert. Qed.

Lemma connect_conn_len g i to g' : connect g i to = Ret g' -> conn_len g g'.
Proof.
  unfold connect. intros (c & Hc & (s & _ & (g1 & H1 & H2)%outcome_bind_inv)%outcome_bind_inv)%outcome_bind_inv.
  apply set_at_length in Hc. transitivity (length (g_connected g1)).
  - revert H2. apply (foldM_rel conn_len); unfold conn_len; [done|congruence|].
    intros s1 x s2 (b & _ & Hb)%outcome_bind_inv. destruct b; [|by simplify_eq].
    by apply outcome_bind_inv in Hb as (? & _ & (? & _ & [= <-])%outcome_bind_inv).
  - transitivity (length (g_connected (with_connected g c))); [|done]. revert H1.
    apply (foldM_rel conn_len); unfold conn_len; [done|congruence|].
    intros s1 x s2 (b & _ & Hb)%outcome_bind_inv. destruct b; [|by simplify_eq].
    by apply outcome_bind_inv in Hb as (? & _ & [= <-]).
Qed.

Lemma disconnect_conn_len g i from g' : disconnect g i from = Ret g' -> conn_len g g'.
Proof.
  unfold disconnect. intros (c & Hc & (s & _ & (g1 & H1 & H2)%outcome_bind_inv)%outcome_bind_inv)%outcome_bind_inv.
  apply set_at_length in Hc. transitivity (length (g_connected g1)).
  - revert H2. apply (foldM_rel conn_len); unfold conn_len; [done|congruence|].
    by intros s1 x s2 (? & _ & (? & _ & [= <-])%outcome_bind_inv)%outcome_bind_inv.
  - transitivity (length (g_connected (with_connected g c))); [|done]. revert H1.
    apply (foldM_rel conn_len); unfold conn_len; [done|congruence|].
    by intros s1 x s2 (? & _ & [= <-])%outcome_bind_inv.
Qed.

(** What the operations on links keep of a group. *)
Definition links_only (g g' : group) : Prop :=
  g_srvs g' = g_srvs g /\ g_persisters g' = g_persisters g /\ conn_len g g'.

Lemma links_refl g : links_only g g.
Proof. by repeat split. Qed.
Lemma links_trans g1 g2 g3 : links_only g1 g2 -> links_only g2 g3 -> links_only g1 g3.
Proof. unfold links_only, conn_len. intuition congruence. Qed.
Lemma links_connect g i to g' : connect g i to = Ret g' -> links_only g g'.
Proof.
  intros H. destruct (connect_frame _ _ _ _ H). split; [done|]. split; [done|]. by eapply connect_conn_len.
Qed.
Lemma links_disconnect g i from g' : disconnect g i from = Ret g' -> links_only g g'.
Proof.
  intros H. destruct (disconnect_frame _ _ _ _ H). split; [done|]. split; [done|]. by eapply disconnect_conn_len.
Qed.

Lemma links_half g ps others_ g' :
  foldM (fun g i => g ← disconnect g i others_; connect g i ps) ps g = Ret g' -> links_only g g'.
Proof.
  apply foldM_rel; [apply links_refl|apply links_trans|].
  intros g1 i g2 (gm & H1%links_disconnect & H2%links_connect)%outcome_bind_inv. by eapply links_trans.
Qed.

Lemma run_gop_links g op g' : run_gop g op = Ret g' -> links_only g g'.
Proof.
  destruct op as [p1 p2|i| |i|b|b]; simpl; [|apply links_connect| |apply links_disconnect|by intros [= <-]..].
  - unfold Partition. intros (g1 & H1%links_half & H2%links_half)%outcome_bind_inv. by eapply links_trans.
  - apply foldM_rel; [apply links_refl|apply links_trans|]. intros ? ? ?. apply links_connect.
Qed.

Lemma grp_ty_links g g' : links_only g g' -> grp_ty g -> grp_ty g'.
Proof.
  intros (H1 & H2 & H3) [A1 A2 A3 A4]. unfold conn_len in H3. split; try congruence.
  - intros s. rewrite H1. apply A3.
  - intros s p. rewrite H1, H2. apply A4.
Qed.
(** Replacing one server of a group. *)
Lemma grp_ty_server g g' i srv :
  grp_ty g -> g_srvs g' = <[i := srv]> (g_srvs g) -> length (g_connected g') = length (g_connected g) ->
  (length (g_persisters g) <= length (g_persisters g'))%nat -> length (ts_endNames srv) = n ->
  (forall p, ts_saved srv = Some p -> (p < length (g_persisters g'))%nat) -> grp_ty g'.
Proof.
  intros [A1 A2 A3 A4] Hs Hc Hp He Hsv. split; try congruence.
  - by rewrite Hs, length_insert.
  - intros s (j & Hj)%list_elem_of_lookup. rewrite Hs in Hj.
    apply list_lookup_insert_Some in Hj as [(_ & <- & _)|[_ Hj]]; [done|].
    eapply A3, list_elem_of_lookup_2, Hj.
  - intros s p (j & Hj)%list_elem_of_lookup Hpp. rewrite Hs in Hj.
    apply list_lookup_insert_Some in Hj as [(_ & <- & _)|[_ Hj]]; [by apply Hsv|].
    apply list_elem_of_lookup_2 in Hj. specialize (A4 s p Hj Hpp). lia.
Qed.

Lemma ShutdownServer_grp g i g' : grp_ty g -> ShutdownServer g i = Ret g' -> grp_ty g'.
Proof.
  intros Hg. unfold ShutdownServer. intros (g1 & H1%links_disconnect & H)%outcome_bind_inv.
  pose proof (grp_ty_links _ _ H1 Hg) as Hg1. clear Hg H1. step_bind.
  apply outcome_bind_inv in H as (s & Hs & ([g2 s2] & Hsd & [= <-])%outcome_bind_inv).
  simpl in Hs. pose proof (at_elem _ _ _ Hs) as Hin.
  pose proof (gt_ends _ Hg1 s Hin) as He. unfold shutdownServer in Hsd.
  destruct (ts_saved s) as [p|] eqn:Ep.
  - apply outcome_bind_inv in Hsd as (old & _ & [= <- <-]).
    eapply (grp_ty_server g1); [done|reflexivity|done| |done|]; simpl; rewrite length_app; simpl; [lia|].
    intros q [= <-]. lia.
  - simplify_eq. eapply (grp_ty_server g1); [done|reflexivity|done| |done|]; simpl; [lia|done].
Qed.

Lemma makeServer_shape g gid k g' srv :
  makeServer Randstring g gid k = Ret (g', srv) ->
  length (ts_endNames srv) = k /\ g_connected g' = g_connected g.
Proof.
  unfold makeServer, makeServer_loop. intros ([g1 names] & H & [= <- <-])%outcome_bind_inv. simpl.
  enough (Hgen : forall l g acc g1 names, foldM (fun '(g, names) j =>
      net ← MakeEnd (g_net g) (Randstring (g_names g));
      Ret (mkGroup (Connect net (Randstring (g_names g)) (ServerName gid (Z.of_nat j))) (g_srvs g)
             (g_connected g) (g_gid g) (g_persisters g) (S (g_names g)) (g_labsrvs g),
           names ++ [Randstring (g_names g)])) l (g, acc) = Ret (g1, names) ->
      length names = (length acc + length l)%nat /\ g_connected g1 = g_connected g).
  { apply Hgen in H. by rewrite length_seq in H. }
  clear. induction l as [|j l IH]; intros g acc g1 names; simpl; [intros [= <- <-]; split; [lia|done]|].
  destruct (MakeEnd _ _) as [net| |]; simpl; try done. intros [H1 H2]%IH. rewrite length_app in H1.
  simpl in H1, H2. split; [lia|done].
Qed.

Lemma StartServer_grp g i g' : grp_ty g -> StartServer Randstring g i = Ret g' -> grp_ty g'.
Proof.
  intros Hg. unfold StartServer. intros (s & Hs & ([g1 srv] & H1 & [= <-])%outcome_bind_inv)%outcome_bind_inv.
  pose proof (gt_ends _ Hg s (at_elem _ _ _ Hs)) as He. unfold startServer in H1.
  apply outcome_bind_inv in H1 as ([g2 srv2] & H2 & (ps & _ & [= <- <-])%outcome_bind_inv).
  destruct (makeServer_keeps _ _ _ _ _ _ H2) as [K1 K2]. apply makeServer_shape in H2 as [K3 K4].
  eapply (grp_ty_server g); [done|simpl; by rewrite K2|simpl; by rewrite K4| |simpl; by rewrite K3|]; simpl.
  - rewrite length_app, K1. simpl. lia.
  - intros q [= <-]. rewrite length_app. simpl. lia.
Qed.

(** ** The whole system *)

(** The wire [w] of the call [vc]: its instance has been started, and if it is the one
    that runs and the call is not over, its election is not of a later term than the
    one the candidate is in. *)
Definition wire_ty (t : tsys) (w : wire) (vc : vote_call) : Prop :=
  forall el, net_elect (ty_net t) !! vc_eid vc = Some el ->
    (wr_inst w <= ty_inst t (el_cand el))%nat /\
    (wr_inst w = ty_inst t (el_cand el) -> vc_state vc <> Over ->
       el_term el <= rf_currentTerm (net_srv (ty_net t) (el_cand el))).

Record sys_ty (k : Z) (t : tsys) : Prop := {
  sy_net : net_ty k (ty_net t);
  sy_grp : grp_ty (ty_grp t);
  sy_wv : Forall2 (wire_ty t) (ty_wv t) (net_votes (ty_net t));
  sy_wa : length (ty_wa t) = length (net_appends (ty_net t))
}.

Lemma sys_ty_init g : grp_ty g -> sys_ty 0 (t_init g).
Proof. intros Hg. split; [apply net_ty_init|done|constructor|done]. Qed.

(** The wire of an old call after a step of the cluster. *)
Lemma wire_grows k t t' j w w' vc vc' :
  sys_ty k t -> grows (ty_net t) (ty_net t') -> ty_inst t' = ty_inst t ->
  ty_wv t !! j = Some w -> net_votes (ty_net t) !! j = Some vc -> wr_inst w' = wr_inst w ->
  net_votes (ty_net t') !! j = Some vc' -> wire_ty t' w' vc'.
Proof.
  intros [Hn Hg Hwv Hwa] Hgr Hinst Hj Hvc Hwi Hvc' el' Hel'.
  pose proof (Forall2_lookup_lr _ _ _ _ _ _ Hwv Hj Hvc) as Hty.
  destruct (gr_votes _ _ Hgr j vc Hvc) as (st & Hst & Hov). rewrite Hst in Hvc'. injection Hvc' as <-.
  destruct (nt_votes _ _ Hn j vc Hvc) as [(el & Hel & _) _ _].
  destruct (gr_elect _ _ Hgr _ _ Hel) as (v & Hv). simpl in Hel'. rewrite Hv in Hel'. injection Hel' as <-.
  destruct (Hty el Hel) as [H1 H2]. unfold el_cand, el_term in *. simpl in *. rewrite Hinst, Hwi.
  split; [done|]. intros Hi Ho. transitivity (rf_currentTerm (net_srv (ty_net t) (el_cand el))).
  - apply H2; [done|]. intros E. by apply Ho, Hov.
  - apply (gr_term _ _ Hgr). by destruct (nt_elect _ _ Hn _ _ Hel).
Qed.

(** The wires after a step of the cluster that makes no new election. *)
Lemma wires_grow k t t' :
  sys_ty k t -> grows (ty_net t) (ty_net t') -> ty_inst t' = ty_inst t ->
  length (net_votes (ty_net t')) = length (net_votes (ty_net t)) ->
  Forall2 (fun w w' => wr_inst w' = wr_inst w) (ty_wv t) (ty_wv t') ->
  Forall2 (wire_ty t') (ty_wv t') (net_votes (ty_net t')).
Proof.
  intros Hty Hgr Hinst Hlen Hw. pose proof (Forall2_length _ _ _ (sy_wv _ _ Hty)) as Hl.
  apply Forall2_same_length_lookup. split.
  { rewrite <- (Forall2_length _ _ _ Hw), Hlen. done. }
  intros j w' vc' Hj' Hvc'. destruct (Forall2_lookup_r _ _ _ _ _ Hw Hj') as (w & Hj & Hwi).
  destruct (Forall2_lookup_l _ _ _ _ _ (sy_wv _ _ Hty) Hj) as (vc & Hvc & _).
  by eapply (wire_grows k t t').
Qed.

Lemma step_lengths (s : net (Cmd := Cmd)) lab s' :
  net_step n s lab = Some s' ->
  (match lab with LElection _ _ _ => True | _ => length (net_votes s') = length (net_votes s) end) /\
  (match lab with LHeartbeat _ _ => True | _ => length (net_appends s') = length (net_appends s) end).
Proof.
  intros H. destruct lab as [i now tmo|i now|j|j|j now|j|i c|i].
  { apply election_shape in H as (_ & [->|(rf' & li & lt & _ & ->)]); done. }
  all: simpl in H; repeat (match type of H with
    | (_ ← ?x; _) = _ => destruct x; simpl in H
    | match ?x with _ => _ end = _ => destruct x
    end; try discriminate H); injection H as <-; simpl; rewrite ?length_insert; done.
Qed.

(** A step of the cluster inside the system: the wires keep their instances and new ones
    follow the new calls. *)
Lemma sys_ty_cluster k t lab (s' : net (Cmd := Cmd)) wv wa :
  k + 1 <= int_max -> sys_ty k t -> net_step n (ty_net t) lab = Some s' ->
  (forall i now tmo, lab <> LElection i now tmo) ->
  Forall2 (fun w w' => wr_inst w' = wr_inst w) (ty_wv t) wv ->
  length wa = length (net_appends s') -> sys_ty (k + 1) (set_cluster t s' wv wa).
Proof.
  intros Hk Hty Hstep Hlab Hwv Hwa. destruct (net_step_ty k _ _ _ Hk (sy_net _ _ Hty) Hstep) as [Hn Hg].
  split; simpl; [done|apply (sy_grp _ _ Hty)| |done].
  apply (wires_grow k t (set_cluster t s' wv wa)); try done.
  apply step_lengths in Hstep as [Hl _]. by destruct lab; try (by exfalso; eapply Hlab).
Qed.

(** Steps that leave the cluster alone. *)
Lemma sys_ty_wires k t wv wa :
  sys_ty k t -> Forall2 (fun w w' => wr_inst w' = wr_inst w) (ty_wv t) wv -> length wa = length (ty_wa t) ->
  sys_ty k (set_cluster t (ty_net t) wv wa).
Proof.
  intros Hty Hwv Hwa. split; simpl; [apply (sy_net _ _ Hty)|apply (sy_grp _ _ Hty)| |].
  - apply (wires_grow k t (set_cluster t (ty_net t) wv wa)); try done. apply grows_refl.
  - by rewrite Hwa, (sy_wa _ _ Hty).
Qed.

Lemma sys_ty_weaken k k' t : k <= k' -> sys_ty k t -> sys_ty k' t.
Proof. intros Hk [H1 H2 H3 H4]. split; try done. by apply (net_ty_weaken k). Qed.

Lemma wires_same (l : list wire) : Forall2 (fun w w' => wr_inst w' = wr_inst w) l l.
Proof. by apply Forall_Forall2_diag, Forall_true. Qed.

Lemma wires_insert (l : list wire) k w w' :
  l !! k = Some w -> wr_inst w' = wr_inst w ->
  Forall2 (fun w w' => wr_inst w' = wr_inst w) l (<[k := w']> l).
Proof.
  intros Hk Hw. rewrite <- (list_insert_id l k w Hk) at 1.
  apply Forall2_insert; [apply wires_same|done].
Qed.

Lemma bind_wire_inst rn w w' : bind_wire rn w = Some w' -> wr_inst w' = wr_inst w.
Proof.
  unfold bind_wire. destruct (wr_stage w); try done.
  destruct (readEndnameInfo _ _) as [[[[[|] [?|]] [?|]] ?] ?]; by intros [= <-].
Qed.

Lemma finish_wire_inst rn w w' : finish_wire rn w = Some w' -> wr_inst w' = wr_inst w.
Proof. unfold finish_wire. destruct (wr_stage w); try done. by intros [= <-]. Qed.

(** Executing a call is a step of the cluster or none; so is delivering an answer. *)
Lemma exec_on_cases t to w lab w' (s' : net (Cmd := Cmd)) :
  exec_on t to w lab = Some (w', s') ->
  wr_inst w' = wr_inst w /\ (s' = ty_net t \/ net_step n (ty_net t) lab = Some s').
Proof.
  unfold exec_on. destruct (wr_stage w); try done. case_bool_decide; [|intros [= <- <-]; auto].
  destruct (net_step _ _ _) as [s1|]; [|done]. intros [= <- <-]. auto.
Qed.

Lemma answer_on_cases t from w lab w' (s' : net (Cmd := Cmd)) :
  answer_on t from w lab = Some (w', s') ->
  wr_stage w = WAnswered /\ wr_inst w = ty_inst t from /\ w' = w /\ net_step n (ty_net t) lab = Some s'.
Proof.
  unfold answer_on. destruct (wr_stage w); try done. case_bool_decide; [|done].
  destruct (net_step _ _ _) as [s1|]; [|done]. by intros [= <- <-].
Qed.
Lemma step_TElection_ty k t i now tmo t' :
  k + 1 <= int_max -> sys_ty k t -> t_step t (TElection i now tmo) = Some t' -> sys_ty (k + 1) t'.
Proof.
  intros Hk Hty Hstep. unfold t_step in Hstep.
  destruct (net_step _ _ _) as [s'|] eqn:Es; [|done]. cbn [mbind option_bind] in Hstep. injection Hstep as <-.
  destruct (net_step_ty k _ _ _ Hk (sy_net _ _ Hty) Es) as [Hn Hg].
  split; simpl; [done|apply (sy_grp _ _ Hty)| |].
  2: { destruct (step_lengths _ _ _ Es) as [_ ->]. apply (sy_wa _ _ Hty). }
  apply election_shape in Es as (Hi & [->|(rf' & li & lt & Hrf & ->)]).
  { rewrite drop_all. simpl. rewrite app_nil_r. apply (wires_grow k t (set_cluster _ _ _ _)); try done.
    simpl. apply wires_same. }
  cbn [net_votes]. rewrite drop_app_length. apply Forall2_app.
  - pose proof (sy_wv _ _ Hty) as Hwv. apply Forall2_same_length_lookup. split; [by eapply Forall2_length|].
    intros j w vc Hj Hvc. eapply (wire_grows k t (set_cluster t _ _ _)); try done.
    simpl. rewrite lookup_app_l; [done|by eapply lookup_lt_Some].
  - unfold new_wires. rewrite <- !list_fmap_compose. apply Forall2_fmap, Forall_Forall2_diag, Forall_forall.
    intros to _ el Hel. simpl in Hel. rewrite lookup_app_r, Nat.sub_diag in Hel by done.
    injection Hel as <-. unfold el_cand, el_term. simpl. split; [done|]. intros _ _.
    by rewrite fn_lookup_insert.
Qed.

Lemma step_TRestart_ty k t i now t' :
  0 <= k -> sys_ty k t -> t_step t (TRestart i now) = Some t' -> sys_ty k t'.
Proof.
  intros Hk Hty Hstep. unfold t_step in Hstep. destruct (is_peer n i) eqn:Hi; [|done].
  destruct (StartServer _ _ _) as [g| |] eqn:Eg; try done. injection Hstep as <-.
  split; cbn [ty_net ty_grp ty_wv ty_wa].
  - apply net_ty_srv; [apply (sy_net _ _ Hty)|by apply raft_ty_Make].
  - eapply StartServer_grp; [apply (sy_grp _ _ Hty)|done].
  - eapply Forall2_impl; [apply (sy_wv _ _ Hty)|]. intros w vc Hw el Hel.
    destruct (Hw el Hel) as [H1 H2]. cbn [ty_inst ty_net net_srv].
    destruct (decide (el_cand el = i)) as [Heq|Hne].
    + rewrite Heq in *. rewrite !fn_lookup_insert. split; [lia|intros Hw'; lia].
    + by rewrite !fn_lookup_insert_ne.
  - apply (sy_wa _ _ Hty).
Qed.

Lemma sys_ty_grp k t g : sys_ty k t -> grp_ty g -> sys_ty k (set_grp t g).
Proof. by intros [H1 H2 H3 H4]. Qed.

(** A call of the cluster that executes or is answered. *)
Lemma sys_ty_call k t lab s' wv wa :
  k + 1 <= int_max -> sys_ty k t -> s' = ty_net t \/ net_step n (ty_net t) lab = Some s' ->
  (forall i now tmo, lab <> LElection i now tmo) -> (forall i now, lab <> LHeartbeat i now) ->
  Forall2 (fun w w' => wr_inst w' = wr_inst w) (ty_wv t) wv -> length wa = length (ty_wa t) ->
  sys_ty (k + 1) (set_cluster t s' wv wa).
Proof.
  intros Hk Hty [->|Hstep] Hl1 Hl2 Hwv Hwa.
  - apply (sys_ty_weaken k); [lia|]. by apply sys_ty_wires.
  - apply (sys_ty_cluster k t lab); try done. rewrite Hwa, (sy_wa _ _ Hty).
    apply step_lengths in Hstep as [_ Hl]. by destruct lab; try (by exfalso; eapply Hl2).
Qed.

Lemma t_step_ty k t lab t' :
  0 <= k -> k + 1 <= int_max -> sys_ty k t -> t_step t lab = Some t' -> sys_ty (k + 1) t'.
Proof.
  intros H0 Hk Hty Hstep.
  destruct lab as [i now tmo|i now|i c|j|j|j|j|j|j now|j|j|op|i|i now]; [by eapply step_TElection_ty|..].
  13: { apply (sys_ty_weaken k); [lia|]. by eapply step_TRestart_ty. }
  all: unfold t_step in Hstep.
  - split_step Hstep. injection Hstep as <-. eapply sys_ty_cluster; [done|done|exact E|done|apply wires_same|].
    unfold new_wires. rewrite length_app, !length_fmap, length_drop, (sy_wa _ _ Hty).
    destruct (net_step_ty k _ _ _ Hk (sy_net _ _ Hty) E) as [_ Hg]. pose proof (gr_appends _ _ Hg). lia.
  - split_step Hstep. injection Hstep as <-. eapply (sys_ty_call k t); [done|done|by right|done|done|apply wires_same|done].
  - split_step Hstep. injection Hstep as <-. apply (sys_ty_weaken k); [lia|]. apply sys_ty_wires; [done| |done].
    eapply wires_insert; [done|by eapply bind_wire_inst].
  - split_step Hstep. injection Hstep as <-. apply exec_on_cases in E1 as [Hw Hs].
    eapply (sys_ty_call k t); [done|done|exact Hs|done|done| |done]. by eapply wires_insert.
  - split_step Hstep. injection Hstep as <-. apply (sys_ty_weaken k); [lia|]. apply sys_ty_wires; [done| |done].
    eapply wires_insert; [done|by eapply finish_wire_inst].
  - split_step Hstep. injection Hstep as <-. apply answer_on_cases in E2 as (_ & _ & -> & Hs).
    eapply (sys_ty_call k t); [done|done|by right; exact Hs|done|done| |done]. by eapply wires_insert.
  - split_step Hstep. injection Hstep as <-. apply (sys_ty_weaken k); [lia|].
    apply sys_ty_wires; [done|apply wires_same|apply length_insert].
  - split_step Hstep. injection Hstep as <-. apply exec_on_cases in E1 as [Hw Hs].
    eapply (sys_ty_call k t); [done|done|exact Hs|done|done|apply wires_same|apply length_insert].
  - split_step Hstep. injection Hstep as <-. apply (sys_ty_weaken k); [lia|].
    apply sys_ty_wires; [done|apply wires_same|apply length_insert].
  - split_step Hstep. injection Hstep as <-. apply answer_on_cases in E1 as (_ & _ & -> & Hs).
    eapply (sys_ty_call k t); [done|done|by right; exact Hs|done|done|apply wires_same|apply length_insert].
  - destruct (run_gop _ _) as [g| |] eqn:Eg; try done. injection Hstep as <-.
    apply (sys_ty_weaken k); [lia|]. apply sys_ty_grp; [done|].
    eapply grp_ty_links; [by eapply run_gop_links|apply (sy_grp _ _ Hty)].
  - split_step Hstep. destruct (ShutdownServer _ _) as [g| |] eqn:Eg; try done. injection Hstep as <-.
    apply sys_ty_grp; [|eapply ShutdownServer_grp; [apply (sy_grp _ _ Hty)|done]].
    eapply (sys_ty_call k t); [done|done|by right|done|done|apply wires_same|done].
Qed.

Lemma t_run_ty k t labs t' :
  0 <= k -> k + Z.of_nat (length labs) <= int_max -> sys_ty k t -> t_run t labs = Some t' ->
  sys_ty (k + Z.of_nat (length labs)) t'.
Proof.
  revert k t. induction labs as [|lab labs IH]; intros k t H0 Hk Hty Hrun.
  - simplify_eq/=. by rewrite Z.add_0_r.
  - simpl in Hrun, Hk. destruct (t_step t lab) as [t1|] eqn:E; [|done]. simpl in Hrun.
    replace (k + Z.of_nat (length (lab :: labs))) with (k + 1 + Z.of_nat (length labs)) by (simpl; lia).
    apply (IH _ t1); [lia|lia| |done]. apply (t_step_ty k t lab); [done|lia|done|done].
Qed.
End RaftTest.

(** ** The system is well typed *)

Lemma grp_ty_started n g : grp_wf n g -> saved_ok g -> grp_ty n g.
Proof.
  intros [H1 H2 H3 H4] Hs. split; try done. intros s (i & Hi)%list_elem_of_lookup. by eapply H3.
Qed.

(** C13: types.  Start a group of [n] servers and let the peers, the network and the harness
    run on in any order for fewer steps than [int] can count: partitions, shutdowns,
    restarts and lost, delayed or stale messages included.  Every state is well typed:
    terms lie between 0 and the number of steps, a vote is -1 or a peer, candidates and
    leaders have voted for themselves, every log has its sentinel and no entry of a later
    term, nothing is committed, a leader's [nextIndex] and [matchIndex] cover the other
    peers, every call is from a peer to another one, and no answer carries a term that
    nobody had. *)
Theorem test_system_typed {Cmd} n Randstring c gid :
  (forall i j, Randstring i = Randstring j -> i = j) -> names_below Randstring (cf_net c) (cf_names c) ->
  exists c' g, MakeGroupStart Randstring c gid n = Ret c' /\ lookupGroup c' gid = Some g /\
    forall labs (t : tsys (Cmd := Cmd)), Z.of_nat (length labs) <= int_max ->
      t_run n Randstring (t_init n g) labs = Some t -> sys_ty n (Z.of_nat (length labs)) t.
Proof.
  intros Hinj Hb. destruct (MakeGroupStart_ok Randstring c gid n Hinj Hb)
    as (c' & g & H1 & H2 & _ & _ & _ & _ & _ & _ & (_ & Hwf & Hsv) & _).
  exists c', g. split; [done|]. split; [done|]. intros labs t Hlen Hrun.
  apply (t_run_ty n Randstring 0 (t_init n g) labs t); [done|done| |done].
  by apply sys_ty_init, grp_ty_started.
Qed.

(** ** Without restarts, the system is the cluster *)

Lemma t_step_cluster {Cmd} n R (t t' : tsys (Cmd := Cmd)) lab :
  t_step n R t lab = Some t' -> (forall i now, lab <> TRestart i now) ->
  ty_net t' = ty_net t \/ exists nl, net_step n (ty_net t) nl = Some (ty_net t').
Proof.
  intros Hstep Hlab.
  destruct lab as [i now tmo|i now|i c|j|j|j|j|j|j now|j|j|op|i|i now]; unfold t_step in Hstep;
    [..|by destruct (Hlab i now)].
  1-3: split_step Hstep; injection Hstep as <-; right; by eexists.
  1,3,5,7: split_step Hstep; injection Hstep as <-; by left.
  1,3: split_step Hstep; injection Hstep as <-;
    match goal with H : exec_on _ _ _ _ _ = _ |- _ => apply exec_on_cases in H as [_ [->|H]] end;
    [by left|right; by eexists].
  1,2: split_step Hstep; injection Hstep as <-;
    match goal with H : answer_on _ _ _ _ _ = _ |- _ => apply answer_on_cases in H as (_ & _ & _ & H) end;
    right; by eexists.
  - destruct (run_gop _ _); try done. injection Hstep as <-. by left.
  - split_step Hstep. destruct (ShutdownServer _ _); try done. injection Hstep as <-. right. by eexists.
Qed.

Lemma t_run_cluster {Cmd} n R labs : forall (t t' : tsys (Cmd := Cmd)),
  t_run n R t labs = Some t' -> (forall i now, TRestart i now ∉ labs) ->
  exists nlabs, (length nlabs <= length labs)%nat /\ net_run n (ty_net t) nlabs = Some (ty_net t').
Proof.
  induction labs as [|lab labs IH]; intros t t' Hrun Hno.
  - injection Hrun as <-. by exists [].
  - simpl in Hrun. destruct (t_step n R t lab) as [t1|] eqn:E; [|done]. simpl in Hrun.
    destruct (IH t1 t' Hrun) as (nlabs & Hl & Hn); [intros i now Hin; by apply (Hno i now), list_elem_of_further|].
    destruct (t_step_cluster n R t t1 lab E) as [Heq|[nl Hnl]].
    + intros i now ->. apply (Hno i now), list_elem_of_here.
    + exists nlabs. rewrite <- Heq. split; [simpl; lia|done].
    + exists (nl :: nlabs). split; [simpl; lia|]. simpl. by rewrite Hnl.
Qed.

(** C31: [checkOneLeader] in a test.  The harness may partition, disconnect, shut down and
    reconnect servers before and between the moments at which it reads them one after the
    other; as long as it starts no server again, an iteration never finds two leaders of
    one term and so never fails the test: it returns a server that led, when it was read,
    in the highest term seen, and goes round again exactly when no connected server led. *)
Theorem checkOneLeader_partitions {Cmd} `{EqDecision Cmd} n R g segs (ts : nat -> tsys (Cmd := Cmd)) ws :
  Z.of_nat (length (steps_to segs n)) <= int_max ->
  (forall i now j, TRestart i now ∉ segs j) ->
  (forall i, (i < n)%nat -> t_run n R (t_init n g) (steps_to segs i) = Some (ts i)) ->
  reads n ws (fun i => ty_net (ts i)) ->
  exists r, leader_pass n ws = Ret r /\
    match r with
    | Some i => exists t, seen n ws (fun i => ty_net (ts i)) t i /\
        forall t' j, seen n ws (fun i => ty_net (ts i)) t' j -> t' <= t
    | None => forall t j, ~ seen n ws (fun i => ty_net (ts i)) t j
    end.
Proof.
  intros Hlen Hno Ho. apply leader_pass_chained. intros a b Hab Hb.
  destruct (steps_to_mono segs a b Hab) as (rest & Hrest).
  destruct (steps_to_mono segs b n ltac:(lia)) as (rest' & Hrest').
  assert (Hall : forall i now, TRestart i now ∉ steps_to segs b).
  { intros i now Hin. apply list_elem_of_In, in_concat in Hin as (l & Hl & Hin).
    apply list_elem_of_In, list_elem_of_fmap in Hl as (j & -> & _). by apply (Hno i now j), list_elem_of_In. }
  pose proof (Ho a ltac:(lia)) as Hra. pose proof (Ho b Hb) as Hrb.
  rewrite Hrest, t_run_app, Hra in Hrb. cbn [mbind option_bind] in Hrb.
  destruct (t_run_cluster n R (steps_to segs a) _ _ Hra) as (l1 & Hl1 & H1).
  { intros i now Hin. apply (Hall i now). rewrite Hrest. apply elem_of_app. by left. }
  destruct (t_run_cluster n R rest _ _ Hrb) as (l2 & Hl2 & H2).
  { intros i now Hin. apply (Hall i now). rewrite Hrest. apply elem_of_app. by right. }
  exists l1, l2. split; [|done]. rewrite Hrest', Hrest, !length_app in Hlen. lia.
Qed.

(** ** Three servers *)

Module TestDemo.
Definition R : nat -> string := TesterDemo.Randstring.

(** The group that [MakeConfig] starts for a test of three servers. *)
Definition started : option (Config * group) :=
  match MakeGroupStart R CfgDemo.empty 0 3 with
  | Ret c => g ← lookupGroup c 0; Some (c, g)
  | _ => None
  end.
Definition g3 : group := match started with Some (_, g) => g | None => TesterDemo.g end.

Lemma g3_started : exists c, MakeGroupStart R CfgDemo.empty 0 3 = Ret c /\ lookupGroup c 0 = Some g3 /\
  grp_wf 3 g3 /\ grp_ty 3 g3.
Proof.
  destruct (MakeGroupStart_ok R CfgDemo.empty 0 3 CfgDemo.Rand_inj CfgDemo.below)
    as (c & g & H1 & H2 & _ & _ & _ & _ & _ & _ & (_ & Hwf & Hsv) & _).
  assert (Hg : g3 = g) by (unfold g3, started; rewrite H1, H2; reflexivity).
  exists c. rewrite Hg. split; [exact H1|]. split; [exact H2|]. split; [exact Hwf|].
  by apply grp_ty_started.
Qed.

(** A vote request is delivered and answered. *)
Definition vote_from (k : nat) : list (tlabel (Cmd := nat)) :=
  [TVoteBind k; TVoteExec k; TVoteFinish k; TVoteReply k].
(** Peer 0 is elected with the vote of peer 1. *)
Definition elect_0 : list (tlabel (Cmd := nat)) := TElection 0 300 300 :: vote_from 0.
(** Server 1 is shut down and started again, and peer 2 is elected with its vote. *)
Definition elect_2_again : list (tlabel (Cmd := nat)) :=
  TShutdown 1 :: restart 1 320 ++ TElection 2 330 300 :: vote_from 3.

Definition shows (t : tsys (Cmd := nat)) (i : nat) (term : Z) (leader : bool) : bool :=
  bool_decide (GetState (net_srv (ty_net t) (Z.of_nat i)) = (term, leader)) && conn (ty_grp t) i.

(** What a check reads when the system stands still. *)
Definition server (t : tsys (Cmd := nat)) (i : nat) : rfsrv nat :=
  mkRfsrv i None 0 None (Some (net_srv (ty_net t) (Z.of_nat i))) ∅.
Definition ws (t : tsys (Cmd := nat)) (i : nat) : world nat :=
  mkWorld (mkRstore [server t 0; server t 1; server t 2] [Some 0%nat; Some 1%nat; Some 2%nat] 0 false)
    (conn (ty_grp t)).

Lemma ws_reads t : reads 3 (ws t) (fun _ => ty_net t).
Proof.
  intros i Hi. destruct i as [|[|[|i]]]; [..|lia]; (eexists; split; [reflexivity|reflexivity]).
Qed.
End TestDemo.

Lemma read_shown n ws t i term leader leaders :
  (i < n)%nat -> reads n ws (fun _ => ty_net t) -> (forall i, w_conn (ws i) i = conn (ty_grp t) i) ->
  TestDemo.shows t i term leader = true ->
  read_leader ws leaders i = Ret (if leader : bool then add_leader leaders term i else leaders).
Proof.
  intros Hi Hr Hc [Hg%bool_decide_eq_true_1 Hcn]%andb_true_iff. unfold read_leader.
  rewrite Hc, Hcn, (state_of_reads n ws _ i Hr Hi), Hg. done.
Qed.

(** C40: a restart breaks election safety.  [persist] and [readPersist] are empty, so a
    peer that voted and is started again votes once more in the same term: in a test of
    three servers, peer 1 votes for peer 0, is shut down and started again, and votes for
    peer 2.  Both lead term 1, and [checkOneLeader] fails the test. *)
Theorem restart_two_leaders :
  exists c t, MakeGroupStart TestDemo.R CfgDemo.empty 0 3 = Ret c /\ lookupGroup c 0 = Some TestDemo.g3 /\
    t_run 3 TestDemo.R (t_init 3 TestDemo.g3) (TestDemo.elect_0 ++ TestDemo.elect_2_again) = Some t /\
    forall ws, reads 3 ws (fun _ => ty_net t) -> (forall i, w_conn (ws i) i = conn (ty_grp t) i) ->
      leader_pass 3 ws = Panic.
Proof.
  destruct TestDemo.g3_started as (c & H1 & H2 & _). exists c.
  destruct (passes_inv (fun t => TestDemo.shows t 0 1 true && TestDemo.shows t 1 1 false && TestDemo.shows t 2 1 true)
    (t_run 3 TestDemo.R (t_init 3 TestDemo.g3) (TestDemo.elect_0 ++ TestDemo.elect_2_again))) as (t & Hrun & Hs);
    [by vm_compute|].
  exists t. split; [exact H1|]. split; [exact H2|]. split; [exact Hrun|]. clear H1 H2 Hrun c. intros ws Hr Hc.
  apply andb_true_iff in Hs as [[Hs0 Hs1]%andb_true_iff Hs2]. unfold leader_pass.
  change (seq 0 3) with [0; 1; 2]%nat. cbn [foldM].
  rewrite (read_shown 3 ws t 0 1 true _ ltac:(lia) Hr Hc Hs0). step_bind.
  rewrite (read_shown 3 ws t 1 1 false _ ltac:(lia) Hr Hc Hs1). step_bind.
  rewrite (read_shown 3 ws t 2 1 true _ ltac:(lia) Hr Hc Hs2). reflexivity.
Qed.

Lemma test_system_typed_witness :
  exists c' g t, MakeGroupStart TestDemo.R CfgDemo.empty 0 3 = Ret c' /\ lookupGroup c' 0 = Some g /\
    t_run 3 TestDemo.R (t_init 3 g) (TestDemo.elect_0 ++ TestDemo.elect_2_again) = Some t /\
    sys_ty 3 (Z.of_nat (length (TestDemo.elect_0 ++ TestDemo.elect_2_again))) t.
Proof.
  destruct (test_system_typed (Cmd := nat) 3 TestDemo.R CfgDemo.empty 0 CfgDemo.Rand_inj CfgDemo.below)
    as (c' & g & H1 & H2 & H3).
  exists c', g. assert (Hg : TestDemo.g3 = g) by (unfold TestDemo.g3, TestDemo.started; rewrite H1, H2; reflexivity).
  destruct (passes_inv (fun _ => true)
    (t_run 3 TestDemo.R (t_init 3 TestDemo.g3) (TestDemo.elect_0 ++ TestDemo.elect_2_again))) as (t & Hrun & _);
    [by vm_compute|].
  rewrite Hg in Hrun. exists t. split; [exact H1|]. split; [exact H2|]. split; [exact Hrun|].
  refine (H3 (TestDemo.elect_0 ++ TestDemo.elect_2_again) t _ Hrun). by vm_compute.
Defined.

Lemma checkOneLeader_partitions_witness :
  exists t, t_run 3 TestDemo.R (t_init 3 TestDemo.g3) (TestDemo.elect_0 ++ [TGroup (GPartition [1; 2] [0])]%nat) = Some t /\
    leader_pass 3 (TestDemo.ws t) = Ret (Some 0%nat) /\ linked (ty_grp t) 0 1 = false.
Proof.
  destruct (passes_inv (fun t => match leader_pass 3 (TestDemo.ws t) with Ret (Some O) => true | _ => false end &&
      negb (linked (ty_grp t) 0 1))
    (t_run 3 TestDemo.R (t_init 3 TestDemo.g3) (TestDemo.elect_0 ++ [TGroup (GPartition [1; 2] [0])]%nat)))
    as (t & Hrun & Hs); [by vm_compute|].
  exists t. split; [exact Hrun|]. apply andb_true_iff in Hs as [Hp Hl%negb_true_iff].
  destruct (checkOneLeader_partitions 3 TestDemo.R TestDemo.g3
    (fun i => match i with O => TestDemo.elect_0 ++ [TGroup (GPartition [1; 2] [0])]%nat | _ => [] end)
    (fun _ => t) (TestDemo.ws t)) as (r & Hr & _).
  - by vm_compute.
  - intros i now [|j] Hin; [|by apply elem_of_nil in Hin].
    rewrite list_elem_of_In in Hin. simpl in Hin. intuition discriminate.
  - intros i Hi. destruct i as [|[|[|i]]]; [exact Hrun|exact Hrun|exact Hrun|lia].
  - apply TestDemo.ws_reads.
  - rewrite Hr in Hp. destruct r as [[|i]|]; [|discriminate Hp|discriminate Hp]. split; [exact Hr|exact Hl].
Defined.
