(* ===== verification/RaftCut.v ===== *)
(** What a minority can do.  In the test system of [RaftTest.v], servers that reach only
    each other and are no majority elect no leader: the situation in which
    [TestReElection3A] calls [checkNoLeader]. *)
From S2P Require Import Prelude.
From S2P Require Import Raft.
From S2P Require Import RaftNet.
From S2P Require Import Labrpc.
From S2P Require Import Tester.
From S2P Require Import TestCfg.
From S2P Require Import RaftSrv.
From S2P Require Import RaftCheck.
From S2P Require Import RaftTest.
Open Scope Z_scope.

Section Cut.
Context {Cmd : Type}.
Variable n : nat.
Variable Randstring : nat -> string.
Implicit Types (s : net (Cmd := Cmd)) (t : tsys (Cmd := Cmd)).

(** ** Who becomes leader *)

(** A change of a peer that does not make it a leader. *)
Definition no_promotion (rf rf' : Raft Cmd) : Prop :=
  rf_state rf' = Leader -> rf_state rf = Leader /\ rf_currentTerm rf' = rf_currentTerm rf.

Lemma no_promotion_same rf rf' : same_role rf rf' -> no_promotion rf rf'.
Proof. intros (_ & _ & H1 & _ & H2) Hl. by rewrite <- H2. Qed.

Lemma no_promotion_bumped rf rf' x : bumped rf rf' x -> no_promotion rf rf'.
Proof. intros (_ & _ & _ & _ & _ & H) Hl. congruence. Qed.

Lemma no_promotion_voted rf rf' x c : voted rf rf' x c -> no_promotion rf rf'.
Proof.
  intros (_ & _ & _ & H1 & _ & [[_ H2]|(H2 & _ & H3)]) Hl; [done|]. split; [by rewrite <- H3|congruence].
Qed.

Lemma upd_leader (srv : Z -> Raft Cmd) p rf' i :
  no_promotion (srv p) rf' -> rf_state (<[p := rf']> srv i) = Leader ->
  rf_state (srv i) = Leader /\ rf_currentTerm (<[p := rf']> srv i) = rf_currentTerm (srv i).
Proof.
  intros Hn. destruct (decide (i = p)) as [->|Hne].
  - rewrite fn_lookup_insert. apply Hn.
  - by rewrite fn_lookup_insert_ne.
Qed.

(** A peer that leads after a step led before it, in the same term, or the step counted
    a vote that made a majority. *)
Definition promoted s s' (lab : nlabel (Cmd := Cmd)) (i : Z) : Prop :=
  exists j vc el, lab = LVoteReply j /\ net_votes s !! j = Some vc /\
    net_elect s !! vc_eid vc = Some el /\ (exists r, vc_state vc = Replied r) /\ el_cand el = i /\
    el_term el = rf_currentTerm (net_srv s i) /\
    rf_currentTerm (net_srv s' i) = rf_currentTerm (net_srv s i) /\
    Z.of_nat (rf_peers (net_srv s i)) / 2 < el_votes el + 1.

Lemma vote_reply_promotion s s' j i :
  net_step n s (LVoteReply j) = Some s' -> rf_state (net_srv s' i) = Leader ->
  (rf_state (net_srv s i) = Leader /\ rf_currentTerm (net_srv s' i) = rf_currentTerm (net_srv s i)) \/
  promoted s s' (LVoteReply j) i.
Proof.
  intros Hstep. simpl in Hstep.
  destruct (net_votes s !! j) as [vc|] eqn:Hj; [|done]. simpl in Hstep.
  destruct (net_elect s !! vc_eid vc) as [el|] eqn:He; [|done]. simpl in Hstep.
  destruct (vc_state vc) as [|reply|] eqn:Est; try done. fold (el_cand el) in Hstep.
  pose proof (vote_reply_cases (net_srv s (el_cand el)) (el_args el) (el_votes el) reply) as Hc.
  destruct (vote_reply _ _ _ _) as [rf' votes]. injection Hstep as <-. cbn [net_srv].
  destruct Hc as [_ Hc]. destruct Hc as [[Hs _]|[[Hb _]|(_ & -> & Hterm & _ & _ & Ht & _ & Hmaj)]].
  - intros Hl. left. apply (upd_leader _ _ rf'); [by apply no_promotion_same|done].
  - intros Hl. left. eapply (upd_leader _ _ rf'); [by eapply no_promotion_bumped|done].
  - destruct (decide (i = el_cand el)) as [->|Hne]; [|rewrite !fn_lookup_insert_ne by done; auto].
    rewrite !fn_lookup_insert. intros Hl. right. exists j, vc, el. cbn [net_srv].
    rewrite fn_lookup_insert. repeat split; try done; [by eexists|].
    by destruct Hmaj as [?|?].
Qed.

Lemma leader_cases s lab s' i :
  net_step n s lab = Some s' -> rf_state (net_srv s' i) = Leader ->
  (rf_state (net_srv s i) = Leader /\ rf_currentTerm (net_srv s' i) = rf_currentTerm (net_srv s i)) \/
  promoted s s' lab i.
Proof.
  intros Hstep. destruct lab as [p now tmo|p now|j|j|j now|j|p c|p]; [..|by apply vote_reply_promotion| | | |];
    intros Hl; left; revert Hl.
  - apply election_shape in Hstep as (_ & [->|(rf' & li & lt & Hrf & ->)]); [done|]. cbn [net_srv].
    apply upd_leader. by rewrite Hrf.
  - simpl in Hstep. destruct (is_peer n p); [|done]. destruct (ticker_heartbeat _ _ _). by injection Hstep as <-.
  - simpl in Hstep. destruct (net_votes s !! j) as [vc|]; [|done]. simpl in Hstep.
    destruct (net_elect s !! _) as [el|]; [|done]. simpl in Hstep. destruct (vc_state vc); try done.
    pose proof (RequestVote_cases (net_srv s (vc_to vc)) (el_args el)) as Hc.
    destruct (RequestVote _ _) as [rf' reply]. injection Hstep as <-. cbn [net_srv]. apply upd_leader.
    destruct Hc as [(_ & Hv & _)|(_ & [[Hs _]|[Hb _]])];
      [by eapply no_promotion_voted|by apply no_promotion_same|by eapply no_promotion_bumped].
  - simpl in Hstep. destruct (net_appends s !! j) as [ac|]; [|done]. simpl in Hstep. destruct (ac_state ac); try done.
    pose proof (AppendEntries_cases now (net_srv s (ac_to ac)) (ac_args ac)) as Hc.
    destruct (AppendEntries _ _ _) as [rf' reply]. injection Hstep as <-. cbn [net_srv]. apply upd_leader.
    destruct Hc as [Hc _]. destruct Hc as [Hs|Hb]; [by apply no_promotion_same|by eapply no_promotion_bumped].
  - simpl in Hstep. destruct (net_appends s !! j) as [ac|]; [|done]. simpl in Hstep.
    destruct (ac_state ac) as [|reply|]; try done. injection Hstep as <-. cbn [net_srv]. apply upd_leader.
    destruct (heartbeat_reply_cases (net_srv s (ac_from ac)) reply) as [_ [Hs|Hb]];
      [by apply no_promotion_same|by eapply no_promotion_bumped].
  - simpl in Hstep. destruct (is_peer n p); [|done]. injection Hstep as <-. cbn [net_srv with_srv].
    apply upd_leader, no_promotion_same, Start_cases.
  - simpl in Hstep. destruct (is_peer n p); [|done]. injection Hstep as <-. by apply upd_leader.
Qed.
(** ** The shapes of the steps on vote requests *)

Lemma vote_exec_shape s j s' :
  net_step n s (LVoteExec j) = Some s' ->
  exists vc reply, net_votes s !! j = Some vc /\ vc_state vc = Sent /\
    net_elect s' = net_elect s /\
    net_votes s' = <[j := mkVoteCall (vc_eid vc) (vc_to vc) (Replied reply)]> (net_votes s).
Proof.
  intros Hstep. simpl in Hstep. destruct (net_votes s !! j) as [vc|] eqn:Hj; [|done]. simpl in Hstep.
  destruct (net_elect s !! _) as [el|]; [|done]. simpl in Hstep. destruct (vc_state vc) eqn:Est; try done.
  destruct (RequestVote _ _) as [rf' reply]. injection Hstep as <-. by exists vc, reply.
Qed.

Lemma vote_reply_shape s j s' :
  net_step n s (LVoteReply j) = Some s' ->
  exists vc el r v, net_votes s !! j = Some vc /\ vc_state vc = Replied r /\
    net_elect s !! vc_eid vc = Some el /\ v <= el_votes el + 1 /\
    net_elect s' = <[vc_eid vc := mkElection (el_args el) v]> (net_elect s) /\
    net_votes s' = <[j := mkVoteCall (vc_eid vc) (vc_to vc) Over]> (net_votes s).
Proof.
  intros Hstep. simpl in Hstep. destruct (net_votes s !! j) as [vc|] eqn:Hj; [|done]. simpl in Hstep.
  destruct (net_elect s !! _) as [el|] eqn:He; [|done]. simpl in Hstep.
  destruct (vc_state vc) as [|reply|] eqn:Est; try done. fold (el_cand el) in Hstep.
  pose proof (vote_reply_cases (net_srv s (el_cand el)) (el_args el) (el_votes el) reply) as Hc.
  destruct (vote_reply _ _ _ _) as [rf' v]. injection Hstep as <-. exists vc, el, reply, v.
  repeat split; try done. destruct Hc as [_ [[_ ->]|[[_ ->]|(_ & -> & _)]]]; lia.
Qed.

(** The other steps that make no election change no election and no vote request. *)
Lemma quiet_shape s lab s' :
  net_step n s lab = Some s' ->
  match lab with LElection _ _ _ | LVoteExec _ | LVoteReply _ => True
  | _ => net_elect s' = net_elect s /\ net_votes s' = net_votes s end.
Proof.
  intros H. destruct lab as [i now tmo|i now|j|j|j now|j|i c|i]; try done.
  all: simpl in H; repeat (match type of H with
    | (_ ← ?x; _) = _ => destruct x; simpl in H
    | match ?x with _ => _ end = _ => destruct x
    end; try discriminate H); injection H as <-; done.
Qed.

(** ** The servers that are cut off *)

(** No server of [S] has an enabled end for a server outside. *)
Definition cut_off (t : tsys (Cmd := Cmd)) (S : gset Z) : Prop :=
  forall a b, a ∈ S -> peer n b -> b ∉ S -> linked (ty_grp t) (Z.to_nat a) (Z.to_nat b) = false.

(** The present instance of server [i] waits for votes in the term it is in. *)
Definition pending (t : tsys (Cmd := Cmd)) (i : Z) : Prop :=
  exists j w vc el, ty_wv t !! j = Some w /\ net_votes (ty_net t) !! j = Some vc /\
    net_elect (ty_net t) !! vc_eid vc = Some el /\ el_cand el = i /\ wr_inst w = ty_inst t i /\
    vc_state vc <> Over /\ el_term el = rf_currentTerm (net_srv (ty_net t) i).

Section Minority.
Variables (k0 : Z) (t0 : tsys (Cmd := Cmd)) (S : gset Z).
Hypothesis Hty0 : sys_ty n k0 t0.
Hypothesis HS : S ⊆ range_set n.
Hypothesis Hminor : Z.of_nat (size S) <= Z.of_nat n / 2.
Hypothesis Hcut : cut_off t0 S.

Let m0 : nat := length (net_elect (ty_net t0)).

(** [w] is the wire of a call from [a] to [b] that never got through. *)
Definition blocked (w : wire) (a b : Z) : Prop :=
  wr_stage w = WFailed \/
  (wr_stage w = WSent /\ wr_end w = en (ty_grp t0) (Z.to_nat a) (Z.to_nat b)).

(** Elections that servers of [S] have started since [t0]: requests to the others are
    stuck, and the counter counts only servers of [S]. *)
Record cut_inv (t : tsys (Cmd := Cmd)) : Prop := {
  ci_grp : ty_grp t = ty_grp t0;
  ci_inst : ty_inst t = ty_inst t0;
  ci_grow : grows n (ty_net t0) (ty_net t);
  ci_old j vc : net_votes (ty_net t) !! j = Some vc -> (vc_eid vc < m0)%nat ->
    (j < length (net_votes (ty_net t0)))%nat;
  ci_wires j w : ty_wv t0 !! j = Some w -> exists w', ty_wv t !! j = Some w' /\ wr_inst w' = wr_inst w;
  ci_block j w vc el : ty_wv t !! j = Some w -> net_votes (ty_net t) !! j = Some vc ->
    net_elect (ty_net t) !! vc_eid vc = Some el -> (m0 <= vc_eid vc)%nat ->
    el_cand el ∈ S -> vc_to vc ∉ S -> vc_state vc = Sent /\ blocked w (el_cand el) (vc_to vc);
  ci_count e el : net_elect (ty_net t) !! e = Some el -> (m0 <= e)%nat -> el_cand el ∈ S ->
    exists cs, cs ⊆ S ∖ {[el_cand el]} /\ el_votes el <= 1 + Z.of_nat (size cs) /\
      forall j vc, net_votes (ty_net t) !! j = Some vc -> vc_eid vc = e -> vc_state vc <> Over ->
        vc_to vc ∉ cs;
  ci_lead i : i ∈ S -> rf_state (net_srv (ty_net t) i) = Leader ->
    rf_currentTerm (net_srv (ty_net t) i) = rf_currentTerm (net_srv (ty_net t0) i) /\
    (rf_state (net_srv (ty_net t0) i) = Leader \/ pending t0 i)
}.

Lemma cut_inv_init : cut_inv t0.
Proof.
  assert (Hlt : forall j vc, net_votes (ty_net t0) !! j = Some vc -> (vc_eid vc < m0)%nat).
  { intros j vc Hj. destruct (nt_votes _ _ _ (sy_net _ _ _ Hty0) j vc Hj) as [(el & Hel & _) _ _].
    by eapply lookup_lt_Some. }
  split; try done.
  - apply grows_refl.
  - intros j vc Hj _. by eapply lookup_lt_Some.
  - intros j w Hj. by exists w.
  - intros j w vc el _ Hj Hel Hge. apply Hlt in Hj. lia.
  - intros e el Hel Hge. apply lookup_lt_Some in Hel. unfold m0 in Hge. lia.
  - intros i Hi Hl. split; [done|by left].
Qed.

(** One more vote for a new election of [S] is still not a majority. *)
Lemma count_vote k t j w vc el r :
  cut_inv t -> sys_ty n k t -> ty_wv t !! j = Some w -> net_votes (ty_net t) !! j = Some vc ->
  net_elect (ty_net t) !! vc_eid vc = Some el -> vc_state vc = Replied r ->
  (m0 <= vc_eid vc)%nat -> el_cand el ∈ S ->
  exists cs, cs ⊆ S ∖ {[el_cand el]} /\ el_votes el + 1 <= 1 + Z.of_nat (size cs) /\
    el_votes el + 1 <= Z.of_nat (size S) /\
    forall j' vc', net_votes (ty_net t) !! j' = Some vc' -> j' <> j -> vc_eid vc' = vc_eid vc ->
      vc_state vc' <> Over -> vc_to vc' ∉ cs.
Proof.
  intros Hinv Hty Hw Hvc Hel Hr Hge Hc.
  destruct (ci_count _ Hinv _ _ Hel Hge Hc) as (cs & Hsub & Hv & Hfresh).
  destruct (nt_votes _ _ _ (sy_net _ _ _ Hty) j vc Hvc) as [(el0 & Hel0 & Hne) _ _].
  assert (el0 = el) as -> by congruence.
  assert (Hto : vc_to vc ∈ S).
  { destruct (decide (vc_to vc ∈ S)) as [|Hn]; [done|].
    destruct (ci_block _ Hinv j w vc el Hw Hvc Hel Hge Hc Hn) as [Hs _]. congruence. }
  assert (Hnew : vc_to vc ∉ cs) by (apply (Hfresh j vc Hvc); [done|by rewrite Hr]).
  assert (Hsub' : {[vc_to vc]} ∪ cs ⊆ S ∖ {[el_cand el]}).
  { apply union_subseteq. split; [|done]. apply singleton_subseteq_l, elem_of_difference.
    split; [done|]. by intros ?%elem_of_singleton. }
  assert (Hsz : size ({[vc_to vc]} ∪ cs) = Datatypes.S (size cs)).
  { rewrite size_union by (by apply disjoint_singleton_l). by rewrite size_singleton. }
  exists ({[vc_to vc]} ∪ cs). split; [done|]. split; [lia|]. split.
  - assert (Hall : {[el_cand el]} ∪ ({[vc_to vc]} ∪ cs) ⊆ S) by set_solver.
    apply subseteq_size in Hall. rewrite size_union, size_singleton, Hsz in Hall by set_solver. lia.
  - intros j' vc' Hj' Hne' He Ho [Hin%elem_of_singleton|Hin]%elem_of_union; [|by apply (Hfresh j' vc' Hj')].
    apply Hne'. eapply (NoDup_lookup _ _ _ (vc_eid vc, vc_to vc) (nt_uniq _ _ _ (sy_net _ _ _ Hty))).
    + rewrite list_lookup_fmap, Hj'. simpl. by rewrite Hin, He.
    + by rewrite list_lookup_fmap, Hvc.
Qed.

(** A call of the beginning, at a later moment. *)
Lemma old_call k t j w vc el :
  cut_inv t -> sys_ty n k t -> ty_wv t !! j = Some w -> net_votes (ty_net t) !! j = Some vc ->
  net_elect (ty_net t) !! vc_eid vc = Some el -> (vc_eid vc < m0)%nat -> vc_state vc <> Over ->
  wr_inst w = ty_inst t (el_cand el) ->
  exists w' vc' el', ty_wv t0 !! j = Some w' /\ net_votes (ty_net t0) !! j = Some vc' /\
    net_elect (ty_net t0) !! vc_eid vc' = Some el' /\ el_cand el' = el_cand el /\ el_term el' = el_term el /\
    wr_inst w' = ty_inst t0 (el_cand el) /\ vc_state vc' <> Over /\
    el_term el <= rf_currentTerm (net_srv (ty_net t0) (el_cand el)).
Proof.
  intros Hinv Hty Hw Hvc Hel Hlt Hov Hwi.
  pose proof (ci_old _ Hinv j vc Hvc Hlt) as Hj.
  destruct (lookup_lt_is_Some_2 _ _ Hj) as [vc0 Hvc0].
  destruct (gr_votes _ _ _ (ci_grow _ Hinv) j vc0 Hvc0) as (st & Hst & Ho). rewrite Hst in Hvc. injection Hvc as <-.
  destruct (Forall2_lookup_r _ _ _ _ _ (sy_wv _ _ _ Hty0) Hvc0) as (w0 & Hw0 & Hwt).
  destruct (ci_wires _ Hinv j w0 Hw0) as (w1 & Hw1 & Hi). assert (w1 = w) as -> by congruence.
  destruct (nt_votes _ _ _ (sy_net _ _ _ Hty0) j vc0 Hvc0) as [(el0 & Hel0 & _) _ _].
  destruct (gr_elect _ _ _ (ci_grow _ Hinv) _ _ Hel0) as (v & Hv). simpl in Hel. rewrite Hv in Hel.
  injection Hel as <-. destruct (Hwt el0 Hel0) as [_ Hterm]. unfold el_cand, el_term in *. simpl in *.
  assert (Hi0 : wr_inst w0 = ty_inst t0 (RequestVoteArgs_CandidateId (el_args el0)))
    by (rewrite <- Hi, Hwi; by rewrite (ci_inst _ Hinv)).
  exists w0, vc0, el0. repeat split; try done; [|apply Hterm; [done|]]; intros E; by apply Hov, Ho.
Qed.

Lemma lead_step k t lab s' i :
  cut_inv t -> sys_ty n k t -> net_step n (ty_net t) lab = Some s' ->
  (forall j, lab = LVoteReply j -> exists w vc el, ty_wv t !! j = Some w /\
     net_votes (ty_net t) !! j = Some vc /\ net_elect (ty_net t) !! vc_eid vc = Some el /\
     wr_inst w = ty_inst t (el_cand el)) ->
  i ∈ S -> rf_state (net_srv s' i) = Leader ->
  rf_currentTerm (net_srv s' i) = rf_currentTerm (net_srv (ty_net t0) i) /\
  (rf_state (net_srv (ty_net t0) i) = Leader \/ pending t0 i).
Proof.
  intros Hinv Hty Hstep Hwire Hi Hl.
  assert (Hpi : peer n i) by (apply elem_of_range_set; by apply HS).
  destruct (leader_cases _ _ _ _ Hstep Hl) as [[Hl0 ->]|(j & vc & el & -> & Hvc & Hel & (r & Hr) & <- & Het & Ht & Hmaj)].
  { by apply (ci_lead _ Hinv). }
  destruct (Hwire j eq_refl) as (w & vc' & el' & Hw & Hvc' & Hel' & Hwi).
  assert (vc' = vc) as -> by congruence. assert (el' = el) as -> by congruence.
  rewrite (proj2 (rt_me _ _ _ _ (nt_srv _ _ _ (sy_net _ _ _ Hty) _ Hpi))) in Hmaj.
  destruct (decide (m0 <= vc_eid vc)%nat) as [Hge|Hlt].
  { exfalso. destruct (count_vote k t j w vc el r) as (cs & _ & _ & Hle & _); try done. lia. }
  destruct (old_call k t j w vc el Hinv Hty Hw Hvc Hel ltac:(lia)) as (w0 & vc0 & el0 & A1 & A2 & A3 & A4 & A5 & A6 & A7 & A8);
    [by rewrite Hr|done|].
  pose proof (gr_term _ _ _ (ci_grow _ Hinv) _ Hpi) as Hmono.
  assert (Heq : el_term el = rf_currentTerm (net_srv (ty_net t0) (el_cand el))) by lia.
  split; [congruence|]. right. exists j, w0, vc0, el0. repeat split; try done. congruence.
Qed.

(** ** Every step of the peers keeps the invariant *)

(** [block] and [count] depend on the elections, the vote requests and their wires only;
    this is what they become when a step changes those. *)
Lemma cut_inv_step t t' :
  cut_inv t -> ty_grp t' = ty_grp t -> ty_inst t' = ty_inst t -> grows n (ty_net t) (ty_net t') ->
  (forall j vc, net_votes (ty_net t') !! j = Some vc -> (vc_eid vc < m0)%nat ->
     (j < length (net_votes (ty_net t)))%nat) ->
  (forall j w, ty_wv t !! j = Some w -> exists w', ty_wv t' !! j = Some w' /\ wr_inst w' = wr_inst w) ->
  (forall j w vc el, ty_wv t' !! j = Some w -> net_votes (ty_net t') !! j = Some vc ->
     net_elect (ty_net t') !! vc_eid vc = Some el -> (m0 <= vc_eid vc)%nat ->
     el_cand el ∈ S -> vc_to vc ∉ S -> vc_state vc = Sent /\ blocked w (el_cand el) (vc_to vc)) ->
  (forall e el, net_elect (ty_net t') !! e = Some el -> (m0 <= e)%nat -> el_cand el ∈ S ->
     exists cs, cs ⊆ S ∖ {[el_cand el]} /\ el_votes el <= 1 + Z.of_nat (size cs) /\
       forall j vc, net_votes (ty_net t') !! j = Some vc -> vc_eid vc = e -> vc_state vc <> Over ->
         vc_to vc ∉ cs) ->
  (forall i, i ∈ S -> rf_state (net_srv (ty_net t') i) = Leader ->
     rf_currentTerm (net_srv (ty_net t') i) = rf_currentTerm (net_srv (ty_net t0) i) /\
     (rf_state (net_srv (ty_net t0) i) = Leader \/ pending t0 i)) ->
  cut_inv t'.
Proof.
  intros Hinv Hg Hi Hgr Hold Hw Hb Hc Hl. pose proof (ci_grow _ Hinv) as Hgr0. split; try done.
  - by rewrite Hg, (ci_grp _ Hinv).
  - by rewrite Hi, (ci_inst _ Hinv).
  - by eapply grows_trans.
  - intros j vc Hj Hlt. pose proof (Hold j vc Hj Hlt) as Hjl.
    destruct (lookup_lt_is_Some_2 _ _ Hjl) as [vc1 Hvc1]. eapply (ci_old _ Hinv); [exact Hvc1|].
    destruct (gr_votes _ _ _ Hgr j vc1 Hvc1) as (st & Hst & _). rewrite Hst in Hj. by injection Hj as <-.
  - intros j w Hj. destruct (ci_wires _ Hinv j w Hj) as (w1 & Hw1 & E1).
    destruct (Hw j w1 Hw1) as (w2 & Hw2 & E2). exists w2. split; [done|congruence].
Qed.

(** A step without effect on elections and vote requests. *)
Lemma cut_inv_quiet k t lab s' wa :
  cut_inv t -> sys_ty n k t -> k + 1 <= int_max -> net_step n (ty_net t) lab = Some s' ->
  net_elect s' = net_elect (ty_net t) -> net_votes s' = net_votes (ty_net t) ->
  (forall j, lab <> LVoteReply j) ->
  cut_inv (set_cluster t s' (ty_wv t) wa).
Proof.
  intros Hinv Hty Hk Hstep He Hv Hlab.
  destruct (net_step_ty n k _ _ _ Hk (sy_net _ _ _ Hty) Hstep) as [_ Hg].
  apply (cut_inv_step t); try done; cbn [ty_net ty_wv set_cluster]; rewrite ?He, ?Hv.
  - intros j vc Hj _. by eapply lookup_lt_Some.
  - intros j w Hj. by exists w.
  - apply (ci_block _ Hinv).
  - apply (ci_count _ Hinv).
  - intros i. apply (lead_step k t lab); try done. intros j ->. by destruct (Hlab j).
Qed.

(** Steps of the network on the wire of one vote request. *)
Lemma cut_inv_wire t j w w' :
  cut_inv t -> ty_wv t !! j = Some w -> wr_inst w' = wr_inst w ->
  (forall a b, a ∈ S -> peer n b -> b ∉ S -> blocked w a b -> blocked w' a b) ->
  (forall vc, net_votes (ty_net t) !! j = Some vc -> peer n (vc_to vc)) ->
  cut_inv (set_cluster t (ty_net t) (<[j := w']> (ty_wv t)) (ty_wa t)).
Proof.
  intros Hinv Hj Hw Hb Hp. apply (cut_inv_step t); try done; cbn [ty_net ty_wv set_cluster].
  - apply grows_refl.
  - intros j' vc Hj' _. by eapply lookup_lt_Some.
  - intros j' w0 Hj'. destruct (decide (j = j')) as [<-|Hne].
    + exists w'. rewrite list_lookup_insert_eq by (by eapply lookup_lt_Some). split; [done|congruence].
    + exists w0. by rewrite list_lookup_insert_ne.
  - intros j' w0 vc el Hj' Hvc Hel Hge Hc Hto.
    apply list_lookup_insert_Some in Hj' as [(<- & <- & _)|[_ Hj']].
    + destruct (ci_block _ Hinv j w vc el Hj Hvc Hel Hge Hc Hto) as [H1 H2]. split; [done|]. auto.
    + by apply (ci_block _ Hinv j' w0).
  - apply (ci_count _ Hinv).
  - apply (ci_lead _ Hinv).
Qed.

(** A request that got through is not blocked. *)
Lemma not_blocked t j w vc el :
  cut_inv t -> ty_wv t !! j = Some w -> net_votes (ty_net t) !! j = Some vc ->
  net_elect (ty_net t) !! vc_eid vc = Some el -> (m0 <= vc_eid vc)%nat -> el_cand el ∈ S ->
  wr_stage w <> WSent -> wr_stage w <> WFailed -> vc_to vc ∈ S.
Proof.
  intros Hinv Hw Hvc Hel Hge Hc H1 H2. destruct (decide (vc_to vc ∈ S)) as [|Hn]; [done|].
  by destruct (ci_block _ Hinv j w vc el Hw Hvc Hel Hge Hc Hn) as [_ [?|[? _]]].
Qed.

Lemma cut_inv_exec k t j w s' :
  cut_inv t -> sys_ty n k t -> k + 1 <= int_max -> ty_wv t !! j = Some w ->
  wr_stage w <> WSent -> wr_stage w <> WFailed -> net_step n (ty_net t) (LVoteExec j) = Some s' ->
  cut_inv (set_cluster t s' (ty_wv t) (ty_wa t)).
Proof.
  intros Hinv Hty Hk Hw H1 H2 Hstep.
  destruct (net_step_ty n k _ _ _ Hk (sy_net _ _ _ Hty) Hstep) as [_ Hg].
  destruct (vote_exec_shape _ _ _ Hstep) as (vc & r & Hvc & Hst & He & Hv).
  apply (cut_inv_step t); try done; cbn [ty_net ty_wv set_cluster]; rewrite ?He, ?Hv.
  - intros j' vc' Hj' _. apply lookup_lt_Some in Hj'. by rewrite length_insert in Hj'.
  - intros j' w' Hj'. by exists w'.
  - intros j' w' vc' el Hj' Hvc' Hel Hge Hc Hto.
    apply list_lookup_insert_Some in Hvc' as [(<- & <- & _)|[_ Hvc']]; [|by apply (ci_block _ Hinv j' w')].
    exfalso. apply Hto. apply (not_blocked t j w vc el); try done; congruence.
  - intros e el Hel Hge Hc. destruct (ci_count _ Hinv e el Hel Hge Hc) as (cs & C1 & C2 & C3).
    exists cs. split; [done|]. split; [done|]. intros j' vc' Hvc' Heid Ho.
    apply list_lookup_insert_Some in Hvc' as [(<- & <- & _)|[_ Hvc']]; [|by apply (C3 j')].
    apply (C3 j vc); [done|done|by rewrite Hst].
  - intros i. apply (lead_step k t (LVoteExec j)); try done.
Qed.

Lemma cut_inv_reply k t j w vc el s' :
  cut_inv t -> sys_ty n k t -> k + 1 <= int_max -> ty_wv t !! j = Some w ->
  net_votes (ty_net t) !! j = Some vc -> net_elect (ty_net t) !! vc_eid vc = Some el ->
  wr_stage w = WAnswered -> wr_inst w = ty_inst t (el_cand el) ->
  net_step n (ty_net t) (LVoteReply j) = Some s' ->
  cut_inv (set_cluster t s' (ty_wv t) (ty_wa t)).
Proof.
  intros Hinv Hty Hk Hw Hvc Hel Hst Hwi Hstep.
  destruct (net_step_ty n k _ _ _ Hk (sy_net _ _ _ Hty) Hstep) as [_ Hg].
  destruct (vote_reply_shape _ _ _ Hstep) as (vc1 & el1 & r & v & Hvc1 & Hr & Hel1 & Hle & He & Hv).
  assert (vc1 = vc) as -> by congruence. assert (el1 = el) as -> by congruence.
  apply (cut_inv_step t); try done; cbn [ty_net ty_wv set_cluster]; rewrite ?He, ?Hv.
  - intros j' vc' Hj' _. apply lookup_lt_Some in Hj'. by rewrite length_insert in Hj'.
  - intros j' w' Hj'. by exists w'.
  - intros j' w' vc' el' Hj' Hvc' Hel' Hge Hc Hto.
    assert (Hel0 : exists el0, net_elect (ty_net t) !! vc_eid vc' = Some el0 /\ el_cand el0 = el_cand el').
    { apply list_lookup_insert_Some in Hel' as [(Heq & <- & _)|[_ Hel']]; [|by exists el'].
      exists el. by rewrite <- Heq. }
    destruct Hel0 as (el0 & Hel0 & Hcand). rewrite <- Hcand in Hc |- *.
    apply list_lookup_insert_Some in Hvc' as [(<- & <- & _)|[_ Hvc']]; [|by apply (ci_block _ Hinv j' w')].
    exfalso. apply Hto. apply (not_blocked t j w vc el0); try done; congruence.
  - intros e el' Hel' Hge Hc. apply list_lookup_insert_Some in Hel' as [(<- & <- & _)|[Hne Hel']].
    + destruct (count_vote k t j w vc el r) as (cs & C1 & C2 & _ & C3); try done.
      exists cs. split; [done|]. split; [simpl; lia|]. intros j' vc' Hvc' Heid Ho.
      apply list_lookup_insert_Some in Hvc' as [(<- & <- & _)|[Hne Hvc']]; [done|]. by apply (C3 j').
    + destruct (ci_count _ Hinv e el' Hel' Hge Hc) as (cs & C1 & C2 & C3). exists cs. split; [done|].
      split; [done|]. intros j' vc' Hvc' Heid Ho.
      apply list_lookup_insert_Some in Hvc' as [(<- & <- & _)|[_ Hvc']]; [done|by apply (C3 j')].
  - intros i. apply (lead_step k t (LVoteReply j)); try done. intros j' [= <-]. by exists w, vc, el.
Qed.

Lemma cut_inv_election k t i now tmo s' :
  cut_inv t -> sys_ty n k t -> k + 1 <= int_max -> net_step n (ty_net t) (LElection i now tmo) = Some s' ->
  cut_inv (set_cluster t s'
    (ty_wv t ++ new_wires t i (vc_to <$> drop (length (net_votes (ty_net t))) (net_votes s'))) (ty_wa t)).
Proof.
  intros Hinv Hty Hk Hstep.
  destruct (net_step_ty n k _ _ _ Hk (sy_net _ _ _ Hty) Hstep) as [_ Hg].
  pose proof (Forall2_length _ _ _ (sy_wv _ _ _ Hty)) as Hlen.
  assert (Hlead : forall p, p ∈ S -> rf_state (net_srv s' p) = Leader ->
    rf_currentTerm (net_srv s' p) = rf_currentTerm (net_srv (ty_net t0) p) /\
    (rf_state (net_srv (ty_net t0) p) = Leader \/ pending t0 p))
    by (intros p; by apply (lead_step k t (LElection i now tmo))).
  apply (election_shape n) in Hstep as (Hi & [->|(rf' & li & lt & Hrf & ->)]).
  { rewrite drop_all. unfold new_wires. simpl. rewrite app_nil_r. by destruct t. }
  cbn [net_votes]. rewrite drop_app_length.
  assert (Hm : (m0 <= length (net_elect (ty_net t)))%nat).
  { destruct m0 as [|m] eqn:E; [lia|]. unfold m0 in E.
    destruct (lookup_lt_is_Some_2 (net_elect (ty_net t0)) m) as [el Hel]; [lia|].
    destruct (gr_elect _ _ _ (ci_grow _ Hinv) _ _ Hel) as (v & Hv). apply lookup_lt_Some in Hv. lia. }
  apply (cut_inv_step t); try done; cbn [ty_net ty_wv set_cluster net_votes net_elect].
  - intros j vc [Hj|[_ Hj]]%lookup_app_Some Hlt; [by eapply lookup_lt_Some|].
    apply list_lookup_fmap_Some in Hj as (x & -> & _). simpl in Hlt. lia.
  - intros j w Hj. exists w. split; [|done]. rewrite lookup_app_l; [done|by eapply lookup_lt_Some].
  - intros j w vc el Hw Hvc Hel Hge Hc Hto. destruct (decide (j < length (net_votes (ty_net t)))%nat) as [Hlt|Hnlt].
    + rewrite lookup_app_l in Hw by lia. rewrite lookup_app_l in Hvc by lia.
      destruct (nt_votes _ _ _ (sy_net _ _ _ Hty) j vc Hvc) as [(el0 & Hel0 & _) _ _].
      rewrite lookup_app_l in Hel by (by eapply lookup_lt_Some). by apply (ci_block _ Hinv j w).
    + rewrite lookup_app_r in Hw by lia. rewrite lookup_app_r in Hvc by lia.
      rewrite Hlen in Hw. apply list_lookup_fmap_Some in Hvc as (x & -> & Hx).
      apply list_lookup_fmap_Some in Hw as (y & -> & Hy). rewrite <- list_fmap_compose in Hy.
      rewrite list_lookup_fmap, Hx in Hy. simpl in Hy. injection Hy as <-. simpl in Hel, Hto |- *.
      rewrite lookup_app_r, Nat.sub_diag in Hel by done. injection Hel as <-.
      split; [done|]. right. split; [done|]. simpl. by rewrite (ci_grp _ Hinv).
  - intros e el [Hel|[Hle Hel]]%lookup_app_Some Hge Hc.
    + destruct (ci_count _ Hinv e el Hel Hge Hc) as (cs & C1 & C2 & C3). exists cs. split; [done|].
      split; [done|]. intros j vc [Hj|[_ Hj]]%lookup_app_Some Heid Ho; [by apply (C3 j)|].
      apply list_lookup_fmap_Some in Hj as (x & -> & _). simpl in Heid. apply lookup_lt_Some in Hel. lia.
    + exists ∅. apply list_lookup_singleton_Some in Hel as [_ <-]. split; [set_solver|].
      split; [cbn [el_votes]; lia|]. intros j vc _ _ _. set_solver.
Qed.

(** ** Runs of the peers *)

(** The steps of the peers and of the network; the harness leaves the servers alone. *)
Definition undisturbed (lab : tlabel (Cmd := Cmd)) : bool :=
  match lab with TGroup _ | TShutdown _ | TRestart _ _ => false | _ => true end.

Lemma set_cluster_eta t : set_cluster t (ty_net t) (ty_wv t) (ty_wa t) = t.
Proof. by destruct t. Qed.

Lemma blocked_bind a b w w' :
  a ∈ S -> peer n b -> b ∉ S -> bind_wire (g_net (ty_grp t0)) w = Some w' -> blocked w a b -> blocked w' a b.
Proof.
  intros Ha Hb Hn Hbind [Hf|[Hs He]]; unfold bind_wire in Hbind.
  - by rewrite Hf in Hbind.
  - rewrite Hs, He in Hbind. unfold readEndnameInfo in Hbind. pose proof (Hcut a b Ha Hb Hn) as Hl.
    unfold linked in Hl. rewrite Hl in Hbind. injection Hbind as <-. by left.
Qed.

Lemma blocked_finish a b w w' rn : finish_wire rn w = Some w' -> blocked w a b -> blocked w' a b.
Proof. unfold finish_wire, blocked. intros Hf [Hs|[Hs _]]; by rewrite Hs in Hf. Qed.

Lemma cut_inv_t_step k t lab t' :
  cut_inv t -> sys_ty n k t -> k + 1 <= int_max -> undisturbed lab = true ->
  t_step n Randstring t lab = Some t' -> cut_inv t'.
Proof.
  intros Hinv Hty Hk Hu Hstep.
  assert (Hto : forall j vc, net_votes (ty_net t) !! j = Some vc -> peer n (vc_to vc)).
  { intros j vc Hj. by destruct (nt_votes _ _ _ (sy_net _ _ _ Hty) j vc Hj). }
  destruct lab as [i now tmo|i now|i c|j|j|j|j|j|j now|j|j|op|i|i now]; try done; unfold t_step in Hstep.
  - split_step Hstep. injection Hstep as <-. by apply (cut_inv_election k t i now tmo).
  - split_step Hstep. injection Hstep as <-. destruct (quiet_shape _ _ _ E) as [He Hv].
    by eapply (cut_inv_quiet k t _ _ _ Hinv Hty Hk E).
  - split_step Hstep. injection Hstep as <-. destruct (quiet_shape _ _ _ E) as [He Hv].
    by eapply (cut_inv_quiet k t _ _ _ Hinv Hty Hk E).
  - split_step Hstep. injection Hstep as <-. rewrite (ci_grp _ Hinv) in E0.
    apply (cut_inv_wire t j w); try done; [by eapply bind_wire_inst| |by intros vc; apply Hto].
    intros a b Ha Hb Hn. by apply blocked_bind.
  - split_step Hstep. injection Hstep as <-. unfold exec_on in E1.
    destruct (wr_stage w) as [|nm sv| | |] eqn:Est; try done.
    destruct (bool_decide _); [destruct (net_step n (ty_net t) (LVoteExec j)) as [s1|] eqn:Es; [|done]; cbn [mbind option_bind] in E1|];
      injection E1 as <- <-.
    + pose proof (cut_inv_exec k t j w s1 Hinv Hty Hk E) as H1. rewrite Est in H1.
      specialize (H1 ltac:(done) ltac:(done) Es).
      apply (cut_inv_wire _ j w (set_wstage w (WRan nm sv)) H1); try done.
      * intros a b _ _ _ [Hx|[Hx _]]; congruence.
      * intros vc Hvc. simpl in Hvc. destruct (vote_exec_shape _ _ _ Es) as (vc0 & r & Hvc0 & _ & _ & Hv).
        rewrite Hv in Hvc. apply list_lookup_insert_Some in Hvc as [(_ & <- & _)|[Hx _]]; [|done].
        by apply (Hto j vc0).
    + apply (cut_inv_wire t j w); try done; [|by intros vc; apply Hto].
      intros a b _ _ _ [Hx|[Hx _]]; congruence.
  - split_step Hstep. injection Hstep as <-.
    apply (cut_inv_wire t j w); try done; [by eapply finish_wire_inst| |by intros vc; apply Hto].
    intros a b _ _ _. by eapply blocked_finish.
  - split_step Hstep. injection Hstep as <-. apply answer_on_cases in E2 as (Hst & Hwi & -> & Hs).
    rewrite list_insert_id by done. by apply (cut_inv_reply k t j w v e).
  - split_step Hstep. injection Hstep as <-.
    apply (cut_inv_step t); try done; cbn [ty_net ty_wv set_cluster].
    + apply grows_refl.
    + intros j' vc Hj' _. by eapply lookup_lt_Some.
    + intros j' w' Hj'. by exists w'.
    + apply (ci_block _ Hinv).
    + apply (ci_count _ Hinv).
    + apply (ci_lead _ Hinv).
  - split_step Hstep. injection Hstep as <-. apply exec_on_cases in E1 as [_ [->|Hs]].
    + by destruct Hinv.
    + destruct (quiet_shape _ _ _ Hs) as [He Hv]. by eapply (cut_inv_quiet k t _ _ _ Hinv Hty Hk Hs).
  - split_step Hstep. injection Hstep as <-. by destruct Hinv.
  - split_step Hstep. injection Hstep as <-. apply answer_on_cases in E1 as (_ & _ & -> & Hs).
    destruct (quiet_shape _ _ _ Hs) as [He Hv]. by eapply (cut_inv_quiet k t _ _ _ Hinv Hty Hk Hs).
Qed.

Lemma cut_inv_run k t labs t' :
  0 <= k -> k + Z.of_nat (length labs) <= int_max -> cut_inv t -> sys_ty n k t ->
  forallb undisturbed labs = true -> t_run n Randstring t labs = Some t' ->
  cut_inv t' /\ sys_ty n (k + Z.of_nat (length labs)) t'.
Proof.
  revert k t. induction labs as [|lab labs IH]; intros k t H0 Hk Hinv Hty Hu Hrun.
  - simplify_eq/=. by rewrite Z.add_0_r.
  - simpl in Hrun, Hk, Hu. apply andb_true_iff in Hu as [Hu1 Hu].
    destruct (t_step n Randstring t lab) as [t1|] eqn:E; [|done]. simpl in Hrun.
    replace (k + Z.of_nat (length (lab :: labs))) with (k + 1 + Z.of_nat (length labs)) by (simpl; lia).
    apply (IH _ t1); try done; try lia.
    + apply (cut_inv_t_step k t lab); try done. lia.
    + apply (t_step_ty n Randstring k t lab); try done. lia.
Qed.
End Minority.
End Cut.

(** ** Disconnecting servers *)

(** After [DisconnectAll] of each of [l], these servers are not connected and no end
    leads from or to one of them. *)
Lemma DisconnectAll_list n l : forall g,
  grp_wf n g -> Forall (fun i => (i < n)%nat) l ->
  exists g', foldM DisconnectAll l g = Ret g' /\ grp_wf n g' /\
    (forall j, j ∈ l -> conn g' j = false) /\ (forall j, j ∉ l -> conn g' j = conn g j) /\
    (forall a b, (a < n)%nat -> (b < n)%nat -> a ∈ l \/ b ∈ l -> linked g' a b = false) /\
    (forall a b, (a < n)%nat -> (b < n)%nat -> a ∉ l -> b ∉ l -> linked g' a b = linked g a b).
Proof.
  induction l as [|i l IH]; intros g Hwf Hl.
  - exists g. split; [done|]. split; [done|]. split; [by intros j ?%elem_of_nil|]. split; [done|].
    split; [|done]. by intros a b _ _ [?%elem_of_nil|?%elem_of_nil].
  - apply Forall_cons in Hl as [Hi Hl].
    destruct (disconnect_spec n g i (all g) Hwf Hi) as (g1 & E1 & W1 & _ & C1 & L1 & _).
    { intros j Hj. unfold all in Hj. apply elem_of_seq in Hj. rewrite (gw_srvs _ _ Hwf) in Hj. lia. }
    assert (Hall : forall j, (j < n)%nat -> j ∈ all g)
      by (intros j Hj; unfold all; apply elem_of_seq; rewrite (gw_srvs _ _ Hwf); lia).
    destruct (IH g1 W1 Hl) as (g' & E & W & C & C' & L & L'). exists g'.
    split; [cbn [foldM]; replace (DisconnectAll g i) with (disconnect g i (all g)) by done; by rewrite E1|].
    split; [done|]. assert (Hd : forall j, j ∈ l \/ j ∉ l) by (intros j; destruct (decide (j ∈ l)); auto).
    split; [|split; [|split]].
    + intros j [->|Hj]%elem_of_cons; [|by apply C]. destruct (Hd i) as [?|?]; [by apply C|].
      rewrite C' by done. rewrite C1. by rewrite decide_True.
    + intros j Hj. apply not_elem_of_cons in Hj as [Hne Hj]. rewrite C', C1 by done. by rewrite decide_False.
    + intros a b Ha Hb Hab. destruct (Hd a) as [?|Hna]; [by apply L; auto|].
      destruct (Hd b) as [?|Hnb]; [by apply L; auto|]. rewrite L', L1 by done.
      rewrite decide_True; [done|]. rewrite !elem_of_cons in Hab.
      destruct Hab as [[->|?]|[->|?]]; auto; done.
    + intros a b Ha Hb Hna Hnb. apply not_elem_of_cons in Hna as [Hai Hna].
      apply not_elem_of_cons in Hnb as [Hbi Hnb]. rewrite L', L1 by done.
      rewrite decide_False; [done|]. by intros [[-> _]|[-> _]].
Qed.

(** The harness operations as steps of the system. *)
Definition disconnects {Cmd} (l : list nat) : list (tlabel (Cmd := Cmd)) :=
  (fun i => TGroup (GDisconnectAll i)) <$> l.

Lemma t_run_disconnect {Cmd} n R l : forall (t t' : tsys (Cmd := Cmd)),
  t_run n R t (disconnects l) = Some t' ->
  exists g, foldM DisconnectAll l (ty_grp t) = Ret g /\ t' = set_grp t g.
Proof.
  induction l as [|i l IH]; intros t t' Hrun.
  - injection Hrun as <-. exists (ty_grp t). split; [done|]. by destruct t.
  - unfold disconnects in Hrun. rewrite fmap_cons in Hrun. simpl in Hrun. destruct (DisconnectAll (ty_grp t) i) as [g1| |] eqn:E; try done.
    apply IH in Hrun as (g & Hg & ->). exists g. split; [simpl; by rewrite E|]. done.
Qed.

Section Rest.
Variable n : nat.

(** The servers that are not in [l]. *)
Definition rest (l : list nat) : gset Z := range_set n ∖ list_to_set (Z.of_nat <$> l).

Lemma elem_of_rest l i : i ∈ rest l <-> peer n i /\ Z.to_nat i ∉ l.
Proof.
  unfold rest. rewrite elem_of_difference, elem_of_range_set, elem_of_list_to_set.
  unfold peer. split; intros [Hi Hn]; (split; [done|]).
  - intros Hin. apply Hn, list_elem_of_fmap. exists (Z.to_nat i). split; [lia|done].
  - intros (j & -> & Hj)%list_elem_of_fmap. apply Hn. by rewrite Nat2Z.id.
Qed.

Lemma size_rest l : NoDup l -> Forall (fun i => (i < n)%nat) l -> size (rest l) = (n - length l)%nat.
Proof.
  intros Hnd Hl. set (A := list_to_set (Z.of_nat <$> l) : gset Z).
  assert (HA : size A = length l).
  { unfold A. rewrite size_list_to_set, length_fmap; [done|]. apply NoDup_fmap_2; [intros ??; lia|done]. }
  assert (Hsub : A ⊆ range_set n).
  { intros x. unfold A. rewrite elem_of_list_to_set, elem_of_range_set.
    intros (j & -> & Hj)%list_elem_of_fmap. rewrite Forall_forall in Hl. specialize (Hl j Hj). lia. }
  pose proof (size_union A (rest l) ltac:(unfold rest; fold A; set_solver)) as Hu.
  assert (Heq : A ∪ rest l = range_set n).
  { unfold rest. fold A. rewrite <- union_difference_L by done. done. }
  rewrite Heq, size_range_set, HA in Hu. lia.
Qed.
End Rest.

(** C12: no quorum, no leader.  Take any moment [t0] of a test, after partitions, crashes
    and restarts, and a set of servers that is no majority and has no enabled end to a
    server outside.  However the peers run on, with requests and answers of before still
    in the network, a server of the set that leads afterwards leads in the term it was
    already in, and either led then or was waiting for votes then: no election that
    starts in the minority succeeds. *)
Theorem minority_elects_no_leader {Cmd} n R g labs0 labs (t0 t : tsys (Cmd := Cmd)) S i :
  Z.of_nat (length labs0 + length labs) <= int_max ->
  grp_ty n g -> t_run n R (t_init n g) labs0 = Some t0 ->
  S ⊆ range_set n -> Z.of_nat (size S) <= Z.of_nat n / 2 -> cut_off n t0 S ->
  forallb undisturbed labs = true -> t_run n R t0 labs = Some t ->
  i ∈ S -> rf_state (net_srv (ty_net t) i) = Leader ->
  rf_currentTerm (net_srv (ty_net t) i) = rf_currentTerm (net_srv (ty_net t0) i) /\
  (rf_state (net_srv (ty_net t0) i) = Leader \/ pending t0 i).
Proof.
  intros Hlen Hg Hrun0 HS Hmin Hcut Hu Hrun.
  pose proof (t_run_ty n R 0 _ labs0 t0 ltac:(lia) ltac:(lia) (sys_ty_init n g Hg) Hrun0) as Hty0.
  destruct (cut_inv_run n R _ t0 S Hty0 HS Hmin Hcut (0 + Z.of_nat (length labs0)) t0 labs t) as [Hinv _];
    try done; try lia; [by eapply cut_inv_init|]. apply (ci_lead _ _ _ _ Hinv).
Qed.

(** A check that reads servers none of which is a connected leader passes. *)
Lemma checkNoLeader_ok {Cmd} n (ws : nat -> world Cmd) :
  (forall i, (i < n)%nat -> w_conn (ws i) i = true -> exists term, state_of (ws i) i = Ret (term, false)) ->
  checkNoLeader n ws = Ret tt.
Proof.
  intros H. unfold checkNoLeader. rewrite (foldM_foldl _ (fun _ _ => tt)).
  - f_equal. by destruct (foldl _ _ _).
  - intros [] i Hi%elem_of_seq. destruct (w_conn (ws i) i) eqn:Ec; [|done].
    destruct (H i ltac:(lia) Ec) as (term & ->). done.
Qed.

(** C32: [checkNoLeader] in [TestReElection3A].  The harness disconnects the servers of a
    list so long that the others are no majority.  If none of the others leads then or
    waits for votes in its term, [checkNoLeader] passes, at whatever moments it reads
    the servers one after the other. *)
Theorem checkNoLeader_passes {Cmd} n R g labs0 l (t t0 : tsys (Cmd := Cmd)) steps ts ws :
  (forall i, Z.of_nat (length labs0 + length l + length (steps i)) <= int_max) ->
  grp_ty n g -> t_run n R (t_init n g) labs0 = Some t -> grp_wf n (ty_grp t) ->
  NoDup l -> Forall (fun i => (i < n)%nat) l -> Z.of_nat (n - length l) <= Z.of_nat n / 2 ->
  t_run n R t (disconnects l) = Some t0 ->
  (forall i, i ∈ rest n l -> rf_state (net_srv (ty_net t) i) <> Leader /\ ~ pending t i) ->
  (forall i, (i < n)%nat -> forallb undisturbed (steps i) = true /\ t_run n R t0 (steps i) = Some (ts i)) ->
  reads n ws (fun i => ty_net (ts i)) -> (forall i, (i < n)%nat -> w_conn (ws i) i = conn (ty_grp (ts i)) i) ->
  checkNoLeader n ws = Ret tt.
Proof.
  intros Hlen Hg Hrun Hwf Hnd Hl Hmin Hdis Hquiet Hsteps Hreads Hconn.
  destruct (t_run_disconnect n R l t t0 Hdis) as (g0 & E & Ht0).
  destruct (DisconnectAll_list n l (ty_grp t) Hwf Hl) as (g1 & E1 & _ & C & _ & L & _).
  assert (g1 = g0) as -> by congruence. assert (Hg0 : ty_grp t0 = g0) by (by rewrite Ht0).
  assert (Hrun0 : t_run n R (t_init n g) (labs0 ++ disconnects l) = Some t0)
    by (by rewrite t_run_app, Hrun).
  apply checkNoLeader_ok. intros i Hi Hc. destruct (Hsteps i Hi) as [Hu Hrun1].
  specialize (Hlen i).
  assert (Hk : Z.of_nat (length (labs0 ++ disconnects l)) + Z.of_nat (length (steps i)) <= int_max)
    by (unfold disconnects; rewrite length_app, length_fmap; lia).
  pose proof (t_run_ty n R 0 _ (labs0 ++ disconnects l) t0 ltac:(lia) ltac:(lia) (sys_ty_init n g Hg) Hrun0) as Hty0.
  destruct (cut_inv_run n R _ t0 (rest n l) Hty0 ltac:(unfold rest; set_solver) ltac:(by rewrite size_rest)) with
    (k := 0 + Z.of_nat (length (labs0 ++ disconnects l))) (t := t0)
    (labs := steps i) (t' := ts i) as [Hinv _]; try done; try lia.
  { intros a b Ha Hb Hnb. rewrite Hg0. apply elem_of_rest in Ha as [Ha _]. unfold peer in *.
    apply L; [lia|lia|]. right. destruct (decide (Z.to_nat b ∈ l)) as [|Hn]; [done|].
    exfalso. by apply Hnb, elem_of_rest. }
  { by eapply cut_inv_init. }
  rewrite (Hconn i Hi), (ci_grp _ _ _ _ Hinv), Hg0 in Hc.
  assert (Hil : i ∉ l) by (intros Hin; specialize (C i Hin); congruence).
  assert (HiS : Z.of_nat i ∈ rest n l) by (apply elem_of_rest; unfold peer; rewrite Nat2Z.id; split; [lia|done]).
  rewrite (state_of_reads n ws _ i Hreads Hi). unfold GetState. eexists. f_equal. f_equal.
  apply bool_decide_eq_false_2. intros Hlead. destruct (Hquiet _ HiS) as [Hnl Hnp].
  destruct (ci_lead _ _ _ _ Hinv _ HiS Hlead) as [_ [Hx|Hx]]; rewrite Ht0 in Hx; [by apply Hnl|by apply Hnp].
Qed.

(** ** A minority of three *)

Module CutDemo.
Import TestDemo.
(** Server 0 alone: its requests find disabled ends. *)
Definition alone : list (tlabel (Cmd := nat)) := [TElection 0 300 300; TVoteBind 0; TVoteBind 1].
Definition leading (t : tsys (Cmd := nat)) (i : Z) : bool := bool_decide (rf_state (net_srv (ty_net t) i) = Leader).
End CutDemo.

Lemma minority_elects_no_leader_witness :
  exists t0 t, t_run 3 TestDemo.R (t_init 3 TestDemo.g3)
      (TestDemo.elect_0 ++ [TGroup (GPartition [1; 2] [0])]%nat) = Some t0 /\
    t_run 3 TestDemo.R t0 [THeartbeat 0 500; TAppendBind 0] = Some t /\
    rf_state (net_srv (ty_net t) 0) = Leader /\
    rf_currentTerm (net_srv (ty_net t) 0) = rf_currentTerm (net_srv (ty_net t0) 0).
Proof.
  destruct (passes_inv (fun t0 => negb (linked (ty_grp t0) 0 1) && negb (linked (ty_grp t0) 0 2) &&
      passes (fun t => CutDemo.leading t 0) (t_run 3 TestDemo.R t0 [THeartbeat 0 500; TAppendBind 0]))
    (t_run 3 TestDemo.R (t_init 3 TestDemo.g3) (TestDemo.elect_0 ++ [TGroup (GPartition [1; 2] [0])]%nat)))
    as (t0 & H0 & Hs); [by vm_compute|].
  apply andb_true_iff in Hs as [[L1%negb_true_iff L2%negb_true_iff]%andb_true_iff (t & Ht & Hl)%passes_inv].
  apply bool_decide_eq_true_1 in Hl.
  exists t0, t. split; [exact H0|]. split; [exact Ht|]. split; [exact Hl|].
  refine (proj1 (minority_elects_no_leader 3 TestDemo.R TestDemo.g3 _ _ t0 t {[0]} 0 _ _ H0 _ _ _ _ Ht _ Hl)).
  - by vm_compute.
  - by destruct TestDemo.g3_started as (c & _ & _ & _ & Hg).
  - apply singleton_subseteq_l, elem_of_range_set. lia.
  - by vm_compute.
  - intros a b ->%elem_of_singleton Hb Hn. unfold peer in Hb.
    assert (b = 1 \/ b = 2) as [->| ->]; [|exact L1|exact L2].
    assert (b <> 0) by (intros ->; by apply Hn, elem_of_singleton). lia.
  - by vm_compute.
  - by apply elem_of_singleton.
Defined.

Lemma checkNoLeader_passes_witness :
  exists t0 t, t_run 3 TestDemo.R (t_init 3 TestDemo.g3) (disconnects [1; 2]%nat) = Some t0 /\
    t_run 3 TestDemo.R t0 CutDemo.alone = Some t /\ conn (ty_grp t0) 0 = true /\
    rf_state (net_srv (ty_net t) 0) = Candidate /\ checkNoLeader 3 (TestDemo.ws t) = Ret tt.
Proof.
  destruct (passes_inv (fun t0 => conn (ty_grp t0) 0 && passes (fun t =>
      bool_decide (rf_state (net_srv (ty_net t) 0) = Candidate))
      (t_run 3 TestDemo.R t0 CutDemo.alone))
    (t_run 3 TestDemo.R (t_init 3 TestDemo.g3) (disconnects [1; 2]%nat))) as (t0 & H0 & Hs); [by vm_compute|].
  apply andb_true_iff in Hs as [Hc (t & Ht & Hs%bool_decide_eq_true_1)%passes_inv].
  exists t0, t. split; [exact H0|]. split; [exact Ht|]. split; [exact Hc|]. split; [exact Hs|].
  destruct TestDemo.g3_started as (c & _ & _ & Hwf & Hg).
  apply (checkNoLeader_passes 3 TestDemo.R TestDemo.g3 [] [1; 2]%nat (t_init 3 TestDemo.g3) t0
    (fun _ => CutDemo.alone) (fun _ => t) (TestDemo.ws t)).
  - intros i. by vm_compute.
  - exact Hg.
  - reflexivity.
  - exact Hwf.
  - apply NoDup_cons. split; [by intros ?%list_elem_of_singleton|apply NoDup_singleton].
  - repeat constructor.
  - by vm_compute.
  - exact H0.
  - intros i Hi. split; [discriminate|]. intros (j & w & vc & el & Hw & _). discriminate Hw.
  - intros i Hi. split; [by vm_compute|exact Ht].
  - apply TestDemo.ws_reads.
  - reflexivity.
Defined.
