(* ===== verification/Annotation.v ===== *)
(** The annotations that the test framework collects for the visualisation of a
    run ([tester1/annotation.go]): points, intervals, continuous intervals by tag,
    and the reports of crashes and partitions.  Time stamps are
    arguments; [Porcupine.v] has the cleanup. *)
From S2P Require Import Prelude.
From stdpp Require Import pretty.
Open Scope Z_scope.

Definition COLOR_INFO : string := "#FAFAFA".
Definition COLOR_NEUTRAL : string := "#FFECB3".
Definition COLOR_SUCCESS : string := "#C8E6C9".
Definition COLOR_FAILURE : string := "#FFCDD2".
Definition COLOR_FAULT : string := "#B3E5FC".
Definition COLOR_USER : string := "#FFF176".

Definition TAG_CHECKER : string := "$ Checker".
Definition TAG_PARTITION : string := "$ Failure".
Definition TAG_INFO : string := "$ Test Info".

(** The fields of [porcupine.Annotation] that the code sets; [End] is 0 for a point. *)
Record PAnnotation := mkPAnnotation {
  pa_Tag : string; pa_Start : Z; pa_End : Z;
  pa_Description : string; pa_Details : string; pa_BackgroundColor : string
}.

Record Continuous := mkContinuous {
  co_start : Z; co_desp : string; co_details : string; co_bgcolor : string
}.

(** The zero value that a map lookup yields for an absent tag. *)
Definition zero_Continuous : Continuous := mkContinuous 0 "" "" "".

Record Annotation := mkAnnotation {
  an_annotations : list PAnnotation;
  an_continuous : gmap string Continuous;
  an_finalized : bool
}.

Record CheckerBegin := mkCheckerBegin { cb_ts : Z; cb_details : string }.

Record FrameworkInfo := mkFrameworkInfo {
  fi_nservers : nat;
  fi_connected : list bool;
  fi_crashed : list bool;
  fi_ckbegin : CheckerBegin
}.

(** The two global variables [annotation] and [finfo]. *)
Record globals := mkGlobals { gl_an : Annotation; gl_finfo : FrameworkInfo }.

Definition new_Annotation : Annotation := mkAnnotation [] ∅ false.
Definition new_FrameworkInfo (nservers : nat) : FrameworkInfo :=
  mkFrameworkInfo nservers (replicate nservers true) (replicate nservers false) (mkCheckerBegin 0 "").

Definition append_annotation (an : Annotation) (a : PAnnotation) : Annotation :=
  mkAnnotation (an_annotations an ++ [a]) (an_continuous an) (an_finalized an).

Definition finalize (t : Z) (an : Annotation) : Annotation * list PAnnotation :=
  (mkAnnotation (an_annotations an) (an_continuous an) true,
   an_annotations an ++
     ((fun '(tag, cont) => mkPAnnotation tag (co_start cont) t (co_desp cont) (co_details cont)
                             (co_bgcolor cont)) <$> map_to_list (an_continuous an))).

Definition clear (an : Annotation) : Annotation := mkAnnotation [] ∅ false.

Definition annotatePointColor (t : Z) (tag desp details bgcolor : string) (an : Annotation) : Annotation :=
  append_annotation an (mkPAnnotation tag t 0 desp details bgcolor).

Definition annotateIntervalColor (t : Z) (tag : string) (start : Z) (desp details bgcolor : string)
    (an : Annotation) : Annotation :=
  append_annotation an (mkPAnnotation tag start t desp details bgcolor).

Definition interval (tag : string) (cont : Continuous) (t : Z) : PAnnotation :=
  mkPAnnotation tag (co_start cont) t (co_desp cont) (co_details cont) (co_bgcolor cont).

Definition annotateContinuousColor (t : Z) (tag desp details bgcolor : string) (an : Annotation)
  : Annotation :=
  match an_continuous an !! tag with
  | None =>
      mkAnnotation (an_annotations an)
        (<[tag := mkContinuous t desp details bgcolor]> (an_continuous an)) (an_finalized an)
  | Some cont =>
      mkAnnotation (an_annotations an ++ [interval tag cont t])
        (<[tag := mkContinuous t desp details bgcolor]> (an_continuous an)) (an_finalized an)
  end.

(** The branch for an absent tag is empty: the code goes on with the zero value. *)
Definition annotateContinuousEnd (t : Z) (tag : string) (an : Annotation) : Annotation :=
  let cont := default zero_Continuous (an_continuous an !! tag) in
  mkAnnotation (an_annotations an ++ [interval tag cont t]) (delete tag (an_continuous an))
    (an_finalized an).

(** ** The functions on the global variables *)

Definition on_an (g : globals) (f : Annotation -> Annotation) : globals :=
  mkGlobals (f (gl_an g)) (gl_finfo g).
Definition with_finfo (g : globals) (fi : FrameworkInfo) : globals := mkGlobals (gl_an g) fi.

Definition AnnotatePointColor (t : Z) (tag desp details bgcolor : string) (g : globals) : globals :=
  on_an g (annotatePointColor t tag desp details bgcolor).
Definition AnnotateIntervalColor (t : Z) (tag : string) (start : Z) (desp details bgcolor : string)
    (g : globals) : globals :=
  on_an g (annotateIntervalColor t tag start desp details bgcolor).
Definition AnnotateContinuousColor (t : Z) (tag desp details bgcolor : string) (g : globals) : globals :=
  on_an g (annotateContinuousColor t tag desp details bgcolor).
Definition AnnotateContinuousEnd (t : Z) (tag : string) (g : globals) : globals :=
  on_an g (annotateContinuousEnd t tag).

Definition Annotate (t : Z) (tag desp details : string) : globals -> globals :=
  AnnotatePointColor t tag desp details COLOR_USER.
Definition AnnotateInterval (t : Z) (tag : string) (start : Z) (desp details : string) : globals -> globals :=
  AnnotateIntervalColor t tag start desp details COLOR_USER.
Definition AnnotateContinuous (t : Z) (tag desp details : string) : globals -> globals :=
  AnnotateContinuousColor t tag desp details COLOR_USER.

Definition AnnotateInfo (t : Z) (desp details : string) : globals -> globals :=
  AnnotatePointColor t TAG_INFO desp details COLOR_INFO.
Definition AnnotateInfoInterval (t start : Z) (desp details : string) : globals -> globals :=
  AnnotateIntervalColor t TAG_INFO start desp details COLOR_INFO.

Definition AnnotateTest (t : Z) (desp : string) (nservers : nat) (g : globals) : globals :=
  let details := desp +:+ " (" +:+ pretty nservers +:+ " servers)" in
  AnnotateInfo t details details (mkGlobals (clear (gl_an g)) (new_FrameworkInfo nservers)).

Definition AnnotateCheckerBegin (t : Z) (details : string) (g : globals) : globals :=
  let fi := gl_finfo g in
  with_finfo g (mkFrameworkInfo (fi_nservers fi) (fi_connected fi) (fi_crashed fi)
                  (mkCheckerBegin t details)).

(** The last statement of the function assigns 0 to the local copy [ckbegin.ts]. *)
Definition AnnotateCheckerEnd (t : Z) (desp details color : string) (g : globals) : globals :=
  let ckbegin := fi_ckbegin (gl_finfo g) in
  if cb_ts ckbegin =? 0 then AnnotatePointColor t TAG_CHECKER desp details color g
  else
    AnnotateIntervalColor t TAG_CHECKER (cb_ts ckbegin) desp
      (cb_details ckbegin +:+ ": " +:+ details) color g.

Definition AnnotateCheckerSuccess (t : Z) (desp details : string) : globals -> globals :=
  AnnotateCheckerEnd t desp details COLOR_SUCCESS.
Definition AnnotateCheckerFailure (t : Z) (desp details : string) : globals -> globals :=
  AnnotateCheckerEnd t desp details COLOR_FAILURE.
Definition AnnotateCheckerNeutral (t : Z) (desp details : string) : globals -> globals :=
  AnnotateCheckerEnd t desp details COLOR_NEUTRAL.

Definition SetAnnotationFinalized (g : globals) : globals :=
  on_an g (fun an => mkAnnotation (an_annotations an) (an_continuous an) true).
Definition GetAnnotationFinalized (g : globals) : bool := an_finalized (gl_an g).

Definition FinalizeAnnotations (t : Z) (e : string) (g : globals) : globals * list PAnnotation :=
  let '(an, l) := finalize t (gl_an g) in
  (mkGlobals an (gl_finfo g), l ++ [mkPAnnotation TAG_INFO t 0 e e COLOR_INFO]).

(** ["%v"] of an int and of a slice of ints. *)
Definition show (i : nat) : string := pretty i.
Fixpoint show_items (l : list nat) : string :=
  match l with
  | [] => ""
  | [i] => show i
  | i :: l' => show i +:+ " " +:+ show_items l'
  end.
Definition show_slice (l : list nat) : string := "[" +:+ show_items l +:+ "]".

(** The loop of [annotateFault] over [finfo.connected] from index [id]; the accumulator
    is the text so far, [conn] and [crashes]. *)
Fixpoint fault_loop (crashed connected : list bool) (id : nat) (acc : string * list nat * list nat)
  : outcome (string * list nat * list nat) :=
  match connected with
  | [] => Ret acc
  | c :: connected' =>
      let '(text, conn, crashes) := acc in
      cr ← at_ crashed id;
      if cr : bool then fault_loop crashed connected' (S id) (text, conn, crashes ++ [id])
      else if c then fault_loop crashed connected' (S id) (text, conn ++ [id], crashes)
      else fault_loop crashed connected' (S id) (text +:+ "[" +:+ show id +:+ "] ", conn, crashes)
  end.

Definition fault_text (fi : FrameworkInfo) : outcome string :=
  '(text, conn, crashes) ← fault_loop (fi_crashed fi) (fi_connected fi) 0 ("partition = ", [], []);
  let text := if (0 <? length conn)%nat then text +:+ show_slice conn else text in
  Ret (if (0 <? length crashes)%nat then text +:+ " / crash = " +:+ show_slice crashes else text).

Definition annotateFault (t : Z) (g : globals) : outcome globals :=
  let fi := gl_finfo g in
  if bool_decide (replicate (fi_nservers fi) true = fi_connected fi) &&
     bool_decide (replicate (fi_nservers fi) false = fi_crashed fi) then
    Ret (AnnotateContinuousEnd t TAG_PARTITION g)
  else
    text ← fault_text fi;
    Ret (AnnotateContinuousColor t TAG_PARTITION text text COLOR_FAULT g).

(** [copy(finfo.connected, connection)]: as many elements as both have. *)
Definition AnnotateConnection (t : Z) (connection : list bool) (g : globals) : outcome globals :=
  let fi := gl_finfo g in
  if bool_decide (fi_connected fi = connection) then Ret g
  else
    let connected := take (length (fi_connected fi)) connection ++
                     drop (length connection) (fi_connected fi) in
    annotateFault t (with_finfo g (mkFrameworkInfo (fi_nservers fi) connected (fi_crashed fi)
                                     (fi_ckbegin fi))).

Definition AnnotateTwoPartitions (t : Z) (p1 p2 : list nat) (g : globals) : globals :=
  let text := "partition = " +:+ show_slice p1 +:+ " " +:+ show_slice p2 in
  AnnotateContinuousColor t TAG_PARTITION text text COLOR_FAULT g.

Definition AnnotateClearFailure (t : Z) (g : globals) : globals :=
  let fi := gl_finfo g in
  AnnotateContinuousEnd t TAG_PARTITION
    (with_finfo g (mkFrameworkInfo (fi_nservers fi) ((fun _ => true) <$> fi_connected fi)
                     ((fun _ => false) <$> fi_crashed fi) (fi_ckbegin fi))).

(** The loops of [AnnotateShutdown] ([v] true) and [AnnotateRestart] ([v] false) over the
    servers: the flags and whether one changed. *)
Definition mark_step (v : bool) (acc : list bool * bool) (id : nat) : outcome (list bool * bool) :=
  let '(crashed, changed) := acc in
  old ← at_ crashed id;
  crashed ← set_at crashed id v;
  Ret (crashed, changed || negb (Bool.eqb old v)).

Definition with_crashed (g : globals) (crashed : list bool) : globals :=
  let fi := gl_finfo g in
  with_finfo g (mkFrameworkInfo (fi_nservers fi) (fi_connected fi) crashed (fi_ckbegin fi)).

Definition mark_servers (v : bool) (t : Z) (servers : list nat) (g : globals) : outcome globals :=
  '(crashed, changed) ← foldM (mark_step v) servers (fi_crashed (gl_finfo g), false);
  let g := with_crashed g crashed in
  if changed : bool then annotateFault t g else Ret g.

Definition AnnotateShutdown : Z -> list nat -> globals -> outcome globals := mark_servers true.
Definition AnnotateRestart : Z -> list nat -> globals -> outcome globals := mark_servers false.
Definition AnnotateShutdownAll (t : Z) (g : globals) : outcome globals :=
  AnnotateShutdown t (seq 0 (fi_nservers (gl_finfo g))) g.
Definition AnnotateRestartAll (t : Z) (g : globals) : outcome globals :=
  AnnotateRestart t (seq 0 (fi_nservers (gl_finfo g))) g.

(** ** Continuous annotations *)

(** An event of a tag: when, and the annotation that starts. *)
Abbreviation event := Continuous.

Definition start_event (tag : string) (an : Annotation) (e : event) : Annotation :=
  annotateContinuousColor (co_start e) tag (co_desp e) (co_details e) (co_bgcolor e) an.

(** The intervals of a sequence of events, each up to the next one, the last up to [t]. *)
Fixpoint tile (tag : string) (evs : list event) (t : Z) : list PAnnotation :=
  match evs with
  | [] => []
  | [e] => [interval tag e t]
  | e :: ((e' :: _) as evs') => interval tag e (co_start e') :: tile tag evs' t
  end.

Lemma tile_ongoing tag evs : forall an cont t,
  an_continuous an !! tag = Some cont ->
  annotateContinuousEnd t tag (foldl (start_event tag) an evs) =
    mkAnnotation (an_annotations an ++ tile tag (cont :: evs) t)
      (delete tag (an_continuous an)) (an_finalized an).
Proof.
  induction evs as [|e evs IH]; intros an cont t Hc.
  - cbn [foldl]. unfold annotateContinuousEnd. by rewrite Hc.
  - cbn [foldl]. rewrite (IH _ e).
    + unfold start_event, annotateContinuousColor. rewrite Hc. simpl.
      rewrite <- app_assoc, delete_insert_eq. done.
    + unfold start_event, annotateContinuousColor. rewrite Hc. simpl. rewrite lookup_insert_eq. by destruct e.
Qed.

(** continuous annotations tile the time line.  With nothing going on for a tag, a
    sequence of continuous annotations followed by the end of the tag adds one
    interval per annotation, in order, each reaching exactly to the start of the
    next one and the last to the end, and leaves nothing going on for the tag and
    the other tags as they were. *)
Theorem continuous_annotations_tile tag an e evs t :
  an_continuous an !! tag = None ->
  annotateContinuousEnd t tag (foldl (start_event tag) an (e :: evs)) =
    mkAnnotation (an_annotations an ++ tile tag (e :: evs) t) (an_continuous an) (an_finalized an).
Proof.
  intros Hc. cbn [foldl]. rewrite (tile_ongoing tag evs _ e).
  - unfold start_event, annotateContinuousColor. rewrite Hc. simpl. by rewrite delete_insert_id.
  - unfold start_event, annotateContinuousColor. rewrite Hc. simpl. rewrite lookup_insert_eq. by destruct e.
Qed.

(** The end of a tag for which nothing is going on adds an interval with no text from
    time 0, although the code's comment says there is nothing to end. *)
Lemma end_without_start tag an t :
  an_continuous an !! tag = None ->
  an_annotations (annotateContinuousEnd t tag an) =
    an_annotations an ++ [mkPAnnotation tag 0 t "" "" ""].
Proof. intros Hc. unfold annotateContinuousEnd. by rewrite Hc. Qed.

(** the start of a check is never forgotten.  [AnnotateCheckerEnd] resets only a
    local copy of the start: a second result, reported without a new
    [AnnotateCheckerBegin], is drawn as an interval from the first check's start
    with the first check's text instead of as a point. *)
Theorem checker_begin_not_reset g t0 d0 t1 desp1 d1 c1 t2 desp2 d2 c2 :
  t0 <> 0 ->
  let g1 := AnnotateCheckerEnd t1 desp1 d1 c1 (AnnotateCheckerBegin t0 d0 g) in
  fi_ckbegin (gl_finfo g1) = mkCheckerBegin t0 d0 /\
  an_annotations (gl_an (AnnotateCheckerEnd t2 desp2 d2 c2 g1)) =
    an_annotations (gl_an g) ++
      [mkPAnnotation TAG_CHECKER t0 t1 desp1 (d0 +:+ ": " +:+ d1) c1;
       mkPAnnotation TAG_CHECKER t0 t2 desp2 (d0 +:+ ": " +:+ d2) c2].
Proof.
  intros Ht g1. unfold g1, AnnotateCheckerEnd, AnnotateCheckerBegin. simpl.
  rewrite (proj2 (Z.eqb_neq _ _)) by done. simpl. rewrite (proj2 (Z.eqb_neq _ _)) by done. simpl.
  split; [done|]. by rewrite <- app_assoc.
Qed.

(** ** Crashes *)

Definition marked (v : bool) (crashed : list bool) (servers : list nat) : list bool :=
  foldl (fun c id => <[id := v]> c) crashed servers.

Lemma marked_length v servers : forall crashed, length (marked v crashed servers) = length crashed.
Proof.
  induction servers as [|id servers IH]; intros crashed; [done|].
  unfold marked in *. cbn [foldl]. by rewrite IH, length_insert.
Qed.

Lemma marked_lookup v servers : forall crashed j b,
  crashed !! j = Some b ->
  marked v crashed servers !! j = Some (if decide (j ∈ servers) then v else b).
Proof.
  induction servers as [|id servers IH]; intros crashed j b Hj; [done|].
  unfold marked in *. cbn [foldl]. destruct (decide (id = j)) as [->|Hne].
  - rewrite (IH _ j v) by (apply list_lookup_insert_eq; by eapply lookup_lt_Some).
    rewrite (decide_True _ _ (list_elem_of_here _ _)). by case_decide.
  - rewrite (IH _ j b) by (by rewrite list_lookup_insert_ne).
    destruct (decide (j ∈ servers)) as [Hin|Hnin].
    + rewrite decide_True; [done|]. auto with go.
    + rewrite decide_False; [done|]. rewrite elem_of_cons. intros [?|?]; congruence.
Qed.

Lemma mark_loop v servers : forall crashed changed,
  (forall id, id ∈ servers -> (id < length crashed)%nat) ->
  exists changed', foldM (mark_step v) servers (crashed, changed) = Ret (marked v crashed servers, changed') /\
    (changed = true -> changed' = true) /\
    (forall id rest, servers = id :: rest -> crashed !! id = Some (negb v) -> changed' = true).
Proof.
  induction servers as [|id servers IH]; intros crashed changed Hlt; [by exists changed|].
  destruct (lookup_lt_is_Some_2 crashed id) as [b Hb]; [apply Hlt, list_elem_of_here|].
  cbn [foldM mark_step]. rewrite (at_Ret _ _ _ Hb). unfold set_at. rewrite Hb. step_bind.
  destruct (IH (<[id := v]> crashed) (changed || negb (Bool.eqb b v))) as (ch & E & H1 & _).
  { intros j Hj. rewrite length_insert. apply Hlt. auto with go. }
  exists ch. split; [exact E|]. split.
  - intros ->. by apply H1.
  - intros id' rest [= <- <-] Hn. apply H1. replace b with (negb v) by congruence.
    destruct v; simpl; apply orb_true_r.
Qed.

Lemma fault_loop_total crashed connected : forall id acc,
  (id + length connected <= length crashed)%nat -> exists r, fault_loop crashed connected id acc = Ret r.
Proof.
  induction connected as [|c connected IH]; intros id [[text conn] crashes] Hlen; [by eexists|].
  simpl in *. destruct (lookup_lt_is_Some_2 crashed id) as [cr Hcr]; [lia|].
  rewrite (at_Ret _ _ _ Hcr). step_bind. destruct cr, c; apply IH; lia.
Qed.

Lemma fault_text_total fi :
  (length (fi_connected fi) <= length (fi_crashed fi))%nat -> exists text, fault_text fi = Ret text.
Proof.
  intros H. unfold fault_text.
  destruct (fault_loop_total (fi_crashed fi) (fi_connected fi) 0 ("partition = ", [], [])) as ([[text conn] crashes] & E);
    [lia|]. rewrite E. step_bind. by eexists.
Qed.

(** a crash and its repair are one interval.  With everything connected and up and
    no failure going on, shutting servers down at [t1] and restarting the same
    servers at [t2] adds exactly one failure annotation, from [t1] to [t2], and
    restores the record of crashed servers. *)
Theorem shutdown_restart_interval g n id rest t1 t2 :
  fi_nservers (gl_finfo g) = n -> fi_connected (gl_finfo g) = replicate n true ->
  fi_crashed (gl_finfo g) = replicate n false ->
  an_continuous (gl_an g) !! TAG_PARTITION = None ->
  (forall i, i ∈ id :: rest -> (i < n)%nat) ->
  exists text,
    (g1 ← AnnotateShutdown t1 (id :: rest) g; AnnotateRestart t2 (id :: rest) g1) =
      Ret (mkGlobals (append_annotation (gl_an g) (mkPAnnotation TAG_PARTITION t1 t2 text text COLOR_FAULT))
             (gl_finfo g)).
Proof.
  intros Hn Hconn Hcr Hno Hlt. set (servers := id :: rest) in *.
  unfold AnnotateShutdown, mark_servers at 1. rewrite Hcr.
  destruct (mark_loop true servers (replicate n false) false) as (ch1 & E1 & _ & Hch1).
  { intros i Hi. rewrite length_replicate. by apply Hlt. }
  rewrite E1. step_bind.
  assert (Hid : (id < n)%nat) by (apply Hlt, list_elem_of_here).
  rewrite (Hch1 id rest eq_refl) by (by rewrite lookup_replicate_2).
  set (crashed := marked true (replicate n false) servers).
  assert (Hlc : length crashed = n) by (unfold crashed; by rewrite marked_length, length_replicate).
  assert (Hidc : crashed !! id = Some true).
  { unfold crashed. rewrite (marked_lookup _ _ _ id false) by (by rewrite lookup_replicate_2).
    rewrite decide_True; [done|]. apply list_elem_of_here. }
  unfold annotateFault at 1. cbn [with_crashed with_finfo gl_finfo fi_nservers fi_connected fi_crashed].
  rewrite Hn, Hconn.
  rewrite (bool_decide_eq_false_2 (replicate n false = crashed))
    by (intros Heq; rewrite <- Heq, lookup_replicate_2 in Hidc by done; done).
  rewrite andb_false_r.
  destruct (fault_text_total (mkFrameworkInfo n (replicate n true) crashed (fi_ckbegin (gl_finfo g)))) as (text & Et);
    [simpl; by rewrite length_replicate, Hlc|].
  unfold with_crashed, with_finfo. cbn [gl_finfo]. rewrite Hn, Hconn, Et. step_bind.
  exists text. unfold AnnotateRestart, mark_servers. cbn [AnnotateContinuousColor on_an gl_finfo fi_crashed].
  destruct (mark_loop false servers crashed false) as (ch2 & E2 & _ & Hch2).
  { intros i Hi. rewrite Hlc. by apply Hlt. }
  rewrite E2. step_bind. rewrite (Hch2 id rest eq_refl Hidc).
  assert (Hback : marked false crashed servers = replicate n false).
  { apply list_eq. intros j. destruct (decide (j < n)%nat) as [Hj|Hj].
    - rewrite lookup_replicate_2 by done.
      rewrite (marked_lookup false servers crashed j (if decide (j ∈ servers) then true else false)).
      + by case_decide.
      + unfold crashed. by rewrite (marked_lookup _ _ _ j false) by (by rewrite lookup_replicate_2).
    - rewrite !(proj2 (lookup_ge_None _ _)); [done| |];
        rewrite ?marked_length, ?length_replicate, ?Hlc; lia. }
  rewrite Hback. unfold annotateFault, with_crashed, with_finfo.
  cbn [gl_finfo fi_nservers fi_connected fi_crashed fi_ckbegin gl_an].
  rewrite !bool_decide_eq_true_2 by done. cbn [andb].
  unfold AnnotateContinuousEnd, AnnotateContinuousColor, on_an, annotateContinuousEnd, annotateContinuousColor.
  cbn [gl_an gl_finfo]. rewrite Hno. cbn [an_continuous an_annotations an_finalized].
  rewrite lookup_insert_eq, delete_insert_id by done. simpl. f_equal. f_equal.
  clear -Hn Hconn Hcr. destruct g as [an [ns cn cr cb]]. simpl in *. by subst.
Qed.

Lemma continuous_annotations_tile_witness :
  an_annotations (annotateContinuousEnd 9 "t"
    (foldl (start_event "t") new_Annotation [mkContinuous 1 "a" "a" "x"; mkContinuous 4 "b" "b" "y"])) =
  [mkPAnnotation "t" 1 4 "a" "a" "x"; mkPAnnotation "t" 4 9 "b" "b" "y"].
Proof.
  rewrite (continuous_annotations_tile "t" new_Annotation (mkContinuous 1 "a" "a" "x")
    [mkContinuous 4 "b" "b" "y"] 9 eq_refl). reflexivity.
Defined.

Lemma checker_begin_not_reset_witness :
  fi_ckbegin (gl_finfo (AnnotateCheckerEnd 7 "ok" "d" COLOR_SUCCESS
    (AnnotateCheckerBegin 5 "check" (mkGlobals new_Annotation (new_FrameworkInfo 3))))) =
  mkCheckerBegin 5 "check".
Proof.
  exact (proj1 (checker_begin_not_reset (mkGlobals new_Annotation (new_FrameworkInfo 3)) 5 "check"
    7 "ok" "d" COLOR_SUCCESS 8 "ok" "e" COLOR_SUCCESS ltac:(lia))).
Defined.

Lemma shutdown_restart_interval_witness :
  exists text g2, (g1 ← AnnotateShutdown 5 [1%nat] (mkGlobals new_Annotation (new_FrameworkInfo 3));
                   AnnotateRestart 9 [1%nat] g1) = Ret g2 /\
    an_annotations (gl_an g2) = [mkPAnnotation TAG_PARTITION 5 9 text text COLOR_FAULT].
Proof.
  destruct (shutdown_restart_interval (mkGlobals new_Annotation (new_FrameworkInfo 3)) 3 1 [] 5 9
    eq_refl eq_refl eq_refl eq_refl) as (text & E).
  - intros i ->%list_elem_of_singleton. lia.
  - exists text. eexists. split; [exact E|reflexivity].
Defined.
