(* ===== verification/Porcupine.v ===== *)
(** How a test ends: the verdict of the linearizability checker and the visualisation of
    the run ([kvtest1/porcupine.go], the cleanup of [tester1/annotation.go]).  The checker
    itself is a third-party package and a parameter; what it is asked, when the test
    fails, and which of the two places draws what are here. *)
From S2P Require Import Prelude.
From S2P Require Import KvSrv.
From S2P Require Import KvModel.
From S2P Require Import KvLin.
From S2P Require Import Annotation.
From stdpp Require Import pretty.
Open Scope Z_scope.

(** [DescribeOperation]: the label of an operation in the drawing. *)
Definition DescribeOperation (inp : KvInput) (out : KvOutput) : string :=
  if KvInput_Op inp =? 0 then
    "get('" +:+ KvInput_Key inp +:+ "') -> ('" +:+ KvOutput_Value out +:+ "', '" +:+
    pretty (KvOutput_Version out) +:+ "', '" +:+ KvOutput_Err out +:+ "')"
  else if KvInput_Op inp =? 1 then
    "put('" +:+ KvInput_Key inp +:+ "', '" +:+ KvInput_Value inp +:+ "', '" +:+
    pretty (KvInput_Version inp) +:+ "') -> ('" +:+ KvOutput_Err out +:+ "')"
  else "<invalid>".

(** [porcupine.CheckResult]. *)
Inductive CheckResult := CheckOk | CheckIllegal | CheckUnknown.
#[export] Instance CheckResult_eq_dec : EqDecision CheckResult.
Proof. solve_decision. Defined.

(** The environment variables, and whether the file of a path can be opened; the empty
    path stands for a temporary file. *)
Record vis_env := mkVisEnv { VIS_ENABLE : string; VIS_FILE : string; opens : string -> bool }.
Definition open_vis (env : vis_env) : bool := opens env (VIS_FILE env).

(** What a visualisation shows. *)
Record drawing := mkDrawing { dr_ops : list Operation; dr_annotations : list PAnnotation }.

(** The effects: the annotations afterwards, whether the file was opened (and so
    truncated), what was drawn, and whether [t.Fatal] was called. *)
Record vis_result := mkVis {
  vr_globals : globals; vr_opened : bool; vr_drawn : option drawing; vr_fatal : bool
}.

Section Check.
(** [porcupine.CheckOperationsVerbose] under [models.KvModel]. *)
Variable CheckOperations : list Operation -> Z -> CheckResult.

Definition checkPorcupine (t : Z) (env : vis_env) (oplog : list Operation) (nsec : Z) (g : globals)
  : vis_result :=
  let res := CheckOperations oplog nsec in
  if decide (res = CheckIllegal) then
    if open_vis env then
      if negb (bool_decide (VIS_ENABLE env = "never")) then
        let '(g, annotations) := FinalizeAnnotations t "test failed" g in
        mkVis g true (Some (mkDrawing oplog annotations)) true
      else mkVis g true None true
    else mkVis g false None true
  else if bool_decide (VIS_ENABLE env = "always") && GetAnnotationFinalized g then
    if open_vis env then
      let '(g, annotations) := FinalizeAnnotations t "test passed" g in
      mkVis g true (Some (mkDrawing oplog annotations)) false
    else mkVis g false None false
  else mkVis g false None false.

(** In nanoseconds. *)
Definition linearizabilityCheckTimeout : Z := 10 ^ 9.
Definition CheckPorcupineT (t : Z) (env : vis_env) (nsec : Z) (oplog : list Operation) (g : globals)
  : vis_result := checkPorcupine t env oplog nsec g.
Definition CheckPorcupine (t : Z) (env : vis_env) (oplog : list Operation) (g : globals) : vis_result :=
  CheckPorcupineT t env linearizabilityCheckTimeout oplog g.

(** [Annotation.cleanup]. *)
Definition cleanup (t : Z) (env : vis_env) (failed : bool) (e : string) (g : globals) : vis_result :=
  if bool_decide (VIS_ENABLE env = "never") || (negb failed && negb (bool_decide (VIS_ENABLE env = "always")))
     || GetAnnotationFinalized g then mkVis (on_an g clear) false None false
  else
    let '(an, annotations) := finalize t (gl_an g) in
    let g := mkGlobals an (gl_finfo g) in
    match annotations with
    | [] => mkVis g false None false
    | _ =>
        if open_vis env then
          mkVis g true (Some (mkDrawing [] (annotations ++ [mkPAnnotation TAG_INFO t 0 e e COLOR_INFO]))) false
        else mkVis g false None false
    end.

(** What [Config.Cleanup] does with the annotations. *)
Definition Cleanup_annotations (t : Z) (env : vis_env) (failed : bool) (g : globals) : vis_result :=
  cleanup t env failed (if failed then "test failed" else "test passed") g.

Definition AnnotateCheckerFailureBeforeExit (t : Z) (env : vis_env) (desp details : string) (g : globals)
  : vis_result :=
  cleanup t env true "test failed" (AnnotateCheckerFailure t desp details g).

(** ** The verdict *)

(** What the checker decides: the operations alone, each once, in some legal order. *)
Definition linearization (L : list lin_entry) (H : list Operation) : Prop :=
  linearizes L H /\ forall e, e ∈ L -> exists o, o ∈ H /\ is_op o e.

(** A checker that rejects only histories without a linearization fails no test whose
    history has one, whatever its time. *)
Lemma verdict_passes t env nsec oplog g :
  (forall H n, CheckOperations H n = CheckIllegal -> ~ exists L, linearization L H) ->
  (exists L, linearization L oplog) -> vr_fatal (CheckPorcupineT t env nsec oplog g) = false.
Proof.
  intros Hsound HL. unfold CheckPorcupineT, checkPorcupine. rewrite decide_False; [by repeat case_match|].
  intros Hill. by apply Hsound in Hill.
Qed.

(** ** Drawing *)

Lemma cleanup_idle t env failed e g :
  VIS_ENABLE env = "never" \/ GetAnnotationFinalized g = true -> vr_drawn (cleanup t env failed e g) = None.
Proof.
  intros H. unfold cleanup. assert (Hc : bool_decide (VIS_ENABLE env = "never") ||
    (negb failed && negb (bool_decide (VIS_ENABLE env = "always"))) || GetAnnotationFinalized g = true).
  { destruct H as [H|H]; [by rewrite bool_decide_eq_true_2|by rewrite H, orb_true_r]. }
  by rewrite Hc.
Qed.

Lemma cleanup_draws t env failed e g :
  open_vis env = true -> VIS_ENABLE env = "always" -> GetAnnotationFinalized g = false ->
  an_annotations (gl_an g) <> [] -> exists l, vr_drawn (cleanup t env failed e g) = Some (mkDrawing [] l).
Proof.
  intros Ho Ha Hf Hne. unfold cleanup. rewrite Ha, Hf, Ho.
  change (bool_decide ("always" = "never")) with false.
  change (bool_decide ("always" = "always")) with true. rewrite andb_false_r. simpl.
  destruct (an_annotations (gl_an g)) as [|a l]; [done|]. simpl. by eexists.
Qed.

(** What [checkPorcupine] draws are the operations, and then the annotations are final. *)
Lemma check_drawn t env oplog nsec g :
  match vr_drawn (checkPorcupine t env oplog nsec g) with
  | Some d => dr_ops d = oplog /\ VIS_ENABLE env <> "never" /\
      GetAnnotationFinalized (vr_globals (checkPorcupine t env oplog nsec g)) = true
  | None => vr_globals (checkPorcupine t env oplog nsec g) = g
  end.
Proof.
  unfold checkPorcupine. destruct (decide _) as [_|_].
  - destruct (open_vis env); [|done]. case_bool_decide; done.
  - case_bool_decide as Ha; simpl; [|done].
    destruct (GetAnnotationFinalized g) eqn:Hf; [|done]. destruct (open_vis env); [|done].
    simpl. rewrite Ha. done.
Qed.

(** the two places that draw.  Whatever the verdict, the variables and the state of
    the annotations, the file is drawn at most once per test, and never when the variable
    says so.  A history that is not linearizable is drawn with its operations.  Of a
    history that is accepted, with [VIS_ENABLE] set to [always], the operations are shown
    only when the test has called [SetAnnotationFinalized] before; otherwise the cleanup
    draws the annotations alone. *)
Theorem drawn_once t t' env oplog nsec g failed :
  let r := checkPorcupine t env oplog nsec g in
  let c := Cleanup_annotations t' env (vr_fatal r || failed) (vr_globals r) in
  (vr_drawn r = None \/ vr_drawn c = None) /\
  (VIS_ENABLE env = "never" -> vr_drawn r = None /\ vr_drawn c = None) /\
  (open_vis env = true -> VIS_ENABLE env <> "never" -> CheckOperations oplog nsec = CheckIllegal ->
     exists l, vr_drawn r = Some (mkDrawing oplog l)) /\
  (open_vis env = true -> VIS_ENABLE env = "always" -> CheckOperations oplog nsec <> CheckIllegal ->
     an_annotations (gl_an g) <> [] ->
     if GetAnnotationFinalized g then exists l, vr_drawn r = Some (mkDrawing oplog l)
     else vr_drawn r = None /\ exists l, vr_drawn c = Some (mkDrawing [] l)).
Proof.
  pose proof (check_drawn t env oplog nsec g) as Hd. cbv zeta. unfold Cleanup_annotations.
  split; [|split; [|split]].
  - destruct (vr_drawn (checkPorcupine t env oplog nsec g)) as [d|]; [right|by left].
    destruct Hd as (_ & _ & Hf). apply cleanup_idle. by right.
  - intros Hnv. split; [|apply cleanup_idle; by left].
    destruct (vr_drawn (checkPorcupine t env oplog nsec g)); [by destruct Hd as (_ & ? & _)|done].
  - intros Ho Hnv Hill. unfold checkPorcupine. rewrite decide_True, Ho, bool_decide_eq_false_2 by done.
    by eexists.
  - intros Ho Ha Hok Hne. unfold checkPorcupine in *. rewrite decide_False in * by done.
    rewrite Ha in *. change (bool_decide ("always" = "always")) with true in *. simpl in *.
    destruct (GetAnnotationFinalized g) eqn:Hf; [rewrite Ho; by eexists|].
    split; [done|]. by apply cleanup_draws.
Qed.
End Check.

Module PorcupineDemo.
(** A checker that rejects at least the histories with an answer the model cannot give. *)
Definition check (H : list Operation) (nsec : Z) : CheckResult :=
  if decide (Exists nokey_put H) then CheckIllegal else CheckUnknown.

Lemma step_nokey st inp out :
  KvInput_Op inp = 1 -> KvOutput_Err out = ErrNoKey -> (KvModel_Step st inp out).1 = false.
Proof. intros H1 H2. unfold KvModel_Step. rewrite H1, H2. simpl. by case_match. Qed.

Lemma model_run_nokey l : forall st io,
  io ∈ l -> KvInput_Op io.1 = 1 -> KvOutput_Err io.2 = ErrNoKey -> model_run st l = None.
Proof.
  induction l as [|[i o] l IH]; intros st io; [by intros ?%elem_of_nil|].
  intros [->|Hin]%elem_of_cons H1 H2; simpl.
  - pose proof (step_nokey st i o H1 H2) as Hs. by destruct (KvModel_Step st i o) as [[] ?].
  - destruct (KvModel_Step st i o) as [[] [st'|]]; [by eapply IH|done..].
Qed.

Lemma check_sound H n : check H n = CheckIllegal -> ~ exists L, linearization L H.
Proof.
  unfold check. case_decide as Hex; [|done]. intros _ (L & [Hleg _ _ Hcomp] & _).
  apply Exists_exists in Hex as (o & Ho & Hop & Herr).
  destruct (Hcomp o Ho) as (e & He & (_ & _ & Hin & Hout) & _).
  destruct (Hleg (KvInput_Key (le_in e))) as [st Hst].
  rewrite (model_run_nokey _ _ (le_io e)) in Hst; [done| |simpl; by rewrite Hin|simpl; by rewrite Hout].
  apply list_elem_of_fmap_2. unfold on_key. by apply list_elem_of_filter.
Qed.

Definition env : vis_env := mkVisEnv "always" "" (fun _ => true).
Definition g : globals := AnnotateTest 5 "puts" 1 (mkGlobals new_Annotation (new_FrameworkInfo 1)).
End PorcupineDemo.

(** An accepted history, drawn at the end of the test without its operations. *)
Lemma drawn_once_witness :
  let r := checkPorcupine PorcupineDemo.check 7 PorcupineDemo.env [] 1 PorcupineDemo.g in
  vr_drawn r = None /\
  exists l, vr_drawn (Cleanup_annotations 8 PorcupineDemo.env (vr_fatal r || false) (vr_globals r)) = Some (mkDrawing [] l).
Proof.
  destruct (drawn_once PorcupineDemo.check 7 8 PorcupineDemo.env [] 1 PorcupineDemo.g false) as (_ & _ & _ & H).
  apply H.
  - reflexivity.
  - reflexivity.
  - vm_compute. discriminate.
  - vm_compute. discriminate.
Defined.
