(* ===== verification/KvNet.v ===== *)
(** The key/value service over the simulated network: the clerks of [kvsrv1/client.go]
    call the server of [kvsrv1/server.go] through [ClientEnd.Call] and [processReq] of
    [labrpc/labrpc.go], and [kvtest1/porcupine.go] records what they answer.  This system
    refines the one of [KvModel.v], whose attempts are atomic, as long as no request is
    given up while its handler has still to run; so its histories are linearizable.
    When a partition makes the network give up such a request, they need not be. *)
From S2P Require Import Prelude.
From S2P Require Import Labrpc.
From S2P Require Import LabrpcCall.
From S2P Require Import Annotation.
From S2P Require Import Porcupine.
From S2P Require Import KvSrv.
From S2P Require Import KvModel.
From S2P Require Import KvLin.

(** ** The server behind the network *)

(** What [labgob] does with the arguments and the replies of the two handlers.
    [dispatch] does not look at the error of decoding the arguments; [Call] ends the
    process when the reply does not decode. *)
Class KvCodec := {
  encode_get : GetArgs -> list Byte.byte;
  encode_put : PutArgs -> list Byte.byte;
  decode_get : list Byte.byte -> GetArgs;
  decode_put : list Byte.byte -> PutArgs;
  encode_getr : GetReply -> list Byte.byte;
  encode_putr : PutReply -> list Byte.byte;
  decode_getr : list Byte.byte -> option GetReply;
  decode_putr : list Byte.byte -> option PutReply
}.

(** What is encoded is decoded as it was. *)
Class KvRoundtrip `{KvCodec} := {
  get_roundtrip a : decode_get (encode_get a) = a;
  put_roundtrip a : decode_put (encode_put a) = a;
  getr_roundtrip r : decode_getr (encode_getr r) = Some r;
  putr_roundtrip r : decode_putr (encode_putr r) = Some r
}.

(** The methods of [KVServer], and what [MakeService] finds among them. *)
Inductive kmethod := KGet | KPut | KKill.

Definition KVServer_methods : list (rmethod (Method := kmethod)) :=
  [mkRmethod "Get" true 3 true 0 KGet; mkRmethod "Kill" true 1 false 0 KKill;
   mkRmethod "Put" true 3 true 0 KPut].
Definition KVServer_service : Service (Method := kmethod) := MakeService "KVServer" KVServer_methods.

(** [StartKVServer] makes one [KVServer]; its service is added to a server of the
    network. *)
Definition kv_server : Server (Method := kmethod) := AddService MakeServer KVServer_service.

Section KvNet.
Context `{Codec : KvCodec}.

(** A handler called through [reflect] on the encoded arguments; [Kill] is empty. *)
Definition kinvoke (m : kmethod) (args : list Byte.byte) (kv : KVServer) : KVServer * list Byte.byte :=
  match m with
  | KGet => (kv, encode_getr (KVServer_Get kv (decode_get args)))
  | KPut => let '(kv', r) := KVServer_Put kv (decode_put args) in (kv', encode_putr r)
  | KKill => (kv, [])
  end.

(** ** The clerks *)

(** What a clerk passes to [Call], and what it makes of the reply. *)
Definition svcMeth (r : request) : string :=
  match r with RGet _ => "KVServer.Get" | RPut _ => "KVServer.Put" end.
Definition encode_args (r : request) : list Byte.byte :=
  match r with RGet k => encode_get (mkGetArgs k) | RPut a => encode_put a end.
Definition decode_reply (r : request) (bs : list Byte.byte) : option (GetReply + PutReply) :=
  match r with RGet _ => inl <$> decode_getr bs | RPut _ => inr <$> decode_putr bs end.

Definition net : Type := csys kmethod KVServer (list Byte.byte).
Definition net_step : net -> clabel (Args := request) -> option (outcome net) :=
  cstep kinvoke (fun r => Some (encode_args r)) Some.

(** A [Get] or [Put] that a test has called: its request, when it was called and
    [isFirstAttempt]; and the [Call] that is under way, between two of them none. *)
Record kcall := mkKcall { kc_pend : pend; kc_call : option nat }.

(** The clock is the number of steps so far. *)
Record ksys := mkKsys {
  ks_net : net;
  ks_now : nat;
  ks_pend : gmap nat kcall;
  ks_log : list Operation
}.

Inductive klabel :=
| KInvoke (c : nat) (r : request)      (* a test calls clerk [c] *)
| KCall (c : nat) (e : string)         (* the clerk calls [Call] on its end [e] *)
| KReturn (c : nat)                    (* [Call] has returned: the rest of the iteration *)
| KNet (l : clabel (Args := request)). (* the network, the server, a [Call] under way *)

Definition is_call (l : clabel (Args := request)) : bool :=
  match l with CCall _ _ _ => true | _ => false end.

(** The rest of an iteration: the operation is recorded, or there is another round. *)
Definition kfinish (s : ksys) (c : nat) (p : pend) (res : KvOutput + bool) : ksys :=
  match res with
  | inl out =>
      mkKsys (ks_net s) (S (ks_now s)) (delete c (ks_pend s))
        (ks_log s ++ [mkOperation c (req_input (pd_req p)) (Z.of_nat (pd_call p)) out (Z.of_nat (ks_now s))])
  | inr first =>
      mkKsys (ks_net s) (S (ks_now s))
        (<[c := mkKcall (mkPend (pd_req p) (pd_call p) first) None]> (ks_pend s)) (ks_log s)
  end.

Definition kstep (s : ksys) (l : klabel) : option (outcome ksys) :=
  match l with
  | KInvoke c r =>
      match ks_pend s !! c with
      | Some _ => None
      | None => Some (Ret (mkKsys (ks_net s) (S (ks_now s))
                  (<[c := mkKcall (mkPend r (ks_now s) true) None]> (ks_pend s)) (ks_log s)))
      end
  | KCall c e =>
      p ← ks_pend s !! c;
      match kc_call p with
      | Some _ => None
      | None =>
          o ← net_step (ks_net s) (CCall e (svcMeth (pd_req (kc_pend p))) (pd_req (kc_pend p)));
          Some (n ← o; Ret (mkKsys n (S (ks_now s))
                  (<[c := mkKcall (kc_pend p) (Some (length (cs_calls (ks_net s))))]> (ks_pend s)) (ks_log s)))
      end
  | KReturn c =>
      p ← ks_pend s !! c;
      i ← kc_call p;
      ca ← cs_calls (ks_net s) !! i;
      let pd := kc_pend p in
      match ca_stage ca with
      | CReturned _ None => Some (Ret (kfinish s c pd (clerk_iter (pd_req pd) (pd_first pd) None)))
      | CReturned _ (Some bs) =>
          Some (match decode_reply (pd_req pd) bs with
                | None => Panic
                | Some rep => Ret (kfinish s c pd (clerk_iter (pd_req pd) (pd_first pd) (Some rep)))
                end)
      | _ => None
      end
  | KNet l =>
      if is_call l then None
      else o ← net_step (ks_net s) l; Some (n ← o; Ret (mkKsys n (S (ks_now s)) (ks_pend s) (ks_log s)))
  end.

Fixpoint krun (s : ksys) (ls : list klabel) : outcome ksys :=
  match ls with
  | [] => Ret s
  | l :: ls' => match kstep s l with Some o => s' ← o; krun s' ls' | None => krun s ls' end
  end.

(** A server with the data [kv], and the one that [StartKVServer] makes. *)
Definition kinit_on (kv : KVServer) : ksys := mkKsys (cinit kv (fun _ => kv_server)) 0 ∅ [].
Definition kinit : ksys := kinit_on MakeKVServer.

(** The wait loop of [processReq] finds the server dead while its handler has not run. *)
Definition gives_up (s : ksys) (l : klabel) : bool :=
  match l with
  | KNet (CNet (LPoll k)) =>
      match sy_reqs (cs_sys (ks_net s)) !! k with
      | Some q =>
          match rs_stage q, rs_dispatch q with
          | Waiting name srv _ _, Started =>
              isServerDead (sy_net (cs_sys (ks_net s))) (rq_endname (rs_msg q)) name srv
          | _, _ => false
          end
      | None => false
      end
  | _ => false
  end.

(** No step of a run gives a request up. *)
Fixpoint calm (s : ksys) (ls : list klabel) : bool :=
  match ls with
  | [] => true
  | l :: ls' =>
      negb (gives_up s l) &&
      match kstep s l with Some (Ret s') => calm s' ls' | Some _ => true | None => calm s ls' end
  end.

(** ** The network as the clerks see it *)

Definition handler_reply (q : Labrpc.request) : option replyMsg :=
  match rs_dispatch q with Dispatched r => Some r | _ => None end.

(** The reply of the handler that ran for call [i], once it has run. *)
Definition handled (n : net) (i : nat) : option replyMsg :=
  ca ← cs_calls n !! i; k ← taken (ca_stage ca); q ← sy_reqs (cs_sys n) !! k; handler_reply q.

Definition returned (ca : call (list Byte.byte)) : option (option (list Byte.byte)) :=
  match ca_stage ca with CReturned _ v => Some v | _ => None end.

(** A request whose caller has been or will be answered has no handler to come, as long as
    none is given up: what needs it is stated under [K]. *)
Definition quiet (q : Labrpc.request) : Prop :=
  match rs_stage q with Delayed _ | Finished => rs_dispatch q <> Started | _ => True end.

Record net_ok (K : Prop) (n : net) : Prop := {
  no_cinv : cinv Some n;
  no_quiet : K -> Forall quiet (sy_reqs (cs_sys n));
  no_owner k q : sy_reqs (cs_sys n) !! k = Some q ->
    exists i ca, cs_calls n !! i = Some ca /\ taken (ca_stage ca) = Some k;
  no_answered i ca k v : cs_calls n !! i = Some ca -> ca_stage ca = CReturned (Some k) v ->
    exists q, sy_reqs (cs_sys n) !! k = Some q /\ rs_stage q = Finished;
  no_services srv : srv_services (sy_servers (cs_sys n) srv) = {["KVServer" := KVServer_service]}
}.

Lemma net_ok_init K kv : net_ok K (cinit kv (fun _ => kv_server)).
Proof. split; [apply cinv_init|intros _; constructor|done|done|done]. Qed.

(** A step that runs no handler: world, servers and handlers' replies stay. *)
Lemma step_no_dispatch (s s' : system (World := KVServer)) lab :
  sys_ok s -> is_send lab = false -> (forall k, lab <> LDispatch k) -> step kinvoke s lab = Some (Ret s') ->
  sy_world s' = sy_world s /\ sy_servers s' = sy_servers s /\
  length (sy_reqs s') = length (sy_reqs s) /\
  (forall k, sy_reqs s' !! k ≫= handler_reply = sy_reqs s !! k ≫= handler_reply) /\
  (forall k q, sy_reqs s !! k = Some q -> rs_stage q = Finished -> sy_reqs s' !! k = Some q).
Proof.
  intros Hok Hns Hnd Hstep.
  assert (Hup : forall j q q', sy_reqs s !! j = Some q -> handler_reply q' = handler_reply q ->
    rs_stage q <> Finished ->
    length (<[j := q']> (sy_reqs s)) = length (sy_reqs s) /\
    (forall k, <[j := q']> (sy_reqs s) !! k ≫= handler_reply = sy_reqs s !! k ≫= handler_reply) /\
    (forall k q0, sy_reqs s !! k = Some q0 -> rs_stage q0 = Finished -> <[j := q']> (sy_reqs s) !! k = Some q0)).
  { intros j q q' Hj Hh Hs. split; [apply length_insert|]. split.
    - intros k. destruct (decide (j = k)) as [->|Hne]; [|by rewrite list_lookup_insert_ne].
      rewrite list_lookup_insert_eq by (by eapply lookup_lt_Some). by rewrite Hj.
    - intros k q0 Hk Hf. rewrite list_lookup_insert_ne; [done|]. intros ->. congruence. }
  destruct lab as [op|req|k rand|k|k|k rand rand2|k]; simpl in Hstep; try done.
  - destruct (config_step (sy_net s) op); by simplify_eq/=.
  - destruct (sy_reqs s !! k) as [q|] eqn:Hk; [|done]. simpl in Hstep.
    pose proof (Forall_lookup_1 _ _ _ _ Hok Hk) as [_ Hst].
    destruct (rs_stage q) eqn:E; try done. destruct Hst as [Hd _].
    repeat (case_match; simplify_eq/=); (split; [done|]); (split; [done|]);
      (apply (Hup k q); [done|unfold handler_reply; simpl; by rewrite Hd|by rewrite E]).
  - by destruct (Hnd k).
  - destruct (sy_reqs s !! k) as [q|] eqn:Hk; [|done]. simpl in Hstep.
    destruct (rs_stage q) eqn:E; try done. case_match; simplify_eq; [|done].
    split; [done|]. split; [done|]. apply (Hup k q); [done|done|by rewrite E].
  - destruct (sy_reqs s !! k) as [q|] eqn:Hk; [|done]. simpl in Hstep.
    destruct (rs_stage q) eqn:E; try done. destruct (rs_dispatch q) eqn:Ed; try done.
    repeat (case_match; simplify_eq/=); (split; [done|]); (split; [done|]);
      (apply (Hup k q); [done|done|by rewrite E]).
  - destruct (sy_reqs s !! k) as [q|] eqn:Hk; [|done]. simpl in Hstep.
    destruct (rs_stage q) eqn:E; try done. simplify_eq.
    split; [done|]. split; [done|]. apply (Hup k q); [done|done|by rewrite E].
Qed.

(** Quiet requests stay quiet, unless one is given up. *)
Lemma step_quiet (n : net) lab s' :
  sys_ok (cs_sys n) -> Forall quiet (sy_reqs (cs_sys n)) -> step kinvoke (cs_sys n) lab = Some (Ret s') ->
  (forall now P log, gives_up (mkKsys n now P log) (KNet (CNet lab)) = false) -> Forall quiet (sy_reqs s').
Proof.
  intros Hok Hq Hstep Hg. set (s := cs_sys n) in *.
  destruct lab as [op|req|k rand|k|k|k rand rand2|k]; simpl in Hstep.
  - destruct (config_step (sy_net s) op); by simplify_eq/=.
  - simplify_eq/=. apply Forall_app. split; [done|]. by apply Forall_singleton.
  - destruct (sy_reqs s !! k) as [q|] eqn:Hk; [|done]. simpl in Hstep.
    pose proof (Forall_lookup_1 _ _ _ _ Hok Hk) as [_ Hst].
    destruct (rs_stage q) eqn:E; try done. destruct Hst as [Hd _].
    repeat (case_match; simplify_eq/=); apply Forall_insert; try done; unfold quiet; simpl; by rewrite Hd.
  - destruct (sy_reqs s !! k) as [q|] eqn:Hk; [|done]. simpl in Hstep.
    destruct (rs_dispatch q) eqn:Ed; try done. destruct (rs_server q); [|done].
    destruct (Server_dispatch _ _ _ _) as [[[? ?] ?]| |]; simplify_eq/=.
    apply Forall_insert; [done|]. unfold quiet. simpl. by case_match.
  - destruct (sy_reqs s !! k) as [q|] eqn:Hk; [|done]. simpl in Hstep.
    pose proof (Forall_lookup_1 _ _ _ _ Hok Hk) as [_ Hst].
    destruct (rs_stage q) as [|nm srv rl lr| |] eqn:E; try done.
    destruct (isServerDead _ _ _ _) eqn:Edead; simplify_eq; [|done].
    apply Forall_insert; [done|]. unfold quiet. simpl. intros Hst'.
    specialize (Hg 0%nat ∅ []). simpl in Hg. fold s in Hg. rewrite Hk, E, Hst', Edead in Hg. done.
  - destruct (sy_reqs s !! k) as [q|] eqn:Hk; [|done]. simpl in Hstep.
    destruct (rs_stage q) eqn:E; try done. destruct (rs_dispatch q) eqn:Ed; try done.
    repeat (case_match; simplify_eq/=); apply Forall_insert; try done; unfold quiet; simpl; by rewrite Ed.
  - destruct (sy_reqs s !! k) as [q|] eqn:Hk; [|done]. simpl in Hstep.
    pose proof (Forall_lookup_1 _ _ _ _ Hq Hk) as Hq'.
    destruct (rs_stage q) eqn:E; try done. simplify_eq. apply Forall_insert; [done|].
    unfold quiet in *. simpl. by rewrite E in Hq'.
Qed.

(** The handler runs: what becomes of its request. *)
Lemma step_dispatch (s s' : system (World := KVServer)) k :
  step kinvoke s (LDispatch k) = Some (Ret s') ->
  exists q srv rs w r, sy_reqs s !! k = Some q /\ rs_dispatch q = Started /\ rs_server q = Some srv /\
    Server_dispatch kinvoke (sy_servers s srv) (rs_msg q) (sy_world s) = Ret (rs, w, r) /\
    s' = mkSystem (sy_net s) (<[srv := rs]> (sy_servers s)) w
           (<[k := mkRequest (rs_msg q) (rs_stage q) (Dispatched r) (Some srv) (S (rs_runs q)) (rs_answers q)]>
              (sy_reqs s)).
Proof.
  simpl. intros Hstep. destruct (sy_reqs s !! k) as [q|]; [|done]. simpl in Hstep.
  destruct (rs_dispatch q) eqn:Ed; try done. destruct (rs_server q) as [srv|] eqn:Es; [|done].
  destruct (Server_dispatch _ _ _ _) as [[[rs w] r]| |] eqn:E; simplify_eq/=.
  by exists q, srv, rs, w, r.
Qed.

Lemma Server_dispatch_services rs req w rs' w' r :
  Server_dispatch kinvoke rs req w = Ret (rs', w', r) -> srv_services rs' = srv_services rs.
Proof.
  unfold Server_dispatch. destruct (split_svcMeth _) as [[? ?]|]; [|done]. simpl.
  destruct (srv_services rs !! _); [|done].
  intros ([? ?] & _ & H)%outcome_bind_inv. by simplify_eq.
Qed.

(** How a step of the network looks from the calls: no handler runs, or one does. *)
Inductive net_effect (K : Prop) (n n' : net) : Prop :=
| eff_idle :
    sy_world (cs_sys n') = sy_world (cs_sys n) ->
    (forall i, handled n' i = handled n i) -> net_effect K n n'
| eff_run k i ca q srv rs w r :
    cs_calls n' = cs_calls n -> cs_calls n !! i = Some ca -> (K -> returned ca = None) ->
    taken (ca_stage ca) = Some k -> sy_reqs (cs_sys n) !! k = Some q -> rs_msg q = ca_req ca ->
    Server_dispatch kinvoke (sy_servers (cs_sys n) srv) (rs_msg q) (sy_world (cs_sys n)) = Ret (rs, w, r) ->
    sy_world (cs_sys n') = w -> handled n i = None -> handled n' i = Some r ->
    (forall j, j <> i -> handled n' j = handled n j) -> net_effect K n n'.

(** A step keeps the list of calls, and those that have returned as they are. *)
Definition calls_keep (n n' : net) : Prop :=
  length (cs_calls n') = length (cs_calls n) /\
  forall i ca, cs_calls n !! i = Some ca -> exists ca', cs_calls n' !! i = Some ca' /\ ca_req ca' = ca_req ca /\
    (is_Some (returned ca) -> ca' = ca).

Lemma calls_keep_same n n' : cs_calls n' = cs_calls n -> calls_keep n n'.
Proof. intros E. split; [by rewrite E|]. intros i ca Hi. exists ca. by rewrite E. Qed.

Lemma calls_keep_set n n' i ca ca' :
  cs_calls n' = <[i := ca']> (cs_calls n) -> cs_calls n !! i = Some ca -> ca_req ca' = ca_req ca ->
  returned ca = None -> calls_keep n n'.
Proof.
  intros E Hi Hr Hn. split; [by rewrite E, length_insert|]. intros j cj Hj. rewrite E.
  destruct (decide (i = j)) as [<-|Hne].
  - simplify_eq. exists ca'. rewrite list_lookup_insert_eq by (by eapply lookup_lt_Some).
    split; [done|]. split; [done|]. rewrite Hn. by intros [? ?].
  - exists cj. by rewrite list_lookup_insert_ne.
Qed.

Lemma handled_set n n' i ca ca' :
  cs_calls n' = <[i := ca']> (cs_calls n) -> cs_calls n !! i = Some ca ->
  (forall k, taken (ca_stage ca) = Some k -> sy_reqs (cs_sys n') !! k = sy_reqs (cs_sys n) !! k) ->
  (forall j cj k, j <> i -> cs_calls n !! j = Some cj -> taken (ca_stage cj) = Some k ->
     sy_reqs (cs_sys n') !! k = sy_reqs (cs_sys n) !! k) ->
  (taken (ca_stage ca') = taken (ca_stage ca) \/
   (taken (ca_stage ca) = None /\
    exists k q, taken (ca_stage ca') = Some k /\ sy_reqs (cs_sys n') !! k = Some q /\ handler_reply q = None)) ->
  forall j, handled n' j = handled n j.
Proof.
  intros E Hi Hk Ho Ht j. unfold handled. rewrite E. destruct (decide (i = j)) as [<-|Hne].
  - rewrite list_lookup_insert_eq by (by eapply lookup_lt_Some). rewrite Hi. simpl.
    destruct Ht as [->|(-> & k & q & -> & Hq & Hh)]; simpl.
    + destruct (taken (ca_stage ca)) as [k|]; simpl; [by rewrite Hk|done].
    + by rewrite Hq.
  - rewrite list_lookup_insert_ne by done. destruct (cs_calls n !! j) as [cj|] eqn:Hj; [|done]. simpl.
    destruct (taken (ca_stage cj)) as [k|] eqn:Et; [|done]. simpl. by rewrite (Ho j cj k).
Qed.

Lemma taken_known K n i ca k :
  net_ok K n -> cs_calls n !! i = Some ca -> taken (ca_stage ca) = Some k ->
  exists q, sy_reqs (cs_sys n) !! k = Some q /\ rs_msg q = ca_req ca.
Proof.
  intros H Hi Ht. pose proof (ci_call _ _ (no_cinv _ _ H) _ _ Hi) as Hc. unfold call_ok in Hc. rewrite Ht in Hc.
  destruct Hc as (q & Hq & Hm & _). by exists q.
Qed.

(** A call moves on and keeps its request. *)
Lemma net_ok_call K n i ca st :
  net_ok K n -> cinv Some (with_call n i ca st) -> cs_calls n !! i = Some ca -> returned ca = None ->
  taken st = taken (ca_stage ca) ->
  (forall k v, st = CReturned (Some k) v -> exists q, sy_reqs (cs_sys n) !! k = Some q /\ rs_stage q = Finished) ->
  net_ok K (with_call n i ca st) /\ calls_keep n (with_call n i ca st) /\ net_effect K n (with_call n i ca st).
Proof.
  intros [H1 H2 H3 H4 H5] Hc Hi Hr Ht Hf. split; [|split].
  - split; simpl; [done|done|..|done].
    + intros k q Hk. destruct (H3 k q Hk) as (j & cj & Hj & Hjt). destruct (decide (i = j)) as [<-|Hne].
      * simplify_eq. exists i, (mkCall (ca_req ca) st).
        rewrite list_lookup_insert_eq by (by eapply lookup_lt_Some). split; [done|]. simpl. congruence.
      * exists j, cj. by rewrite list_lookup_insert_ne.
    + intros j cj k v [(<- & <- & _)|(Hne & Hj)]%list_lookup_insert_Some Hst; [by eapply Hf|by eapply H4].
  - by apply (calls_keep_set n _ i ca (mkCall (ca_req ca) st)).
  - apply eff_idle; [done|]. apply (handled_set n _ i ca (mkCall (ca_req ca) st)); try done. by left.
Qed.

(** A call's request is taken. *)
Lemma net_ok_take K n i ca sys :
  net_ok K n -> cs_calls n !! i = Some ca -> ca_stage ca = CSending ->
  sys = mkSystem (add_traffic (sy_net (cs_sys n)) 1 (Z.of_nat (length (rq_args (ca_req ca)))))
          (sy_servers (cs_sys n)) (sy_world (cs_sys n))
          (sy_reqs (cs_sys n) ++ [Labrpc.mkRequest (ca_req ca) Arrived NotStarted None 0 []]) ->
  let n' := with_call (mkCsys sys (cs_done n) (cs_loop n) (cs_calls n)) i ca (CWaiting (length (sy_reqs (cs_sys n)))) in
  cinv Some n' -> net_ok K n' /\ calls_keep n n' /\ net_effect K n n'.
Proof.
  intros Hn Hi Hs -> n' Hc. pose proof Hn as [H1 H2 H3 H4 H5].
  assert (Hnew : forall j cj k, cs_calls n !! j = Some cj -> taken (ca_stage cj) = Some k ->
    (sy_reqs (cs_sys n) ++ [Labrpc.mkRequest (ca_req ca) Arrived NotStarted None 0 []]) !! k = sy_reqs (cs_sys n) !! k).
  { intros j cj k Hj Ht. destruct (taken_known K n j cj k Hn Hj Ht) as (q & Hq & _).
    apply lookup_app_l. by eapply lookup_lt_Some. }
  split; [|split].
  - split; simpl; [done|..|done].
    + intros HK. apply Forall_app. split; [by apply H2|]. by apply Forall_singleton.
    + intros k q [Hk|[Hge Hk]]%lookup_app_Some.
      * destruct (H3 k q Hk) as (j & cj & Hj & Hjt). exists j, cj. split; [|done].
        rewrite list_lookup_insert_ne; [done|]. intros <-. rewrite Hi in Hj. simplify_eq. by rewrite Hs in Hjt.
      * apply list_lookup_singleton_Some in Hk as [Hk _]. exists i. eexists.
        split; [apply list_lookup_insert_eq; by eapply lookup_lt_Some|]. simpl. f_equal. lia.
    + intros j cj k v [(<- & <- & _)|(Hne & Hj)]%list_lookup_insert_Some Hst; [done|].
      destruct (H4 j cj k v Hj Hst) as (q & Hq & Hf). exists q. split; [|done].
      rewrite (Hnew j cj k Hj); [done|]. by rewrite Hst.
  - apply (calls_keep_set n n' i ca (mkCall (ca_req ca) (CWaiting (length (sy_reqs (cs_sys n)))))); try done.
    unfold returned. by rewrite Hs.
  - apply eff_idle; [done|].
    apply (handled_set n n' i ca (mkCall (ca_req ca) (CWaiting (length (sy_reqs (cs_sys n)))))); try done.
    + intros k Ht. by eapply Hnew.
    + intros j cj k _ Hj Ht. by eapply Hnew.
    + right. rewrite Hs. split; [done|]. eexists _, _. split; [done|]. simpl.
      rewrite lookup_app_r, Nat.sub_diag by lia. done.
Qed.

(** Any other step of the network. *)
Lemma net_ok_net K n lab sys :
  net_ok K n -> is_send lab = false -> step kinvoke (cs_sys n) lab = Some (Ret sys) ->
  (K -> forall now P log, gives_up (mkKsys n now P log) (KNet (CNet lab)) = false) ->
  let n' := mkCsys sys (cs_done n) (cs_loop n) (cs_calls n) in
  cinv Some n' -> net_ok K n' /\ calls_keep n n' /\ net_effect K n n'.
Proof.
  intros Hn Hsend Hstep Hg n' Hc. pose proof Hn as [H1 H2 H3 H4 H5]. pose proof (ci_sys _ _ H1) as Hok.
  assert (Hq : K -> Forall quiet (sy_reqs sys)) by (intros HK; eapply step_quiet; [done|by apply H2|done|by apply Hg]).
  assert (Hlab : (forall k, lab <> LDispatch k) \/ exists k, lab = LDispatch k)
    by (destruct lab as [| | |k| | |]; try (by left); right; by exists k).
  destruct Hlab as [Hnd|[k ->]].
  - destruct (step_no_dispatch _ _ _ Hok Hsend Hnd Hstep) as (Hw & Hsv & Hlen & Hh & Hf).
    split; [|split].
    + split; simpl; [done|done|..].
      * intros k q Hk. assert (k < length (sy_reqs (cs_sys n)))%nat as [q0 Hq0]%lookup_lt_is_Some_2
          by (rewrite <- Hlen; by eapply lookup_lt_Some). by eapply H3.
      * intros i ca k v Hi Hst. destruct (H4 i ca k v Hi Hst) as (q & Hk & Hfin). exists q. split; [|done].
        by apply Hf.
      * intros srv. by rewrite Hsv.
    + by apply calls_keep_same.
    + apply eff_idle; [done|]. intros i. unfold handled. simpl. destruct (cs_calls n !! i) as [ca|]; [|done].
      simpl. destruct (taken (ca_stage ca)) as [k|]; [|done]. simpl. apply Hh.
  - apply step_dispatch in Hstep as (q & srv & rs & w & r & Hk & Hd & Hsv & Hr & ->). clear Hsend Hg.
    destruct (H3 k q Hk) as (i & ca & Hi & Ht).
    destruct (taken_known K n i ca k Hn Hi Ht) as (q' & Hk' & Hm). rewrite Hk in Hk'. injection Hk' as <-.
    assert (Hnf : K -> rs_stage q <> Finished).
    { intros HK Hfin. pose proof (Forall_lookup_1 _ _ _ _ (H2 HK) Hk) as Hquiet. unfold quiet in Hquiet.
      by rewrite Hfin in Hquiet. }
    assert (Hlk : forall j, j <> k -> sy_reqs (cs_sys n') !! j = sy_reqs (cs_sys n) !! j)
      by (intros j Hne; simpl; by rewrite list_lookup_insert_ne).
    split; [|split].
    + split; simpl; [done|done|..].
      * intros j qj [(<- & _ & _)|(Hne & Hj)]%list_lookup_insert_Some; [by exists i, ca|by eapply H3].
      * intros j cj k' v Hj Hst. destruct (H4 j cj k' v Hj Hst) as (qj & Hqj & Hfin).
        destruct (decide (k = k')) as [<-|Hne]; [|exists qj; by rewrite list_lookup_insert_ne].
        simplify_eq. eexists. split; [apply list_lookup_insert_eq; by eapply lookup_lt_Some|done].
      * intros srv'. destruct (decide (srv' = srv)) as [->|Hne]; [|rewrite fn_lookup_insert_ne by done; done].
        rewrite fn_lookup_insert. by rewrite (Server_dispatch_services _ _ _ _ _ _ Hr).
    + by apply calls_keep_same.
    + apply (eff_run K n n' k i ca q srv rs w r); try done.
      * intros HK. unfold returned. destruct (ca_stage ca) as [|k0|[k0|] v] eqn:Est; try done. simpl in Ht.
        injection Ht as ->. destruct (H4 i ca k v Hi Est) as (q1 & Hq1 & Hfin). destruct (Hnf HK). congruence.
      * unfold handled. rewrite Hi. simpl. rewrite Ht. simpl. rewrite Hk. simpl. unfold handler_reply. by rewrite Hd.
      * unfold handled. simpl. rewrite Hi. simpl. rewrite Ht. simpl.
        rewrite list_lookup_insert_eq by (by eapply lookup_lt_Some). done.
      * intros j Hj. unfold handled. simpl. destruct (cs_calls n !! j) as [cj|] eqn:Hcj; [|done]. simpl.
        destruct (taken (ca_stage cj)) as [kj|] eqn:Etj; [|done]. simpl.
        rewrite list_lookup_insert_ne; [done|]. intros <-. by apply Hj, (ci_once _ _ H1 j i cj ca k).
Qed.

Lemma net_step_ok K n l n' :
  net_ok K n -> is_call l = false -> net_step n l = Some (Ret n') ->
  (K -> forall now P log, gives_up (mkKsys n now P log) (KNet l) = false) ->
  net_ok K n' /\ calls_keep n n' /\ net_effect K n n'.
Proof.
  intros Hn Hl Hstep Hg. pose proof (cinv_step _ _ _ _ _ _ (no_cinv _ _ Hn) Hstep) as Hc.
  assert (Hsame : forall done loop, cinv Some (mkCsys (cs_sys n) done loop (cs_calls n)) ->
    net_ok K (mkCsys (cs_sys n) done loop (cs_calls n)) /\ calls_keep n (mkCsys (cs_sys n) done loop (cs_calls n)) /\
    net_effect K n (mkCsys (cs_sys n) done loop (cs_calls n))).
  { intros dn lp Hc'. split; [|split; [by apply calls_keep_same|by apply eff_idle]].
    destruct Hn as [H1 H2 H3 H4 H5]. by split. }
  unfold net_step in Hstep. destruct l as [e mth args|i|i|i|lab| |]; simpl in Hl, Hstep; [done|..].
  - destruct (cs_calls n !! i) as [ca|] eqn:Hi; simplify_eq/=. destruct (ca_stage ca) eqn:Est; try done.
    destruct (cs_loop n) eqn:El; simplify_eq/=. rewrite <- El in Hc |- *. by eapply net_ok_take.
  - destruct (cs_calls n !! i) as [ca|] eqn:Hi; simplify_eq/=. destruct (ca_stage ca) eqn:Est; try done.
    destruct (cs_done n) eqn:Ed; simplify_eq/=. apply net_ok_call; try done; unfold returned; by rewrite Est.
  - destruct (cs_calls n !! i) as [ca|] eqn:Hi; simplify_eq/=. destruct (ca_stage ca) as [|k|] eqn:Est; try done.
    destruct (sy_reqs (cs_sys n) !! k) as [q|] eqn:Hq; simplify_eq/=.
    destruct (rs_answers q) as [|rep reps] eqn:Ea; [done|].
    assert (Hfin : rs_stage q = Finished).
    { pose proof (Forall_lookup_1 _ _ _ _ (ci_sys _ _ (no_cinv _ _ Hn)) Hq) as [_ Hst]. rewrite Ea in Hst.
      by destruct (rs_stage q) as [| | |]; try (destruct Hst; discriminate). }
    destruct (rm_ok rep); simplify_eq/=; (apply net_ok_call; [done|done|done|unfold returned; by rewrite Est| |]);
      try (by rewrite Est); intros k' v' [= <- _]; by exists q.
  - destruct (is_send lab) eqn:Esend; [done|]. destruct (step _ _ _) as [o|] eqn:E; simplify_eq/=.
    destruct o as [sys| |]; simplify_eq/=. by eapply net_ok_net.
  - destruct (cs_done n) eqn:Ed; simplify_eq. by apply Hsame.
  - destruct (_ && _) eqn:Eb; simplify_eq. by apply Hsame.
Qed.

(** ** The clerks and their calls *)

(** Every call is that of one clerk until it has returned, and carries its request. *)
Record links (n : net) (P : gmap nat kcall) : Prop := {
  lk_lt c p i : P !! c = Some p -> kc_call p = Some i -> (i < length (cs_calls n))%nat;
  lk_inj c c' p p' i : P !! c = Some p -> P !! c' = Some p' -> kc_call p = Some i -> kc_call p' = Some i -> c = c';
  lk_msg c p i ca : P !! c = Some p -> kc_call p = Some i -> cs_calls n !! i = Some ca ->
    exists e, ca_req ca = mkReqMsg e (svcMeth (pd_req (kc_pend p))) (encode_args (pd_req (kc_pend p)));
  lk_cur i ca : cs_calls n !! i = Some ca -> returned ca = None ->
    exists c p, P !! c = Some p /\ kc_call p = Some i
}.

Lemma links_init kv : links (cinit kv (fun _ => kv_server)) ∅.
Proof. by split. Qed.

Lemma links_keep n n' P : calls_keep n n' -> links n P -> links n' P.
Proof.
  intros [Hlen Hk] [H1 H2 H3 H4]. split.
  - intros c p i Hp Hi. rewrite Hlen. by eapply H1.
  - exact H2.
  - intros c p i ca' Hp Hi Hca'. assert (i < length (cs_calls n))%nat as [ca Hca]%lookup_lt_is_Some_2 by (by eapply H1).
    destruct (Hk i ca Hca) as (ca2 & Hca2 & Hr & _). rewrite Hca' in Hca2. injection Hca2 as <-. rewrite Hr. by eapply H3.
  - intros i ca' Hca' Hn. assert (i < length (cs_calls n))%nat as [ca Hca]%lookup_lt_is_Some_2
      by (rewrite <- Hlen; by eapply lookup_lt_Some).
    destruct (Hk i ca Hca) as (ca2 & Hca2 & _ & Hret). rewrite Hca' in Hca2. injection Hca2 as <-.
    apply (H4 i ca Hca). destruct (returned ca) eqn:E; [|done]. rewrite Hret in Hn by done. congruence.
Qed.

(** A clerk without a call under way changes its entry. *)
Lemma links_idle n P c v :
  links n P -> (forall p i ca, P !! c = Some p -> kc_call p = Some i -> cs_calls n !! i = Some ca -> returned ca <> None) ->
  (forall p, v = Some p -> kc_call p = None) -> links n (partial_alter (fun _ => v) c P).
Proof.
  intros [H1 H2 H3 H4] Hc Hv.
  assert (Hlk : forall c' p i, partial_alter (fun _ => v) c P !! c' = Some p -> kc_call p = Some i ->
    c' <> c /\ P !! c' = Some p).
  { intros c' p i Hp Hi. destruct (decide (c = c')) as [<-|Hne].
    - rewrite lookup_partial_alter_eq in Hp. specialize (Hv p Hp). congruence.
    - by rewrite lookup_partial_alter_ne in Hp. }
  split.
  - intros c' p i Hp Hi. destruct (Hlk c' p i Hp Hi). by eapply H1.
  - intros c1 c2 p1 p2 i Hp1 Hp2 Hi1 Hi2. destruct (Hlk _ _ _ Hp1 Hi1), (Hlk _ _ _ Hp2 Hi2). by eapply H2.
  - intros c' p i ca Hp Hi Hca. destruct (Hlk c' p i Hp Hi). by eapply H3.
  - intros i ca Hca Hn. destruct (H4 i ca Hca Hn) as (c' & p & Hp & Hi). exists c', p.
    rewrite lookup_partial_alter_ne; [done|]. intros <-. by eapply Hc.
Qed.

(** A clerk starts a call. *)
Lemma net_ok_new K n e r :
  net_ok K n ->
  let n' := mkCsys (cs_sys n) (cs_done n) (cs_loop n) (cs_calls n ++ [mkCall (mkReqMsg e (svcMeth r) (encode_args r)) CSending]) in
  net_step n (CCall e (svcMeth r) r) = Some (Ret n') /\ net_ok K n' /\ (forall i, handled n' i = handled n i).
Proof.
  intros Hn n'. split; [done|].
  assert (Hs : net_step n (CCall e (svcMeth r) r) = Some (Ret n')) by done.
  pose proof (cinv_step _ _ _ _ _ _ (no_cinv _ _ Hn) Hs) as Hc. destruct Hn as [H1 H2 H3 H4 H5]. split.
  - split; simpl; [done|done|..|done].
    + intros k q Hk. destruct (H3 k q Hk) as (i & ca & Hi & Ht). exists i, ca. split; [|done]. by apply lookup_app_l_Some.
    + intros i ca k v [Hi|[_ Hi]]%lookup_app_Some Hst; [by eapply H4|].
      apply list_lookup_singleton_Some in Hi as [_ <-]. done.
  - intros i. unfold handled. simpl. destruct (cs_calls n !! i) as [ca|] eqn:Hi.
    + by rewrite (lookup_app_l_Some _ _ _ _ Hi).
    + rewrite lookup_app_r by (by apply lookup_ge_None_1). by destruct (i - length (cs_calls n))%nat.
Qed.

Lemma links_new n P c p e :
  links n P -> P !! c = Some p -> kc_call p = None ->
  links (mkCsys (cs_sys n) (cs_done n) (cs_loop n)
           (cs_calls n ++ [mkCall (mkReqMsg e (svcMeth (pd_req (kc_pend p))) (encode_args (pd_req (kc_pend p)))) CSending]))
        (<[c := mkKcall (kc_pend p) (Some (length (cs_calls n)))]> P).
Proof.
  intros [H1 H2 H3 H4] Hp Hn. split; simpl.
  - intros c' p' i [[<- <-]|[_ Hp']]%lookup_insert_Some Hi; rewrite length_app; simpl in *; [simplify_eq; lia|].
    specialize (H1 _ _ _ Hp' Hi). lia.
  - intros c1 c2 p1 p2 i Hc1 Hc2 Hi1 Hi2.
    apply lookup_insert_Some in Hc1 as [[<- <-]|[? Hc1]]; apply lookup_insert_Some in Hc2 as [[<- <-]|[? Hc2]];
      simpl in *; simplify_eq; try done.
    + specialize (H1 _ _ _ Hc2 Hi2). lia.
    + specialize (H1 _ _ _ Hc1 Hi1). lia.
    + by eapply H2.
  - intros c' p' i ca [[<- <-]|[_ Hp']]%lookup_insert_Some Hi Hca; simpl in *.
    + simplify_eq. rewrite lookup_app_r, Nat.sub_diag in Hca by lia. simplify_eq/=. by exists e.
    + rewrite lookup_app_l in Hca by (by eapply H1). by eapply H3.
  - intros i ca [Hca|[Hge Hca]]%lookup_app_Some Hret.
    + destruct (H4 i ca Hca Hret) as (c' & p' & Hp' & Hi). exists c', p'.
      rewrite lookup_insert_ne; [done|]. intros <-. congruence.
    + apply list_lookup_singleton_Some in Hca as [Hca _]. eexists c, _.
      rewrite lookup_insert_eq. split; [done|]. simpl. f_equal. lia.
Qed.

(** ** The abstraction to [KvModel.sys] *)

(** [d i] says whether the reply to call [i] will be received: the run decides it after the
    handler has run, the abstract attempt when it runs. *)
Definition agrees (d : nat -> bool) (n : net) : Prop :=
  forall i ca v, cs_calls n !! i = Some ca -> returned ca = Some v -> d i = bool_decide (is_Some v).

Section Abstraction.
Variable d : nat -> bool.

(** [ts] gives the time of every step of the abstract system. *)
Record times (now : nat) (m : sys) (ts : list nat) : Prop := {
  tm_length : length ts = sys_now m;
  tm_sorted : StronglySorted lt ts;
  tm_past : Forall (fun t => t < now)%nat ts
}.

(** The call is still pending in the abstract system. *)
Definition waiting (m : sys) (ts : list nat) (c : nat) (pd : pend) (first : bool) : Prop :=
  exists t, ts !! t = Some (pd_call pd) /\ sys_pend m !! c = Some (mkPend (pd_req pd) t first).

(** The reply that is on its way, and what the clerk will make of it. *)
Definition answered (h : nat -> option replyMsg) (p : kcall) (out : KvOutput) : Prop :=
  exists i rep v, kc_call p = Some i /\ h i = Some rep /\ d i = true /\
    decode_reply (pd_req (kc_pend p)) (rm_reply rep) = Some v /\
    clerk_iter (pd_req (kc_pend p)) (pd_first (kc_pend p)) (Some v) = inl out.

(** The abstract operation of a call. *)
Definition op_of (ts : list nat) (c : nat) (pd : pend) (out : KvOutput) (o : Operation) : Prop :=
  Operation_ClientId o = c /\ Operation_Input o = req_input (pd_req pd) /\ Operation_Output o = out /\
  exists t ret y, Operation_Call o = Z.of_nat t /\ ts !! t = Some (pd_call pd) /\
    Operation_Return o = Z.of_nat ret /\ ts !! ret = Some y.

Definition pend_sim (h : nat -> option replyMsg) (m : sys) (ts : list nat) (c : nat) (p : kcall) : Prop :=
  let pd := kc_pend p in
  match kc_call p ≫= h with
  | None => waiting m ts c pd (pd_first pd)
  | Some _ =>
      if match kc_call p with Some i => d i | None => false end then
        sys_pend m !! c = None /\
        exists out o, answered h p out /\ o ∈ sys_log m /\ op_of ts c pd out o
      else exists first, clerk_iter (pd_req pd) (pd_first pd) None = inr first /\ waiting m ts c pd first
  end.

(** A recorded operation is an abstract one that returned no later. *)
Definition same_op (ts : list nat) (o o' : Operation) : Prop :=
  Operation_ClientId o' = Operation_ClientId o /\ Operation_Input o' = Operation_Input o /\
  Operation_Output o' = Operation_Output o /\
  exists t x ret y, Operation_Call o' = Z.of_nat t /\ ts !! t = Some x /\ Operation_Call o = Z.of_nat x /\
    Operation_Return o' = Z.of_nat ret /\ ts !! ret = Some y /\ Z.of_nat y <= Operation_Return o.

(** An abstract operation has been recorded or will be. *)
Definition recorded (h : nat -> option replyMsg) (P : gmap nat kcall) (log : list Operation) (ts : list nat)
    (o' : Operation) : Prop :=
  (exists o, o ∈ log /\ same_op ts o o') \/
  (exists p out, P !! Operation_ClientId o' = Some p /\ answered h p out /\
     op_of ts (Operation_ClientId o') (kc_pend p) out o').

Record abs (h : nat -> option replyMsg) (P : gmap nat kcall) (log : list Operation) (now : nat)
    (m : sys) (ts : list nat) : Prop := {
  ab_times : times now m ts;
  ab_none c : P !! c = None -> sys_pend m !! c = None;
  ab_pend c p : P !! c = Some p -> pend_sim h m ts c p;
  ab_log o : o ∈ log -> exists o', o' ∈ sys_log m /\ same_op ts o o';
  ab_back o' : o' ∈ sys_log m -> recorded h P log ts o'
}.

Lemma waiting_mono m m' ts ts' c pd f :
  ts `prefix_of` ts' -> sys_pend m' !! c = sys_pend m !! c -> waiting m ts c pd f -> waiting m' ts' c pd f.
Proof. intros Hts Hm (t & Ht & Hp). exists t. split; [by eapply prefix_lookup_Some|]. by rewrite Hm. Qed.

Lemma answered_mono (h h' : nat -> option replyMsg) p out :
  (forall i, kc_call p = Some i -> h' i = h i) -> answered h p out -> answered h' p out.
Proof. intros Hh (i & rep & v & Hi & Hr & H). exists i, rep, v. by rewrite Hh. Qed.

Lemma op_of_mono ts ts' c pd out o : ts `prefix_of` ts' -> op_of ts c pd out o -> op_of ts' c pd out o.
Proof.
  intros Hts (H1 & H2 & H3 & t & ret & y & H4 & H5 & H6 & H7). split; [done|]. split; [done|]. split; [done|].
  exists t, ret, y. repeat split; try done; by eapply prefix_lookup_Some.
Qed.

Lemma same_op_mono ts ts' o o' : ts `prefix_of` ts' -> same_op ts o o' -> same_op ts' o o'.
Proof.
  intros Hts (H1 & H2 & H3 & t & x & ret & y & H4 & H5 & H6 & H7 & H8 & H9). split; [done|]. split; [done|]. split; [done|].
  exists t, x, ret, y. repeat split; try done; by eapply prefix_lookup_Some.
Qed.

Lemma pend_sim_mono (h h' : nat -> option replyMsg) m m' ts ts' c p :
  ts `prefix_of` ts' -> sys_pend m' !! c = sys_pend m !! c -> (forall o, o ∈ sys_log m -> o ∈ sys_log m') ->
  (forall i, kc_call p = Some i -> h' i = h i) -> pend_sim h m ts c p -> pend_sim h' m' ts' c p.
Proof.
  intros Hts Hm Hl Hh. unfold pend_sim. assert (kc_call p ≫= h' = kc_call p ≫= h) as ->.
  { destruct (kc_call p) as [i|]; [|done]. simpl. by apply Hh. }
  destruct (kc_call p ≫= h) as [rep|]; [|by apply waiting_mono].
  destruct (match kc_call p with Some i => d i | None => false end).
  - intros (Hn & out & o & Ha & Ho & Hop). split; [by rewrite Hm|]. exists out, o.
    split; [by eapply answered_mono|]. split; [by apply Hl|]. by eapply op_of_mono.
  - intros (f & Hf & Hw). exists f. split; [done|]. by eapply waiting_mono.
Qed.

(** One clerk takes a step; the others are where they were. *)
Lemma abs_update (h h' : nat -> option replyMsg) P P' log log' now m m' ts ts' c :
  abs h P log now m ts -> times (S now) m' ts' -> ts `prefix_of` ts' ->
  (forall c', c' <> c -> P' !! c' = P !! c' /\ sys_pend m' !! c' = sys_pend m !! c') ->
  (forall c' p i, c' <> c -> P !! c' = Some p -> kc_call p = Some i -> h' i = h i) ->
  (P' !! c = None -> sys_pend m' !! c = None) ->
  (forall p, P' !! c = Some p -> pend_sim h' m' ts' c p) ->
  (forall o, o ∈ sys_log m -> o ∈ sys_log m') -> (forall o, o ∈ log -> o ∈ log') ->
  (forall o, o ∈ log' -> o ∈ log \/ exists o', o' ∈ sys_log m' /\ same_op ts' o o') ->
  (forall o', o' ∈ sys_log m' -> o' ∈ sys_log m \/ recorded h' P' log' ts' o') ->
  (forall o' p out, P !! c = Some p -> answered h p out -> op_of ts c (kc_pend p) out o' ->
     recorded h' P' log' ts' o') ->
  abs h' P' log' (S now) m' ts'.
Proof.
  intros [H1 H2 H3 H4 H5] Ht Hts Ho Hh Hn Hp Hlm Hll Hl' Hm' Hc. split.
  - done.
  - intros c'. destruct (decide (c' = c)) as [->|Hne]; [done|]. destruct (Ho c' Hne) as [-> ->]. apply H2.
  - intros c' p. destruct (decide (c' = c)) as [->|Hne]; [apply Hp|]. destruct (Ho c' Hne) as [-> Hm].
    intros Hp'. apply (pend_sim_mono h h' m m' ts ts'); try done; [|by apply H3]. intros i Hi. by eapply Hh.
  - intros o [Hin|Hin]%Hl'; [|done]. destruct (H4 o Hin) as (o' & Ho' & Hs). exists o'.
    split; [by apply Hlm|]. by eapply same_op_mono.
  - intros o' [Hin|Hr]%Hm'; [|done]. destruct (H5 o' Hin) as [(o & Hlo & Hs)|(p & out & Hp' & Ha & Hop)].
    + left. exists o. split; [by apply Hll|]. by eapply same_op_mono.
    + destruct (decide (Operation_ClientId o' = c)) as [<-|Hne]; [by eapply Hc|].
      right. exists p, out. destruct (Ho _ Hne) as [-> _]. split; [done|]. split; [|by eapply op_of_mono].
      apply (answered_mono h); [|done]. intros i Hi. by eapply Hh.
Qed.

Lemma times_tick now m ts : times now m ts -> times (S now) m ts.
Proof. intros [H1 H2 H3]. split; [done|done|]. eapply Forall_impl; [exact H3|]. simpl. lia. Qed.

Lemma times_snoc now m m' ts : times now m ts -> sys_now m' = S (sys_now m) -> times (S now) m' (ts ++ [now]).
Proof.
  intros [H1 H2 H3] Hs. split.
  - rewrite length_app. simpl. lia.
  - apply StronglySorted_snoc; [done|]. exact H3.
  - apply Forall_app. split; [eapply Forall_impl; [exact H3|]; simpl; lia|]. apply Forall_singleton. lia.
Qed.

(** The time of the next abstract step. *)
Lemma times_next now m ts : times now m ts -> (ts ++ [now]) !! sys_now m = Some now.
Proof. intros [H1 _ _]. by rewrite <- H1, lookup_app_r, Nat.sub_diag by lia. Qed.

(** A step that no clerk takes part in, or one that starts a call. *)
Lemma abs_idle (h h' : nat -> option replyMsg) P log now m ts :
  (forall c p i, P !! c = Some p -> kc_call p = Some i -> h' i = h i) ->
  abs h P log now m ts -> abs h' P log (S now) m ts.
Proof.
  intros Hh [H1 H2 H3 H4 H5]. split; [by apply times_tick|done|..|done|].
  - intros c p Hp. apply (pend_sim_mono h h' m m ts ts); [done..| |by apply H3]. intros i Hi. by eapply Hh.
  - intros o' Ho'. destruct (H5 o' Ho') as [?|(p & out & Hp & Ha & Hop)]; [by left|]. right. exists p, out.
    split; [done|]. split; [|done]. apply (answered_mono h); [|done]. intros i Hi. by eapply Hh.
Qed.

Lemma abs_call (h h' : nat -> option replyMsg) P log now m ts c p i :
  (forall j, h' j = h j) -> abs h P log now m ts -> P !! c = Some p -> kc_call p = None -> h i = None ->
  abs h' (<[c := mkKcall (kc_pend p) (Some i)]> P) log (S now) m ts.
Proof.
  intros Hh Ha Hp Hn Hi. apply (abs_update h h' P _ log log now m m ts ts c); try done.
  - by apply times_tick, Ha.
  - intros c' Hne. by rewrite lookup_insert_ne.
  - by rewrite lookup_insert_eq.
  - intros p' Hp'. rewrite lookup_insert_eq in Hp'. injection Hp' as <-.
    pose proof (ab_pend _ _ _ _ _ _ Ha c p Hp) as Hs. unfold pend_sim in *. rewrite Hn in Hs. simpl in *.
    by rewrite Hh, Hi.
  - intros o Ho. by left.
  - intros o Ho. by left.
  - intros o' p' out Hp' (i' & rep & v & Hi' & _) _. congruence.
Qed.

Lemma abs_invoke (h : nat -> option replyMsg) P log now m ts c r :
  abs h P log now m ts -> P !! c = None ->
  exists m', sys_step m (Invoke c r) = Some m' /\ sys_srv m' = sys_srv m /\
    abs h (<[c := mkKcall (mkPend r now true) None]> P) log (S now) m' (ts ++ [now]).
Proof.
  intros Ha Hp. pose proof (ab_times _ _ _ _ _ _ Ha) as Ht. simpl. rewrite (ab_none _ _ _ _ _ _ Ha c Hp).
  eexists. split; [done|]. split; [done|].
  apply (abs_update h h P _ log log now m _ ts (ts ++ [now]) c); simpl; try done.
  - by apply (times_snoc now m).
  - by apply prefix_app_r.
  - intros c' Hne. by rewrite !lookup_insert_ne.
  - by rewrite lookup_insert_eq.
  - intros p'. rewrite lookup_insert_eq. intros [= <-]. unfold pend_sim, waiting. simpl.
    exists (sys_now m). rewrite lookup_insert_eq. split; [|done]. by apply (times_next now m).
  - intros o Ho. by left.
  - intros o Ho. by left.
  - intros o' p' out Hp'. congruence.
Qed.

Lemma clerk_iter_none r first : exists f, clerk_iter r first None = inr f.
Proof. destruct r; [by exists first|by exists false]. Qed.

Lemma clerk_iter_handle kv r first kv' v : handle kv r = (kv', v) -> exists out, clerk_iter r first (Some v) = inl out.
Proof.
  destruct r as [k|a]; simpl.
  - intros [= <- <-]. simpl. by eexists.
  - destruct (KVServer_Put kv a) as [kv2 rep]. intros [= <- <-]. simpl. unfold Clerk_Put_iter.
    case_bool_decide; [destruct first|]; by eexists.
Qed.

(** An attempt that answers nothing: the clerk goes round, the store becomes [kv']. *)
Lemma abs_silent (h h' : nat -> option replyMsg) P log now m ts c p p' t f f' kv' :
  abs h P log now m ts -> P !! c = Some p -> ts !! t = Some (pd_call (kc_pend p)) ->
  sys_pend m !! c = Some (mkPend (pd_req (kc_pend p)) t f) ->
  pd_req (kc_pend p') = pd_req (kc_pend p) -> pd_call (kc_pend p') = pd_call (kc_pend p) ->
  (forall c2 p2 i, c2 <> c -> P !! c2 = Some p2 -> kc_call p2 = Some i -> h' i = h i) ->
  (forall out, ~ answered h p out) ->
  (forall m' ts', waiting m' ts' c (kc_pend p') f' -> pend_sim h' m' ts' c p') ->
  abs h' (<[c := p']> P) log (S now)
    (mkSys kv' (S (sys_now m)) (<[c := mkPend (pd_req (kc_pend p)) t f']> (sys_pend m)) (sys_log m)) (ts ++ [now]).
Proof.
  intros Ha Hp Ht Hm Hr Hc Hh Hno Hs. pose proof (ab_times _ _ _ _ _ _ Ha) as Htm.
  apply (abs_update h h' P _ log log now m _ ts (ts ++ [now]) c); simpl; try done.
  - by apply (times_snoc now m).
  - by apply prefix_app_r.
  - intros c' Hne. by rewrite !lookup_insert_ne.
  - by rewrite lookup_insert_eq.
  - intros p2. rewrite lookup_insert_eq. intros [= <-]. apply Hs. exists t. simpl. rewrite lookup_insert_eq.
    rewrite Hr, Hc. split; [|done]. by apply lookup_app_l_Some.
  - intros o Ho. by left.
  - intros o Ho. by left.
  - intros o' p2 out Hp2 Hans. rewrite Hp in Hp2. injection Hp2 as <-. by destruct (Hno out).
Qed.

(** The handler of call [i] runs and its reply will not be received. *)
Lemma abs_run_lost (h h' : nat -> option replyMsg) P log now m ts c p i rep kv' v :
  abs h P log now m ts -> P !! c = Some p -> kc_call p = Some i -> h i = None -> h' i = Some rep -> d i = false ->
  (forall c2 p2 j, c2 <> c -> P !! c2 = Some p2 -> kc_call p2 = Some j -> h' j = h j) ->
  handle (sys_srv m) (pd_req (kc_pend p)) = (kv', v) ->
  exists m', sys_step m (Attempt c ReplyLost) = Some m' /\ sys_srv m' = kv' /\
    abs h' P log (S now) m' (ts ++ [now]).
Proof.
  intros Ha Hp Hi Hh Hh' Hd Ho Hv. pose proof (ab_pend _ _ _ _ _ _ Ha c p Hp) as Hs.
  unfold pend_sim in Hs. rewrite Hi in Hs. simpl in Hs. rewrite Hh in Hs. destruct Hs as (t & Ht & Hm).
  destruct (clerk_iter_none (pd_req (kc_pend p)) (pd_first (kc_pend p))) as [f' Hf'].
  simpl. rewrite Hm. simpl. rewrite Hv, Hf'. simpl. eexists. split; [done|]. split; [done|].
  rewrite <- (insert_id P c p Hp).
  eapply (abs_silent h h' P log now m ts c p p t _ f'); try done.
  - intros out (i' & rep' & w & Hi' & Hr & _). rewrite Hi in Hi'. injection Hi' as <-. congruence.
  - intros m' ts' Hw. unfold pend_sim. rewrite Hi. simpl. rewrite Hh', Hd. by exists f'.
Qed.

(** The handler of call [i] runs and its reply will be received. *)
Lemma abs_run_delivered (h h' : nat -> option replyMsg) P log now m ts c p i rep kv' v :
  abs h P log now m ts -> P !! c = Some p -> kc_call p = Some i -> h i = None -> h' i = Some rep -> d i = true ->
  (forall c2 p2 j, c2 <> c -> P !! c2 = Some p2 -> kc_call p2 = Some j -> h' j = h j) ->
  handle (sys_srv m) (pd_req (kc_pend p)) = (kv', v) -> decode_reply (pd_req (kc_pend p)) (rm_reply rep) = Some v ->
  exists m', sys_step m (Attempt c Delivered) = Some m' /\ sys_srv m' = kv' /\
    abs h' P log (S now) m' (ts ++ [now]).
Proof.
  intros Ha Hp Hi Hh Hh' Hd Ho Hv Hdec. pose proof (ab_pend _ _ _ _ _ _ Ha c p Hp) as Hs.
  unfold pend_sim in Hs. rewrite Hi in Hs. simpl in Hs. rewrite Hh in Hs. destruct Hs as (t & Ht & Hm).
  destruct (clerk_iter_handle _ _ (pd_first (kc_pend p)) _ _ Hv) as [out Hout].
  simpl. rewrite Hm. simpl. rewrite Hv, Hout. simpl. eexists. split; [done|]. split; [done|].
  pose proof (ab_times _ _ _ _ _ _ Ha) as Htm.
  set (o := mkOperation c (req_input (pd_req (kc_pend p))) (Z.of_nat t) out (Z.of_nat (sys_now m))).
  assert (Hans : answered h' p out) by (exists i, rep, v; done).
  assert (Hop : op_of (ts ++ [now]) c (kc_pend p) out o).
  { split; [done|]. split; [done|]. split; [done|]. exists t, (sys_now m), now. split; [done|].
    split; [by apply lookup_app_l_Some|]. split; [done|]. by apply (times_next now m). }
  apply (abs_update h h' P P log log now m _ ts (ts ++ [now]) c); simpl; try done.
  - by apply (times_snoc now m).
  - by apply prefix_app_r.
  - intros c' Hne. by rewrite lookup_delete_ne.
  - by rewrite Hp.
  - intros p2. rewrite Hp. intros [= <-]. unfold pend_sim. rewrite Hi. simpl. rewrite Hh', Hd. split; [apply lookup_delete_eq|].
    exists out, o. split; [done|]. split; [|done]. simpl. apply elem_of_app. right. by apply list_elem_of_singleton.
  - intros o' Ho'. apply elem_of_app. by left.
  - intros o' Ho'. by left.
  - intros o' [Ho'| ->%list_elem_of_singleton]%elem_of_app; [by left|]. right. right. exists p, out. done.
  - intros o' p2 out' Hp2 (i' & rep' & w & Hi' & Hr & _). rewrite Hp in Hp2. injection Hp2 as <-.
    rewrite Hi in Hi'. injection Hi' as <-. congruence.
Qed.

(** The call returned false. *)
Lemma abs_return_false (h : nat -> option replyMsg) P log now m ts c p i f' :
  abs h P log now m ts -> P !! c = Some p -> kc_call p = Some i -> d i = false ->
  clerk_iter (pd_req (kc_pend p)) (pd_first (kc_pend p)) None = inr f' ->
  exists ls m' ts', (length ls <= 1)%nat /\ sys_run m ls = Some m' /\ sys_srv m' = sys_srv m /\
    abs h (<[c := mkKcall (mkPend (pd_req (kc_pend p)) (pd_call (kc_pend p)) f') None]> P) log (S now) m' ts'.
Proof.
  intros Ha Hp Hi Hd Hf. pose proof (ab_pend _ _ _ _ _ _ Ha c p Hp) as Hs.
  assert (Hno : forall out, ~ answered h p out).
  { intros out (i' & rep & w & Hi' & _ & Hd' & _). rewrite Hi in Hi'. injection Hi' as <-. congruence. }
  unfold pend_sim in Hs. rewrite Hi in Hs. simpl in Hs. destruct (h i) as [rep|] eqn:Eh.
  - rewrite Hd in Hs. destruct Hs as (f2 & Hf2 & Hw). rewrite Hf in Hf2. injection Hf2 as <-.
    exists [], m, ts. split; [simpl; lia|]. split; [done|]. split; [done|].
    apply (abs_update h h P _ log log now m m ts ts c); try done.
    + by apply times_tick, Ha.
    + intros c' Hne. by rewrite lookup_insert_ne.
    + by rewrite lookup_insert_eq.
    + intros p2. rewrite lookup_insert_eq. intros [= <-]. exact Hw.
    + intros o Ho. by left.
    + intros o Ho. by left.
    + intros o' p2 out Hp2 Hans. rewrite Hp in Hp2. injection Hp2 as <-. by destruct (Hno out).
  - destruct Hs as (t & Ht & Hm). exists [Attempt c ReqLost]. eexists _, (ts ++ [now]). split; [done|].
    simpl. rewrite Hm. simpl. rewrite Hf. simpl. split; [done|]. split; [done|].
    by eapply (abs_silent h h P log now m ts c p _ t _ f').
Qed.

(** The call returned true: the operation is recorded. *)
Lemma abs_return_true (h : nat -> option replyMsg) P log now m ts c p i rep v out :
  abs h P log now m ts -> P !! c = Some p -> kc_call p = Some i -> h i = Some rep -> d i = true ->
  decode_reply (pd_req (kc_pend p)) (rm_reply rep) = Some v ->
  clerk_iter (pd_req (kc_pend p)) (pd_first (kc_pend p)) (Some v) = inl out ->
  abs h (delete c P)
    (log ++ [mkOperation c (req_input (pd_req (kc_pend p))) (Z.of_nat (pd_call (kc_pend p))) out (Z.of_nat now)])
    (S now) m ts.
Proof.
  intros Ha Hp Hi Hh Hd Hdec Hout. pose proof (ab_pend _ _ _ _ _ _ Ha c p Hp) as Hs.
  unfold pend_sim in Hs. rewrite Hi in Hs. simpl in Hs. rewrite Hh, Hd in Hs. destruct Hs as (Hm & out1 & o' & Hans & Ho' & Hop).
  set (o := mkOperation _ _ _ _ _).
  assert (Hout' : forall out2, answered h p out2 -> out2 = out).
  { intros out2 (i' & rep' & w & Hi' & Hr & _ & Hdec' & Hout'). rewrite Hi in Hi'. injection Hi' as <-.
    rewrite Hh in Hr. injection Hr as <-. rewrite Hdec in Hdec'. injection Hdec' as <-. congruence. }
  pose proof (ab_times _ _ _ _ _ _ Ha) as Htm.
  assert (Hsame : forall o2 out2, answered h p out2 -> op_of ts c (kc_pend p) out2 o2 -> same_op ts o o2).
  { intros o2 out2 Ha2 (C1 & C2 & C3 & t & ret & y & C4 & C5 & C6 & C7). apply Hout' in Ha2 as ->.
    split; [done|]. split; [done|]. split; [done|]. exists t, (pd_call (kc_pend p)), ret, y.
    repeat split; try done. simpl. apply Nat2Z.inj_le.
    pose proof (Forall_lookup_1 _ _ _ _ (tm_past _ _ _ Htm) C7). simpl in *. lia. }
  apply (abs_update h h P _ log _ now m m ts ts c); try done.
  - by apply times_tick.
  - intros c' Hne. by rewrite lookup_delete_ne.
  - by rewrite lookup_delete_eq.
  - intros o2 Ho2. apply elem_of_app. by left.
  - intros o2 [Ho2| ->%list_elem_of_singleton]%elem_of_app; [by left|]. right. exists o'. split; [done|]. by eapply Hsame.
  - intros o2 Ho2. by left.
  - intros o2 p2 out2 Hp2 Ha2 Hop2. rewrite Hp in Hp2. injection Hp2 as <-. left. exists o.
    split; [apply elem_of_app; right; by apply list_elem_of_singleton|]. by eapply Hsame.
Qed.
End Abstraction.

(** ** The simulation *)

Record sim (K : Prop) (d : nat -> bool) (s : ksys) (m : sys) (ts : list nat) : Prop := {
  sm_net : net_ok K (ks_net s);
  sm_links : links (ks_net s) (ks_pend s);
  sm_world : sy_world (cs_sys (ks_net s)) = sys_srv m;
  sm_abs : abs d (handled (ks_net s)) (ks_pend s) (ks_log s) (ks_now s) m ts
}.

Lemma sim_init K d : sim K d kinit sys_init [].
Proof. split; [apply net_ok_init|apply links_init|done|]. split; [by split; constructor|done|done|set_solver|set_solver]. Qed.

(** A call that has returned stays as it is. *)
Lemma returned_stays (n n' : net) l i ca :
  net_step n l = Some (Ret n') -> cs_calls n !! i = Some ca -> is_Some (returned ca) -> cs_calls n' !! i = Some ca.
Proof.
  unfold net_step. intros Hs Hi Hr.
  assert (Hset : forall j cj x, cs_calls n !! j = Some cj -> returned cj = None -> <[j := x]> (cs_calls n) !! i = Some ca).
  { intros j cj x Hj Hn. rewrite list_lookup_insert_ne; [done|]. intros ->. rewrite Hi in Hj. injection Hj as <-.
    rewrite Hn in Hr. by destruct Hr. }
  destruct l as [e mth args|j|j|j|lab| |]; simpl in Hs.
  - simplify_eq/=. by apply lookup_app_l_Some.
  - destruct (cs_calls n !! j) as [cj|] eqn:Hj; simplify_eq/=. destruct (ca_stage cj) eqn:Est; try done.
    destruct (cs_loop n); simplify_eq/=. apply (Hset j cj); [done|]. unfold returned. by rewrite Est.
  - destruct (cs_calls n !! j) as [cj|] eqn:Hj; simplify_eq/=. destruct (ca_stage cj) eqn:Est; try done.
    destruct (cs_done n); simplify_eq/=. apply (Hset j cj); [done|]. unfold returned. by rewrite Est.
  - destruct (cs_calls n !! j) as [cj|] eqn:Hj; simplify_eq/=. destruct (ca_stage cj) eqn:Est; try done.
    destruct (sy_reqs _ !! _) as [q|]; simplify_eq/=. destruct (rs_answers q); [done|].
    destruct (rm_ok _); simplify_eq/=; (apply (Hset j cj); [done|]; unfold returned; by rewrite Est).
  - destruct (is_send lab); [done|]. destruct (step _ _ _) as [[sys| |]|]; by simplify_eq/=.
  - destruct (cs_done n); by simplify_eq.
  - destruct (_ && _); by simplify_eq.
Qed.

Lemma kstep_net s l s' :
  kstep s l = Some (Ret s') ->
  ks_net s' = ks_net s \/ exists l', net_step (ks_net s) l' = Some (Ret (ks_net s')).
Proof.
  destruct l as [c r|c e|c|l]; simpl.
  - destruct (ks_pend s !! c); intros; simplify_eq. by left.
  - destruct (ks_pend s !! c) as [p|]; [|done]. simpl. destruct (kc_call p); [done|].
    intros [= <-]. right. eexists (CCall e _ _). reflexivity.
  - destruct (ks_pend s !! c) as [p|]; [|done]. simpl. destruct (kc_call p) as [i|]; [|done]. simpl.
    destruct (cs_calls (ks_net s) !! i) as [ca|]; [|done]. simpl.
    destruct (ca_stage ca) as [| |k [bs|]]; try done.
    + destruct (decode_reply _ _); [|done]. intros [= <-]. left. unfold kfinish. by case_match.
    + intros [= <-]. left. unfold kfinish. by case_match.
  - destruct (is_call l); [done|]. destruct (net_step (ks_net s) l) as [[n| |]|] eqn:E; simpl; try done.
    intros [= <-]. right. by exists l.
Qed.

Lemma agrees_back d s l s' : kstep s l = Some (Ret s') -> agrees d (ks_net s') -> agrees d (ks_net s).
Proof.
  intros Hs Ha. destruct (kstep_net s l s' Hs) as [<-|[l' Hl']]; [done|].
  intros i ca v Hi Hr. apply (Ha i ca v); [|done]. eapply returned_stays; [done|done|]. by rewrite Hr.
Qed.

Lemma agrees_run d ls : forall s s', krun s ls = Ret s' -> agrees d (ks_net s') -> agrees d (ks_net s).
Proof.
  induction ls as [|l ls IH]; intros s s' Hr Ha; simpl in Hr; [by simplify_eq|].
  destruct (kstep s l) as [o|] eqn:E; [|by eapply IH].
  apply outcome_bind_inv in Hr as (s1 & -> & Hr). eapply agrees_back; [done|]. by eapply IH.
Qed.

(** The oracle of a run: which calls have returned true in the end. *)
Definition oracle (n : net) (i : nat) : bool :=
  match cs_calls n !! i ≫= returned with Some (Some _) => true | _ => false end.

Lemma oracle_agrees n : agrees (oracle n) n.
Proof. intros i ca v Hi Hr. unfold oracle. rewrite Hi. simpl. rewrite Hr. by destruct v. Qed.

Section Simulation.
Context {Laws : KvRoundtrip}.

Definition encode_reply (v : GetReply + PutReply) : list Byte.byte :=
  match v with inl g => encode_getr g | inr p => encode_putr p end.

(** What [dispatch] does with a clerk's request. *)
Lemma dispatch_request rs e r kv rs' kv' rep :
  srv_services rs = {["KVServer" := KVServer_service]} ->
  Server_dispatch kinvoke rs (mkReqMsg e (svcMeth r) (encode_args r)) kv = Ret (rs', kv', rep) ->
  exists v, handle kv r = (kv', v) /\ decode_reply r (rm_reply rep) = Some v.
Proof.
  intros Hsv. destruct r as [k|a]; unfold Server_dispatch; cbn [rq_svcMeth svcMeth srv_services encode_args rq_args].
  - change (split_svcMeth "KVServer.Get") with (Some ("KVServer", "Get")). simpl. rewrite Hsv.
    change (({["KVServer" := KVServer_service]} : gmap string (Service (Method := kmethod))) !! "KVServer") with (Some KVServer_service). simpl.
    unfold Service_dispatch. change (svc_methods KVServer_service !! "Get") with (Some KGet). simpl.
    intros [= <- <- <-]. eexists. split; [done|]. simpl. by rewrite get_roundtrip, getr_roundtrip.
  - change (split_svcMeth "KVServer.Put") with (Some ("KVServer", "Put")). simpl. rewrite Hsv.
    change (({["KVServer" := KVServer_service]} : gmap string (Service (Method := kmethod))) !! "KVServer") with (Some KVServer_service). simpl.
    unfold Service_dispatch. change (svc_methods KVServer_service !! "Put") with (Some KPut). simpl.
    rewrite put_roundtrip. destruct (KVServer_Put kv a) as [kv2 r]. simpl.
    intros [= <- <- <-]. eexists. split; [done|]. simpl. by rewrite putr_roundtrip.
Qed.

(** A step of the network in which no handler of a call under way runs. *)
Lemma sim_idle K d s m ts n' :
  sim K d s m ts -> net_ok K n' -> calls_keep (ks_net s) n' ->
  sy_world (cs_sys n') = sy_world (cs_sys (ks_net s)) ->
  (forall c p i, ks_pend s !! c = Some p -> kc_call p = Some i -> handled n' i = handled (ks_net s) i) ->
  sim K d (mkKsys n' (S (ks_now s)) (ks_pend s) (ks_log s)) m ts.
Proof.
  intros [Hn Hl Hw Ha] Hn' Hk Hw' Hh. split; simpl; [done|by eapply links_keep|congruence|].
  by apply (abs_idle d (handled (ks_net s))).
Qed.

(** The handler of call [i] of clerk [c] runs. *)
Lemma sim_execute K d s m ts n' c p i r w v :
  sim K d s m ts -> net_ok K n' -> calls_keep (ks_net s) n' ->
  ks_pend s !! c = Some p -> kc_call p = Some i ->
  handle (sys_srv m) (pd_req (kc_pend p)) = (w, v) -> decode_reply (pd_req (kc_pend p)) (rm_reply r) = Some v ->
  sy_world (cs_sys n') = w -> handled (ks_net s) i = None -> handled n' i = Some r ->
  (forall j, j <> i -> handled n' j = handled (ks_net s) j) ->
  exists ls m' ts', (length ls <= 1)%nat /\ sys_run m ls = Some m' /\
    sim K d (mkKsys n' (S (ks_now s)) (ks_pend s) (ks_log s)) m' ts'.
Proof.
  intros [Hn Hl Hw Ha] Hn' Hk Hp Hpi Hv Hdec Hw' Hh Hh' Ho.
  assert (Hother : forall c2 p2 j, c2 <> c -> ks_pend s !! c2 = Some p2 -> kc_call p2 = Some j ->
    handled n' j = handled (ks_net s) j).
  { intros c2 p2 j Hne Hp2 Hj. apply Ho. intros ->. by apply Hne, (lk_inj _ _ Hl c2 c p2 p i). }
  assert (exists a m', sys_step m (Attempt c a) = Some m' /\ sys_srv m' = w /\
    abs d (handled n') (ks_pend s) (ks_log s) (S (ks_now s)) m' (ts ++ [ks_now s])) as (a & m' & Hst & Hsrv & Ha').
  { destruct (d i) eqn:Hdi.
    - destruct (abs_run_delivered d _ (handled n') _ _ _ _ _ c p i r w v Ha Hp Hpi Hh Hh' Hdi Hother Hv Hdec)
        as (m' & H1 & H2 & H3). by exists Delivered, m'.
    - destruct (abs_run_lost d _ (handled n') _ _ _ _ _ c p i r w v Ha Hp Hpi Hh Hh' Hdi Hother Hv)
        as (m' & H1 & H2 & H3). by exists ReplyLost, m'. }
  exists [Attempt c a], m', (ts ++ [ks_now s]). split; [done|].
  split; [change (sys_run m [Attempt c a]) with (m1 ← sys_step m (Attempt c a); Some m1); by rewrite Hst|].
  split; simpl; [done|by eapply links_keep|congruence|done].
Qed.

Lemma sim_net d s m ts l n' :
  sim True d s m ts -> is_call l = false -> net_step (ks_net s) l = Some (Ret n') -> gives_up s (KNet l) = false ->
  exists ls m' ts', (length ls <= 1)%nat /\ sys_run m ls = Some m' /\
    sim True d (mkKsys n' (S (ks_now s)) (ks_pend s) (ks_log s)) m' ts'.
Proof.
  intros Hsim Hc Hs Hg. pose proof Hsim as [Hn Hl Hw Ha].
  destruct (net_step_ok True (ks_net s) l n' Hn Hc Hs (fun _ _ _ _ => Hg)) as (Hn' & Hk & Heff).
  destruct Heff as [Hw' Hh|k i ca q srv rs w r Hcalls Hi Hret Ht Hq Hm Hd Hw' Hh Hh' Ho].
  - exists [], m, ts. split; [simpl; lia|]. split; [done|]. by apply sim_idle.
  - destruct (lk_cur _ _ Hl i ca Hi (Hret I)) as (c & p & Hp & Hpi).
    destruct (lk_msg _ _ Hl c p i ca Hp Hpi Hi) as [e He]. rewrite Hm, He in Hd.
    destruct (dispatch_request _ _ _ _ _ _ _ (no_services _ _ Hn srv) Hd) as (v & Hv & Hdec). rewrite Hw in Hv.
    by apply (sim_execute True d s m ts n' c p i r w v).
Qed.

Lemma sim_return K d s m ts c s' :
  sim K d s m ts -> kstep s (KReturn c) = Some (Ret s') -> agrees d (ks_net s) ->
  exists ls m' ts', (length ls <= 1)%nat /\ sys_run m ls = Some m' /\ sim K d s' m' ts'.
Proof.
  intros [Hn Hl Hw Ha] Hs Hag. simpl in Hs. destruct (ks_pend s !! c) as [p|] eqn:Hp; [|done]. simpl in Hs.
  destruct (kc_call p) as [i|] eqn:Hi; [|done]. simpl in Hs.
  destruct (cs_calls (ks_net s) !! i) as [ca|] eqn:Hca; [|done]. simpl in Hs.
  assert (Hret : forall k v, ca_stage ca = CReturned k v -> returned ca = Some v)
    by (intros k v Est; unfold returned; by rewrite Est).
  assert (Hlinks : forall v, is_Some (returned ca) -> (forall p', v = Some p' -> kc_call p' = None) ->
    links (ks_net s) (partial_alter (fun _ => v) c (ks_pend s))).
  { intros v [x Hx] Hv. apply links_idle; [done| |done]. intros p' i' ca' Hp' Hi' Hca'.
    rewrite Hp in Hp'. injection Hp' as <-. rewrite Hi in Hi'. injection Hi' as <-. congruence. }
  destruct (ca_stage ca) as [| |k [bs|]] eqn:Est; try done.
  - destruct (decode_reply _ bs) as [v|] eqn:Hdec; [|done]. injection Hs as <-.
    specialize (Hret k (Some bs) eq_refl). pose proof (Hag i ca (Some bs) Hca Hret) as Hd.
    rewrite bool_decide_eq_true_2 in Hd by done.
    pose proof (ci_call _ _ (no_cinv _ _ Hn) i ca Hca) as Hok. unfold call_ok in Hok. rewrite Est in Hok. simpl in Hok.
    destruct k as [k|]; [|by destruct (Hok bs)]. destruct Hok as (q & Hq & _ & Hv).
    destruct (Hv bs eq_refl) as (rep & Hrep & Hbs). injection Hbs as <-.
    assert (Hh : handled (ks_net s) i = Some rep).
    { unfold handled. rewrite Hca. simpl. rewrite Est. simpl. rewrite Hq. simpl. unfold handler_reply. by rewrite Hrep. }
    pose proof (ab_pend _ _ _ _ _ _ _ Ha c p Hp) as Hs. unfold pend_sim in Hs. rewrite Hi in Hs. simpl in Hs.
    rewrite Hh, Hd in Hs. destruct Hs as (_ & out & o & (i2 & rep2 & v2 & Hi2 & Hr2 & _ & Hdec2 & Hout) & _).
    rewrite Hi in Hi2. injection Hi2 as <-. rewrite Hh in Hr2. injection Hr2 as <-.
    rewrite Hdec in Hdec2. injection Hdec2 as <-. rewrite Hout. unfold kfinish.
    exists [], m, ts. split; [simpl; lia|]. split; [done|]. split; simpl; [done|by apply Hlinks|done|].
    by apply (abs_return_true d _ _ _ _ _ _ c p i rep v out).
  - injection Hs as <-. specialize (Hret k None eq_refl). pose proof (Hag i ca None Hca Hret) as Hd.
    rewrite bool_decide_eq_false_2 in Hd by (by intros [? ?]).
    destruct (clerk_iter_none (pd_req (kc_pend p)) (pd_first (kc_pend p))) as [f Hf]. rewrite Hf. unfold kfinish.
    destruct (abs_return_false d _ _ _ _ _ _ c p i f Ha Hp Hi Hd Hf) as (ls & m' & ts' & H1 & H2 & H3 & H4).
    exists ls, m', ts'. split; [done|]. split; [done|]. split; simpl; [done| |congruence|done].
    apply Hlinks; [by rewrite Hret|]. by intros p' [= <-].
Qed.

(** A step of the clerks; those of the network have their own lemmas. *)
Lemma sim_step K d s m ts l s' :
  sim K d s m ts -> kstep s l = Some (Ret s') -> agrees d (ks_net s') ->
  (forall l' n', l = KNet l' -> is_call l' = false -> net_step (ks_net s) l' = Some (Ret n') ->
     exists ls m' ts', (length ls <= 1)%nat /\ sys_run m ls = Some m' /\
       sim K d (mkKsys n' (S (ks_now s)) (ks_pend s) (ks_log s)) m' ts') ->
  exists ls m' ts', (length ls <= 1)%nat /\ sys_run m ls = Some m' /\ sim K d s' m' ts'.
Proof.
  intros Hsim Hs Hag Hnet. pose proof Hsim as [Hn Hl Hw Ha]. destruct l as [c r|c e|c|l].
  - simpl in Hs. destruct (ks_pend s !! c) eqn:Hp; [done|]. injection Hs as <-.
    destruct (abs_invoke d _ _ _ _ _ _ c r Ha Hp) as (m' & Hst & Hsrv & Ha').
    exists [Invoke c r], m', (ts ++ [ks_now s]). split; [done|].
    split; [change (sys_run m [Invoke c r]) with (m1 ← sys_step m (Invoke c r); Some m1); by rewrite Hst|].
    split; simpl; [done| |congruence|done].
    apply (links_idle _ _ c (Some (mkKcall (mkPend r (ks_now s) true) None))); [done|by intros p i ca; rewrite Hp|].
    by intros p [= <-].
  - simpl in Hs. destruct (ks_pend s !! c) as [p|] eqn:Hp; [|done]. simpl in Hs.
    destruct (kc_call p) eqn:Hc; [done|]. injection Hs as <-.
    destruct (net_ok_new K (ks_net s) e (pd_req (kc_pend p)) Hn) as (_ & Hn' & Hh).
    exists [], m, ts. split; [simpl; lia|]. split; [done|]. split; simpl; [done|by apply links_new|done|].
    apply (abs_call d (handled (ks_net s))); try done. unfold handled.
    by rewrite (proj2 (lookup_ge_None _ _)) by lia.
  - eapply sim_return; [done|done|]. eapply agrees_back; [done|done].
  - simpl in Hs. destruct (is_call l) eqn:Hc; [done|].
    destruct (net_step (ks_net s) l) as [[n'| |]|] eqn:E; simpl in Hs; try done. injection Hs as <-.
    by apply (Hnet l).
Qed.

Lemma sim_run d ls : forall s m ts s',
  sim True d s m ts -> krun s ls = Ret s' -> calm s ls = true -> agrees d (ks_net s') ->
  exists ls' m' ts', (length ls' <= length ls)%nat /\ sys_run m ls' = Some m' /\ sim True d s' m' ts'.
Proof.
  induction ls as [|l ls IH]; intros s m ts s' Hsim Hr Hc Hag; simpl in Hr, Hc.
  { injection Hr as <-. by exists [], m, ts. }
  apply andb_true_iff in Hc as [Hg Hc]. apply negb_true_iff in Hg.
  destruct (kstep s l) as [o|] eqn:E.
  - apply outcome_bind_inv in Hr as (s1 & -> & Hr).
    destruct (sim_step True d s m ts l s1 Hsim E) as (ls1 & m1 & ts1 & L1 & R1 & S1);
      [by eapply agrees_run|intros l' n' -> Hl' Hs'; by apply (sim_net d s m ts l')|].
    destruct (IH s1 m1 ts1 s' S1 Hr Hc Hag) as (ls2 & m2 & ts2 & L2 & R2 & S2).
    exists (ls1 ++ ls2), m2, ts2. split; [rewrite length_app; simpl; lia|]. split; [|done].
    by eapply sys_run_app.
  - destruct (IH s m ts s' Hsim Hr Hc Hag) as (ls2 & m2 & ts2 & L2 & R2 & S2).
    exists ls2, m2, ts2. split; [simpl; lia|done].
Qed.

(** ** Back to the times of the network *)

Definition retime (ts : list nat) (now t : nat) : nat :=
  match ts !! t with Some x => x | None => (now + t)%nat end.
Definition retime_entry (f : nat -> nat) (e : lin_entry) : lin_entry :=
  mkLin (le_client e) (f (le_call e)) (f (le_time e)) (le_in e) (le_out e).

Lemma sorted_lookup (ts : list nat) i j x y :
  StronglySorted lt ts -> ts !! i = Some x -> ts !! j = Some y -> (i < j)%nat -> (x < y)%nat.
Proof.
  intros Hs. revert i j. induction Hs as [|z ts Hs IH Hz]; intros i j Hi Hj Hlt; [done|].
  destruct j as [|j]; [lia|]. simpl in Hj. destruct i as [|i]; simpl in Hi.
  - injection Hi as <-. by apply (Forall_lookup_1 _ _ _ _ Hz Hj).
  - apply (IH i j); [done|done|lia].
Qed.

Lemma retime_lt now m ts t t' : times now m ts -> (t < t')%nat -> (retime ts now t < retime ts now t')%nat.
Proof.
  intros [_ Hs Hp] Hlt. unfold retime. destruct (ts !! t) as [x|] eqn:Et, (ts !! t') as [y|] eqn:Et'.
  - by eapply sorted_lookup.
  - pose proof (Forall_lookup_1 _ _ _ _ Hp Et). simpl in *. lia.
  - apply lookup_lt_Some in Et'. apply lookup_ge_None_1 in Et. lia.
  - lia.
Qed.

Lemma retime_io f L k : le_io <$> on_key k (retime_entry f <$> L) = le_io <$> on_key k L.
Proof.
  unfold on_key. induction L as [|e L IH]; [done|]. rewrite fmap_cons, !filter_cons. simpl.
  case_decide; [|done]. rewrite !fmap_cons, IH. done.
Qed.

Lemma retime_linearizes now m ts L H H' :
  times now m ts -> linearizes L H' -> (forall o, o ∈ H -> exists o', o' ∈ H' /\ same_op ts o o') ->
  linearizes (retime_entry (retime ts now) <$> L) H.
Proof.
  intros Ht [L1 L2 L3 L4] Hop.
  assert (Hle : forall t t', (t <= t')%nat -> (retime ts now t <= retime ts now t')%nat).
  { intros t t' Hle. destruct (decide (t = t')) as [->|Hne]; [done|].
    assert (t < t')%nat as Hlt by lia. pose proof (retime_lt now m ts t t' Ht Hlt). lia. }
  assert (Hinj : forall t t', retime ts now t = retime ts now t' -> t = t').
  { intros t t' He. destruct (lt_eq_lt_dec t t') as [[Hl|]|Hl]; [|done|]; pose proof (retime_lt now m ts _ _ Ht Hl); lia. }
  split.
  - intros k. rewrite retime_io. apply L1.
  - clear -L2 Ht. induction L2 as [|e L Hs IH He]; [constructor|]. rewrite fmap_cons. constructor; [done|].
    apply Forall_fmap. eapply Forall_impl; [exact He|]. intros e' Hlt. simpl in *. by apply (retime_lt now m).
  - rewrite <- list_fmap_compose.
    clear -L3 Hinj. induction L as [|e L IH]; [constructor|]. rewrite fmap_cons in *.
    apply NoDup_cons in L3 as [Hn L3]. apply NoDup_cons. split; [|by apply IH].
    intros (e' & He & Hin)%list_elem_of_fmap. simpl in He. injection He as Hc Hca. apply Hinj in Hca.
    apply Hn, list_elem_of_fmap. exists e'. split; [|done]. congruence.
  - intros o Ho. destruct (Hop o Ho) as (o' & Ho' & C1 & C2 & C3 & t & x & ret & y & C4 & C5 & C6 & C7 & C8 & C9).
    destruct (L4 o' Ho') as (e & He & (E1 & E2 & E3 & E4) & E5).
    exists (retime_entry (retime ts now) e). split; [by apply list_elem_of_fmap; exists e|].
    assert (Hx : retime ts now t = x) by (unfold retime; by rewrite C5).
    assert (Hy : retime ts now ret = y) by (unfold retime; by rewrite C8).
    assert (Hcall : le_call e = t) by lia.
    assert (Hb : (t <= le_time e <= ret)%nat) by lia. destruct Hb as [Hb1%Hle Hb2%Hle].
    split; [|simpl; lia]. split; [simpl; congruence|]. split; [simpl; rewrite Hcall, Hx; congruence|].
    split; simpl; congruence.
Qed.

(** An entry stands for a recorded operation or for a call that has not returned. *)
Definition kissued (s : ksys) (L : list lin_entry) : Prop :=
  forall e, e ∈ L ->
    (exists o, o ∈ ks_log s /\ ~ nokey_put o /\ is_op o e) \/
    (exists p, ks_pend s !! le_client e = Some p /\ le_call e = pd_call (kc_pend p) /\
       le_in e = req_input (pd_req (kc_pend p))).

Lemma sim_issued K d s m ts L :
  sim K d s m ts -> only_issued m L -> kissued s (retime_entry (retime ts (ks_now s)) <$> L).
Proof.
  intros [_ _ _ Ha] Hi e' (e & -> & He)%list_elem_of_fmap.
  assert (Hx : forall t x, ts !! t = Some x -> retime ts (ks_now s) t = x)
    by (intros t x Et; unfold retime; by rewrite Et).
  destruct (Hi e He) as [(o' & Ho' & Hn & E1 & E2 & E3 & E4)|(p' & Hp' & E2 & E3)].
  - destruct (ab_back _ _ _ _ _ _ _ Ha o' Ho') as
      [(o & Ho & C1 & C2 & C3 & t & x & ret & y & C4 & C5 & C6 & _)|(p & out & Hp & _ & C1 & C2 & C3 & t & ret & y & C4 & C5 & _)].
    + left. exists o. split; [done|]. split; [unfold nokey_put in *; by rewrite <- C2, <- C3|].
      split; [simpl; congruence|]. assert (Hcall : le_call e = t) by lia.
      split; [simpl; by rewrite Hcall, (Hx t x)|split; simpl; congruence].
    + right. exists p. simpl. split; [by rewrite E1|]. split; [|congruence]. apply Hx.
      assert (le_call e = t) as -> by lia. done.
  - right. destruct (ks_pend s !! le_client e) as [p|] eqn:Hp; [|by rewrite (ab_none _ _ _ _ _ _ _ Ha _ Hp) in Hp'].
    exists p. simpl. split; [done|].
    assert (exists f, waiting m ts (le_client e) (kc_pend p) f) as (f & t & Ht & Hm).
    { pose proof (ab_pend _ _ _ _ _ _ _ Ha _ p Hp) as Hs. unfold pend_sim in Hs. destruct (kc_call p ≫= _); [|by eexists].
      destruct (match kc_call p with Some i => d i | None => false end); [destruct Hs as [Hs _]; congruence|].
      destruct Hs as (f & _ & Hw). by exists f. }
    rewrite Hp' in Hm. injection Hm as ->. simpl in *. split; [|done]. apply Hx. by rewrite E2.
Qed.

(** What has been recorded linearizes as what the abstract system has recorded. *)
Lemma sim_linearizes K d s m ts ls :
  sim K d s m ts -> Z.of_nat (length ls) <= uint64_max -> sys_run sys_init ls = Some m ->
  exists L, linearizes L (filter (fun o => ~ nokey_put o) (ks_log s)) /\ kissued s L.
Proof.
  intros Hsim Hb Hm. destruct (run_linearizes ls m Hb Hm) as (L & HL & Hi). pose proof (sm_abs _ _ _ _ _ Hsim) as Ha.
  exists (retime_entry (retime ts (ks_now s)) <$> L). split; [|by eapply sim_issued].
  eapply retime_linearizes; [apply Ha|exact HL|].
  intros o [Hn Ho]%list_elem_of_filter. destruct (ab_log _ _ _ _ _ _ _ Ha o Ho) as (o' & Ho' & Hs). exists o'.
  split; [|done]. apply list_elem_of_filter. split; [|done]. destruct Hs as (_ & C2 & C3 & _).
  unfold nokey_put in *. by rewrite C2, C3.
Qed.

Lemma run_issued ls s :
  Z.of_nat (length ls) <= uint64_max -> krun kinit ls = Ret s -> calm kinit ls = true ->
  exists L, linearizes L (filter (fun o => ~ nokey_put o) (ks_log s)) /\ kissued s L.
Proof.
  intros Hb Hr Hc.
  destruct (sim_run (oracle (ks_net s)) ls kinit sys_init [] s) as (ls' & m & ts & Hlen & Hm & Hsim);
    [apply sim_init|done|done|apply oracle_agrees|].
  eapply sim_linearizes; [done| |done]. lia.
Qed.
End Simulation.
End KvNet.

(** C1: linearizability over the simulated network.  Any number of clerks call the one
    server through [ClientEnd.Call] on any ends; the network loses requests and replies,
    delays and reorders them and is reconfigured and cleaned up at any moment; handlers
    run when they are scheduled and their replies arrive when they do.  If in no step the
    network gives up a request whose handler has still to run, then the history that has
    been recorded, without the Puts answered [ErrNoKey], is linearizable, in an order that
    holds nothing but recorded operations and calls that have not returned.  (The run
    refines one of [KvModel.sys], each call an atomic attempt at the moment its handler
    runs, or at its end when the handler never does.) *)
Theorem network_history_linearizable `{KvRoundtrip} ls s :
  Z.of_nat (length ls) <= uint64_max -> krun kinit ls = Ret s -> calm kinit ls = true ->
  exists L, linearizes L (filter (fun o => ~ nokey_put o) (ks_log s)) /\ kissued s L.
Proof. apply run_issued. Qed.

(** ** Histories without overlap *)

(** In a history in which every operation returns before the next is called, there is
    only one order. *)
Lemma sequential_linearization L H :
  linearization L H ->
  (forall i j o o', H !! i = Some o -> H !! j = Some o' -> (i < j)%nat -> Operation_Return o < Operation_Call o') ->
  le_io <$> L = (fun o => (Operation_Input o, Operation_Output o)) <$> H.
Proof.
  intros [[_ Hs Hu Hc] Hex] Hseq. set (R := fun e1 e2 => (le_time e1 < le_time e2)%nat) in *.
  assert (exists L2, Forall2 (fun o e => e ∈ L /\ is_op o e /\
    Operation_Call o <= Z.of_nat (le_time e) <= Operation_Return o) H L2) as [L2 HL2].
  { clear Hseq Hex. induction H as [|o H IH]; [by exists []|].
    destruct IH as [L2 H2]; [intros o' Ho'; apply Hc; by right|].
    destruct (Hc o) as (e & He & Hop & Ht); [by left|]. exists (e :: L2). by constructor. }
  assert (Hs2 : StronglySorted R L2).
  { clear Hc Hex. revert Hseq. induction HL2 as [|o e H L3 (_ & _ & Ht) HF IH]; intros Hseq; [constructor|].
    constructor.
    - apply IH. intros i j o1 o2 Hi Hj Hlt. apply (Hseq (S i) (S j)); [done|done|lia].
    - apply Forall_lookup. intros j e' He'. destruct (Forall2_lookup_r _ _ _ _ _ HF He') as (o' & Ho' & _ & _ & Ht').
      specialize (Hseq 0%nat (S j) o o' eq_refl Ho' ltac:(lia)). unfold R. lia. }
  assert (Hmem : forall e, e ∈ L <-> e ∈ L2).
  { intros e. split.
    - intros He. destruct (Hex e He) as (o & [i Hi]%list_elem_of_lookup & A1 & A2 & _).
      destruct (Forall2_lookup_l _ _ _ _ _ HL2 Hi) as (e2 & He2 & Hin & (B1 & B2 & _) & _).
      assert (He' : e = e2); [|subst e2; by eapply list_elem_of_lookup_2].
      apply list_elem_of_lookup in He as [a Ha]. apply list_elem_of_lookup in Hin as [b Hb].
      assert (a = b); [|by subst b; simplify_eq]. eapply NoDup_lookup; [exact Hu|..].
      + by rewrite list_lookup_fmap, Ha.
      + rewrite list_lookup_fmap, Hb. simpl. f_equal. f_equal; [congruence|lia].
    - intros [i Hi]%list_elem_of_lookup. by destruct (Forall2_lookup_r _ _ _ _ _ HL2 Hi) as (o & _ & He & _). }
  assert (Hnd : forall l, StronglySorted R l -> NoDup l).
  { induction 1 as [|e l Hl IH He]; constructor; [|done]. intros Hin.
    rewrite Forall_forall in He. specialize (He e Hin). unfold R in He. lia. }
  assert (HA : AntiSymm (=) R) by (intros e1 e2; unfold R; lia).
  assert (L = L2) as ->.
  { apply (StronglySorted_unique R); [done|done|]. apply NoDup_Permutation; [by apply Hnd|by apply Hnd|done]. }
  clear -HL2. induction HL2 as [|o e H L3 (_ & (_ & _ & E3 & E4) & _) HF IH]; [done|].
  rewrite !fmap_cons, IH. unfold le_io. by rewrite E3, E4.
Qed.

(** ** Concrete runs *)

(** A codec: the number that stdpp gives to a value, bit by bit. *)
Module KvNetDemo.
Fixpoint bits (p : positive) : list Byte.byte :=
  match p with xH => [] | xO p => Byte.x00 :: bits p | xI p => Byte.x01 :: bits p end.
Fixpoint unbits (bs : list Byte.byte) : positive :=
  match bs with [] => xH | Byte.x00 :: bs => xO (unbits bs) | _ :: bs => xI (unbits bs) end.

Lemma unbits_bits p : unbits (bits p) = p.
Proof. induction p as [p IH|p IH|]; simpl; by rewrite ?IH. Qed.

Definition enc {A} `{Countable A} (x : A) : list Byte.byte := bits (countable.encode x).
Definition dec {A} `{Countable A} (bs : list Byte.byte) : option A := countable.decode (unbits bs).

Lemma dec_of_enc {A} `{Countable A} (x : A) : dec (enc x) = Some x.
Proof. unfold dec, enc. by rewrite unbits_bits, decode_encode. Qed.

#[global] Instance codec : KvCodec := {|
  encode_get a := enc (GetArgs_Key a);
  encode_put a := enc (PutArgs_Key a, PutArgs_Value a, PutArgs_Version a);
  decode_get bs := mkGetArgs (default "" (dec bs));
  decode_put bs := match dec bs with Some (k, v, ver) => mkPutArgs k v ver | None => mkPutArgs "" "" 0 end;
  encode_getr r := enc (GetReply_Value r, GetReply_Version r, GetReply_Err r);
  encode_putr r := enc (PutReply_Err r);
  decode_getr bs := (fun '(v, ver, e) => mkGetReply v ver e) <$> (dec bs : option (string * Z * string));
  decode_putr bs := mkPutReply <$> (dec bs : option string)
|}.

#[global] Instance codec_roundtrip : KvRoundtrip.
Proof.
  split; [intros [k]|intros [k v ver]|intros [v ver e]|intros [e]]; cbn -[dec enc]; by rewrite dec_of_enc.
Qed.

Definition config (op : config_op) : klabel := KNet (CNet (LConfig op)).
Definition client (e : string) : list klabel :=
  [config (OMakeEnd e); config (OConnect e "server-0-0"); config (OEnable e true)].
Definition setup : list klabel := config (OAddServer "server-0-0" 0) :: client "e0" ++ client "e1".

(** Clerk [c] calls on end [e]; its call and its request are number [i]. *)
Definition send (c : nat) (e : string) (i : nat) : list klabel :=
  [KCall c e; KNet (CTake i); KNet (CNet (LRead i 500))].
Definition receive (c : nat) (i : nat) (rand : Z) : list klabel :=
  [KNet (CNet (LFinish i rand 0)); KNet (CRecv i); KReturn c].
Definition attempt (c : nat) (e : string) (i : nat) (rand : Z) : list klabel :=
  send c e i ++ KNet (CNet (LDispatch i)) :: receive c i rand.

(** Clerk 0's Put is executed, its reply is on the way while clerk 1 reads the value, and
    dropped; the retry answers [ErrMaybe]. *)
Definition lossy : list klabel :=
  setup ++ config (OReliable false) :: KInvoke 0 (RPut (mkPutArgs "x" "a" 0)) :: send 0 "e0" 0 ++
  KNet (CNet (LDispatch 0)) :: KInvoke 1 (RGet "x") :: attempt 1 "e1" 1 500 ++
  receive 0 0 50 ++ attempt 0 "e0" 2 500.

(** Clerk 0 puts with a version that is not there yet; the network gives the request up
    because the client is cut off for a moment, and the handler runs late. *)
Definition late : list klabel :=
  setup ++ KInvoke 1 (RPut (mkPutArgs "x" "v0" 0)) :: attempt 1 "e1" 0 500 ++
  KInvoke 0 (RPut (mkPutArgs "x" "late" 2)) :: send 0 "e0" 1 ++
  [config (OEnable "e0" false); KNet (CNet (LPoll 1)); KNet (CRecv 1); KReturn 0; config (OEnable "e0" true)] ++
  attempt 0 "e0" 2 500 ++
  KInvoke 1 (RPut (mkPutArgs "x" "v1" 1)) :: attempt 1 "e1" 3 500 ++
  KNet (CNet (LDispatch 1)) :: KInvoke 1 (RGet "x") :: attempt 1 "e1" 4 500.

Definition outputs (s : ksys) : list (nat * KvOutput) :=
  (fun o => (Operation_ClientId o, Operation_Output o)) <$> ks_log s.
Definition log_of (o : outcome ksys) : list Operation := match o with Ret s => ks_log s | _ => [] end.

Definition put_op (c : nat) (v : string) (ver call : Z) (err : Err) (ret : Z) : Operation :=
  mkOperation c (mkKvInput 1 "x" v ver) call (mkKvOutput "" 0 err) ret.
Definition late_log : list Operation :=
  [put_op 1 "v0" 0 7 OK 14; put_op 0 "late" 2 15 ErrMaybe 30; put_op 1 "v1" 1 31 OK 38;
   mkOperation 1 (mkKvInput 0 "x" "" 0) 40 (mkKvOutput "late" 3 OK) 47].

Lemma late_log_rejected : ~ exists L, linearization L late_log.
Proof.
  intros [L HL]. pose proof (sequential_linearization L late_log HL) as Hio.
  assert (Hseq : forall i j o o', late_log !! i = Some o -> late_log !! j = Some o' -> (i < j)%nat ->
    Operation_Return o < Operation_Call o').
  { intros [|[|[|[|i]]]] [|[|[|[|j]]]] o o' Hi Hj Hlt; simpl in *; simplify_eq/=; lia. }
  specialize (Hio Hseq). destruct HL as [[Hl _ _ _] _]. destruct (Hl "x") as [st Hst].
  assert (Hon : le_io <$> on_key "x" L = filter (fun io => KvInput_Key io.1 = "x") (le_io <$> L)).
  { unfold on_key. clear. induction L as [|e L IH]; [done|]. rewrite fmap_cons, !filter_cons. simpl.
    case_decide; [rewrite fmap_cons|]; by rewrite IH. }
  rewrite Hon, Hio in Hst. vm_compute in Hst. discriminate Hst.
Qed.
End KvNetDemo.

(** C16: why requests must not be given up.  A clerk puts with version 2 where the version
    is 1; its client is disconnected while the handler is pending and the wait loop of
    [processReq] gives the request up; the clerk is connected again, retries and returns
    [ErrMaybe]; another clerk's Put brings the version to 2; now the first handler runs
    and its Put takes effect, after it has returned.  All clerks have returned, no Put was
    answered [ErrNoKey], and the recorded history is not linearizable. *)
Theorem late_put_not_linearizable :
  exists s, krun kinit KvNetDemo.late = Ret s /\ calm kinit KvNetDemo.late = false /\
    ks_pend s = ∅ /\ Forall (fun o => ~ nokey_put o) (ks_log s) /\
    ~ exists L, linearization L (ks_log s).
Proof.
  assert (Hr : match krun kinit KvNetDemo.late with
    | Ret s => ks_log s = KvNetDemo.late_log /\ ks_pend s = ∅ | _ => False end)
    by (vm_compute; split; reflexivity).
  destruct (krun kinit KvNetDemo.late) as [s| |]; [|by destruct Hr..]. destruct Hr as [Hl Hp].
  exists s. split; [done|]. split; [vm_compute; reflexivity|]. split; [done|]. rewrite Hl.
  split; [|apply KvNetDemo.late_log_rejected].
  repeat constructor; intros [? Hn]; by vm_compute in Hn.
Qed.

Lemma network_history_linearizable_witness :
  exists s L, krun kinit KvNetDemo.lossy = Ret s /\
    KvNetDemo.outputs s = [(1%nat, mkKvOutput "a" 1 OK); (0%nat, mkKvOutput "" 0 ErrMaybe)] /\
    linearizes L (filter (fun o => ~ nokey_put o) (ks_log s)).
Proof.
  assert (Hr : match krun kinit KvNetDemo.lossy with
    | Ret s => KvNetDemo.outputs s = [(1%nat, mkKvOutput "a" 1 OK); (0%nat, mkKvOutput "" 0 ErrMaybe)]
    | _ => False end) by (vm_compute; reflexivity).
  destruct (krun kinit KvNetDemo.lossy) as [s| |] eqn:E; [|destruct Hr..].
  destruct (network_history_linearizable KvNetDemo.lossy s) as (L & HL & _).
  - vm_compute. discriminate.
  - exact E.
  - vm_compute. reflexivity.
  - exists s, L. split; [reflexivity|]. split; [exact Hr|exact HL].
Defined.
