(* ===== verification/KvLate.v ===== *)
(** What the clerks can rely on whatever the network does: every run of the system of
    [KvNet.v], given up requests included, is one of a system in which the handler of a
    request that its clerk has abandoned may run at any later time.  On top of it, client
    programs of the tests that use the clerks over the network. *)
From S2P Require Import Prelude.
From S2P Require Import Labrpc.
From S2P Require Import LabrpcCall.
From S2P Require Import KvSrv.
From S2P Require Import KvModel.
From S2P Require Import KvNet.

(** ** Attempts that come late *)

(** An operation in progress; the reply of the handler that ran for the [Call] under way. *)
Record lpend := mkLpend {
  lp_req : request; lp_first : bool; lp_reply : option (GetReply + PutReply) }.

(** [lt_old] has the requests whose [Call] has returned and whose handler may still run.
    A request stays there; that its handler runs at most once is [Call_at_most_once]. *)
Record late := mkLate {
  lt_srv : KVServer; lt_pend : gmap nat lpend; lt_old : list request }.

Inductive event := Silent | Invoked (c : nat) (r : request) | Answered (c : nat) (out : KvOutput).

Inductive late_step (s : late) : event -> late -> Prop :=
| late_invoke c r :
    lt_pend s !! c = None ->
    late_step s (Invoked c r) (mkLate (lt_srv s) (<[c := mkLpend r true None]> (lt_pend s)) (lt_old s))
| late_execute c r f kv v :
    lt_pend s !! c = Some (mkLpend r f None) -> handle (lt_srv s) r = (kv, v) ->
    late_step s Silent (mkLate kv (<[c := mkLpend r f (Some v)]> (lt_pend s)) (lt_old s))
| late_abandon c r f rep f' :
    lt_pend s !! c = Some (mkLpend r f rep) -> clerk_iter r f None = inr f' ->
    late_step s Silent (mkLate (lt_srv s) (<[c := mkLpend r f' None]> (lt_pend s))
                          (match rep with None => r :: lt_old s | Some _ => lt_old s end))
| late_stale r kv v :
    r ∈ lt_old s -> handle (lt_srv s) r = (kv, v) -> late_step s Silent (mkLate kv (lt_pend s) (lt_old s))
| late_answer c r f v out :
    lt_pend s !! c = Some (mkLpend r f (Some v)) -> clerk_iter r f (Some v) = inl out ->
    late_step s (Answered c out) (mkLate (lt_srv s) (delete c (lt_pend s)) (lt_old s)).

Definition late_on (kv : KVServer) : late := mkLate kv ∅ [].
Definition late_init : late := late_on MakeKVServer.

(** ** The network refines it *)

Section Late.
Context `{Laws : KvRoundtrip}.

(** What happens at a step of the network, for the tests: a call, an answer, or nothing. *)
Definition kevent (l : klabel) (s' : ksys) : event :=
  match l with
  | KInvoke c r => Invoked c r
  | KReturn c =>
      match ks_pend s' !! c, last (ks_log s') with
      | None, Some o => Answered c (Operation_Output o)
      | _, _ => Silent
      end
  | _ => Silent
  end.

(** The reply of the handler that ran for the call under way, decoded. *)
Definition reply_of (h : nat -> option replyMsg) (p : kcall) : option (GetReply + PutReply) :=
  i ← kc_call p; rep ← h i; decode_reply (pd_req (kc_pend p)) (rm_reply rep).

Definition lpend_of (h : nat -> option replyMsg) (p : kcall) : lpend :=
  mkLpend (pd_req (kc_pend p)) (pd_first (kc_pend p)) (reply_of h p).

(** The clerk's request, by the number of its call. *)
Definition is_request (ca : call (list Byte.byte)) (r : request) : Prop :=
  exists e, ca_req ca = mkReqMsg e (svcMeth r) (encode_args r).

Definition under_way (P : gmap nat kcall) (i : nat) : Prop :=
  map_Exists (fun _ p => kc_call p = Some i) P.

(** Every reply decodes, and a call that is not under way and has not been handled is old. *)
Record refines (s : ksys) (a : late) : Prop := {
  rf_net : net_ok False (ks_net s);
  rf_links : links (ks_net s) (ks_pend s);
  rf_world : sy_world (cs_sys (ks_net s)) = lt_srv a;
  rf_pend c : lt_pend a !! c = lpend_of (handled (ks_net s)) <$> ks_pend s !! c;
  rf_reply c p i rep : ks_pend s !! c = Some p -> kc_call p = Some i -> handled (ks_net s) i = Some rep ->
    is_Some (decode_reply (pd_req (kc_pend p)) (rm_reply rep));
  rf_old i ca : cs_calls (ks_net s) !! i = Some ca -> handled (ks_net s) i = None ->
    ~ under_way (ks_pend s) i -> exists r, is_request ca r /\ r ∈ lt_old a
}.

Lemma refines_init kv : refines (kinit_on kv) (late_on kv).
Proof. by split; [apply net_ok_init|apply links_init|..]. Qed.

Lemma lpend_of_ext (h h' : nat -> option replyMsg) p :
  (forall i, kc_call p = Some i -> h' i = h i) -> lpend_of h' p = lpend_of h p.
Proof.
  intros Hh. unfold lpend_of, reply_of. destruct (kc_call p) as [i|]; [|done]. simpl. by rewrite Hh.
Qed.

Lemma handled_fresh (n : net) i : (length (cs_calls n) <= i)%nat -> handled n i = None.
Proof. intros Hi. unfold handled. by rewrite (proj2 (lookup_ge_None _ _) Hi). Qed.

Lemma refines_invoke s a c r s' :
  refines s a -> kstep s (KInvoke c r) = Some (Ret s') ->
  exists a', late_step a (Invoked c r) a' /\ refines s' a'.
Proof.
  intros [H1 H2 H3 H4 H5 H6] Hs. simpl in Hs. destruct (ks_pend s !! c) eqn:Hp; [done|]. injection Hs as <-.
  eexists. split; [apply late_invoke; by rewrite H4, Hp|]. split; simpl; [done| |done|..].
  - apply (links_idle _ _ c (Some (mkKcall (mkPend r (ks_now s) true) None))); [done|by intros p i ca; rewrite Hp|].
    by intros p [= <-].
  - intros c'. destruct (decide (c = c')) as [<-|Hne]; [by rewrite !lookup_insert_eq|by rewrite !lookup_insert_ne].
  - intros c' p i rep [[<- <-]|[_ Hp']]%lookup_insert_Some; [done|by eapply H5].
  - intros i ca Hi Hh Hn. apply (H6 i ca Hi Hh). intros (c' & p & Hp' & Hc). apply Hn.
    exists c', p. rewrite lookup_insert_ne; [done|]. intros <-. congruence.
Qed.

(** A clerk starts a call: nothing changes. *)
Lemma refines_call s a c e s' :
  refines s a -> kstep s (KCall c e) = Some (Ret s') -> refines s' a.
Proof.
  intros [H1 H2 H3 H4 H5 H6] Hs. simpl in Hs. destruct (ks_pend s !! c) as [p|] eqn:Hp; [|done]. simpl in Hs.
  destruct (kc_call p) eqn:Hc; [done|]. injection Hs as <-.
  destruct (net_ok_new False (ks_net s) e (pd_req (kc_pend p)) H1) as (_ & Hn' & Hh).
  split; simpl; [done|by apply links_new|done|..].
  - intros c'. destruct (decide (c = c')) as [<-|Hne].
    + rewrite lookup_insert_eq, H4, Hp. simpl. f_equal. unfold lpend_of, reply_of. simpl.
      by rewrite Hc, Hh, handled_fresh.
    + rewrite lookup_insert_ne, H4 by done. destruct (ks_pend s !! c') as [p'|]; [|done]. simpl. f_equal.
      symmetry. by apply lpend_of_ext.
  - intros c' p' i rep [[<- <-]|[_ Hp']]%lookup_insert_Some; simpl; rewrite Hh.
    + intros [= <-]. by rewrite handled_fresh.
    + intros Hi. by eapply H5.
  - intros i ca [Hi|[Hge Hi]]%lookup_app_Some; rewrite Hh; intros Hhi Hn.
    + apply (H6 i ca Hi Hhi). intros (c' & p' & Hp' & Hc'). apply Hn. exists c', p'. rewrite lookup_insert_ne; [done|]. intros <-. congruence.
    + destruct Hn. apply list_lookup_singleton_Some in Hi as [Hi _]. eexists c, _.
      rewrite lookup_insert_eq. split; [done|]. simpl. f_equal. lia.
Qed.

(** What is left of [refines] when the clerk's [Call] has returned. *)
Lemma refines_clerk s a c p i ca v log now q q' old :
  refines s a -> ks_pend s !! c = Some p -> kc_call p = Some i -> cs_calls (ks_net s) !! i = Some ca ->
  is_Some (returned ca) -> (forall p', v = Some p' -> kc_call p' = None) ->
  q = lpend_of (handled (ks_net s)) <$> v -> q' = partial_alter (fun _ => q) c (lt_pend a) ->
  (forall r, r ∈ lt_old a -> r ∈ old) ->
  (handled (ks_net s) i = None -> pd_req (kc_pend p) ∈ old) ->
  refines (mkKsys (ks_net s) now (partial_alter (fun _ => v) c (ks_pend s)) log)
          (mkLate (lt_srv a) q' old).
Proof.
  intros [H1 H2 H3 H4 H5 H6] Hp Hc Hi [x Hx] Hv -> -> Ho Hold. split; simpl; [done| |done|..].
  - apply links_idle; [done| |done]. intros p' i' ca' Hp' Hi' Hca'. simplify_eq. congruence.
  - intros c'. destruct (decide (c = c')) as [<-|Hne]; [by rewrite !lookup_partial_alter_eq|].
    by rewrite !lookup_partial_alter_ne.
  - intros c' p' i' rep. destruct (decide (c = c')) as [<-|Hne].
    + rewrite lookup_partial_alter_eq. intros Hp' Hi'. specialize (Hv p' Hp'). congruence.
    + rewrite lookup_partial_alter_ne by done. apply H5.
  - intros j cj Hj Hh Hn. destruct (decide (j = i)) as [->|Hne].
    + destruct (lk_msg _ _ H2 c p i ca Hp Hc Hi) as [e He]. simplify_eq.
      exists (pd_req (kc_pend p)). split; [by exists e|by apply Hold].
    + destruct (H6 j cj Hj Hh) as (r & Hr & Hin); [|by eauto]. intros (c' & p' & Hp' & Hc'). apply Hn. exists c', p'. rewrite lookup_partial_alter_ne; [done|]. intros <-. congruence.
Qed.
Lemma clerk_iter_some r first bs v :
  decode_reply r bs = Some v -> exists out, clerk_iter r first (Some v) = inl out.
Proof.
  destruct r as [k|a]; simpl; intros (x & Hx & ->)%fmap_Some; simpl; [by eexists|].
  unfold Clerk_Put_iter. case_bool_decide; [destruct first|]; by eexists.
Qed.

Lemma refines_return s a c s' :
  refines s a -> kstep s (KReturn c) = Some (Ret s') ->
  exists a', late_step a (kevent (KReturn c) s') a' /\ refines s' a'.
Proof.
  intros Hr Hs. pose proof Hr as [H1 H2 H3 H4 H5 H6]. simpl in Hs.
  destruct (ks_pend s !! c) as [p|] eqn:Hp; [|done]. simpl in Hs.
  destruct (kc_call p) as [i|] eqn:Hc; [|done]. simpl in Hs.
  destruct (cs_calls (ks_net s) !! i) as [ca|] eqn:Hca; [|done]. simpl in Hs.
  pose proof (H4 c) as Hpa. rewrite Hp in Hpa. simpl in Hpa. unfold lpend_of in Hpa.
  destruct (ca_stage ca) as [| |k [bs|]] eqn:Est; try done.
  - destruct (decode_reply _ bs) as [v|] eqn:Hdec; [|done]. injection Hs as <-.
    pose proof (ci_call _ _ (no_cinv _ _ H1) i ca Hca) as Hok. unfold call_ok in Hok. rewrite Est in Hok. simpl in Hok.
    destruct k as [k|]; [|by destruct (Hok bs)]. destruct Hok as (q & Hq & _ & Hv).
    destruct (Hv bs eq_refl) as (rep & Hrep & Hbs). injection Hbs as <-.
    assert (Hh : handled (ks_net s) i = Some rep).
    { unfold handled. rewrite Hca. simpl. rewrite Est. simpl. rewrite Hq. simpl. unfold handler_reply. by rewrite Hrep. }
    assert (reply_of (handled (ks_net s)) p = Some v) as Hre by (unfold reply_of; rewrite Hc; simpl; by rewrite Hh).
    rewrite Hre in Hpa. destruct (clerk_iter_some (pd_req (kc_pend p)) (pd_first (kc_pend p)) _ _ Hdec) as [out Hout].
    rewrite Hout. simpl. rewrite lookup_delete_eq, last_snoc. simpl. eexists. split; [by eapply late_answer|].
    eapply (refines_clerk s a c p i ca None); try done; [unfold returned; by rewrite Est|]. congruence.
  - injection Hs as <-. destruct (clerk_iter_none (pd_req (kc_pend p)) (pd_first (kc_pend p))) as [f Hf]. rewrite Hf.
    simpl. rewrite lookup_insert_eq. eexists. split; [by eapply late_abandon|].
    eapply (refines_clerk s a c p i ca (Some (mkKcall (mkPend (pd_req (kc_pend p)) (pd_call (kc_pend p)) f) None)));
      try done; [unfold returned; by rewrite Est|by intros p' [= <-]|..].
    + intros r Hin. case_match; [done|by right].
    + intros Hh. assert (reply_of (handled (ks_net s)) p = None) as -> by (unfold reply_of; rewrite Hc; simpl; by rewrite Hh).
      by left.
Qed.

(** The handler of a call that is under way. *)
Lemma refines_execute s a c p i n' kv v :
  refines s a -> net_ok False n' -> calls_keep (ks_net s) n' -> cs_calls n' = cs_calls (ks_net s) ->
  ks_pend s !! c = Some p -> kc_call p = Some i ->
  (forall j, j <> i -> handled n' j = handled (ks_net s) j) ->
  handled (ks_net s) i = None -> reply_of (handled n') p = Some v ->
  handle (lt_srv a) (pd_req (kc_pend p)) = (kv, v) -> sy_world (cs_sys n') = kv ->
  exists a', late_step a Silent a' /\ refines (mkKsys n' (S (ks_now s)) (ks_pend s) (ks_log s)) a'.
Proof.
  intros [H1 H2 H3 H4 H5 H6] Hn' Hk Hcalls Hp Hc Ho Hh Hre Hv Hw.
  assert (Hother : forall c2 p2 j, c2 <> c -> ks_pend s !! c2 = Some p2 -> kc_call p2 = Some j ->
    handled n' j = handled (ks_net s) j).
  { intros c2 p2 j Hne Hp2 Hj. apply Ho. intros ->. by apply Hne, (lk_inj _ _ H2 c2 c p2 p i). }
  eexists. split.
  - apply (late_execute a c (pd_req (kc_pend p)) (pd_first (kc_pend p)) kv v); [|done].
    rewrite H4, Hp. simpl. unfold lpend_of, reply_of. rewrite Hc. simpl. by rewrite Hh.
  - split; simpl; [done|by eapply links_keep|done|..].
    + intros c'. destruct (decide (c = c')) as [<-|Hne].
      * rewrite lookup_insert_eq, Hp. simpl. unfold lpend_of. by rewrite Hre.
      * rewrite lookup_insert_ne, H4 by done. destruct (ks_pend s !! c') as [p'|] eqn:Hp'; [|done]. simpl. f_equal.
        symmetry. apply lpend_of_ext. intros j Hj. by eapply Hother.
    + intros c' p' j rep Hp' Hj Hrep. destruct (decide (c' = c)) as [->|Hne].
      * rewrite Hp in Hp'. injection Hp' as <-. unfold reply_of in Hre. rewrite Hj in Hre. simpl in Hre.
        rewrite Hrep in Hre. by eexists.
      * rewrite (Hother c' p' j) in Hrep by done. by eapply H5.
    + intros j cj. rewrite Hcalls. intros Hcj Hhj Hn. destruct (decide (j = i)) as [->|Hne]; [destruct Hn; by exists c, p|].
      rewrite Ho in Hhj by done. by eapply H6.
Qed.

Lemma refines_net s a l n' :
  refines s a -> is_call l = false -> net_step (ks_net s) l = Some (Ret n') ->
  let s' := mkKsys n' (S (ks_now s)) (ks_pend s) (ks_log s) in
  exists a', (a' = a \/ late_step a Silent a') /\ refines s' a'.
Proof.
  intros Hr Hl Hs s'. pose proof Hr as [H1 H2 H3 H4 H5 H6].
  destruct (net_step_ok False (ks_net s) l n' H1 Hl Hs (fun F => False_ind _ F)) as (Hn' & Hk & Heff).
  destruct Heff as [Hw' Hh|k i ca q srv rs w r Hcalls Hi _ Ht Hq Hm Hd Hw' Hh Hh' Ho].
  - exists a. split; [by left|]. split; simpl; [done|by eapply links_keep|congruence|..].
    + intros c. rewrite H4. destruct (ks_pend s !! c); [|done]. simpl. f_equal. symmetry. by apply lpend_of_ext.
    + intros c p i rep Hp Hc. rewrite Hh. by eapply H5.
    + intros i ca' Hi. rewrite Hh. intros Hhi Hn. destruct Hk as [Hlen Hk].
      assert (i < length (cs_calls (ks_net s)))%nat as [ca Hca]%lookup_lt_is_Some_2
        by (rewrite <- Hlen; by eapply lookup_lt_Some).
      destruct (Hk i ca Hca) as (ca2 & Hca2 & Hreq & _). rewrite Hi in Hca2. injection Hca2 as <-.
      destruct (H6 i ca Hca Hhi Hn) as (r & [e He] & Hin). exists r. split; [|done].
      exists e. congruence.
  - destruct (decide (under_way (ks_pend s) i)) as [(c & p & Hp & Hc)|Hno].
    + destruct (lk_msg _ _ H2 c p i ca Hp Hc Hi) as [e He]. rewrite Hm, He in Hd.
      destruct (dispatch_request _ _ _ _ _ _ _ (no_services _ _ H1 srv) Hd) as (v & Hv & Hdec). rewrite H3 in Hv.
      destruct (refines_execute s a c p i n' w v) as (a' & Hst & Ha'); try done.
      * unfold reply_of. rewrite Hc. simpl. by rewrite Hh'.
      * exists a'. split; [by right|done].
    + destruct (H6 i ca Hi Hh Hno) as (r0 & [e He] & Hin). rewrite Hm, He in Hd.
      destruct (dispatch_request _ _ _ _ _ _ _ (no_services _ _ H1 srv) Hd) as (v & Hv & _). rewrite H3 in Hv.
      exists (mkLate w (lt_pend a) (lt_old a)). split; [right; by eapply late_stale|].
      assert (Ho' : forall c p j, ks_pend s !! c = Some p -> kc_call p = Some j -> handled n' j = handled (ks_net s) j).
      { intros c p j Hp Hj. apply Ho. intros ->. apply Hno. by exists c, p. }
      split; simpl; [done|by eapply links_keep|done|..].
      * intros c. rewrite H4. destruct (ks_pend s !! c) as [p|] eqn:Hp; [|done]. simpl. f_equal. symmetry.
        apply lpend_of_ext. intros j Hj. by eapply Ho'.
      * intros c p j rep Hp Hc. rewrite (Ho' c p j) by done. by eapply H5.
      * intros j cj. rewrite Hcalls. intros Hcj Hhj. destruct (decide (j = i)) as [->|Hne]; [congruence|].
        rewrite Ho in Hhj by done. by eapply H6.
Qed.

Lemma refines_step s a l s' :
  refines s a -> kstep s l = Some (Ret s') ->
  exists a', (a' = a /\ kevent l s' = Silent \/ late_step a (kevent l s') a') /\ refines s' a'.
Proof.
  intros Hr Hs. destruct l as [c r|c e|c|l].
  - destruct (refines_invoke _ _ _ _ _ Hr Hs) as (a' & Hst & Ha'). exists a'. split; [by right|done].
  - exists a. split; [by left|by eapply refines_call].
  - destruct (refines_return _ _ _ _ Hr Hs) as (a' & Hst & Ha'). exists a'. split; [by right|done].
  - simpl in Hs. destruct (is_call l) eqn:Hl; [done|].
    destruct (net_step (ks_net s) l) as [[n'| |]|] eqn:E; simpl in Hs; try done. injection Hs as <-.
    destruct (refines_net s a l n' Hr Hl E) as (a' & [->|Hst] & Ha').
    + exists a. split; [by left|done].
    + exists a'. split; [by right|done].
Qed.
(** The calls and answers of a run. *)
Fixpoint kevents (s : ksys) (ls : list klabel) : list event :=
  match ls with
  | [] => []
  | l :: ls' =>
      match kstep s l with
      | Some (Ret s') => kevent l s' :: kevents s' ls'
      | Some _ => []
      | None => kevents s ls'
      end
  end.

Definition visible (e : event) : bool := match e with Silent => false | _ => true end.

Inductive late_run : late -> list event -> late -> Prop :=
| late_nil s : late_run s [] s
| late_cons s e s1 es s2 : late_step s e s1 -> late_run s1 es s2 -> late_run s (e :: es) s2.

Lemma refines_run ls : forall s a s',
  refines s a -> krun s ls = Ret s' ->
  exists es a', late_run a es a' /\ filter visible es = filter visible (kevents s ls) /\
    (length es <= length ls)%nat /\ refines s' a'.
Proof.
  induction ls as [|l ls IH]; intros s a s' Hr Hrun; simpl in Hrun |- *.
  { injection Hrun as <-. exists [], a. split; [apply late_nil|done]. }
  destruct (kstep s l) as [o|] eqn:E.
  - apply outcome_bind_inv in Hrun as (s1 & -> & Hrun).
    destruct (refines_step s a l s1 Hr E) as (a1 & Hst & Hr1).
    destruct (IH s1 a1 s' Hr1 Hrun) as (es & a' & H1 & H2 & H3 & H4).
    destruct Hst as [[-> ->]|Hst].
    + exists es, a'. rewrite filter_cons_False by (by intros ?). do 2 (split; [done|]). split; [lia|done].
    + exists (kevent l s1 :: es), a'. split; [by econstructor|]. rewrite !filter_cons, H2. simpl.
      split; [done|]. split; [lia|done].
  - destruct (IH s a s' Hr Hrun) as (es & a' & H1 & H2 & H3 & H4). exists es, a'. do 2 (split; [done|]). split; [lia|done].
Qed.
End Late.

(** ** The clients of a test over the network *)

#[export] Instance PutArgs_eq_dec : EqDecision PutArgs.
Proof. solve_decision. Defined.
#[export] Instance request_eq_dec : EqDecision request.
Proof. solve_decision. Defined.

Section Clients.
Context `{Laws : KvRoundtrip} {P : Type}.
(** The program of a client: the call it waits for, what it does with the answer, and what
    it does at its [select], where [done] says that the stop signal is received and [rand] is
    the next random number. *)
Variable op : nat -> P -> option request.
Variable resume : nat -> P -> KvOutput -> P.
Variable select : P -> bool -> Z -> option P.

Record tsys := mkTsys { t_net : ksys; t_prog : nat -> P }.

Inductive tlabel :=
| TSelect (c : nat) (done : bool) (rand : Z)
| TNet (l : klabel).

(** A client calls what its program calls. *)
Definition calls_ok (prog : nat -> P) (e : event) : bool :=
  match e with Invoked c r => bool_decide (op c (prog c) = Some r) | _ => true end.

Definition after (prog : nat -> P) (e : event) : nat -> P :=
  match e with Answered c out => <[c := resume c (prog c) out]> prog | _ => prog end.

Definition tstep (s : tsys) (l : tlabel) : option (outcome tsys) :=
  match l with
  | TSelect c dn rand => p ← select (t_prog s c) dn rand; Some (Ret (mkTsys (t_net s) (<[c := p]> (t_prog s))))
  | TNet l =>
      if match l with KInvoke c r => calls_ok (t_prog s) (Invoked c r) | _ => true end then
        o ← kstep (t_net s) l;
        Some (n ← o; Ret (mkTsys n (after (t_prog s) (kevent l n))))
      else None
  end.

Fixpoint trun (s : tsys) (ls : list tlabel) : outcome tsys :=
  match ls with
  | [] => Ret s
  | l :: ls' => match tstep s l with Some o => s' ← o; trun s' ls' | None => trun s ls' end
  end.

Definition tinit (kv : KVServer) (prog : nat -> P) : tsys := mkTsys (kinit_on kv) prog.

(** The same clients with attempts that come late. *)
Inductive hstep : late * (nat -> P) -> late * (nat -> P) -> Prop :=
| h_select a prog c dn rand p : select (prog c) dn rand = Some p -> hstep (a, prog) (a, <[c := p]> prog)
| h_late a prog e a' : late_step a e a' -> calls_ok prog e = true -> hstep (a, prog) (a', after prog e).

Lemma tstep_refines s a l s' :
  refines (t_net s) a -> tstep s l = Some (Ret s') ->
  exists a', (hstep (a, t_prog s) (a', t_prog s') \/ a' = a /\ t_prog s' = t_prog s) /\ refines (t_net s') a'.
Proof.
  intros Hr Hs. destruct l as [c dn rand|l]; simpl in Hs.
  - destruct (select _ dn rand) as [p|] eqn:E; [|done]. injection Hs as <-. exists a. split; [left; by eapply h_select|done].
  - destruct (match l with KInvoke _ _ => _ | _ => true end) eqn:Hok; [|done].
    destruct (kstep (t_net s) l) as [o|] eqn:E; [|done]. simpl in Hs. injection Hs as Hs.
    apply outcome_bind_inv in Hs as (n & -> & [= <-]). simpl.
    destruct (refines_step _ _ _ _ Hr E) as (a' & Hst & Ha'). exists a'. split; [|done].
    destruct Hst as [[-> ->]|Hst]; [by right|]. left. apply h_late; [done|].
    destruct l; simpl in *; try done. by repeat case_match.
Qed.
End Clients.

(** C8: the network and attempts that come late.  Every run of the clerks over the network,
    whatever it loses, gives up and runs late, has the calls and answers of a run of the
    system [late]: there a call waits with its attempt under way, the handler of the attempt
    runs at some moment in between, the attempt is answered or abandoned, and the handler of
    an abandoned one may run at any moment after.  The stores agree at the end. *)
Theorem network_refines_late `{KvRoundtrip} ls s :
  krun kinit ls = Ret s ->
  exists es a, late_run late_init es a /\ filter visible es = filter visible (kevents kinit ls) /\
    (length es <= length ls)%nat /\ sy_world (cs_sys (ks_net s)) = lt_srv a.
Proof.
  intros Hr. destruct (refines_run ls kinit late_init s (refines_init _) Hr) as (es & a & H1 & H2 & H3 & H4).
  exists es, a. split; [done|]. split; [done|]. split; [done|]. apply H4.
Qed.

(** The run that is not linearizable has an answer [ErrMaybe] before its Put is executed. *)
Lemma network_refines_late_witness :
  exists es a, late_run late_init es a /\ length (filter visible es) = 8%nat /\
    KVServer_data (lt_srv a) !! "x" = Some (mkKeyValue "late" 3).
Proof.
  assert (Hr : match krun kinit KvNetDemo.late with
    | Ret s => KVServer_data (sy_world (cs_sys (ks_net s))) !! "x" = Some (mkKeyValue "late" 3) | _ => False end)
    by (vm_compute; reflexivity).
  destruct (krun kinit KvNetDemo.late) as [s| |] eqn:E; [|destruct Hr..].
  destruct (network_refines_late KvNetDemo.late s E) as (es & a & H1 & H2 & _ & H3).
  exists es, a. split; [exact H1|]. split; [rewrite H2; vm_compute; reflexivity|]. rewrite <- H3. exact Hr.
Defined.

(** ** Concrete runs of clients *)

Module KvLateDemo.
Import KvNetDemo.

(** Client [c] calls [r] on its end [e]; the call is number [i]. *)
Definition call (c : nat) (e : string) (r : request) (i : nat) : list tlabel :=
  TNet <$> KInvoke c r :: attempt c e i 500.

(** The first attempt, call [i], is given up while the client is cut off; the second one is
    answered, and then the handler of the first one runs. *)
Definition call_late (c : nat) (e : string) (r : request) (i : nat) : list tlabel :=
  TNet <$> KInvoke c r :: send c e i ++
    [config (OEnable e false); KNet (CNet (LPoll i)); KNet (CRecv i); KReturn c; config (OEnable e true)] ++
    attempt c e (S i) 500 ++ [KNet (CNet (LDispatch i))].
End KvLateDemo.
