(* ===== verification/KvRead.v ===== *)
(** Clients that put with versions they have read.  Such a Put finds the key changed when
    an earlier attempt of it runs late, so the histories of these clients are linearizable
    whatever the network gives up. *)
From S2P Require Import Prelude.
From S2P Require Import Labrpc.
From S2P Require Import LabrpcCall.
From S2P Require Import Annotation.
From S2P Require Import Porcupine.
From S2P Require Import KvSrv.
From S2P Require Import KvModel.
From S2P Require Import KvLin.
From S2P Require Import KvNet.
From S2P Require Import KvLate.
Open Scope Z_scope.

(** ** The store *)

Definition ver (kv : KVServer) (k : string) : Z := cur_version (kv_view kv k).
Definition val (kv : KVServer) (k : string) : string := cur_value (kv_view kv k).

(** A Put takes effect, or it leaves the store alone. *)
Lemma handle_put n kv x kv' v :
  0 <= n < uint64_max -> kv_wf n kv -> handle kv (RPut x) = (kv', v) ->
  let k := PutArgs_Key x in
  PutArgs_Version x = ver kv k /\ v = inr (mkPutReply OK) /\ ver kv' k = ver kv k + 1 /\
    val kv' k = PutArgs_Value x /\ (forall k', k' <> k -> ver kv' k' = ver kv k' /\ val kv' k' = val kv k') \/
  PutArgs_Version x <> ver kv k /\ kv' = kv /\
    (PutArgs_Version x < ver kv k -> 0 <= PutArgs_Version x -> v = inr (mkPutReply ErrVersion)).
Proof.
  intros Hn Hwf. unfold handle, ver, val. rewrite Put_cases. simpl. intros Heq.
  destruct (Z.eqb_spec (PutArgs_Version x) (cur_version (kv_view kv (PutArgs_Key x)))) as [He|Hne];
    injection Heq as <- <-; [left|right].
  - split; [done|]. split; [done|]. rewrite !kv_view_insert, decide_True by done. simpl.
    split; [|split; [done|intros k' Hk'; by rewrite kv_view_insert, decide_False]].
    unfold kv_view. destruct (KVServer_data kv !! PutArgs_Key x) as [d|] eqn:Hd; [|done]. simpl.
    specialize (Hwf _ _ Hd). simpl in Hwf. apply u64_id. lia.
  - split; [done|]. split; [done|]. intros Hlt Hge.
    destruct (kv_view kv (PutArgs_Key x)) as [[? ?]|]; [done|]. simpl in Hlt. lia.
Qed.

Lemma handle_wf n kv r kv' v :
  0 <= n < uint64_max -> kv_wf n kv -> handle kv r = (kv', v) -> kv_wf (n + 1) kv'.
Proof.
  intros Hn Hwf. destruct r as [k|x]; simpl; [intros [= <- <-]; eapply kv_wf_mono; [|done]; lia|].
  pose proof (kv_wf_put n kv x Hn Hwf) as Hp. destruct (KVServer_Put kv x). by intros [= <- <-].
Qed.

Lemma ver_range n kv k : 0 <= n -> kv_wf n kv -> 0 <= ver kv k <= n.
Proof.
  intros Hn Hwf. unfold ver, kv_view. destruct (KVServer_data kv !! k) as [d|] eqn:Hd; simpl; [|lia].
  specialize (Hwf _ _ Hd). simpl in Hwf. lia.
Qed.

Lemma handle_get kv k : exists e,
  handle kv (RGet k) = (kv, inl (mkGetReply (val kv k) (ver kv k) e)) /\ (1 <= ver kv k -> e = OK).
Proof.
  unfold handle, KVServer_Get, val, ver, kv_view. simpl.
  destruct (KVServer_data kv !! k) as [d|]; simpl; by eexists.
Qed.

(** The Put [x] takes effect. *)
Definition effect (kv kv' : KVServer) (x : PutArgs) : Prop :=
  let k := PutArgs_Key x in
  PutArgs_Version x = ver kv k /\ ver kv' k = ver kv k + 1 /\ val kv' k = PutArgs_Value x /\
  (forall k', k' <> k -> ver kv' k' = ver kv k' /\ val kv' k' = val kv k').

(** Versions do not go back, and a Put that presents no later one leaves a later one. *)
Lemma handle_ver n kv r kv' v k :
  0 <= n < uint64_max -> kv_wf n kv -> handle kv r = (kv', v) -> ver kv k <= ver kv' k.
Proof.
  intros Hn Hwf Hv. destruct r as [k'|x]; [simpl in Hv; injection Hv as <- _; lia|].
  destruct (handle_put n kv x kv' v Hn Hwf Hv) as [(_ & _ & He & _ & Ho)|(_ & -> & _)]; [|lia].
  destruct (decide (k = PutArgs_Key x)) as [->|Hne]; [lia|]. destruct (Ho k Hne). lia.
Qed.

Lemma handle_read n kv x kv' v :
  0 <= n < uint64_max -> kv_wf n kv -> handle kv (RPut x) = (kv', v) ->
  0 <= PutArgs_Version x <= ver kv (PutArgs_Key x) ->
  PutArgs_Version x < ver kv' (PutArgs_Key x) /\ (v = inr (mkPutReply OK) \/ v = inr (mkPutReply ErrVersion)).
Proof.
  intros Hn Hwf Hv Hx. destruct (handle_put n kv x kv' v Hn Hwf Hv) as [(He & -> & Hv' & _)|(Hne & -> & Hold)].
  - split; [lia|by left].
  - split; [lia|right]. apply Hold; lia.
Qed.

(** ** The discipline *)

(** The version of a Put is one that the key has had. *)
Definition reads_first (kv : KVServer) (r : request) : bool :=
  match r with
  | RGet _ => true
  | RPut x => (0 <=? PutArgs_Version x) && (PutArgs_Version x <=? ver kv (PutArgs_Key x))
  end.

(** Client [c] is at its Put [x] again; an earlier attempt may still be on its way. *)
Definition retried (P : gmap nat lpend) (c : nat) (x : PutArgs) : Prop :=
  P !! c = Some (mkLpend (RPut x) false None).

Record disc (n : Z) (a : late) : Prop := {
  dc_wf : kv_wf n (lt_srv a);
  dc_pend c x f rep : lt_pend a !! c = Some (mkLpend (RPut x) f rep) ->
    0 <= PutArgs_Version x <= ver (lt_srv a) (PutArgs_Key x) /\
    forall v, rep = Some v -> PutArgs_Version x < ver (lt_srv a) (PutArgs_Key x) /\
      (v = inr (mkPutReply OK) \/ v = inr (mkPutReply ErrVersion));
  dc_old x : RPut x ∈ lt_old a ->
    PutArgs_Version x <= ver (lt_srv a) (PutArgs_Key x) /\
    (PutArgs_Version x = ver (lt_srv a) (PutArgs_Key x) -> exists c, retried (lt_pend a) c x)
}.

Lemma disc_init n kv : kv_wf n kv -> disc n (late_on kv).
Proof. intros Hwf. split; simpl; [done|done|set_solver]. Qed.

(** The store moves on, and the entry of one client may change. *)
Lemma disc_move n a c q kv' P' old' :
  0 <= n -> disc n a -> kv_wf (n + 1) kv' -> (forall k, ver (lt_srv a) k <= ver kv' k) ->
  (forall x f rep, q = Some (mkLpend (RPut x) f rep) ->
     0 <= PutArgs_Version x <= ver kv' (PutArgs_Key x) /\
     forall v, rep = Some v -> PutArgs_Version x < ver kv' (PutArgs_Key x) /\
       (v = inr (mkPutReply OK) \/ v = inr (mkPutReply ErrVersion))) ->
  (forall y, retried (lt_pend a) c y -> PutArgs_Version y = ver kv' (PutArgs_Key y) ->
     q = Some (mkLpend (RPut y) false None)) ->
  (forall y, RPut y ∈ old' -> RPut y ∈ lt_old a \/ q = Some (mkLpend (RPut y) false None)) ->
  P' = partial_alter (fun _ => q) c (lt_pend a) -> disc (n + 1) (mkLate kv' P' old').
Proof.
  intros Hn [H1 H2 H3] Hwf Hmono Hq Hret Hold ->. split; simpl; [done|..].
  - intros d x f rep. destruct (decide (d = c)) as [->|Hne]; [rewrite lookup_partial_alter_eq; apply Hq|].
    rewrite lookup_partial_alter_ne by done. intros Hd. destruct (H2 d x f rep Hd) as [Hle Hr].
    specialize (Hmono (PutArgs_Key x)). split; [lia|]. intros v Hv. destruct (Hr v Hv). split; [lia|done].
  - intros y [Hin|Hin]%Hold.
    + destruct (H3 y Hin) as [Hle Hex]. specialize (Hmono (PutArgs_Key y)). split; [lia|]. intros Heq.
      destruct (Hex ltac:(lia)) as [d Hd]. exists d. unfold retried.
      destruct (decide (c = d)) as [<-|Hne]; [rewrite lookup_partial_alter_eq; by apply Hret|].
      by rewrite lookup_partial_alter_ne.
    + split; [by eapply Hq|]. intros _. exists c. unfold retried. by rewrite lookup_partial_alter_eq.
Qed.

Lemma disc_step n a e a' :
  0 <= n < uint64_max -> disc n a -> late_step a e a' ->
  (forall c r, e = Invoked c r -> reads_first (lt_srv a) r = true) -> disc (n + 1) a'.
Proof.
  intros Hn Hd Hst Hread. pose proof Hd as [H1 H2 H3].
  assert (Hwf : kv_wf (n + 1) (lt_srv a)) by (eapply kv_wf_mono; [|done]; lia).
  destruct Hst as [c r Hp|c r f kv v Hp Hv|c r f rep f' Hp Hf|r kv v Hin Hv|c r f v out Hp Hout].
  - apply (disc_move n a c (Some (mkLpend r true None))); try done; try lia; [|by intros y Hr; unfold retried in Hr; congruence|by left].
    intros x f rep [= -> <- <-]. specialize (Hread c _ eq_refl). simpl in Hread. split; [lia|done].
  - pose proof (fun k => handle_ver n _ _ _ _ k Hn H1 Hv) as Hmono.
    apply (disc_move n a c (Some (mkLpend r f (Some v)))); try done; try lia; [by eapply handle_wf| | |by left].
    + intros x f' rep [= -> <- <-]. destruct (H2 _ _ _ _ Hp) as [Hle _]. specialize (Hmono (PutArgs_Key x)).
      split; [lia|]. intros v' [= <-]. by eapply handle_read.
    + intros y Hr Heq. unfold retried in Hr. rewrite Hp in Hr. injection Hr as -> ->.
      destruct (H2 _ _ _ _ Hp) as [Hle _]. destruct (handle_read n _ y _ _ Hn H1 Hv Hle). lia.
  - apply (disc_move n a c (Some (mkLpend r f' None))); try done; try lia.
    + intros x g rep' [= -> <- <-]. by destruct (H2 _ _ _ _ Hp).
    + intros y Hr _. unfold retried in Hr. rewrite Hp in Hr. injection Hr as -> -> ->. simpl in Hf. by injection Hf as <-.
    + intros y Hy. destruct rep as [v|]; [by left|]. apply elem_of_cons in Hy as [<-|Hy]; [right|by left].
      simpl in Hf. by injection Hf as <-.
  - pose proof (fun k => handle_ver n _ _ _ _ k Hn H1 Hv) as Hmono. pose proof (handle_wf n _ _ _ _ Hn H1 Hv) as Hwf'.
    split; simpl; [done|..].
    + intros c x f rep Hc. destruct (H2 _ _ _ _ Hc) as [Hle Hr]. specialize (Hmono (PutArgs_Key x)).
      split; [lia|]. intros v' Hv'. destruct (Hr v' Hv'). split; [lia|done].
    + intros y Hy. destruct (H3 y Hy) as [Hle Hex]. specialize (Hmono (PutArgs_Key y)). split; [lia|].
      intros Heq. apply Hex. lia.
  - apply (disc_move n a c None); try done; try lia; [|by left].
    intros y Hr. unfold retried in Hr. congruence.
Qed.

(** ** The network refines atomic attempts, late ones included *)

(** Every Put that is called presents a version that its key has had. *)
Fixpoint reads `{KvCodec} (s : ksys) (ls : list klabel) : bool :=
  match ls with
  | [] => true
  | l :: ls' =>
      match l with KInvoke _ r => reads_first (sy_world (cs_sys (ks_net s))) r | _ => true end &&
      match kstep s l with Some (Ret s') => reads s' ls' | Some _ => true | None => reads s ls' end
  end.

Section Reads.
Context `{Laws : KvRoundtrip}.
Variable d : nat -> bool.

(** An old attempt is executed: nothing happens, or it stands for the one of the retry. *)
Lemma sim_stale n s m ts a n' i r w v :
  0 <= n < uint64_max -> sim False d s m ts -> refines s a -> disc n a -> net_ok False n' -> calls_keep (ks_net s) n' ->
  ~ under_way (ks_pend s) i -> r ∈ lt_old a -> handle (lt_srv a) r = (w, v) -> sy_world (cs_sys n') = w ->
  (forall j, j <> i -> handled n' j = handled (ks_net s) j) ->
  exists ls m' ts', (length ls <= 1)%nat /\ sys_run m ls = Some m' /\
    sim False d (mkKsys n' (S (ks_now s)) (ks_pend s) (ks_log s)) m' ts'.
Proof.
  intros Hn Hsim Hr Hd Hn' Hk Hno Hin Hv Hw Ho. pose proof Hsim as [Hnet Hl Hws Ha].
  assert (Ho' : forall c p j, ks_pend s !! c = Some p -> kc_call p = Some j -> handled n' j = handled (ks_net s) j).
  { intros c p j Hp Hj. apply Ho. intros ->. apply Hno. by exists c, p. }
  assert (Hidle : w = lt_srv a -> exists ls m' ts', (length ls <= 1)%nat /\ sys_run m ls = Some m' /\
    sim False d (mkKsys n' (S (ks_now s)) (ks_pend s) (ks_log s)) m' ts').
  { intros He. exists [], m, ts. split; [simpl; lia|]. split; [done|]. apply sim_idle; try done.
    rewrite Hw, He. symmetry. apply Hr. }
  destruct r as [k|x]; [simpl in Hv; injection Hv as <- _; by apply Hidle|].
  destruct (handle_put n _ x _ _ Hn (dc_wf _ _ Hd) Hv) as [(He & _)|(_ & -> & _)]; [|by apply Hidle].
  destruct (dc_old _ _ Hd x Hin) as [_ Hex]. destruct (Hex He) as [c Hc]. unfold retried in Hc. rewrite (rf_pend _ _ Hr) in Hc.
  destruct (ks_pend s !! c) as [p|] eqn:Hp; [|done]. simpl in Hc. unfold lpend_of in Hc. injection Hc as Hreq Hfirst Hrep.
  assert (Hh : kc_call p ≫= handled (ks_net s) = None).
  { unfold reply_of in Hrep. destruct (kc_call p) as [j|] eqn:Hj; [|done]. simpl in *.
    destruct (handled (ks_net s) j) as [rep|] eqn:Hhj; [|done]. simpl in Hrep.
    destruct (rf_reply _ _ Hr c p j rep Hp Hj Hhj) as [? Hs]. congruence. }
  assert (Hh' : kc_call p ≫= handled n' = None).
  { rewrite <- Hh. destruct (kc_call p) as [j|] eqn:Hj; [|done]. simpl. by eapply Ho'. }
  pose proof (ab_pend _ _ _ _ _ _ _ Ha c p Hp) as Hs. unfold pend_sim in Hs. rewrite Hh in Hs. simpl in Hs.
  destruct Hs as (t & Ht & Hm). rewrite Hreq, Hfirst in Hm.
  rewrite <- (rf_world _ _ Hr), Hws in Hv.
  exists [Attempt c ReplyLost]. eexists _, (ts ++ [ks_now s]). split; [done|]. split.
  - cbn [sys_run sys_step]. rewrite Hm. cbn [mbind option_bind pd_req pd_first]. rewrite Hv. reflexivity.
  - split; simpl; [done|by eapply links_keep|by rewrite Hw|]. rewrite <- (insert_id _ c p Hp), <- Hreq.
    apply (abs_silent d (handled (ks_net s)) _ _ _ _ _ _ c p p t false); try done; [by rewrite Hreq|by intros; eapply Ho'|..].
    + intros out (j & rep & y & Hj & Hhj & _). rewrite Hj in Hh. simpl in Hh. congruence.
    + intros m' ts' Hwt. unfold pend_sim. by rewrite Hh', Hfirst.
Qed.

Lemma sim_net_read n s m ts a l n' :
  0 <= n < uint64_max -> sim False d s m ts -> refines s a -> disc n a -> is_call l = false ->
  net_step (ks_net s) l = Some (Ret n') ->
  exists ls m' ts', (length ls <= 1)%nat /\ sys_run m ls = Some m' /\
    sim False d (mkKsys n' (S (ks_now s)) (ks_pend s) (ks_log s)) m' ts'.
Proof.
  intros Hn Hsim Hr Hd Hc Hs. pose proof Hsim as [Hnet Hl Hw Ha].
  destruct (net_step_ok False (ks_net s) l n' Hnet Hc Hs (fun F => False_ind _ F)) as (Hn' & Hk & Heff).
  destruct Heff as [Hw' Hh|k i ca q srv rs w r Hcalls Hi _ Ht Hq Hm Hdi Hw' Hh Hh' Ho].
  - exists [], m, ts. split; [simpl; lia|]. split; [done|]. by apply sim_idle.
  - destruct (decide (under_way (ks_pend s) i)) as [(c & p & Hp & Hpi)|Hno].
    + destruct (lk_msg _ _ Hl c p i ca Hp Hpi Hi) as [e He]. rewrite Hm, He in Hdi.
      destruct (dispatch_request _ _ _ _ _ _ _ (no_services _ _ Hnet srv) Hdi) as (v & Hv & Hdec). rewrite Hw in Hv.
      by apply (sim_execute False d s m ts n' c p i r w v).
    + destruct (rf_old _ _ Hr i ca Hi Hh Hno) as (r0 & [e He] & Hin). rewrite Hm, He in Hdi.
      destruct (dispatch_request _ _ _ _ _ _ _ (no_services _ _ Hnet srv) Hdi) as (v & Hv & _).
      rewrite (rf_world _ _ Hr) in Hv. by apply (sim_stale n s m ts a n' i r0 w v).
Qed.

(** No Put of these clients is answered [ErrNoKey]. *)
Lemma kstep_log n s a l s' a' :
  refines s a -> disc n a -> kstep s l = Some (Ret s') ->
  (a' = a /\ kevent l s' = Silent \/ late_step a (kevent l s') a') ->
  Forall (fun o => ~ nokey_put o) (ks_log s) -> Forall (fun o => ~ nokey_put o) (ks_log s').
Proof.
  intros Hr Hd Hs Hst Hlog. destruct l as [c r|c e|c|l]; simpl in Hs.
  - destruct (ks_pend s !! c); by simplify_eq/=.
  - destruct (ks_pend s !! c) as [p|]; [|done]. simpl in Hs. destruct (kc_call p); by simplify_eq/=.
  - destruct (ks_pend s !! c) as [p|] eqn:Hp; [|done]. simpl in Hs.
    destruct (kc_call p) as [i|] eqn:Hc; [|done]. simpl in Hs.
    destruct (cs_calls (ks_net s) !! i) as [ca|]; [|done]. simpl in Hs.
    assert (Hfin : forall res, kfinish s c (kc_pend p) res = s' -> Forall (fun o => ~ nokey_put o) (ks_log s')).
    { intros [out|f] <-; [|done]. simpl in Hst |- *. rewrite lookup_delete_eq, last_snoc in Hst. simpl in Hst.
      apply Forall_app. split; [done|]. apply Forall_singleton. destruct Hst as [[_ ?]|Hst]; [done|].
      inversion Hst as [| | | |? r f v ? Hpa Hout]; subst. rewrite (rf_pend _ _ Hr), Hp in Hpa. simpl in Hpa.
      injection Hpa as Hreq Hf Hv. unfold nokey_put. simpl. rewrite Hreq. destruct r as [k|x]; simpl; [by intros [? _]|].
      intros [_ Herr]. destruct (dc_pend _ _ Hd c x f (Some v)) as [_ Hv'].
      { rewrite (rf_pend _ _ Hr), Hp. simpl. unfold lpend_of. by rewrite Hreq, Hf, Hv. }
      destruct (Hv' v eq_refl) as [_ [-> | ->]]; destruct f; simpl in Hout; by simplify_eq/=. }
    destruct (ca_stage ca) as [| |k [bs|]]; try done; [destruct (decode_reply _ _); [|done]|]; injection Hs as Hs; by eapply Hfin.
  - destruct (is_call l); [done|]. destruct (net_step (ks_net s) l) as [[n'| |]|]; simpl in Hs; try done.
    by simplify_eq/=.
Qed.
(** Where the systems are after [n] steps. *)
Record read_ok (n : Z) (s : ksys) (m : sys) (ts : list nat) (a : late) : Prop := {
  ro_sim : sim False d s m ts;
  ro_refines : refines s a;
  ro_disc : disc n a;
  ro_log : Forall (fun o => ~ nokey_put o) (ks_log s)
}.

Lemma read_init : read_ok 0 kinit sys_init [] late_init.
Proof. split; [apply sim_init|apply refines_init|apply disc_init, kv_wf_init|constructor]. Qed.

Lemma read_step n s m ts a l s' :
  0 <= n < uint64_max -> read_ok n s m ts a -> kstep s l = Some (Ret s') -> agrees d (ks_net s') ->
  match l with KInvoke _ r => reads_first (sy_world (cs_sys (ks_net s))) r | _ => true end = true ->
  exists ls m' ts' a', (length ls <= 1)%nat /\ sys_run m ls = Some m' /\ read_ok (n + 1) s' m' ts' a'.
Proof.
  intros Hn [H1 H2 H3 H4] Hs Hag Hread.
  destruct (refines_step s a l s' H2 Hs) as (a' & Hst & Hr').
  destruct (sim_step False d s m ts l s' H1 Hs Hag) as (ls & m' & ts' & Hlen & Hrun & Hsim).
  { intros l' n' -> Hc Hs'. by eapply sim_net_read. }
  exists ls, m', ts', a'. split; [done|]. split; [done|]. split; [done|done| |by apply (kstep_log n s a l s' a')].
  destruct Hst as [[-> _]|Hst].
  - destruct H3 as [E1 E2 E3]. split; [|done..]. eapply kv_wf_mono; [|done]. lia.
  - eapply disc_step; [done|done|done|]. intros c r He. rewrite <- (rf_world _ _ H2).
    destruct l as [c' r'| |c'|]; simpl in He; try done; [by injection He as -> ->|]. by repeat case_match.
Qed.

Lemma read_run ls : forall n s m ts a s',
  0 <= n -> n + Z.of_nat (length ls) <= uint64_max -> read_ok n s m ts a -> krun s ls = Ret s' ->
  reads s ls = true -> agrees d (ks_net s') ->
  exists ls' m' ts' a' n', (length ls' <= length ls)%nat /\ sys_run m ls' = Some m' /\ read_ok n' s' m' ts' a'.
Proof.
  induction ls as [|l ls IH]; intros n s m ts a s' Hn Hb Hok Hr Hread Hag; simpl in Hr, Hread.
  { injection Hr as <-. by exists [], m, ts, a, n. }
  apply andb_true_iff in Hread as [Hl Hread]. cbn [length] in Hb. destruct (kstep s l) as [o|] eqn:E.
  - apply outcome_bind_inv in Hr as (s1 & -> & Hr).
    destruct (read_step n s m ts a l s1) as (ls1 & m1 & ts1 & a1 & L1 & R1 & S1);
      [lia|done|done|by eapply agrees_run|done|].
    destruct (IH (n + 1) s1 m1 ts1 a1 s') as (ls2 & m2 & ts2 & a2 & n2 & L2 & R2 & S2); [lia|lia|done..|].
    exists (ls1 ++ ls2), m2, ts2, a2, n2. split; [rewrite length_app; simpl; lia|]. split; [|done].
    by eapply sys_run_app.
  - destruct (IH n s m ts a s') as (ls2 & m2 & ts2 & a2 & n2 & L2 & R2 & S2); [done|lia|done..|].
    exists ls2, m2, ts2, a2, n2. split; [simpl; lia|done].
Qed.
End Reads.

Lemma disc_mono n a : disc n a -> disc (n + 1) a.
Proof. intros [H1 H2 H3]. split; [|done..]. eapply kv_wf_mono; [|done]. lia. Qed.

(** ** Clients that put what they have read *)

Section Clients.
Context `{Laws : KvRoundtrip} {P : Type}.
Variable op : nat -> P -> option request.
Variable resume : nat -> P -> KvOutput -> P.
Variable select : P -> bool -> Z -> option P.

(** What holds of the clients after [n] steps, up to [bound]. *)
Variable I : Z -> late -> (nat -> P) -> Prop.
Variable bound : Z.
Hypothesis bound_small : bound <= uint64_max.
Hypothesis I_mono : forall n a prog, I n a prog -> I (n + 1) a prog.
Hypothesis I_reads : forall n a prog c r,
  0 <= n < bound -> disc n a -> I n a prog -> lt_pend a !! c = None -> op c (prog c) = Some r ->
  reads_first (lt_srv a) r = true.
Hypothesis I_step : forall n a prog a' prog',
  0 <= n < bound -> disc n a -> I n a prog -> hstep op resume select (a, prog) (a', prog') -> I (n + 1) a' prog'.

Lemma hstep_disc n a prog a' prog' :
  0 <= n < bound -> disc n a -> I n a prog -> hstep op resume select (a, prog) (a', prog') -> disc (n + 1) a'.
Proof.
  intros Hn Hd HI Hs. inversion Hs as [? ? c dn rand p Hsel|? ? e ? Hst Hok]; subst; [by apply disc_mono|].
  eapply disc_step; [lia|done|done|]. intros c r ->. simpl in Hok. apply bool_decide_eq_true in Hok.
  inversion Hst; subst. by eapply I_reads.
Qed.

(** A run of the clients, and the run of the network with what they have called. *)
Lemma clients_run ls : forall n s a s',
  0 <= n -> n + Z.of_nat (length ls) <= bound -> refines (t_net s) a -> disc n a -> I n a (t_prog s) ->
  trun op resume select s ls = Ret s' ->
  exists kls a', (length kls <= length ls)%nat /\ krun (t_net s) kls = Ret (t_net s') /\
    reads (t_net s) kls = true /\ refines (t_net s') a' /\ I (n + Z.of_nat (length ls)) a' (t_prog s').
Proof.
  assert (Hmono : forall m n a prog, I n a prog -> I (n + Z.of_nat m) a prog).
  { induction m as [|m IH]; intros n a prog HI; [by rewrite Z.add_0_r|].
    replace (n + Z.of_nat (S m)) with (n + Z.of_nat m + 1) by lia. by apply I_mono, IH. }
  induction ls as [|l ls IH]; intros n s a s' Hn Hb Hr Hd HI Hrun; simpl in Hrun; cbn [length] in Hb.
  { injection Hrun as <-. exists [], a. rewrite Z.add_0_r. done. }
  replace (n + Z.of_nat (length (l :: ls))) with (n + 1 + Z.of_nat (length ls)) by (simpl; lia).
  destruct (tstep _ _ _ s l) as [o|] eqn:E.
  2:{ destruct (IH (n + 1) s a s') as (kls & a' & H1 & Hrest); [lia|lia|done|by apply disc_mono|by apply I_mono|done|].
      exists kls, a'. split; [simpl; lia|done]. }
  apply outcome_bind_inv in Hrun as (s1 & -> & Hrun).
  destruct (tstep_refines _ _ _ s a l s1 Hr E) as (a1 & Hst & Hr1).
  assert (disc (n + 1) a1 /\ I (n + 1) a1 (t_prog s1)) as [Hd1 HI1].
  { destruct Hst as [Hst|[-> ->]]; [|split; [by apply disc_mono|by apply I_mono]].
    split; [eapply hstep_disc; [|done..]; lia|eapply I_step; [|done..]; lia]. }
  destruct (IH (n + 1) s1 a1 s') as (kls & a' & H1 & H2 & H3 & H4); [lia|lia|done..|].
  destruct l as [c dn rand|l]; simpl in E.
  - destruct (select _ dn rand) as [p|]; [|done]. injection E as <-. exists kls, a'. split; [simpl; lia|done].
  - destruct (match l with KInvoke _ _ => _ | _ => true end) eqn:Hok; [|done].
    destruct (kstep (t_net s) l) as [o|] eqn:Ek; [|done]. simpl in E. injection E as E.
    apply outcome_bind_inv in E as (k & -> & [= <-]). simpl in H2, H3.
    exists (l :: kls), a'. split; [simpl; lia|]. split; [simpl; by rewrite Ek|]. split; [|done].
    simpl. rewrite Ek, H3, andb_true_r. destruct l as [c r| | |]; try done.
    simpl in Hok. apply bool_decide_eq_true in Hok. rewrite (rf_world _ _ Hr).
    eapply I_reads; [|done|done| |done]; [lia|]. rewrite (rf_pend _ _ Hr). simpl in Ek.
    by destruct (ks_pend (t_net s) !! c).
Qed.
End Clients.

Lemma reads_linearize `{KvRoundtrip} ls s :
  Z.of_nat (length ls) <= uint64_max -> krun kinit ls = Ret s -> reads kinit ls = true ->
  exists L, linearizes L (ks_log s) /\ kissued s L.
Proof.
  intros Hb Hr Hread.
  destruct (read_run (oracle (ks_net s)) ls 0 kinit sys_init [] late_init s)
    as (ls' & m & ts & a & n & Hlen & Hm & [Hsim _ _ Hlog]); [done|lia|apply read_init|done|done|apply oracle_agrees|].
  destruct (sim_linearizes _ _ _ _ _ ls' Hsim ltac:(lia) Hm) as (L & HL & Hi). exists L. split; [|done].
  enough (filter (fun o => ~ nokey_put o) (ks_log s) = ks_log s) as <- by done.
  clear -Hlog. induction Hlog as [|o log Ho _ IH]; [done|]. by rewrite filter_cons, decide_True, IH.
Qed.

(** C2: linearizability without any hypothesis on the network.  Any number of clerks call the
    one server through the simulated network, which loses, delays and reorders messages,
    disconnects clients and gives requests up while their handlers have still to run.  If
    every Put presents a version that its key has had when the Put is called, as clients do
    that put with what they have read, then the whole recorded history is linearizable, in
    an order that holds nothing but recorded operations and calls that have not returned. *)
Theorem read_histories_linearizable `{KvRoundtrip} ls s :
  Z.of_nat (length ls) <= uint64_max -> krun kinit ls = Ret s -> reads kinit ls = true ->
  exists L, linearizes L (ks_log s) /\ kissued s L.
Proof. apply reads_linearize. Qed.

(** C21: the test of the key/value service and the checker.  Take a checker that rejects only
    histories without a linearization, and a run of the service over the simulated network
    in which every Put presents a version that its key has had, or in which no request is
    given up before its handler has run and no Put is answered [ErrNoKey].  Once every clerk
    has returned, [CheckPorcupineT] does not fail the test, whatever the checker's time.
    (Without either condition it may: [late_put_not_linearizable].) *)
Theorem CheckPorcupine_passes `{KvRoundtrip} CheckOperations ls s t env nsec g :
  (forall H n, CheckOperations H n = CheckIllegal -> ~ exists L, linearization L H) ->
  Z.of_nat (length ls) <= uint64_max -> krun kinit ls = Ret s -> ks_pend s = ∅ ->
  reads kinit ls = true \/ calm kinit ls = true /\ Forall (fun o => ~ nokey_put o) (ks_log s) ->
  vr_fatal (CheckPorcupineT CheckOperations t env nsec (ks_log s) g) = false.
Proof.
  intros Hsound Hb Hrun Hq Hcase. apply verdict_passes; [exact Hsound|].
  assert (exists L, linearizes L (ks_log s) /\ kissued s L) as (L & HL & Hi).
  { destruct Hcase as [Hr|[Hc Hn]]; [by apply reads_linearize with ls|].
    destruct (run_issued ls s Hb Hrun Hc) as (L & HL & Hi). exists L. by rewrite filter_all in HL. }
  exists L. split; [done|]. intros e He. destruct (Hi e He) as [(o & Ho & _ & Hop)|(p & Hp & _)]; [by exists o|].
  rewrite Hq, lookup_empty in Hp. discriminate Hp.
Qed.

(** ** A concrete run *)

Module KvReadDemo.
Import KvNetDemo.

(** The run of [KvNetDemo.late], with the version that the clerk has read: its request is
    given up, its retry is answered [OK], and the handler of the first one runs in the end. *)
Definition labels : list klabel :=
  setup ++ KInvoke 1 (RPut (mkPutArgs "x" "v0" 0)) :: attempt 1 "e1" 0 500 ++
  KInvoke 0 (RPut (mkPutArgs "x" "late" 1)) :: send 0 "e0" 1 ++
  [config (OEnable "e0" false); KNet (CNet (LPoll 1)); KNet (CRecv 1); KReturn 0; config (OEnable "e0" true)] ++
  attempt 0 "e0" 2 500 ++
  KInvoke 1 (RPut (mkPutArgs "x" "v1" 2)) :: attempt 1 "e1" 3 500 ++
  KNet (CNet (LDispatch 1)) :: KInvoke 1 (RGet "x") :: attempt 1 "e1" 4 500.
End KvReadDemo.

Lemma read_histories_linearizable_witness :
  exists s L, krun kinit KvReadDemo.labels = Ret s /\ calm kinit KvReadDemo.labels = false /\
    length (ks_log s) = 4%nat /\ linearizes L (ks_log s).
Proof.
  assert (Hr : match krun kinit KvReadDemo.labels with Ret s => length (ks_log s) = 4%nat | _ => False end)
    by (vm_compute; reflexivity).
  destruct (krun kinit KvReadDemo.labels) as [s| |] eqn:E; [|destruct Hr..].
  destruct (read_histories_linearizable KvReadDemo.labels s) as (L & HL & _).
  - vm_compute. discriminate.
  - exact E.
  - vm_compute. reflexivity.
  - exists s, L. split; [reflexivity|]. split; [vm_compute; reflexivity|]. split; [exact Hr|exact HL].
Defined.

Lemma CheckPorcupine_passes_witness :
  exists s, krun kinit KvReadDemo.labels = Ret s /\ length (ks_log s) = 4%nat /\
    vr_fatal (CheckPorcupineT PorcupineDemo.check 7 PorcupineDemo.env 1 (ks_log s) PorcupineDemo.g) = false.
Proof.
  assert (Hr : match krun kinit KvReadDemo.labels with
    | Ret s => bool_decide (ks_pend s = ∅) = true /\ length (ks_log s) = 4%nat | _ => False end)
    by (vm_compute; split; reflexivity).
  destruct (krun kinit KvReadDemo.labels) as [s| |] eqn:E; [|destruct Hr..]. destruct Hr as [Hp Hl].
  exists s. split; [reflexivity|]. split; [exact Hl|].
  apply (CheckPorcupine_passes PorcupineDemo.check KvReadDemo.labels s).
  - exact PorcupineDemo.check_sound.
  - vm_compute. discriminate.
  - exact E.
  - exact (bool_decide_eq_true_1 _ Hp).
  - left. vm_compute. reflexivity.
Defined.
