(* ===== verification/LockTest.v ===== *)
(** The lock test of [kvsrv1/lock/lock_test.go] over the simulated network: clients that
    acquire the lock of [lock.go], use a key that it protects and release it.  The test
    finds no fault, whatever the network loses, delays, gives up and runs late. *)
From S2P Require Import Prelude.
From S2P Require Import Labrpc.
From S2P Require Import LabrpcCall.
From S2P Require Import KvSrv.
From S2P Require Import KvModel.
From S2P Require Import KvTest.
From S2P Require Import KvNet.
From S2P Require Import KvLate.
From S2P Require Import KvRead.
From S2P Require Import Lock.
From stdpp Require Import pretty.
Open Scope Z_scope.

(** ** [oneClient] *)

(** What [t.Fatalf] reports. *)
Inductive fault := TwoClients (val : string) | GetFailed (err : Err) | PutFailed (err : Err).

(** Where [oneClient] is; [i] is the loop variable, [p] where it is in [Acquire] or
    [Release], and [ver] what the pending Put presents. *)
Inductive lprog :=
| LStart
| LSelect (i : Z)
| LLock (i : Z) (p : pc)
| LGet (i : Z)
| LPut (i : Z) (ver : Tversion)
| LClear (i : Z) (ver : Tversion)
| LStop (res : ClntRes)
| LFatal (why : fault).

Section Program.
(** The client id that [MakeLock] has drawn for each client. *)
Variable clientId : nat -> string.

Definition lock_op (me : nat) (p : lprog) : option request :=
  match p with
  | LStart => Some (RPut (mkPutArgs "l0" "" 0))
  | LLock _ AcqGet | LLock _ RelGet => Some (RGet "l")
  | LLock _ (AcqPut ver _) => Some (RPut (mkPutArgs "l" (clientId me) ver))
  | LLock _ (RelPut ver _) => Some (RPut (mkPutArgs "l" "" ver))
  | LGet _ => Some (RGet "l0")
  | LPut _ ver => Some (RPut (mkPutArgs "l0" (pretty (Z.of_nat me)) ver))
  | LClear _ ver => Some (RPut (mkPutArgs "l0" "" ver))
  | _ => None
  end.

(** [Acquire] returns to the critical section, [Release] to the loop. *)
Definition lock_next (i : Z) (p : pc) : lprog :=
  match p with
  | Held => LGet i
  | Idle => LSelect (wrap64 (i + 1))
  | _ => LLock i p
  end.

Definition done_or_maybe (err : Err) : bool := bool_decide (err = OK) || bool_decide (err = ErrMaybe).

Definition lock_resume (me : nat) (p : lprog) (out : KvOutput) : lprog :=
  let '(val, ver0, err) := (KvOutput_Value out, KvOutput_Version out, KvOutput_Err out) in
  match p with
  | LStart => LSelect 1
  | LLock i AcqGet => lock_next i (acquire_after_get clientId me (val, ver0, err))
  | LLock i (AcqPut _ _) => lock_next i (acquire_after_put err)
  | LGet i =>
      if bool_decide (err = OK) then
        if negb (bool_decide (val = ""%string)) then LFatal (TwoClients val) else LPut i ver0
      else LFatal (GetFailed err)
  | LPut i ver => if done_or_maybe err then LClear i (u64 (ver + 1)) else LFatal (PutFailed err)
  | LClear i _ => if done_or_maybe err then LLock i RelGet else LFatal (PutFailed err)
  | LLock i RelGet => lock_next i (release_after_get clientId me (val, ver0, err))
  | LLock i (RelPut _ _) => lock_next i Idle
  | _ => p
  end.

Definition lock_select (p : lprog) (dn : bool) (rand : Z) : option lprog :=
  match p with
  | LSelect i => Some (if dn then LStop (mkClntRes i 0) else LLock i AcqGet)
  | _ => None
  end.
End Program.

(** ** The invariant *)

Definition lreply : Type := option (GetReply + PutReply).

Section Invariant.
Variable clientId : nat -> string.
Hypothesis clientId_inj : forall c d, clientId c = clientId d -> c = d.
Hypothesis clientId_nonempty : forall c, clientId c <> ""%string.

(** What a reply to a Get still tells. *)
Definition read_ok (kv : KVServer) (k : string) (rep : lreply) : Prop :=
  forall v, rep = Some v -> exists g, v = inl g /\ 0 <= GetReply_Version g <= ver kv k /\
    (GetReply_Version g = ver kv k -> GetReply_Value g = val kv k).

(** A Put of the critical section: nobody else puts to the key, so it is executed once. *)
Definition crit_put (kv : KVServer) (w : Tversion) (first : bool) (rep : lreply) : Prop :=
  1 <= w /\
  (ver kv "l0" = w /\ rep = None \/
   ver kv "l0" = w + 1 /\ (first = true -> rep = Some (inr (mkPutReply OK))) /\
     forall v, rep = Some v -> v = inr (mkPutReply OK) \/ v = inr (mkPutReply ErrVersion) /\ first = false).

(** What client [c] knows of the store, with a call at hand whose [isFirstAttempt] is
    [first] and whose handler, if it has run, has replied [rep]. *)
Definition phase (kv : KVServer) (c : nat) (p : lprog) (first : bool) (rep : lreply) : Prop :=
  match p with
  | LStart => forall v, rep = Some v -> 1 <= ver kv "l0"
  | LSelect _ | LStop _ => 1 <= ver kv "l0"
  | LLock _ AcqGet | LLock _ RelGet => 1 <= ver kv "l0" /\ read_ok kv "l" rep
  | LLock _ (AcqPut w _) =>
      1 <= ver kv "l0" /\ 0 <= w <= ver kv "l" /\
      (w = ver kv "l" -> val kv "l" = ""%string \/ val kv "l" = clientId c) /\
      (forall v, rep = Some v -> w < ver kv "l" /\ (v = inr (mkPutReply OK) -> val kv "l" = clientId c))
  | LGet _ =>
      1 <= ver kv "l0" /\ val kv "l" = clientId c /\
      (forall v, rep = Some v -> v = inl (mkGetReply "" (ver kv "l0") OK))
  | LPut _ w => val kv "l" = clientId c /\ crit_put kv w first rep
  | LClear _ w =>
      val kv "l" = clientId c /\ crit_put kv w first rep /\ (ver kv "l0" = w + 1 -> val kv "l0" = ""%string)
  | LLock _ (RelPut w _) =>
      1 <= ver kv "l0" /\ 0 <= w <= ver kv "l" /\ (w = ver kv "l" -> val kv "l" = clientId c) /\
      (forall v, rep = Some v -> w < ver kv "l")
  | LLock _ _ | LFatal _ => False
  end.

(** Between its two Puts to the key that the lock protects. *)
Definition writing (p : lprog) : bool := match p with LPut _ _ | LClear _ _ => true | _ => false end.

(** In the critical section. *)
Definition critical (p : lprog) : bool := match p with LGet _ | LPut _ _ | LClear _ _ => true | _ => false end.

Definition first_of (q : option lpend) : bool := default true (lp_first <$> q).
Definition rep_of (q : option lpend) : lreply := q ≫= lp_reply.

Record lock_ok (s : late * (nat -> lprog)) : Prop := {
  lo_op c p : lt_pend s.1 !! c = Some p -> lock_op clientId c (s.2 c) = Some (lp_req p);
  lo_phase c : phase (lt_srv s.1) c (s.2 c) (first_of (lt_pend s.1 !! c)) (rep_of (lt_pend s.1 !! c));
  lo_free : val (lt_srv s.1) "l0" = ""%string \/ exists c, writing (s.2 c) = true
}.

Lemma lock_ok_init : lock_ok (late_init, fun _ => LStart).
Proof. clear clientId_inj clientId_nonempty. split; simpl; [done|done|by left]. Qed.

(** A client whose own id is stored is the only one in its critical section. *)
Lemma critical_holds kv c p f rep : phase kv c p f rep -> critical p = true -> val kv "l" = clientId c.
Proof. destruct p; simpl; try done; intros; intuition. Qed.

Lemma writing_critical p : writing p = true -> critical p = true.
Proof. by destruct p. Qed.

(** The clients' Puts present versions that have been read. *)
Lemma phase_reads kv n c p f rep r :
  0 <= n -> kv_wf n kv -> phase kv c p f rep -> lock_op clientId c p = Some r -> reads_first kv r = true.
Proof.
  intros Hn Hwf Hp Hop. pose proof (ver_range n kv "l0" Hn Hwf). pose proof (ver_range n kv "l" Hn Hwf).
  unfold phase, crit_put in Hp.
  destruct p as [|i|i [| |w f'| | |w f']|i|i w|i w|r'|e]; simpl in Hop; simplify_eq; simpl; try done; lia.
Qed.

(** An effective Put to the lock is by a client that has seen it free or own. *)
Lemma effect_lock kv kv' c p f x :
  phase kv c p f None -> lock_op clientId c p = Some (RPut x) -> effect kv kv' x -> PutArgs_Key x = "l" ->
  ver kv' "l" = ver kv "l" + 1 /\ val kv' "l" = PutArgs_Value x /\
  ver kv' "l0" = ver kv "l0" /\ val kv' "l0" = val kv "l0" /\
  (val kv "l" = ""%string \/ val kv "l" = clientId c).
Proof.
  intros Hp Hop (He & Hv & Hx & Ho) Hk. rewrite Hk in *. destruct (Ho "l0" ltac:(done)) as [-> ->].
  do 4 (split; [done|]).
  destruct p as [|i|i [| |w f'| | |w f']|i|i w|i w|r|e]; simpl in Hop; simplify_eq; simpl in *; try done.
  - destruct Hp as (_ & _ & Hp & _). by apply Hp.
  - destruct Hp as (_ & _ & Hp & _). right. by apply Hp.
Qed.

(** An effective Put to the key that it protects is the first one, or by the holder. *)
Lemma effect_data kv kv' c p f x :
  phase kv c p f None -> lock_op clientId c p = Some (RPut x) -> effect kv kv' x -> PutArgs_Key x <> "l" ->
  ver kv' "l0" = ver kv "l0" + 1 /\ val kv' "l0" = PutArgs_Value x /\
  ver kv' "l" = ver kv "l" /\ val kv' "l" = val kv "l" /\
  (ver kv "l0" = 0 /\ p = LStart \/ writing p = true).
Proof.
  intros Hp Hop (He & Hv & Hx & Ho) Hk. destruct (Ho "l" ltac:(done)) as [-> ->].
  destruct p as [|i|i [| |w f'| | |w f']|i|i w|i w|r|e]; simpl in Hop; simplify_eq; simpl in *; try done;
    do 4 (split; [done|]); [by left|by right..].
Qed.

(** The other clients still know what they knew. *)
Lemma effect_others kv kv' c p f x d q g rep :
  phase kv c p f None -> lock_op clientId c p = Some (RPut x) -> effect kv kv' x -> d <> c ->
  phase kv d q g rep -> phase kv' d q g rep.
Proof.
  intros Hp Hop He Hne Hq. destruct (decide (PutArgs_Key x = "l")) as [Hk|Hk].
  - destruct (effect_lock _ _ _ _ _ _ Hp Hop He Hk) as (Hv & Hx & Hv0 & Hx0 & Hfree).
    assert (val kv "l" <> clientId d) as Hd.
    { destruct Hfree as [->| ->]; intros Heq; [by destruct (clientId_nonempty d)|by apply Hne, clientId_inj]. }
    assert (critical q = false) by (destruct (critical q) eqn:E; [by destruct Hd; eapply critical_holds|done]).
    destruct q as [|i|i [| |w f'| | |w f']|i|i w|i w|r|e]; simpl in *; try done; rewrite ?Hv0; try done.
    + destruct Hq as [H1 H2]. split; [done|]. intros v Hr. destruct (H2 v Hr) as (y & -> & Hle & _).
      exists y. split; [done|]. rewrite Hv. lia.
    + destruct Hq as (H1 & H2 & H3 & H4). rewrite Hv. split; [done|]. split; [lia|]. split; [lia|].
      intros v Hr. destruct (H4 v Hr) as [Hlt Hok]. split; [lia|]. intros Hok'. by destruct Hd, Hok.
    + destruct Hq as [H1 H2]. split; [done|]. intros v Hr. destruct (H2 v Hr) as (y & -> & Hle & _).
      exists y. split; [done|]. rewrite Hv. lia.
    + destruct Hq as (H1 & H2 & H3 & H4). rewrite Hv. split; [done|]. split; [lia|]. split; [lia|].
      intros v Hr. specialize (H4 v Hr). lia.
  - destruct (effect_data _ _ _ _ _ _ Hp Hop He Hk) as (Hv0 & Hx0 & Hv & Hx & Hwho).
    assert (critical q = true -> ver kv "l0" = 0 /\ p = LStart) as Hcrit.
    { intros Hcr. destruct Hwho as [?|Hw%writing_critical]; [done|]. destruct Hne. apply clientId_inj.
      by rewrite <- (critical_holds _ _ _ _ _ Hp Hw), <- (critical_holds _ _ _ _ _ Hq Hcr). }
    unfold phase, read_ok, crit_put in *. rewrite ?Hv, ?Hx, ?Hv0.
    destruct q as [|i|i [| |w f'| | |w f']|i|i w|i w|r|e]; simpl in *; try done;
      try (destruct (Hcrit eq_refl) as [Hz _]; rewrite Hz in Hq; lia); try (destruct Hq as [? ?]; split; [lia|done]); try lia.
    intros v Hr. specialize (Hq v Hr). lia.
Qed.

(** The client whose Put it is. *)
Lemma effect_own kv kv' c p f x :
  phase kv c p f None -> lock_op clientId c p = Some (RPut x) -> effect kv kv' x -> 0 <= ver kv "l0" ->
  phase kv' c p f (Some (inr (mkPutReply OK))) /\ (f = false -> phase kv' c p f None).
Proof.
  intros Hp Hop He Hge. destruct (decide (PutArgs_Key x = "l")) as [Hk|Hk].
  - destruct (effect_lock _ _ _ _ _ _ Hp Hop He Hk) as (Hv & Hx & Hv0 & Hx0 & _). destruct He as (He & _). rewrite Hk in He.
    destruct p as [|i|i [| |w f'| | |w f']|i|i w|i w|r|e]; simpl in Hop; simplify_eq; simpl in *; try done.
    + destruct Hp as (H1 & H2 & _ & _). rewrite Hv, Hv0, Hx. repeat (split; try done; try lia); intros; lia.
    + destruct Hp as (H1 & H2 & _ & _). rewrite Hv, Hv0, Hx. repeat (split; try done; try lia); intros; lia.
  - destruct (effect_data _ _ _ _ _ _ Hp Hop He Hk) as (Hv0 & Hx0 & Hv & Hx & _). destruct He as (He & _).
    unfold phase, crit_put in *.
    destruct p as [|i|i [| |w f'| | |w f']|i|i w|i w|r|e]; simpl in Hop; simplify_eq; simpl in *; try done.
    + split; intros; lia.
    + destruct Hp as (H1 & H2 & H3). rewrite Hv0, Hx. split; [|intros ->]; (split; [done|]); (split; [done|]); right;
        (split; [lia|]); (split; [done|]); [|done]. intros v [= <-]. by left.
    + destruct Hp as (H1 & (H2 & H3) & H4). rewrite Hv0, Hx0, Hx. split; [|intros ->]; (split; [done|]); (split; [|done]); (split; [done|]); right;
        (split; [lia|]); (split; [done|]); [|done]. intros v [= <-]. by left.
Qed.
(** A client moves and the store stays. *)
Lemma lock_move a prog c q p' prog' P' old' :
  lock_ok (a, prog) -> (forall l, q = Some l -> lock_op clientId c p' = Some (lp_req l)) ->
  phase (lt_srv a) c p' (first_of q) (rep_of q) ->
  (writing (prog c) = true -> writing p' = true \/ val (lt_srv a) "l0" = ""%string) ->
  prog' c = p' -> (forall d, d <> c -> prog' d = prog d) -> P' = partial_alter (fun _ => q) c (lt_pend a) ->
  lock_ok (mkLate (lt_srv a) P' old', prog').
Proof.
  intros [H2 H4 H5] Hop Hph Hwr Hc Hd ->. split; simpl in *.
  - intros d l. destruct (decide (d = c)) as [->|Hne].
    + rewrite lookup_partial_alter_eq, Hc. apply Hop.
    + rewrite lookup_partial_alter_ne, Hd by done. apply H2.
  - intros d. destruct (decide (d = c)) as [->|Hne].
    + by rewrite lookup_partial_alter_eq, Hc.
    + rewrite lookup_partial_alter_ne, Hd by done. apply H4.
  - destruct H5 as [?|[d Hw]]; [by left|]. destruct (decide (d = c)) as [->|Hne].
    + destruct (Hwr Hw); [right; exists c; by rewrite Hc|by left].
    + right. exists d. by rewrite Hd.
Qed.

(** A client's call at hand changes, not its program. *)
Lemma lock_call a prog c q P' old' :
  lock_ok (a, prog) -> lock_op clientId c (prog c) = Some (lp_req q) ->
  phase (lt_srv a) c (prog c) (lp_first q) (lp_reply q) ->
  P' = <[c := q]> (lt_pend a) -> lock_ok (mkLate (lt_srv a) P' old', prog).
Proof.
  intros Hl Hop Hph ->. apply (lock_move a prog c (Some q) (prog c)); try done; [by intros l [= <-]|by left].
Qed.

(** A Put takes effect; [q] is the call at hand of the client [c] whose Put it is. *)
Lemma lock_effect a prog c x f rep q kv' P' :
  0 <= ver (lt_srv a) "l0" -> lock_ok (a, prog) -> effect (lt_srv a) kv' x ->
  lt_pend a !! c = Some (mkLpend (RPut x) f None) -> q = mkLpend (RPut x) f rep ->
  (rep = Some (inr (mkPutReply OK)) \/ f = false /\ rep = None) ->
  P' = <[c := q]> (lt_pend a) -> lock_ok (mkLate kv' P' (lt_old a), prog).
Proof.
  intros Hn [H2 H4 H5] He Hp -> Hrep ->. simpl in *.
  pose proof (H2 c _ Hp) as Hop. simpl in Hop. pose proof (H4 c) as Hph. rewrite Hp in Hph. simpl in Hph.
  split; simpl.
  - intros d l [[<- <-]|[_ Hl]]%lookup_insert_Some; [done|by apply H2].
  - intros d. destruct (decide (d = c)) as [->|Hne].
    + rewrite lookup_insert_eq. simpl.
      destruct (effect_own _ _ _ _ _ _ Hph Hop He) as [E1 E2]; [done|].
      destruct Hrep as [->|[Hf ->]]; [done|by apply E2].
    + rewrite lookup_insert_ne by done. by eapply (effect_others _ _ c).
  - destruct (decide (PutArgs_Key x = "l")) as [Hk|Hk].
    + destruct (effect_lock _ _ _ _ _ _ Hph Hop He Hk) as (_ & _ & _ & -> & _). done.
    + destruct (effect_data _ _ _ _ _ _ Hph Hop He Hk) as (_ & -> & _ & _ & [[_ Hs]|Hw]); [|right; by exists c].
      rewrite Hs in Hop. simpl in Hop. simplify_eq/=. by left.
Qed.

(** A Get is handled. *)
Lemma phase_get kv c p f k e :
  phase kv c p f None -> lock_op clientId c p = Some (RGet k) -> (critical p = true -> val kv "l0" = ""%string) ->
  (1 <= ver kv k -> e = OK) -> 0 <= ver kv k -> phase kv c p f (Some (inl (mkGetReply (val kv k) (ver kv k) e))).
Proof.
  intros Hp Hop Hcr He Hge.
  destruct p as [|i|i [| |w f'| | |w f']|i|i w|i w|r|e']; simpl in Hop; simplify_eq; simpl in *.
  - destruct Hp as [H1 _]. split; [done|]. intros v [= <-]. by eexists.
  - destruct Hp as [H1 _]. split; [done|]. intros v [= <-]. by eexists.
  - destruct Hp as (H1 & H2 & _). split; [done|]. split; [done|]. intros v [= <-]. by rewrite Hcr, He.
Qed.

(** A Put is handled and its version is out of date. *)
Lemma phase_refused kv c p f x :
  phase kv c p f None -> lock_op clientId c p = Some (RPut x) -> PutArgs_Version x < ver kv (PutArgs_Key x) ->
  phase kv c p f (Some (inr (mkPutReply ErrVersion))).
Proof.
  intros Hp Hop Hlt. unfold phase, crit_put in *.
  destruct p as [|i|i [| |w f'| | |w f']|i|i w|i w|r|e']; simpl in Hop; simplify_eq; simpl in *.
  - intros; lia.
  - destruct Hp as (H1 & H2 & H3 & _). do 3 (split; [done|]). intros v [= <-]. by split.
  - destruct Hp as (H1 & H2 & H3 & _). by do 3 (split; [done|]).
  - destruct Hp as (H1 & H2 & H3). do 2 (split; [done|]). right. destruct H3 as [[? _]|(Hv & Hf & _)]; [lia|].
    destruct f; [by specialize (Hf eq_refl)|]. do 2 (split; [done|]). intros v [= <-]. by right.
  - destruct Hp as (H1 & (H2 & H3) & H4). split; [done|]. split; [|done]. split; [done|]. right.
    destruct H3 as [[? _]|(Hv & Hf & _)]; [lia|].
    destruct f; [by specialize (Hf eq_refl)|]. do 2 (split; [done|]). intros v [= <-]. by right.
Qed.

(** The [Call] of a client returns false. *)
Lemma phase_abandon kv c p f rep r f' :
  phase kv c p f rep -> lock_op clientId c p = Some r -> clerk_iter r f None = inr f' -> phase kv c p f' None.
Proof.
  intros Hp Hop Hf. unfold phase, crit_put, read_ok in *.
  destruct p as [|i|i [| |w g| | |w g]|i|i w|i w|r'|e']; simpl in Hop; simplify_eq; simpl in *;
    try (injection Hf as <-); intuition (try done).
Qed.

Lemma answer_get k f v out :
  clerk_iter (RGet k) f (Some v) = inl out ->
  exists g, v = inl g /\ out = mkKvOutput (GetReply_Value g) (GetReply_Version g) (GetReply_Err g).
Proof. destruct v as [g|g]; simpl; [intros [= <-]; by exists g|done]. Qed.

Lemma answer_put x f v out :
  clerk_iter (RPut x) f (Some v) = inl out ->
  exists rep, v = inr rep /\ out = mkKvOutput "" 0 (put_answer f rep).
Proof.
  destruct v as [g|g]; cbn [clerk_iter mbind option_bind]; [done|].
  rewrite Clerk_Put_iter_reply. intros [= <-]. by exists g.
Qed.

Lemma put_answer_ok f rep : put_answer f rep = OK -> rep = mkPutReply OK.
Proof. unfold put_answer. case_decide; [done|]. destruct rep. simpl. by intros ->. Qed.

(** The two Puts of the critical section succeed, as far as the client is told. *)
Lemma crit_answer kv w f rep :
  crit_put kv w f (Some (inr rep)) -> ver kv "l0" = w + 1 /\ done_or_maybe (put_answer f rep) = true.
Proof.
  intros [H1 [[_ ?]|(Hv & _ & H2)]]; [done|]. split; [done|].
  destruct (H2 _ eq_refl) as [[= ->]|[[= ->] ->]]; [by destruct f|done].
Qed.

(** The [Call] of a client returns true and its program goes on. *)
Lemma phase_answer kv n c p f v r out :
  0 <= n < uint64_max -> kv_wf n kv -> phase kv c p f (Some v) -> lock_op clientId c p = Some r ->
  clerk_iter r f (Some v) = inl out ->
  let p' := lock_resume clientId c p out in
  phase kv c p' true None /\ (writing p = true -> writing p' = true \/ val kv "l0" = ""%string).
Proof.
  intros Hn Hwf Hp Hop Hout. pose proof (ver_range n kv "l0" (proj1 Hn) Hwf) as Hr.
  destruct p as [|i|i [| |w g| | |w g]|i|i w|i w|r'|e']; simpl in Hop; simplify_eq; cbn [phase lock_resume writing] in *.
  - split; [|done]. by apply (Hp v).
  - destruct Hp as [H1 H2]. apply answer_get in Hout as (g & -> & ->). destruct (H2 _ eq_refl) as (g' & [= <-] & Hle & Hval).
    split; [|done]. cbn [KvOutput_Value KvOutput_Version]. unfold acquire_after_get. repeat case_bool_decide; simpl;
      try (by split); (split; [done|]); (split; [done|]); (split; [|done]); intros Heq; rewrite <- Hval by done; auto.
  - destruct Hp as (H1 & H2 & H3 & H4). apply answer_put in Hout as (rep & -> & ->). destruct (H4 _ eq_refl) as [Hlt Hok].
    split; [|done]. cbn [KvOutput_Err]. unfold acquire_after_put. case_bool_decide as He; simpl; [|by split].
    apply put_answer_ok in He as ->. split; [done|]. split; [by apply Hok|done].
  - destruct Hp as [H1 H2]. apply answer_get in Hout as (g & -> & ->). destruct (H2 _ eq_refl) as (g' & [= <-] & Hle & Hval).
    split; [|done]. cbn [KvOutput_Value KvOutput_Version]. unfold release_after_get. case_bool_decide as Hid; simpl; [|done].
    split; [done|]. split; [done|]. split; [|done]. intros Heq. by rewrite <- Hval.
  - split; [|done]. by destruct Hp.
  - destruct Hp as (H1 & H2 & H3). split; [|done]. specialize (H3 v eq_refl) as ->.
    apply answer_get in Hout as (g & [= <-] & ->). simpl. split; [done|]. split; [done|]. left. done.
  - destruct Hp as (H1 & H2). apply answer_put in Hout as (rep & -> & ->). pose proof (crit_answer _ _ _ _ H2) as [Hv Hok].
    cbn [KvOutput_Err]. rewrite Hok. destruct H2 as [Hw _]. rewrite u64_id by lia. split; [|by left]. simpl.
    split; [done|]. split; [|lia]. split; [lia|]. by left.
  - destruct Hp as (H1 & H2 & H3). apply answer_put in Hout as (rep & -> & ->). pose proof (crit_answer _ _ _ _ H2) as [Hv Hok].
    cbn [KvOutput_Err]. rewrite Hok. destruct H2 as [Hw _]. split; [|right; by apply H3]. simpl. by split; [lia|].
Qed.
(** Only one client is in its critical section; before its first Put the key is free. *)
Lemma critical_free a prog c :
  lock_ok (a, prog) -> critical (prog c) = true -> writing (prog c) = false -> val (lt_srv a) "l0" = ""%string.
Proof.
  intros [_ H4 H5] Hc Hw. simpl in *. destruct H5 as [?|[d Hd]]; [done|].
  assert (c = d) as <-; [|congruence]. apply clientId_inj. apply writing_critical in Hd.
  by rewrite <- (critical_holds _ _ _ _ _ (H4 c) Hc), <- (critical_holds _ _ _ _ _ (H4 d) Hd).
Qed.

(** The client at hand, as the steps see it. *)
Lemma lock_client a prog c r f rep :
  lock_ok (a, prog) -> lt_pend a !! c = Some (mkLpend r f rep) ->
  lock_op clientId c (prog c) = Some r /\ phase (lt_srv a) c (prog c) f rep.
Proof.
  intros [H2 H4 _] Hp. specialize (H2 c _ Hp). specialize (H4 c). simpl in *. by rewrite Hp in H4.
Qed.

Lemma lock_execute n a prog c r f kv v :
  0 <= n < uint64_max -> disc n a -> lock_ok (a, prog) -> lt_pend a !! c = Some (mkLpend r f None) ->
  handle (lt_srv a) r = (kv, v) ->
  lock_ok (mkLate kv (<[c := mkLpend r f (Some v)]> (lt_pend a)) (lt_old a), prog).
Proof.
  intros Hn Hd Hl Hp Hv. destruct (lock_client _ _ _ _ _ _ Hl Hp) as [Hop Hph].
  pose proof (fun k => ver_range n _ k (proj1 Hn) (dc_wf _ _ Hd)) as Hr. destruct r as [k|x].
  - destruct (handle_get (lt_srv a) k) as (e & Heq & He). rewrite Hv in Heq. injection Heq as -> ->.
    apply (lock_call a prog c (mkLpend (RGet k) f (Some (inl (mkGetReply (val (lt_srv a) k) (ver (lt_srv a) k) e))))); try done.
    apply phase_get; try done; [|apply Hr].
    intros Hc. apply (critical_free a prog c Hl Hc). by destruct (prog c) as [|?|? []|?|??|??|?|?].
  - destruct (handle_put n (lt_srv a) x _ _ Hn (dc_wf _ _ Hd) Hv) as [(He & -> & Heff)|(Hne & -> & Hold)].
    + eapply (lock_effect a prog c x f); try done; [apply Hr|by left].
    + destruct (dc_pend _ _ Hd _ _ _ _ Hp) as [Hle _]. rewrite Hold by lia.
      apply (lock_call a prog c (mkLpend (RPut x) f (Some (inr (mkPutReply ErrVersion))))); try done. eapply phase_refused; [done|done|lia].
Qed.

Lemma lock_stale n a prog r kv v :
  0 <= n < uint64_max -> disc n a -> lock_ok (a, prog) -> r ∈ lt_old a -> handle (lt_srv a) r = (kv, v) ->
  lock_ok (mkLate kv (lt_pend a) (lt_old a), prog).
Proof.
  intros Hn Hd Hl Hin Hv. assert (Hsame : kv = lt_srv a -> lock_ok (mkLate kv (lt_pend a) (lt_old a), prog)).
  { intros ->. by destruct Hl as [H2 H4 H5]. }
  destruct r as [k|x]; [simpl in Hv; injection Hv as <- _; by apply Hsame|].
  destruct (handle_put n (lt_srv a) x _ _ Hn (dc_wf _ _ Hd) Hv) as [(He & _ & Heff)|(_ & -> & _)]; [|by apply Hsame].
  destruct (dc_old _ _ Hd x Hin) as [_ Hw]. destruct (Hw He) as [c Hc].
  apply (lock_effect a prog c x false None (mkLpend (RPut x) false None)); try done; [|by right|by rewrite insert_id].
  apply (ver_range n); [lia|apply Hd].
Qed.

Lemma lock_answer n a prog c r f v out :
  0 <= n < uint64_max -> disc n a -> lock_ok (a, prog) -> lt_pend a !! c = Some (mkLpend r f (Some v)) ->
  clerk_iter r f (Some v) = inl out ->
  lock_ok (mkLate (lt_srv a) (delete c (lt_pend a)) (lt_old a), <[c := lock_resume clientId c (prog c) out]> prog).
Proof.
  intros Hn Hd Hl Hp Hout. destruct (lock_client _ _ _ _ _ _ Hl Hp) as [Hop Hph].
  destruct (phase_answer _ n _ _ _ _ _ _ Hn (dc_wf _ _ Hd) Hph Hop Hout) as [Hph' Hw].
  apply (lock_move a prog c None (lock_resume clientId c (prog c) out)); try done.
  - by rewrite fn_lookup_insert.
  - intros d Hne. by rewrite fn_lookup_insert_ne.
Qed.

Lemma lock_selects a prog c dn rand p :
  lock_ok (a, prog) -> lock_select (prog c) dn rand = Some p -> lock_ok (a, <[c := p]> prog).
Proof.
  intros Hl Hsel. destruct (prog c) as [|i| | | | | |] eqn:Ep; try done. simpl in Hsel. injection Hsel as <-.
  pose proof (lo_phase _ Hl c) as Hph. simpl in Hph. rewrite Ep in Hph.
  assert (Hp : lt_pend a !! c = None).
  { destruct (lt_pend a !! c) as [p|] eqn:E; [|done]. pose proof (lo_op _ Hl c p E) as Hop. simpl in Hop. by rewrite Ep in Hop. }
  destruct a as [kv P old]. simpl in *.
  apply (lock_move (mkLate kv P old) prog c None (if dn then LStop (mkClntRes i 0) else LLock i AcqGet)); try done.
  - simpl. by destruct dn.
  - rewrite Ep. done.
  - by rewrite fn_lookup_insert.
  - intros d Hne. by rewrite fn_lookup_insert_ne.
  - simpl. rewrite <- Hp. symmetry. apply partial_alter_self.
Qed.

Lemma lock_hstep n a prog a' prog' :
  0 <= n < uint64_max -> disc n a -> lock_ok (a, prog) ->
  hstep (lock_op clientId) (lock_resume clientId) lock_select (a, prog) (a', prog') -> lock_ok (a', prog').
Proof.
  intros Hn Hd Hl Hs. inversion Hs as [? ? c dn rand p Hsel|? ? e ? Hst Hok]; subst; [by eapply lock_selects|].
  destruct Hst as [c r Hp|c r f kv v Hp Hv|c r f rep f' Hp Hf|r kv v Hin Hv|c r f v out Hp Hout]; simpl in *.
  - apply bool_decide_eq_true in Hok. pose proof (lo_phase _ Hl c) as Hph. simpl in Hph. rewrite Hp in Hph.
    by apply (lock_call a prog c (mkLpend r true None)).
  - by eapply lock_execute.
  - destruct (lock_client _ _ _ _ _ _ Hl Hp) as [Hop Hph].
    apply (lock_call a prog c (mkLpend r f' None)); try done. by eapply phase_abandon.
  - by eapply lock_stale.
  - by eapply lock_answer.
Qed.

Lemma lock_run `{KvRoundtrip} ls s :
  Z.of_nat (length ls) <= uint64_max ->
  trun (lock_op clientId) (lock_resume clientId) lock_select (tinit MakeKVServer (fun _ => LStart)) ls = Ret s ->
  exists kls a, (length kls <= length ls)%nat /\ krun kinit kls = Ret (t_net s) /\ reads kinit kls = true /\
    refines (t_net s) a /\ lock_ok (a, t_prog s).
Proof.
  intros Hb Hrun.
  apply (clients_run (lock_op clientId) (lock_resume clientId) lock_select (fun _ a prog => lock_ok (a, prog)) uint64_max) with
    (n := 0) (s := tinit MakeKVServer (fun _ => LStart)) (a := late_init); try done.
  - intros n a prog c r Hn Hd Hl _ Hop. eapply phase_reads; [|apply Hd|apply (lo_phase _ Hl)|done]. lia.
  - intros n a prog a' prog' Hn Hd Hl Hs. by eapply lock_hstep.
  - apply refines_init.
  - apply disc_init, kv_wf_init.
  - apply lock_ok_init.
Qed.
End Invariant.

(** C3: the lock test passes and the lock excludes.  Clients run [oneClient] over the
    simulated network, in which requests and replies are lost, delayed, reordered and given
    up, and in which a handler may run after its clerk has moved on.  In every run, however
    long, up to 2^64 steps: no client reports a fault, at most one is between the return of
    [Acquire] and its call of [Release], its id is the one stored under the lock's key, and
    the calls of the clients are linearizable.  It needs what [MakeLock] arranges, ids that
    are distinct and not empty. *)
Theorem lock_test_passes `{KvRoundtrip} clientId ls s :
  (forall c d, clientId c = clientId d -> c = d) -> (forall c, clientId c <> ""%string) ->
  Z.of_nat (length ls) <= uint64_max ->
  trun (lock_op clientId) (lock_resume clientId) lock_select (tinit MakeKVServer (fun _ => LStart)) ls = Ret s ->
  (forall c why, t_prog s c <> LFatal why) /\
  (forall c d, critical (t_prog s c) = true -> critical (t_prog s d) = true -> c = d) /\
  (forall c, critical (t_prog s c) = true -> val (sy_world (cs_sys (ks_net (t_net s)))) "l" = clientId c) /\
  exists L, linearizes L (ks_log (t_net s)).
Proof.
  intros Hinj Hne Hb Hrun.
  destruct (lock_run clientId Hinj Hne ls s Hb Hrun) as (kls & a & Hlen & Hk & Hreads & Hr & [_ Hph _]).
  simpl in Hph. rewrite (rf_world _ _ Hr).
  assert (Hh : forall c, critical (t_prog s c) = true -> val (lt_srv a) "l" = clientId c)
    by (intros c; by eapply critical_holds).
  split; [|split; [|split; [done|]]].
  - intros c why Heq. specialize (Hph c). by rewrite Heq in Hph.
  - intros c d Hc Hd. apply Hinj. by rewrite <- (Hh c Hc), <- (Hh d Hd).
  - destruct (reads_linearize kls (t_net s)) as (L & HL & _); [lia|done|done|]. by exists L.
Qed.

(** ** A concrete run *)

Module LockTestDemo.
Import KvNetDemo KvLateDemo.

(** Client 0's Put to the lock is given up, tried again, and executed a second time, too
    late, when the client has the lock; client 1 finds the lock taken. *)
Definition labels : list tlabel :=
  (TNet <$> setup) ++ call 0 "e0" (RPut (mkPutArgs "l0" "" 0)) 0 ++ call 1 "e1" (RPut (mkPutArgs "l0" "" 0)) 1 ++
  [TSelect 0 false 0; TSelect 1 false 0] ++ call 0 "e0" (RGet "l") 2 ++
  call_late 0 "e0" (RPut (mkPutArgs "l" (demo_id 0) 0)) 3 ++
  call 1 "e1" (RGet "l") 5 ++ call 0 "e0" (RGet "l0") 6.

Definition run : outcome tsys :=
  trun (lock_op demo_id) (lock_resume demo_id) lock_select (tinit MakeKVServer (fun _ => LStart)) labels.
End LockTestDemo.

Lemma lock_test_passes_witness :
  exists s, LockTestDemo.run = Ret s /\ t_prog s 0%nat = LPut 1 1 /\ t_prog s 1%nat = LLock 1 AcqGet /\
    val (sy_world (cs_sys (ks_net (t_net s)))) "l" = demo_id 0.
Proof.
  assert (Hr : match LockTestDemo.run with
    | Ret s => t_prog s 0%nat = LPut 1 1 /\ t_prog s 1%nat = LLock 1 AcqGet | _ => False end)
    by (vm_compute; split; reflexivity).
  destruct LockTestDemo.run as [s| |] eqn:E; [|destruct Hr..]. destruct Hr as [H0 H1].
  exists s. split; [reflexivity|]. split; [exact H0|]. split; [exact H1|].
  destruct (lock_test_passes demo_id LockTestDemo.labels s) as (_ & _ & Hval & _).
  - exact demo_id_inj.
  - exact demo_id_nonempty.
  - vm_compute. discriminate.
  - exact E.
  - apply Hval. rewrite H0. reflexivity.
Defined.
