(* ===== verification/KvClients.v ===== *)
(** The append and put tests of [kvtest1/kvtest.go] over the simulated network: clients that
    put what they have read cannot tell late attempts from atomic ones, so what
    [KvAppend.v] and [KvPut.v] show of atomic attempts holds over the network. *)
From S2P Require Import Prelude.
From S2P Require Import Json.
From S2P Require Import Labrpc.
From S2P Require Import LabrpcCall.
From S2P Require Import KvSrv.
From S2P Require Import KvModel.
From S2P Require Import KvTest.
From S2P Require Import KvAppend.
From S2P Require Import KvPut.
From S2P Require Import KvNet.
From S2P Require Import KvLate.
From S2P Require Import KvRead.
Open Scope Z_scope.

(** ** Clients over the network and clients with atomic attempts *)

Section Programs.
Context {P : Type}.
Variable op : nat -> P -> option request.
Variable resume : nat -> P -> KvOutput -> outcome P.
Variable select : P -> bool -> Z -> option P.

(** A program of the tests over the network: a failed test is [Panic], and [Blocked] is a
    client that has not been spawned. *)
Definition net_op (c : nat) (m : outcome P) : option request :=
  match m with Ret p => op c p | _ => None end.
Definition net_resume (c : nat) (m : outcome P) (out : KvOutput) : outcome P := p ← m; resume c p out.
Definition net_select (m : outcome P) (dn : bool) (rand : Z) : option (outcome P) :=
  match m with Ret p => Ret <$> select p dn rand | _ => None end.
Definition net_spawn (n : nat) (p0 : P) (c : nat) : outcome P := if (c <? n)%nat then Ret p0 else Blocked.

(** [n] clients that start with [p0] on the store [kv]; with atomic attempts they never
    fail and put what they have read, for fewer than [bound] steps. *)
Variables (n : nat) (p0 : P) (kv : KVServer) (bound : Z).
Hypothesis safe : forall dls, Z.of_nat (length dls) < bound -> Forall (spawned n) dls ->
  exists s, drun op resume select (spawn kv p0) dls = Ret s /\
    forall c r, (c < n)%nat -> op c (d_prog s c) = Some r -> reads_first (d_srv s) r = true.
(** A client that makes a call is not at its [select]. *)
Hypothesis select_op : forall c p dn rand p', select p dn rand = Some p' -> op c p = None.

(** How a client with late attempts and one with atomic attempts are related.  [chi c] says
    whether the reply on its way to client [c] will be received. *)
Definition client_rel (chi : bool) (c : nat) (q : option lpend) (m : outcome P) (p : P) (first : bool) : Prop :=
  match q with
  | None => m = Ret p /\ first = true
  | Some (mkLpend r f None) => m = Ret p /\ op c p = Some r /\ first = f
  | Some (mkLpend r f (Some v)) =>
      if chi then exists p1 out, m = Ret p1 /\ op c p1 = Some r /\ clerk_iter r f (Some v) = inl out /\
        resume c p1 out = Ret p /\ first = true
      else m = Ret p /\ op c p = Some r /\ clerk_iter r f None = inr first
  end.

Record agree (chi : nat -> bool) (ds : dsys P) (a : late) (prog : nat -> outcome P) : Prop := {
  ag_srv : d_srv ds = lt_srv a;
  ag_client c : (c < n)%nat -> client_rel (chi c) c (lt_pend a !! c) (prog c) (d_prog ds c) (d_first ds c);
  ag_idle c : (n <= c)%nat -> prog c = Blocked /\ lt_pend a !! c = None
}.

(** Whatever replies will be received, there are atomic attempts that lead here. *)
Definition atomic (k : Z) (a : late) (prog : nat -> outcome P) : Prop :=
  forall chi, exists dls ds, Z.of_nat (length dls) <= k /\ Forall (spawned n) dls /\
    drun op resume select (spawn kv p0) dls = Ret ds /\ agree chi ds a prog.

Lemma atomic_init : atomic 0 (late_on kv) (net_spawn n p0).
Proof.
  intros chi. exists [], (spawn kv p0). split; [done|]. split; [constructor|]. split; [done|]. split; simpl; [done|..].
  - intros c Hc. unfold net_spawn. by rewrite (proj2 (Nat.ltb_lt _ _) Hc).
  - intros c Hc. unfold net_spawn. by rewrite (proj2 (Nat.ltb_ge _ _) Hc).
Qed.

Lemma atomic_mono k a prog : atomic k a prog -> atomic (k + 1) a prog.
Proof. intros H chi. destruct (H chi) as (dls & ds & Hl & Hrest). exists dls, ds. split; [lia|done]. Qed.

Lemma drun_snoc ls l s s1 :
  drun op resume select s ls = Ret s1 -> drun op resume select s (ls ++ [l]) = dstep op resume select s1 l.
Proof.
  revert s. induction ls as [|l0 ls IH]; intros s Hr; simpl in *.
  - injection Hr as ->. by destruct (dstep op resume select s1 l).
  - apply outcome_bind_inv in Hr as (s0 & -> & Hr). simpl. by apply IH.
Qed.

(** Nothing happens with atomic attempts, or client [c] takes a step. *)
Lemma atomic_same k a prog a' prog' (f : (nat -> bool) -> nat -> bool) :
  atomic k a prog -> (forall chi ds, agree (f chi) ds a prog -> agree chi ds a' prog') -> atomic (k + 1) a' prog'.
Proof.
  intros H Hf chi. destruct (H (f chi)) as (dls & ds & Hl & Hsp & Hr & Hag). exists dls, ds.
  split; [lia|]. split; [done|]. split; [done|by apply Hf].
Qed.

Lemma atomic_more k a prog a' prog' :
  k + 1 < bound -> atomic k a prog ->
  (forall chi ds, agree chi ds a prog -> exists dl, spawned n dl /\
     forall ds', dstep op resume select ds dl = Ret ds' -> agree chi ds' a' prog') -> atomic (k + 1) a' prog'.
Proof.
  intros Hk H Hf chi. destruct (H chi) as (dls & ds & Hl & Hsp & Hr & Hag).
  destruct (Hf chi ds Hag) as (dl & Hdl & Hds).
  assert (Hsp' : Forall (spawned n) (dls ++ [dl])) by (apply Forall_app; split; [done|by apply Forall_singleton]).
  destruct (safe (dls ++ [dl])) as (ds' & Hr' & _); [rewrite length_app; simpl; lia|done|].
  exists (dls ++ [dl]), ds'. split; [rewrite length_app; simpl; lia|]. split; [done|]. split; [done|].
  rewrite (drun_snoc _ _ _ _ Hr) in Hr'. by apply Hds.
Qed.

Lemma agree_move chi chi' ds ds' a kv' P' old' prog prog' c q :
  agree chi ds a prog -> (c < n)%nat -> (forall c', c' <> c -> chi' c' = chi c') -> d_srv ds' = kv' ->
  others_same c ds ds' -> client_rel (chi' c) c q (prog' c) (d_prog ds' c) (d_first ds' c) ->
  P' = partial_alter (fun _ => q) c (lt_pend a) -> (forall c', c' <> c -> prog' c' = prog c') ->
  agree chi' ds' (mkLate kv' P' old') prog'.
Proof.
  intros [H1 H2 H3] Hc Hchi Hs Ho Hrel -> Hprog. split; simpl; [done|..].
  - intros c' Hc'. destruct (decide (c' = c)) as [->|Hne]; [by rewrite lookup_partial_alter_eq|].
    rewrite lookup_partial_alter_ne, Hprog, Hchi by done. destruct (Ho c' Hne) as [-> ->]. by apply H2.
  - intros c' Hc'. rewrite lookup_partial_alter_ne, Hprog by lia. by apply H3.
Qed.

(** A client that has a call or a program is one of the [n]. *)
Lemma agree_spawned chi ds a prog c :
  agree chi ds a prog -> is_Some (lt_pend a !! c) \/ prog c <> Blocked -> (c < n)%nat.
Proof.
  intros [_ _ H3] Hc. destruct (decide (c < n)%nat) as [|Hge]; [done|].
  destruct (H3 c ltac:(lia)) as [Hb Hn]. destruct Hc as [[q Hq]|Hc]; congruence.
Qed.

Lemma atomic_invoke k a prog c r :
  atomic k a prog -> lt_pend a !! c = None -> net_op c (prog c) = Some r ->
  atomic (k + 1) (mkLate (lt_srv a) (<[c := mkLpend r true None]> (lt_pend a)) (lt_old a)) prog.
Proof.
  intros H Hp Hop. apply (atomic_same k a prog _ _ (fun chi => chi)); [done|]. intros chi ds Hag.
  assert (Hc : (c < n)%nat) by (eapply agree_spawned; [done|right; by destruct (prog c)]).
  eapply (agree_move chi chi ds ds a _ _ _ prog prog c (Some (mkLpend r true None))); try done; [apply Hag|].
  pose proof (ag_client _ _ _ _ Hag c Hc) as Hrel. rewrite Hp in Hrel. simpl in *. destruct Hrel as [He ->].
  by rewrite He in Hop.
Qed.

Lemma atomic_execute k a prog c r f kv' v :
  k + 1 < bound -> atomic k a prog -> lt_pend a !! c = Some (mkLpend r f None) -> handle (lt_srv a) r = (kv', v) ->
  atomic (k + 1) (mkLate kv' (<[c := mkLpend r f (Some v)]> (lt_pend a)) (lt_old a)) prog.
Proof.
  intros Hk H Hp Hv. apply (atomic_more k a prog); [done|done|]. intros chi ds Hag.
  assert (Hc : (c < n)%nat) by (eapply agree_spawned; [done|left; by eexists]).
  pose proof (ag_client _ _ _ _ Hag c Hc) as Hrel. rewrite Hp in Hrel. simpl in Hrel. destruct Hrel as (Hm & Hop & Hf).
  exists (DAttempt c (if chi c then Delivered else ReplyLost)). split; [done|]. intros ds'.
  simpl. rewrite Hop, (ag_srv _ _ _ _ Hag), Hf. destruct (chi c) eqn:Echi; simpl; rewrite Hv.
  - destruct (clerk_iter_handle _ _ f _ _ Hv) as [out Hout]. rewrite Hout.
    intros (p & Hres & [= <-])%outcome_bind_inv.
    eapply (agree_move chi chi ds _ a _ _ _ prog prog c (Some (mkLpend r f (Some v)))); try done; [apply others_same_both|].
    simpl. rewrite !fn_lookup_insert, Echi. by exists (d_prog ds c), out.
  - destruct (clerk_iter_none r f) as [f' Hf']. rewrite Hf'. intros [= <-].
    eapply (agree_move chi chi ds _ a _ _ _ prog prog c (Some (mkLpend r f (Some v)))); try done; [apply others_same_first|].
    simpl. by rewrite fn_lookup_insert, Echi.
Qed.

Lemma atomic_abandon k a prog c r f rep f' old' :
  k + 1 < bound -> atomic k a prog -> lt_pend a !! c = Some (mkLpend r f rep) -> clerk_iter r f None = inr f' ->
  atomic (k + 1) (mkLate (lt_srv a) (<[c := mkLpend r f' None]> (lt_pend a)) old') prog.
Proof.
  intros Hk H Hp Hf. destruct rep as [v|].
  - apply (atomic_same k a prog _ _ (fun chi => <[c := false]> chi)); [done|]. intros chi ds Hag.
    assert (Hc : (c < n)%nat) by (eapply agree_spawned; [done|left; by eexists]).
    pose proof (ag_client _ _ _ _ Hag c Hc) as Hrel. rewrite Hp, fn_lookup_insert in Hrel. simpl in Hrel.
    destruct Hrel as (Hm & Hop & Hf'). rewrite Hf in Hf'. injection Hf' as ->.
    eapply (agree_move _ chi ds ds a _ _ _ prog prog c (Some (mkLpend r (d_first ds c) None))); try done; [|apply Hag].
    intros c' Hne. by rewrite fn_lookup_insert_ne.
  - apply (atomic_more k a prog); [done|done|]. intros chi ds Hag.
    assert (Hc : (c < n)%nat) by (eapply agree_spawned; [done|left; by eexists]).
    pose proof (ag_client _ _ _ _ Hag c Hc) as Hrel. rewrite Hp in Hrel. simpl in Hrel. destruct Hrel as (Hm & Hop & Hf').
    exists (DAttempt c ReqLost). split; [done|]. intros ds'. simpl. rewrite Hop, Hf', Hf. intros [= <-].
    eapply (agree_move chi chi ds _ a _ _ _ prog prog c (Some (mkLpend r f' None))); try done; [apply Hag|apply others_same_first|].
    simpl. by rewrite fn_lookup_insert.
Qed.

Lemma atomic_stale k m a prog r kv' v :
  0 <= m < uint64_max -> disc m a -> k + 1 < bound -> atomic k a prog -> r ∈ lt_old a ->
  handle (lt_srv a) r = (kv', v) -> atomic (k + 1) (mkLate kv' (lt_pend a) (lt_old a)) prog.
Proof.
  intros Hm Hd Hk H Hin Hv.
  assert (Hsame : kv' = lt_srv a -> atomic (k + 1) (mkLate kv' (lt_pend a) (lt_old a)) prog).
  { intros ->. apply (atomic_same k a prog _ _ (fun chi => chi)); [done|]. intros chi ds [H1 H2 H3]. by split. }
  destruct r as [key|x]; [simpl in Hv; injection Hv as <- _; by apply Hsame|].
  destruct (handle_put m (lt_srv a) x _ _ Hm (dc_wf _ _ Hd) Hv) as [(He & _)|(_ & -> & _)]; [|by apply Hsame].
  destruct (dc_old _ _ Hd x Hin) as [_ Hex]. destruct (Hex He) as [c Hp]. unfold retried in Hp.
  apply (atomic_more k a prog); [done|done|]. intros chi ds Hag.
  assert (Hc : (c < n)%nat) by (eapply agree_spawned; [done|left; by eexists]).
  pose proof (ag_client _ _ _ _ Hag c Hc) as Hrel. rewrite Hp in Hrel. simpl in Hrel. destruct Hrel as (Hpr & Hop & Hf).
  exists (DAttempt c ReplyLost). split; [done|]. intros ds'. cbn [dstep one_attempt]. rewrite Hop, (ag_srv _ _ _ _ Hag), Hf, Hv.
  simpl. intros [= <-].
  eapply (agree_move chi chi ds _ a _ _ _ prog prog c (Some (mkLpend (RPut x) false None))); try done; [apply others_same_first|..].
  - simpl. by rewrite fn_lookup_insert.
  - rewrite <- Hp. symmetry. apply partial_alter_self.
Qed.

Lemma atomic_answer k a prog c r f v out :
  atomic k a prog -> lt_pend a !! c = Some (mkLpend r f (Some v)) -> clerk_iter r f (Some v) = inl out ->
  atomic (k + 1) (mkLate (lt_srv a) (delete c (lt_pend a)) (lt_old a)) (<[c := net_resume c (prog c) out]> prog).
Proof.
  intros H Hp Hout. apply (atomic_same k a prog _ _ (fun chi => <[c := true]> chi)); [done|]. intros chi ds Hag.
  assert (Hc : (c < n)%nat) by (eapply agree_spawned; [done|left; by eexists]).
  pose proof (ag_client _ _ _ _ Hag c Hc) as Hrel. rewrite Hp, fn_lookup_insert in Hrel. simpl in Hrel.
  destruct Hrel as (p1 & out' & Hm & Hop & Hout' & Hres & Hf). rewrite Hout in Hout'. injection Hout' as <-.
  eapply (agree_move _ chi ds ds a _ _ _ prog _ c None); try done.
  - intros c' Hne. by rewrite fn_lookup_insert_ne.
  - apply Hag.
  - simpl. rewrite fn_lookup_insert, Hm. by split.
  - intros c' Hne. by rewrite fn_lookup_insert_ne.
Qed.

Lemma atomic_select k a prog c dn rand m :
  k + 1 < bound -> atomic k a prog -> net_select (prog c) dn rand = Some m -> atomic (k + 1) a (<[c := m]> prog).
Proof.
  intros Hk H Hsel. apply (atomic_more k a prog); [done|done|]. intros chi ds Hag.
  destruct (prog c) as [p| |] eqn:Ep; try done. simpl in Hsel. apply fmap_Some in Hsel as (p' & Hsel & ->).
  assert (Hc : (c < n)%nat) by (eapply agree_spawned; [done|right; by rewrite Ep]).
  pose proof (ag_client _ _ _ _ Hag c Hc) as Hrel. rewrite Ep in Hrel. pose proof (select_op c _ _ _ _ Hsel) as Hno.
  destruct (lt_pend a !! c) as [[r f [v|]]|] eqn:Hp; simpl in Hrel.
  - exfalso. destruct (chi c); [destruct Hrel as (p1 & out & [= <-] & Hop & _)|destruct Hrel as ([= ->] & Hop & _)]; congruence.
  - exfalso. destruct Hrel as ([= ->] & Hop & _). congruence.
  - destruct Hrel as [[= ->] Hf]. exists (DSelect c dn rand). split; [done|]. intros ds'. simpl. rewrite Hsel. intros [= <-].
    destruct a as [srv Q old]. simpl in Hp.
    eapply (agree_move chi chi ds _ (mkLate srv Q old) _ _ _ prog _ c None); try done; [apply Hag|apply others_same_both|..].
    + simpl. by rewrite !fn_lookup_insert.
    + simpl. rewrite <- Hp. symmetry. apply partial_alter_self.
    + intros c' Hne. by rewrite fn_lookup_insert_ne.
Qed.
Lemma atomic_reads k a prog c r :
  k < bound -> atomic k a prog -> lt_pend a !! c = None -> net_op c (prog c) = Some r -> reads_first (lt_srv a) r = true.
Proof.
  intros Hk H Hp Hop. destruct (H (fun _ => true)) as (dls & ds & Hl & Hsp & Hr & Hag).
  destruct (safe dls) as (ds' & Hr' & Hreads); [lia|done|]. rewrite Hr in Hr'. injection Hr' as <-.
  assert (Hc : (c < n)%nat) by (eapply agree_spawned; [done|right; by destruct (prog c)]).
  pose proof (ag_client _ _ _ _ Hag c Hc) as Hrel. rewrite Hp in Hrel. destruct Hrel as [He _]. rewrite He in Hop.
  rewrite <- (ag_srv _ _ _ _ Hag). by apply (Hreads c).
Qed.

Lemma atomic_hstep m k a prog a' prog' :
  0 <= m < uint64_max -> disc m a -> k + 1 < bound -> atomic k a prog ->
  hstep net_op net_resume net_select (a, prog) (a', prog') -> atomic (k + 1) a' prog'.
Proof.
  intros Hm Hd Hk H Hs. inversion Hs as [? ? c dn rand p Hsel|? ? e ? Hst Hok]; subst; [by eapply atomic_select|].
  destruct Hst as [c r Hp|c r f kv' v Hp Hv|c r f rep f' Hp Hf|r kv' v Hin Hv|c r f v out Hp Hout]; simpl in *.
  - apply bool_decide_eq_true in Hok. by apply atomic_invoke.
  - by eapply atomic_execute.
  - by eapply atomic_abandon.
  - by eapply atomic_stale.
  - by eapply atomic_answer.
Qed.

(** A run over the network ends where one with atomic attempts ends. *)
Lemma network_run `{KvRoundtrip} b ls s :
  0 <= b -> kv_wf b kv -> b + Z.of_nat (length ls) <= uint64_max -> Z.of_nat (length ls) < bound ->
  trun net_op net_resume net_select (tinit kv (net_spawn n p0)) ls = Ret s ->
  exists dls ds, Z.of_nat (length dls) <= Z.of_nat (length ls) /\ Forall (spawned n) dls /\
    drun op resume select (spawn kv p0) dls = Ret ds /\
    sy_world (cs_sys (ks_net (t_net s))) = d_srv ds /\ forall c, (c < n)%nat -> t_prog s c = Ret (d_prog ds c).
Proof.
  intros Hb Hwf Hlen Hbound Hrun.
  destruct (clients_run net_op net_resume net_select (fun m a prog => atomic (m - b) a prog) (b + Z.of_nat (length ls)))
    with (ls := ls) (n := b) (s := tinit kv (net_spawn n p0)) (a := late_on kv) (s' := s)
    as (kls & a & _ & _ & _ & Hr & Hat); try done.
  - intros m a prog Ha. replace (m + 1 - b) with (m - b + 1) by lia. by apply atomic_mono.
  - intros m a prog c r Hm Hd Ha Hp Hop. eapply (atomic_reads (m - b)); [lia|done..].
  - intros m a prog a' prog' Hm Hd Ha Hs. replace (m + 1 - b) with (m - b + 1) by lia.
    eapply atomic_hstep; [|done|lia|done|done]. lia.
  - apply refines_init.
  - by apply disc_init.
  - rewrite Z.sub_diag. apply atomic_init.
  - replace (b + Z.of_nat (length ls) - b) with (Z.of_nat (length ls)) in Hat by lia.
    destruct (Hat (fun _ => false)) as (dls & ds & H1 & H2 & H3 & [E1 E2 _]). exists dls, ds.
    split; [done|]. split; [done|]. split; [done|]. split; [by rewrite (rf_world _ _ Hr)|].
    intros c Hc. specialize (E2 c Hc). destruct (lt_pend a !! c) as [[r f [v|]]|]; simpl in E2; by destruct E2.
Qed.
End Programs.

(** ** The append test *)

Section Append.
Variable n : nat.
Hypothesis Hn : Z.of_nat n <= int_max.

(** A client puts the list it has read, with its version. *)
Lemma append_safe kv dls :
  KVServer_data kv !! "k" = Some (mkKeyValue (Marshal (entries_json [])) 1) ->
  Z.of_nat (length dls) < int_max -> Forall (spawned n) dls ->
  exists s, append_run (spawn kv (ASelect 0 0 0)) dls = Ret s /\
    forall c r, (c < n)%nat -> append_op c (d_prog s c) = Some r -> reads_first (d_srv s) r = true.
Proof.
  intros Hkv Hl Hsp. destruct (append_run_inv n Hn dls _ Hl (ainv_init n kv Hkv) Hsp) as (s & es & Hs & H).
  exists s. split; [done|]. intros c r Hc Hop. pose proof (ai_clients _ _ _ _ H c Hc) as Hcl.
  destruct (d_prog s c) as [i nok nmay|i nok nmay|i nok nmay es' w|r']; simpl in Hop; simplify_eq; [done|].
  simpl. unfold ver, kv_view. rewrite (ai_srv _ _ _ _ H). simpl. simpl in Hcl. lia.
Qed.
End Append.

Lemma append_select_op c p dn rand p' : append_select p dn rand = Some p' -> append_op c p = None.
Proof. by destruct p. Qed.

(** What the clients of a run over the network report. *)
Definition net_reports {P} (n : nat) (done : P -> option ClntRes) (s : tsys (P := outcome P)) (rs : list ClntRes) : Prop :=
  length rs = n /\ forall c r, rs !! c = Some r -> exists p, t_prog s c = Ret p /\ done p = Some r.

(** The answer of a Get at the end of a run. *)
Definition net_get {P} (s : tsys (P := P)) (k : string) : KvOutput :=
  get_output (sy_world (cs_sys (ks_net (t_net s)))) k.

(** C19: the append test passes over the network.  [n] clients run [OneClientAppend] through
    the simulated network, which loses, delays and reorders messages and gives requests up
    while their handlers have still to run, from an empty list under "k".  No client ever
    fails, the stored value always decodes to a list whose length is the version less one,
    a client that reports has between [Nok] and [Nok + Nmaybe] entries in it, and when all
    have reported the final [CheckAppends] passes. *)
Theorem append_test_network `{KvRoundtrip} n b kv ls s :
  Z.of_nat n <= int_max -> Z.of_nat (length ls) < int_max -> 0 <= b <= int_max -> kv_wf b kv ->
  KVServer_data kv !! "k" = Some (mkKeyValue (Marshal (entries_json [])) 1) ->
  trun (net_op append_op) (net_resume append_resume) (net_select append_select)
    (tinit kv (net_spawn n (ASelect 0 0 0))) ls = Ret s ->
  (forall c, (c < n)%nat -> exists p, t_prog s c = Ret p) /\
  exists es,
    (let got := net_get s "k" in
     GetJson into_entries (KvOutput_Value got) (KvOutput_Version got) (KvOutput_Err got) =
       Ret (es, Z.of_nat (length es) + 1)) /\
    (forall c p r, (c < n)%nat -> t_prog s c = Ret p -> append_done p = Some r ->
       Nok r <= count es (Z.of_nat c) <= Nok r + Nmaybe r) /\
    (forall rs, net_reports n append_done s rs -> CheckAppends es n rs (Z.of_nat (length es) + 1) = Ret tt).
Proof.
  intros Hn Hls Hb Hwf Hkv Hrun.
  destruct (network_run append_op append_resume append_select n (ASelect 0 0 0) kv int_max
    (fun dls Hl Hsp => append_safe n Hn kv dls Hkv Hl Hsp) append_select_op b ls s)
    as (dls & ds & Hl & Hsp & Hd & Hw & Hprog); [lia|done|unfold uint64_max, int_max in *; lia|done|done|].
  destruct (append_test_passes n kv dls) as (s0 & es & Hs0 & Hget & Hcount & Hcheck); [done|lia|done|done|].
  unfold append_run in Hs0. rewrite Hd in Hs0. injection Hs0 as <-.
  split; [intros c Hc; rewrite Hprog by done; by eexists|]. exists es. split; [|split].
  - unfold net_get. by rewrite Hw.
  - intros c p r Hc Hp Hr. rewrite Hprog in Hp by done. injection Hp as <-. by apply Hcount.
  - intros rs [Hlen Hrs]. apply Hcheck. split; [done|]. intros c r Hr. pose proof (lookup_lt_Some _ _ _ Hr) as Hc.
    destruct (Hrs c r Hr) as (p & Hp & Hdone). rewrite Hprog in Hp by lia. by injection Hp as ->.
Qed.

Module KvClientsDemo.
Import KvNetDemo KvLateDemo.

(** Client 0 appends once, and an attempt of its Put runs late; client 1 has read the empty
    list and its Put is refused. *)
Definition entry_put (es : list EntryN) (v : Tversion) : request :=
  RPut (mkPutArgs "k" (Marshal (entries_json es)) v).
Definition append_labels : list tlabel :=
  (TNet <$> setup) ++ [TSelect 0 false 0; TSelect 1 false 0] ++
  call 0 "e0" (RGet "k") 0 ++ call 1 "e1" (RGet "k") 1 ++
  call_late 0 "e0" (entry_put [mkEntryN 0 0] 1) 2 ++ call 1 "e1" (entry_put [mkEntryN 1 0] 1) 4 ++
  call 1 "e1" (RGet "k") 5 ++ call_late 1 "e1" (entry_put [mkEntryN 0 0; mkEntryN 1 0] 2) 6 ++
  [TSelect 0 true 0; TSelect 1 true 0].
Definition append_net_run : outcome (tsys (P := outcome aprog)) :=
  trun (net_op append_op) (net_resume append_resume) (net_select append_select)
    (tinit witness_server (net_spawn 2 (ASelect 0 0 0))) append_labels.

(** Both clients put once, the first one with a late attempt. *)
Definition put_req (me : nat) (v : Tversion) : request :=
  RPut (mkPutArgs "k" (Marshal (EntryV_json (mkEntryV (Z.of_nat me) v))) v).
Definition put_labels : list tlabel :=
  (TNet <$> setup) ++ [TSelect 0 false 0; TSelect 1 false 0] ++
  call_late 0 "e0" (put_req 0 0) 0 ++ call 0 "e0" (RGet "k") 2 ++
  call 1 "e1" (put_req 1 0) 3 ++ call 1 "e1" (RGet "k") 4 ++ call_late 1 "e1" (put_req 1 1) 5 ++
  call 1 "e1" (RGet "k") 7 ++ [TSelect 0 true 0; TSelect 1 true 0].
Definition put_net_run : outcome (tsys (P := outcome pprog)) :=
  trun (net_op KvTest.put_op) (net_resume put_resume) (net_select (put_select ["k"] false))
    (tinit MakeKVServer (net_spawn 2 (put_init ["k"]))) put_labels.

Definition reported {P} (done : P -> option ClntRes) (m : outcome (tsys (P := outcome P))) : list (option ClntRes) :=
  match m with
  | Ret s => (fun c => match t_prog s c with Ret p => done p | _ => None end) <$> [0; 1]%nat
  | _ => []
  end.

Lemma net_reports_two {P} (done : P -> option ClntRes) s r0 r1 :
  reported done (Ret s) = [Some r0; Some r1] -> net_reports 2 done s [r0; r1].
Proof.
  simpl. intros [= H0 H1]. split; [reflexivity|].
  intros [|[|c]] r Hr; [| |discriminate Hr]; injection Hr as <-.
  - destruct (t_prog s 0%nat) as [p| |]; [|discriminate H0..]. by exists p.
  - destruct (t_prog s 1%nat) as [p| |]; [|discriminate H1..]. by exists p.
Qed.
End KvClientsDemo.

Lemma append_test_network_witness :
  exists s es, KvClientsDemo.append_net_run = Ret s /\
    CheckAppends es 2 [mkClntRes 1 0; mkClntRes 1 0] (Z.of_nat (length es) + 1) = Ret tt.
Proof.
  assert (Hr : KvClientsDemo.reported append_done KvClientsDemo.append_net_run =
    [Some (mkClntRes 1 0); Some (mkClntRes 1 0)]) by (vm_compute; reflexivity).
  destruct KvClientsDemo.append_net_run as [s| |] eqn:E; [|discriminate Hr..].
  destruct (append_test_network 2 1 witness_server KvClientsDemo.append_labels s) as (_ & es & _ & _ & Hc).
  - vm_compute. discriminate.
  - vm_compute. reflexivity.
  - vm_compute. split; discriminate.
  - intros k d Hd. unfold witness_server in Hd. simpl in Hd. apply lookup_singleton_Some in Hd as [_ <-]. vm_compute. split; discriminate.
  - reflexivity.
  - exact E.
  - exists s, es. split; [reflexivity|]. apply Hc. by apply KvClientsDemo.net_reports_two.
Defined.

(** ** The put test *)

Lemma put_select_op ka randomkeys c p dn rand p' : put_select ka randomkeys p dn rand = Some p' -> put_op c p = None.
Proof. by destruct p. Qed.

(** A client puts with the version it has read, 0 at first. *)
Lemma put_safe n key randomkeys kv dls :
  Z.of_nat n <= int_max -> KVServer_data kv !! key = None ->
  Z.of_nat (length dls) < int_max -> Forall (spawned n) dls ->
  exists s, put_run_clients [key] randomkeys (spawn kv (put_init [key])) dls = Ret s /\
    forall c r, (c < n)%nat -> put_op c (d_prog s c) = Some r -> reads_first (d_srv s) r = true.
Proof.
  intros Hn Hkv Hl Hsp.
  destruct (put_run_inv n key randomkeys false Hn dls _ Hl (pinv_init n key false kv Hkv)) as (s & V & a & Hs & H);
    [by eapply Forall_impl; [exact Hsp|]|].
  exists s. split; [done|]. intros c r Hc Hop. pose proof (pi_clients _ _ _ _ _ _ _ H c Hc) as Hcl.
  pose proof (pi_srv _ _ _ _ _ _ _ H) as Hsrv. unfold srv_ok in Hsrv.
  destruct (d_prog s c) as [verm res|verm res k' w|verm res k' w err|r']; simpl in Hop; simplify_eq; [|done].
  simpl in Hcl. destruct Hcl as (_ & -> & Hw & _). simpl. unfold ver, kv_view.
  destruct (KVServer_data (d_srv s) !! key) as [e|]; simpl; [|lia]. destruct Hsrv as (i & _ & _ & ->). simpl. lia.
Qed.

(** C20: the put test passes over the network.  [n] clients run [OneClientPut] on one fresh key
    through the simulated network: no client ever fails, and when all have reported at least
    one put the final [CheckPutConcurrent] passes, the server's version lying between the sum
    of the [Nok] and that of [Nok + Nmaybe]. *)
Theorem put_test_network `{KvRoundtrip} n b key randomkeys kv ls s :
  Z.of_nat n <= int_max -> Z.of_nat (length ls) < int_max -> Z.of_nat n * Z.of_nat (length ls) < int_max ->
  0 <= b <= int_max -> kv_wf b kv -> KVServer_data kv !! key = None ->
  trun (net_op put_op) (net_resume put_resume) (net_select (put_select [key] randomkeys))
    (tinit kv (net_spawn n (put_init [key]))) ls = Ret s ->
  (forall c, (c < n)%nat -> exists p, t_prog s c = Ret p) /\
  forall rs, net_reports n put_done s rs -> 0 < sum_results Nok rs + sum_results Nmaybe rs ->
    let got := net_get s key in
    CheckPutConcurrent got rs (mkClntRes 0 0) false =
      Ret (mkClntRes (sum_results Nok rs) (sum_results Nmaybe rs)) /\
    sum_results Nok rs <= KvOutput_Version got <= sum_results Nok rs + sum_results Nmaybe rs.
Proof.
  intros Hn Hls Hk Hb Hwf Hkv Hrun.
  destruct (network_run put_op put_resume (put_select [key] randomkeys) n (put_init [key]) kv int_max
    (fun dls Hl Hsp => put_safe n key randomkeys kv dls Hn Hkv Hl Hsp) (put_select_op [key] randomkeys) b ls s)
    as (dls & ds & Hl & Hsp & Hd & Hw & Hprog); [lia|done|unfold uint64_max, int_max in *; lia|done|done|].
  destruct (put_test_passes n key randomkeys false kv dls) as (s0 & Hs0 & Hcheck); [done|lia|nia| |done|].
  { by eapply Forall_impl; [exact Hsp|]. }
  unfold put_run_clients in Hs0. rewrite Hd in Hs0. injection Hs0 as <-.
  split; [intros c Hc; rewrite Hprog by done; by eexists|]. intros rs [Hlen Hrs] Hpos got.
  destruct (Hcheck rs) as (H1 & H2 & _); [|done|].
  - split; [done|]. intros c r Hr. pose proof (lookup_lt_Some _ _ _ Hr) as Hc.
    destruct (Hrs c r Hr) as (p & Hp & Hdone). rewrite Hprog in Hp by lia. by injection Hp as ->.
  - subst got. unfold net_get. rewrite Hw. by split.
Qed.

Lemma put_test_network_witness :
  exists s rs, KvClientsDemo.put_net_run = Ret s /\ sum_results Nok rs + sum_results Nmaybe rs = 2 /\
    CheckPutConcurrent (net_get s "k") rs (mkClntRes 0 0) false =
      Ret (mkClntRes (sum_results Nok rs) (sum_results Nmaybe rs)).
Proof.
  assert (Hr : KvClientsDemo.reported put_done KvClientsDemo.put_net_run =
    [Some (mkClntRes 1 0); Some (mkClntRes 1 0)]) by (vm_compute; reflexivity).
  destruct KvClientsDemo.put_net_run as [s| |] eqn:E; [|discriminate Hr..].
  destruct (put_test_network 2 0 "k" false MakeKVServer KvClientsDemo.put_labels s) as (_ & Hc).
  - vm_compute. discriminate.
  - vm_compute. reflexivity.
  - vm_compute. reflexivity.
  - vm_compute. split; discriminate.
  - apply kv_wf_init.
  - reflexivity.
  - exact E.
  - exists s, [mkClntRes 1 0; mkClntRes 1 0]. split; [reflexivity|]. split; [reflexivity|].
    apply (Hc [mkClntRes 1 0; mkClntRes 1 0]); [by apply KvClientsDemo.net_reports_two|reflexivity].
Defined.
