(* ===== verification/ShardPart.v ===== *)
(** Controllers that are cut off and controllers that run together ([partitionCtrler] and
    [concurCtrler] of [shardkv1/test.go]): goroutines that let groups join and leave, one
    step at a time, against a controller that recovers an unfinished change or that
    refuses a change of a configuration that is not the current one. *)
From S2P Require Import Prelude.
From stdpp Require Import pretty.
From S2P Require Import Labrpc.
From S2P Require Import Tester.
From S2P Require Import TestCfg.
From S2P Require Import ShardCfg.
From S2P Require Import KvSrv.
From S2P Require Import KvTest.
From S2P Require Import ShardTest.
From S2P Require Import TestLife.
Open Scope Z_scope.

(** ** The goroutines *)

(** [ChangeConfigTo] of a controller whose client is disconnected after some requests: the
    first argument says how far it has come. *)
Class Interruptible (C : Type) := ChangeConfigTo_upto : nat -> C -> ShardConfig -> C.

(** Where a goroutine is; [new] is what it computed from the configuration it has read. *)
Inductive gpc :=
| GNew                            (* top of the loop: [newGid] *)
| GInit                           (* [concurCtrler]: make a controller *)
| GJoin                           (* [partitionCtrler]: [state = JOIN] *)
| GStart                          (* [joinGroups]: [MakeGroupStart] *)
| GJoinQuery                      (* [join] up to [ChangeConfigTo] *)
| GJoinChange (new : ShardConfig)
| GJoinMember                     (* [checkMember] of [joinGroups] *)
| GMember                         (* [checkMember] of the loop *)
| GLeave                          (* [partitionCtrler]: [state = LEAVE] *)
| GLeaveQuery                     (* [leave] up to [ChangeConfigTo] *)
| GLeaveChange (new : ShardConfig)
| GLeaveMember                    (* [checkMember] of [leaveGroups] *)
| GExit                           (* [ExitGroup] *)
| GDone.


Section Goroutine.
Context {C : Type} `{ShardCtrler C}.
Variable Randstring : nat -> string.

(** [join] and [leave] up to the change. *)
Definition join_query (ts : stest C) (gid : Z) : outcome (stest C * ShardConfig) :=
  srvs ← grp_SrvNames ts gid;
  '(ctl, cfg) ← Query (st_ctl ts);
  cfg ← deref_cfg cfg;
  '(newcfg, ok) ← JoinBalance (Copy cfg) [(gid, srvs)];
  if ok : bool then Ret (set_ctl ts ctl, newcfg) else Panic.

Definition leave_query (ts : stest C) (gid : Z) : outcome (stest C * ShardConfig) :=
  '(ctl, cfg) ← Query (st_ctl ts);
  cfg ← deref_cfg cfg;
  '(newcfg, ok) ← LeaveBalance (Copy cfg) [gid];
  if ok : bool then Ret (set_ctl ts ctl, newcfg) else Panic.

Definition change (ts : stest C) (new : ShardConfig) : outcome (stest C) :=
  ctl ← ChangeConfigTo (st_ctl ts) new; Ret (set_ctl ts ctl).

(** The steps of [joinGroups] and [leaveGroups] for one group; after a [leaveGroups] the
    loop of the goroutine starts again. *)
Definition group_step (ts : stest C) (gid : Z) (pc : gpc) : outcome (stest C * gpc) :=
  match pc with
  | GStart => ts ← start_group Randstring ts gid; Ret (ts, GJoinQuery)
  | GJoinQuery => '(ts, new) ← join_query ts gid; Ret (ts, GJoinChange new)
  | GJoinChange new => ts ← change ts new; Ret (ts, GJoinMember)
  | GJoinMember => '(ts, _) ← checkMember ts gid; Ret (ts, GMember)
  | GLeaveQuery => '(ts, new) ← leave_query ts gid; Ret (ts, GLeaveChange new)
  | GLeaveChange new => ts ← change ts new; Ret (ts, GLeaveMember)
  | GLeaveMember => '(ts, ok) ← checkMember ts gid; Ret (ts, if ok : bool then GNew else GExit)
  | GExit => cfg ← ExitGroup (st_cfg ts) gid; Ret (set_cfg ts cfg, GNew)
  | _ => Ret (ts, pc)
  end.

(** ** [partitionCtrler] *)


(** The variables [state] and [ngid] belong to the goroutine and are read by the test. *)
Record part := mkPart { pt_ts : stest C; pt_state : Z; pt_ngid : Z; pt_pc : gpc }.




Definition on_part (p : part) (f : Config -> outcome Config) : outcome part :=
  cfg ← f (st_cfg (pt_ts p)); Ret (mkPart (set_cfg (pt_ts p) cfg) (pt_state p) (pt_ngid p) (pt_pc p)).


Context `{Interruptible C}.






(** The end: the old controller is connected again when the test is about partitions, the
    clerk reads every key (its answers are [get]), and the two clients are deleted. *)
Definition check_gets (get : string -> string * Tversion * Err) (ka va : list string) : outcome unit :=
  foldM (fun _ (kv : string * string) =>
    let '(val, ver, err) := get kv.1 in
    if negb (bool_decide (err = OK)) then Panic
    else if negb (bool_decide (val = kv.2)) || negb (ver =? 1) then Panic
    else Ret tt) (zip ka va) tt.

Definition part_finish (partition : bool) (get : string -> string * Tversion * Err) (ka va : list string)
    (clnt clnt0 : nat) (p : part) : outcome part :=
  p ← on_part p (fun c => if partition then Config_ConnectAll c clnt else Ret c);
  check_gets get ka va ;;
  on_part p (fun c => c ← DeleteClient c clnt; DeleteClient c clnt0).

(** ** [concurCtrler] *)

(** A goroutine [f]: its variable [ngid] and where it is. *)
Record thread := mkThread { th_ngid : Z; th_pc : gpc }.
Record concur := mkConcur { cc_ts : stest C; cc_threads : list thread }.

Definition thread_step (ts : stest C) (th : thread) : outcome (stest C * thread) :=
  let '(mkThread ngid pc) := th in
  match pc with
  | GInit =>
      '(ts, _) ← makeShardCtrlerClnt ts;
      ctl ← InitController (st_ctl ts);
      Ret (set_ctl ts ctl, mkThread ngid GStart)
  | GMember => '(ts, ok) ← checkMember ts ngid; Ret (ts, mkThread ngid (if ok : bool then GLeaveQuery else GNew))
  | _ => '(ts, pc) ← group_step ts ngid pc; Ret (ts, mkThread ngid pc)
  end.

(** Goroutine [i] goes round its loop once more, makes a step inside it, or takes the test's
    message at the top of it. *)
Inductive clabel := CNew (i : nat) | CStep (i : nat) | CStop (i : nat).

Definition concur_step (s : concur) (l : clabel) : outcome concur :=
  let i := match l with CNew i | CStep i | CStop i => i end in
  match l, cc_threads s !! i with
  | CNew _, Some (mkThread _ GNew) =>
      let '(ts, ngid) := newGid (cc_ts s) in Ret (mkConcur ts (<[i := mkThread ngid GInit]> (cc_threads s)))
  | CStop _, Some (mkThread ngid GNew) => Ret (mkConcur (cc_ts s) (<[i := mkThread ngid GDone]> (cc_threads s)))
  | CStep _, Some th => '(ts, th) ← thread_step (cc_ts s) th; Ret (mkConcur ts (<[i := th]> (cc_threads s)))
  | _, _ => Ret s
  end.

Definition NCTRL : nat := 4.
Definition concur_init (ts : stest C) : concur := mkConcur ts (replicate NCTRL (mkThread 0 GNew)).
Definition concurCtrler (ts : stest C) (ls : list clabel) : outcome concur := foldM concur_step ls (concur_init ts).
End Goroutine.
Arguments part : clear implicits.
Arguments concur : clear implicits.

(** ** The contracts of the controller *)

(** What the comments say of a controller that others follow.  [shardctrler.go]:
    [InitController] "implements recovery"; [test.go] of [partitionCtrler]: the next
    controller "must finish the first ctrler's unfinished shard moves".  So the store may
    hold a change that is begun and not finished; a call that returns leaves none, and
    [InitController] finishes the one it finds. *)
Class Recovering (C : Type) `{Sequential C} := {
  pending : C -> option ShardConfig;
  Query_pending c c' cfg : Query c = Ret (c', cfg) -> pending c' = pending c;
  Change_pending c new c' : pending c = None -> ChangeConfigTo c new = Ret c' -> pending c' = None;
  InitController_recovers c : exists c', InitController c = Ret c' /\ pending c' = None /\
    current c' = match pending c with Some new => Some new | None => current c end
}.

(** A change that is cut off has not begun, has begun, or is made. *)
Class CutOff (C : Type) `{Recovering C} `{Interruptible C} := {
  upto_spec k c cfg new : current c = Some cfg -> pending c = None -> Num new = wrap64 (Num cfg + 1) ->
    let c' := ChangeConfigTo_upto k c new in
    (current c' = Some cfg /\ (pending c' = None \/ pending c' = Some new)) \/
    (current c' = Some new /\ pending c' = None)
}.

(** [shardctrler.go]: a controller "may be superseded by another controller" while it changes
    the configuration; [test.go]: it then "should bail out".  A controller whose new
    configuration does not follow the current one has been superseded and changes nothing;
    a change takes effect, or is refused, at one moment of its call. *)
Class Refusing (C : Type) `{Recovering C} := {
  Change_refused c cfg new : current c = Some cfg -> pending c = None -> Num new <> wrap64 (Num cfg + 1) ->
    exists c', ChangeConfigTo c new = Ret c' /\ current c' = Some cfg
}.

(** ** The tables of clients *)

Definition same_clients (c c' : Config) : Prop := cf_clnts c' = cf_clnts c /\ cf_clerks c' = cf_clerks c.

Lemma on_group_clients c gid op c' : on_group c gid op = Ret c' -> same_clients c c'.
Proof. unfold on_group. destruct (lookupGroup c gid) as [g0|]; [|done]. intros (g & _ & [= <-])%outcome_bind_inv. done. Qed.

Lemma MakeGroupStart_clients Randstring c gid n c' : MakeGroupStart Randstring c gid n = Ret c' -> same_clients c c'.
Proof.
  unfold MakeGroupStart, MakeGroup. intros (c1 & (g & _ & [= <-])%outcome_bind_inv & H)%outcome_bind_inv.
  by apply on_group_clients in H.
Qed.

Lemma ExitGroup_clients c gid c' : ExitGroup c gid = Ret c' -> same_clients c c'.
Proof. unfold ExitGroup. intros (c1 & H%on_group_clients & [= <-])%outcome_bind_inv. done. Qed.

(** ** Steps of a goroutine that joins and leaves *)

Section Steps.
Context {C : Type} `{Sequential C}.
Variable Randstring : nat -> string.
Hypothesis Rand_inj : forall i j, Randstring i = Randstring j -> i = j.

(** Alone, the goroutine finds what it has changed; among others its change may have been
    refused.  [P] is what the store keeps besides its current configuration. *)
Variable solo : bool.
Variable P : C -> Prop.
Hypothesis refuses : solo = false -> forall c cfg new, current c = Some cfg -> P c -> Num new <> wrap64 (Num cfg + 1) ->
  exists c', ChangeConfigTo c new = Ret c' /\ current c' = Some cfg.
Hypothesis P_Query : forall c c' cfg, P c -> Query c = Ret (c', cfg) -> P c'.
Hypothesis P_Change : forall c c' new, P c -> ChangeConfigTo c new = Ret c' -> P c'.

(** [new] follows [cfg], with the groups [G]. *)
Definition next_ok (cfg new : ShardConfig) (G : gmap Z (list string)) : Prop :=
  cfg_good new /\ Num new = Num cfg + 1 /\ Groups new = G.

(** What a goroutine computed some time ago follows the configuration, if that is still the
    one it has read. *)
Definition computed (cfg new : ShardConfig) (G : gmap Z (list string)) : Prop :=
  Num new - 1 <= Num cfg /\ (Num new = Num cfg + 1 -> next_ok cfg new G) /\ (solo = true -> Num new = Num cfg + 1).

Definition th_inv (ts : stest C) (cfg : ShardConfig) (gid : Z) (pc : gpc) : Prop :=
  match pc with
  | GNew | GDone => True
  | GInit | GJoin | GStart => 0 < gid /\ Groups cfg !! gid = None
  | GJoinQuery => 0 < gid /\ group_up (st_cfg ts) gid /\ Groups cfg !! gid = None
  | GJoinChange new => 0 < gid /\ group_up (st_cfg ts) gid /\ Groups cfg !! gid = None /\
      computed cfg new (<[gid := group_srvs gid]> (Groups cfg))
  | GJoinMember | GMember => 0 < gid /\ group_up (st_cfg ts) gid /\ (solo = true -> is_Some (Groups cfg !! gid))
  | GLeave | GLeaveQuery => 0 < gid /\ is_Some (Groups cfg !! gid)
  | GLeaveChange new => 0 < gid /\ is_Some (Groups cfg !! gid) /\ computed cfg new (delete gid (Groups cfg))
  | GLeaveMember => 0 < gid /\ group_up (st_cfg ts) gid /\ (solo = true -> Groups cfg !! gid = None)
  | GExit => 0 < gid /\ group_up (st_cfg ts) gid /\ Groups cfg !! gid = None
  end.

(** What the step of a goroutine on group [gid] leaves to the others. *)
Record evolves (gid : Z) (ts ts' : stest C) : Prop := {
  ev_grp g : g <> gid -> cf_grps (st_cfg ts') !! g = cf_grps (st_cfg ts) !! g;
  ev_pers : (length (cf_persisters (st_cfg ts)) <= length (cf_persisters (st_cfg ts')))%nat;
  ev_clnts : (length (cf_clnts (st_cfg ts)) <= length (cf_clnts (st_cfg ts')))%nat;
  ev_clerks : is_Some (cf_clerks (st_cfg ts)) -> is_Some (cf_clerks (st_cfg ts'));
  ev_ngid : st_ngid ts' = st_ngid ts
}.

Definition cfg_step (gid : Z) (cfg cfg' : ShardConfig) : Prop :=
  cfg' = cfg \/ (Num cfg' = Num cfg + 1 /\ forall g, g <> gid -> Groups cfg' !! g = Groups cfg !! g).

Lemma ev_up gid ts ts' g : evolves gid ts ts' -> g <> gid -> group_up (st_cfg ts) g -> group_up (st_cfg ts') g.
Proof. intros [Eg Ep _ _ _] Hne. apply group_up_mono; [by apply Eg|done]. Qed.

Lemma evolves_refl gid ts ts' : st_cfg ts' = st_cfg ts -> st_ngid ts' = st_ngid ts -> evolves gid ts ts'.
Proof. intros Hc Hn. split; rewrite ?Hc; done. Qed.

(** A predicate of one goroutine is stable under the steps of the others. *)
Lemma th_inv_stable gid gid' ts ts' cfg cfg' pc :
  solo = false -> gid' <> gid -> evolves gid ts ts' -> cfg_step gid cfg cfg' ->
  th_inv ts cfg gid' pc -> th_inv ts' cfg' gid' pc.
Proof.
  intros Hs Hne Hev Hc Hinv. pose proof (ev_up gid ts ts' gid' Hev Hne) as Eu.
  assert (Hl : Groups cfg' !! gid' = Groups cfg !! gid') by (destruct Hc as [->|[_ Hc]]; [done|by apply Hc]).
  assert (Hcomp : forall new G G', (cfg' = cfg -> G' = G) -> computed cfg new G -> computed cfg' new G').
  { intros new G G' HG (C1 & C2 & C3). destruct Hc as [->|[Hn _]]; [by rewrite HG|].
    split; [lia|]. split; [lia|congruence]. }
  destruct pc; simpl in *; rewrite ?Hl; try done.
  - destruct Hinv as (? & ? & ?). auto.
  - destruct Hinv as (? & ? & ? & Hcm). split; [done|]. split; [auto|]. split; [done|].
    eapply (Hcomp new); [|exact Hcm]. by intros ->.
  - destruct Hinv as (? & ? & ?). auto.
  - destruct Hinv as (? & ? & ?). auto.
  - destruct Hinv as (? & ? & Hcm). split; [done|]. split; [done|]. eapply (Hcomp new); [|exact Hcm]. by intros ->.
  - destruct Hinv as (? & ? & ?). auto.
  - destruct Hinv as (? & ? & ?). auto.
Qed.

(** *** One step each *)

Lemma start_ok ts cfg gid :
  ready Randstring ts cfg ->
  exists ts', start_group Randstring ts gid = Ret ts' /\ ready Randstring ts' cfg /\ st_ctl ts' = st_ctl ts /\
    evolves gid ts ts' /\ group_up (st_cfg ts') gid.
Proof.
  intros [Hc Hg Hb Hs Hu Hn]. unfold start_group.
  destruct (MakeGroupStart_ok Randstring (st_cfg ts) gid NSRV Rand_inj Hn)
    as (c' & g & E & Hlk & Hnb & _ & _ & _ & _ & Hother & (Hid & Hwf & Hsv) & Hle).
  destruct (MakeGroupStart_clients _ _ _ _ _ E) as [E1 E2]. rewrite E. step_bind. eexists. split; [done|].
  assert (Hup : forall g', group_up (st_cfg ts) g' -> group_up c' g').
  { intros g' Hg'. destruct (decide (g' = gid)) as [->|Hne]; [by exists g|].
    apply (group_up_mono (st_cfg ts)); [by apply Hother|done|done]. }
  split; [|split; [done|split; [|by exists g]]].
  - split; simpl; auto.
  - split; simpl; try done; rewrite ?E1, ?E2; done.
Qed.

Lemma next_of cfg new G : int_min <= Num cfg < int_max -> cfg_good new -> Num new = wrap64 (Num cfg + 1) ->
  Groups new = G -> next_ok cfg new G.
Proof. intros Hb Hg Hn HG. split; [done|]. split; [|done]. rewrite Hn, wrap64_id; lia. Qed.

Lemma computed_now cfg new G : next_ok cfg new G -> computed cfg new G.
Proof. intros Hn. pose proof Hn as (_ & HN & _). split; [lia|]. by split. Qed.

(** A configuration that is read. *)
Lemma Query_ready ts cfg : ready Randstring ts cfg -> P (st_ctl ts) ->
  exists ctl, Query (st_ctl ts) = Ret (ctl, Some cfg) /\ ready Randstring (set_ctl ts ctl) cfg /\ P ctl.
Proof.
  intros Hr HP. pose proof Hr as [Hc Hg Hb Hs Hu Hn]. destruct (Query_current (st_ctl ts)) as (ctl & Hq & Hcur).
  rewrite Hc in Hq, Hcur. exists ctl. split; [done|]. split; [by split|by eapply P_Query].
Qed.

Lemma join_query_ok ts cfg gid :
  ready Randstring ts cfg -> P (st_ctl ts) -> Num cfg < int_max ->
  0 < gid -> group_up (st_cfg ts) gid -> Groups cfg !! gid = None ->
  exists ctl new, join_query ts gid = Ret (set_ctl ts ctl, new) /\ ready Randstring (set_ctl ts ctl) cfg /\ P ctl /\
    next_ok cfg new (<[gid := group_srvs gid]> (Groups cfg)).
Proof.
  intros Hr HP Hb Hpos (g & Hlk & Hid & Hwf & Hsv) Hnone.
  destruct (Query_ready ts cfg Hr HP) as (ctl & Hq & Hr' & HP').
  unfold join_query, grp_SrvNames. rewrite Hlk. step_bind. rewrite Hq. step_bind. cbn [deref_cfg mbind outcome_bind].
  rewrite (group_up_SrvNames _ gid g Hlk Hid) by apply (gw_srvs _ _ Hwf). rewrite Copy_id.
  pose proof Hr as [Hc Hg Hnb Hs Hu Hn].
  assert (Hsh : shares_server (group_srvs gid) (Groups cfg) = false).
  { apply shares_server_false. intros g' xs x Hg' Hx Hx'. destruct (Hs _ _ Hg') as [Hp ->].
    assert (He : g' = gid) by (apply (group_srvs_disjoint g' gid x); [lia|lia|done|done]). subst g'. congruence. }
  destruct (JoinBalance_one cfg gid (group_srvs gid) (cg_wf _ Hg) Hnone Hsh) as (new & Hj & Hg' & Hnum & Hgrp).
  rewrite Hj. clear Hj. step_bind. exists ctl, new. split; [done|]. split; [done|]. split; [done|]. apply next_of; [lia|done..].
Qed.

Lemma leave_query_ok ts cfg gid :
  ready Randstring ts cfg -> P (st_ctl ts) -> Num cfg < int_max -> is_Some (Groups cfg !! gid) ->
  exists ctl new, leave_query ts gid = Ret (set_ctl ts ctl, new) /\ ready Randstring (set_ctl ts ctl) cfg /\ P ctl /\
    next_ok cfg new (delete gid (Groups cfg)).
Proof.
  intros Hr HP Hb Hin. destruct (Query_ready ts cfg Hr HP) as (ctl & Hq & Hr' & HP').
  unfold leave_query. rewrite Hq. step_bind. cbn [deref_cfg mbind outcome_bind]. rewrite Copy_id.
  pose proof Hr as [Hc Hg Hnb Hs Hu Hn].
  destruct (LeaveBalance_one cfg gid (cg_wf _ Hg) Hin) as (new & Hj & Hg' & Hnum & Hgrp).
  rewrite Hj. clear Hj. step_bind. exists ctl, new. split; [done|]. split; [done|]. split; [done|]. apply next_of; [lia|done..].
Qed.

(** Groups that are added are up, groups that stay are as they were. *)
Lemma ready_next ts cfg new G ctl :
  ready Randstring ts cfg -> current ctl = Some new -> next_ok cfg new G -> Num cfg < int_max ->
  (forall g srvs, G !! g = Some srvs -> Groups cfg !! g = Some srvs \/
     (0 < g /\ srvs = group_srvs g /\ group_up (st_cfg ts) g)) ->
  ready Randstring (set_ctl ts ctl) new.
Proof.
  intros [Hc Hg Hb Hs Hu Hn] Hcur (Hgood & Hnum & HG) Hlt HGs. split; simpl; try done.
  - lia.
  - intros g srvs. rewrite HG. intros [Hl|(? & ? & _)]%HGs; [by apply Hs|done].
  - intros g [srvs Hl]. rewrite HG in Hl. apply HGs in Hl as [Hl|(_ & _ & Hup)]; [apply Hu; by exists srvs|done].
Qed.

Lemma change_ok ts cfg new gid G :
  ready Randstring ts cfg -> P (st_ctl ts) -> Num cfg < int_max -> computed cfg new G ->
  (forall g srvs, G !! g = Some srvs -> Groups cfg !! g = Some srvs \/
     (0 < g /\ srvs = group_srvs g /\ group_up (st_cfg ts) g)) ->
  (forall g, g <> gid -> G !! g = Groups cfg !! g) ->
  exists ctl cfg', change ts new = Ret (set_ctl ts ctl) /\ ready Randstring (set_ctl ts ctl) cfg' /\ P ctl /\
    cfg_step gid cfg cfg' /\ (solo = true -> Groups cfg' = G).
Proof.
  intros Hr HP Hb (C1 & C2 & C3) HG Hoth. pose proof Hr as [Hc Hg Hnb Hs Hu Hn].
  assert (Hw : wrap64 (Num cfg + 1) = Num cfg + 1) by (apply wrap64_id; lia). unfold change.
  destruct (decide (Num new = Num cfg + 1)) as [He|Hne].
  - destruct (ChangeConfigTo_current (st_ctl ts) cfg new Hc) as (ctl & E & Hcur); [congruence|].
    rewrite E. step_bind. exists ctl, new. pose proof (C2 He) as Hnext.
    split; [done|]. split; [by eapply ready_next|]. split; [by eapply P_Change|]. destruct Hnext as (_ & _ & HGn).
    split; [|done]. right. split; [done|]. intros g Hg'. rewrite HGn. by apply Hoth.
  - destruct solo eqn:Hsolo; [by destruct Hne, C3|].
    destruct (refuses eq_refl (st_ctl ts) cfg new Hc HP) as (ctl & E & Hcur); [congruence|].
    rewrite E. step_bind. exists ctl, cfg. split; [done|]. split; [by split|]. split; [by eapply P_Change|].
    split; [by left|done].
Qed.

Lemma checkMember_ok ts cfg gid : ready Randstring ts cfg -> P (st_ctl ts) ->
  exists ctl, checkMember ts gid = Ret (set_ctl ts ctl, IsMember cfg gid) /\
    ready Randstring (set_ctl ts ctl) cfg /\ P ctl.
Proof.
  intros Hr HP. destruct (Query_ready ts cfg Hr HP) as (ctl & Hq & Hr' & HP').
  unfold checkMember. rewrite Hq. step_bind. by exists ctl.
Qed.

Lemma IsMember_in cfg gid : cfg_good cfg -> 0 < gid -> IsMember cfg gid = true -> is_Some (Groups cfg !! gid).
Proof.
  intros Hgood Hpos Hm. apply IsMember_shards in Hm. destruct Hgood as [Hwf He Ha Hb].
  apply list_elem_of_lookup in Hm as [k Hk].
  destruct (decide (Groups cfg = ∅)) as [Hemp|Hne]; [|by apply (Ha Hne k)].
  rewrite (He Hemp k gid Hk) in Hpos. lia.
Qed.

Lemma exit_ok ts cfg gid :
  ready Randstring ts cfg -> group_up (st_cfg ts) gid -> Groups cfg !! gid = None ->
  exists c', ExitGroup (st_cfg ts) gid = Ret c' /\ ready Randstring (set_cfg ts c') cfg /\
    evolves gid ts (set_cfg ts c') /\ lookupGroup c' gid = None.
Proof.
  intros [Hc Hg Hb Hs Hu Hn] (g & Hlk & Hid & Hwf & Hsv) Hnone.
  destruct (ExitGroup_ok (st_cfg ts) gid NSRV g Hlk Hwf Hsv)
    as (c' & E & Hgone & _ & _ & _ & _ & Hother & Hle & Hrn & Hnm).
  destruct (ExitGroup_clients _ _ _ E) as [E1 E2]. exists c'. split; [done|].
  assert (Hup : forall g', g' <> gid -> group_up (st_cfg ts) g' -> group_up c' g').
  { intros g' Hne. apply group_up_mono; [by apply Hother|done]. }
  split; [|split; [|done]].
  - split; simpl; try done.
    + intros g' Hg'. apply Hup; [|by apply Hu]. intros ->. rewrite Hnone in Hg'. by destruct Hg'.
    + unfold names_below. rewrite Hrn, Hnm. exact Hn.
  - split; simpl; try done; rewrite ?E1, ?E2; done.
Qed.

(** *** A step of [joinGroups] or [leaveGroups] *)

Definition in_groups (pc : gpc) : bool :=
  match pc with
  | GStart | GJoinQuery | GJoinChange _ | GJoinMember | GLeaveQuery | GLeaveChange _ | GLeaveMember | GExit => true
  | _ => false
  end.

Definition changes (pc : gpc) : bool := match pc with GJoinChange _ | GLeaveChange _ => true | _ => false end.

Lemma group_step_ok ts cfg gid pc :
  ready Randstring ts cfg -> P (st_ctl ts) -> Num cfg < int_max -> (solo = false -> (size (Groups cfg) <= NShards)%nat) ->
  th_inv ts cfg gid pc -> in_groups pc = true ->
  exists ts' pc' cfg', group_step Randstring ts gid pc = Ret (ts', pc') /\
    ready Randstring ts' cfg' /\ P (st_ctl ts') /\ th_inv ts' cfg' gid pc' /\ evolves gid ts ts' /\
    (changes pc = false -> cfg' = cfg) /\ cfg_step gid cfg cfg'.
Proof.
  intros Hr HP Hb Hsz Hinv Hin. destruct pc; try discriminate Hin; simpl in Hinv; cbn [group_step].
  - destruct Hinv as [Hpos Hnone]. destruct (start_ok ts cfg gid Hr) as (ts' & -> & Hr' & Hctl & Hev & Hup). step_bind.
    exists ts', GJoinQuery, cfg. rewrite Hctl. split; [done|]. split; [done|]. split; [done|]. split; [done|].
    split; [done|split; [done|by left]].
  - destruct Hinv as (Hpos & Hup & Hnone).
    destruct (join_query_ok ts cfg gid Hr HP Hb Hpos Hup Hnone) as (ctl & new & -> & Hr' & HP' & Hnext). step_bind.
    exists (set_ctl ts ctl), (GJoinChange new), cfg. split; [done|]. split; [done|]. split; [done|]. split.
    + split; [done|]. split; [done|]. split; [done|]. by apply computed_now.
    + split; [by apply evolves_refl|split; [done|by left]].
  - destruct Hinv as (Hpos & Hup & Hnone & Hcm).
    destruct (change_ok ts cfg new gid _ Hr HP Hb Hcm) as (ctl & cfg' & -> & Hr' & HP' & Hstep & Hsolo).
    { intros g srvs [[<- <-]|[_ Hl]]%lookup_insert_Some; [right|left]; done. }
    { intros g Hne. by rewrite lookup_insert_ne. }
    step_bind. exists (set_ctl ts ctl), GJoinMember, cfg'. split; [done|]. split; [done|]. split; [done|]. split.
    + split; [done|]. split; [done|]. intros Hs. rewrite (Hsolo Hs), lookup_insert_eq. by eexists.
    + split; [by apply evolves_refl|by split].
  - destruct (checkMember_ok ts cfg gid Hr HP) as (ctl & -> & Hr' & HP'). step_bind.
    exists (set_ctl ts ctl), GMember, cfg. split; [done|]. split; [done|]. split; [done|]. split; [exact Hinv|].
    split; [by apply evolves_refl|split; [done|by left]].
  - destruct Hinv as (Hpos & Hsome).
    destruct (leave_query_ok ts cfg gid Hr HP Hb Hsome) as (ctl & new & -> & Hr' & HP' & Hnext). step_bind.
    exists (set_ctl ts ctl), (GLeaveChange new), cfg. split; [done|]. split; [done|]. split; [done|]. split.
    + split; [done|]. split; [done|]. by apply computed_now.
    + split; [by apply evolves_refl|split; [done|by left]].
  - destruct Hinv as (Hpos & Hsome & Hcm).
    destruct (change_ok ts cfg new gid _ Hr HP Hb Hcm) as (ctl & cfg' & -> & Hr' & HP' & Hstep & Hsolo).
    { intros g srvs [_ Hl]%lookup_delete_Some. by left. }
    { intros g Hne. by rewrite lookup_delete_ne. }
    step_bind. exists (set_ctl ts ctl), GLeaveMember, cfg'. split; [done|]. split; [done|]. split; [done|]. split.
    + split; [done|]. split; [by apply (rd_up _ _ _ Hr)|]. intros Hs. by rewrite (Hsolo Hs), lookup_delete_eq.
    + split; [by apply evolves_refl|by split].
  - destruct Hinv as (Hpos & Hup & Hsolo). destruct (checkMember_ok ts cfg gid Hr HP) as (ctl & -> & Hr' & HP'). step_bind.
    exists (set_ctl ts ctl), (if IsMember cfg gid then GNew else GExit), cfg. split; [done|]. split; [done|]. split; [done|].
    split; [|split; [by apply evolves_refl|split; [done|by left]]].
    destruct (IsMember cfg gid) eqn:Hm; [done|]. split; [done|]. split; [done|].
    destruct solo; [by apply Hsolo|]. rewrite (IsMember_spec cfg gid (rd_good _ _ _ Hr) (Hsz eq_refl)) in Hm by lia.
    apply bool_decide_eq_false in Hm. destruct (Groups cfg !! gid); [by destruct Hm; eexists|done].
  - destruct Hinv as (Hpos & Hup & Hnone). destruct (exit_ok ts cfg gid Hr Hup Hnone) as (c' & -> & Hr' & Hev & _). step_bind.
    exists (set_cfg ts c'), GNew, cfg. split; [done|]. split; [done|]. split; [done|]. split; [done|]. split; [done|split; [done|by left]].
Qed.
End Steps.

(** ** Controllers that run together *)

Definition has_gid (pc : gpc) : bool := match pc with GNew | GDone => false | _ => true end.
Definition is_new (l : clabel) : bool := match l with CNew _ => true | _ => false end.
Definition news (ls : list clabel) : nat := length (filter (fun l => is_new l = true) ls).

(** A query changes nothing that is unfinished. *)
Lemma Query_none `{Recovering C} c c' cfg : pending c = None -> Query c = Ret (c', cfg) -> pending c' = None.
Proof. intros Hp Hq. by rewrite (Query_pending c c' cfg Hq). Qed.

Section Concur.
Context {C : Type} `{Refusing C}.
Variable Randstring : nat -> string.
Hypothesis Rand_inj : forall i j, Randstring i = Randstring j -> i = j.

(** In every state of a run the current configuration has at most as many groups as
    shards. *)
Fixpoint roomy (s : concur C) (ls : list clabel) : bool :=
  match current (st_ctl (cc_ts s)) with Some cfg => (size (Groups cfg) <=? NShards)%nat | None => true end &&
  match ls with
  | [] => true
  | l :: ls' => match concur_step Randstring s l with Ret s' => roomy s' ls' | _ => true end
  end.

(** The configuration before, and the first number for a new group. *)
Variable B : gmap Z (list string).
Variable lo : Z.
Hypothesis HB : forall g, lo <= g -> B !! g = None.
Hypothesis Hlo : 0 < lo.

Notation tinv := (th_inv false).

Lemma thread_step_ok ts cfg th :
  ready Randstring ts cfg -> pending (st_ctl ts) = None -> Num cfg < int_max -> (size (Groups cfg) <= NShards)%nat ->
  is_Some (cf_clerks (st_cfg ts)) -> tinv ts cfg (th_ngid th) (th_pc th) ->
  exists ts' th' cfg', thread_step Randstring ts th = Ret (ts', th') /\ th_ngid th' = th_ngid th /\
    (has_gid (th_pc th') = true -> has_gid (th_pc th) = true) /\
    ready Randstring ts' cfg' /\ pending (st_ctl ts') = None /\ tinv ts' cfg' (th_ngid th') (th_pc th') /\ evolves (th_ngid th) ts ts' /\
    (has_gid (th_pc th) = false -> cfg' = cfg) /\ cfg_step (th_ngid th) cfg cfg'.
Proof.
  intros Hr HP Hb Hsz Hcl Hinv. destruct th as [gid pc]. simpl in *.
  destruct (in_groups pc) eqn:Hin.
  - destruct (group_step_ok Randstring Rand_inj false (fun c => pending c = None) (fun _ => Change_refused) Query_none
      (fun c c' new Hp => Change_pending c new c' Hp) ts cfg gid pc Hr HP Hb (fun _ => Hsz) Hinv Hin)
      as (ts' & pc' & cfg' & E & Hr' & HP' & Hinv' & Hev & _ & Hst).
    exists ts', (mkThread gid pc'), cfg'. destruct pc; try discriminate Hin; cbn [thread_step]; rewrite E; (split; [done|]); done.
  - destruct pc; try discriminate Hin; simpl in *.
    + exists ts, (mkThread gid GNew), cfg. do 8 (split; [by (done || apply evolves_refl)|]). by left.
    + unfold makeShardCtrlerClnt, MakeClient, MakeClientTo. destruct Hcl as [clerks ->]. step_bind.
      destruct (InitController_recovers (st_ctl ts)) as (ctl & Ei & Hp & Hc). rewrite HP in Hc.
      cbn [set_cfg st_ctl]. rewrite Ei. step_bind.
      eexists _, (mkThread gid GStart), cfg. split; [done|]. split; [done|]. split; [done|]. split.
      { destruct Hr as [R1 R2 R3 R4 R5 R6]. split; simpl; congruence || done. }
      split; [done|]. split; [done|]. split; [|split; [done|by left]]. split; simpl; [done|done|rewrite length_app; lia|by eexists|done].
    + exists ts, (mkThread gid GJoin), cfg. do 8 (split; [by (done || apply evolves_refl)|]). by left.
    + destruct Hinv as (Hpos & Hup & _).
      destruct (checkMember_ok Randstring (fun c => pending c = None) Query_none ts cfg gid Hr HP) as (ctl & -> & Hr' & HP').
      step_bind. eexists _, (mkThread gid _), cfg. do 5 (split; [done|]). simpl.
      split; [|split; [by apply evolves_refl|split; [done|by left]]].
      destruct (IsMember cfg gid) eqn:Hm; [|done]. split; [done|]. apply IsMember_in; [apply Hr|done|done].
    + exists ts, (mkThread gid GLeave), cfg. do 8 (split; [by (done || apply evolves_refl)|]). by left.
    + exists ts, (mkThread gid GDone), cfg. do 8 (split; [by (done || apply evolves_refl)|]). by left.
Qed.

(** [k] is how many groups may still be made, [n] how many steps may follow. *)
Record cinv (k n : nat) (s : concur C) (cfg : ShardConfig) : Prop := {
  ci_ready : ready Randstring (cc_ts s) cfg;
  ci_pending : pending (st_ctl (cc_ts s)) = None;
  ci_clerks : is_Some (cf_clerks (st_cfg (cc_ts s)));
  ci_num : Num cfg + Z.of_nat n <= int_max;
  ci_ngid : lo <= st_ngid (cc_ts s) /\ st_ngid (cc_ts s) + Z.of_nat k <= int_max;
  ci_base g srvs : B !! g = Some srvs -> Groups cfg !! g = Some srvs;
  ci_groups g : is_Some (Groups cfg !! g) -> is_Some (B !! g) \/ lo <= g < st_ngid (cc_ts s);
  ci_threads i th : cc_threads s !! i = Some th -> has_gid (th_pc th) = true ->
    lo <= th_ngid th < st_ngid (cc_ts s) /\ tinv (cc_ts s) cfg (th_ngid th) (th_pc th);
  ci_distinct i j th th' : cc_threads s !! i = Some th -> cc_threads s !! j = Some th' ->
    has_gid (th_pc th) = true -> has_gid (th_pc th') = true -> th_ngid th = th_ngid th' -> i = j
}.

(** A goroutine takes another place, with its own group or a new one. *)
Lemma cinv_set k n ts ths cfg i th th' :
  cinv k n (mkConcur ts ths) cfg -> ths !! i = Some th ->
  (has_gid (th_pc th') = true ->
     lo <= th_ngid th' < st_ngid ts /\ tinv ts cfg (th_ngid th') (th_pc th') /\
     (forall j th2, j <> i -> ths !! j = Some th2 -> has_gid (th_pc th2) = true -> th_ngid th2 <> th_ngid th')) ->
  cinv k n (mkConcur ts (<[i := th']> ths)) cfg.
Proof.
  intros [C1 C2 C3 C4 C5 C6 C7 C8 C9] Hi Hth. split; simpl in *; try done.
  - intros j th2 [(<- & <- & _)|(Hne & Hj)]%list_lookup_insert_Some Hg; [by destruct (Hth Hg) as (? & ? & _)|by eapply C8].
  - intros a b tha thb [(<- & <- & _)|(Hna & Ha)]%list_lookup_insert_Some [(<- & <- & _)|(Hnb & Hb)]%list_lookup_insert_Some
      Hga Hgb He; [done|..|by eapply C9].
    + destruct (Hth Hga) as (_ & _ & Hf). destruct (Hf b thb); [done|done|done|congruence].
    + destruct (Hth Hgb) as (_ & _ & Hf). destruct (Hf a tha); [done|done|done|congruence].
Qed.

(** The others stand a step on the group [gid]. *)
Lemma cinv_evolve k n gid ts ts' ths cfg cfg' :
  cinv k (S n) (mkConcur ts ths) cfg -> lo <= gid < st_ngid ts ->
  (forall j th, ths !! j = Some th -> has_gid (th_pc th) = true -> th_ngid th <> gid) ->
  evolves gid ts ts' -> cfg_step gid cfg cfg' -> ready Randstring ts' cfg' -> pending (st_ctl ts') = None ->
  cinv k n (mkConcur ts' ths) cfg'.
Proof.
  intros [C1 C2 C3 C4 C5 C6 C7 C8 C9] Hgid Hne Hev Hst Hr HP. pose proof Hev as [E0 E1 E2 E3 E4]. simpl in *.
  split; simpl; rewrite ?E4; auto.
  - destruct Hst as [->|[-> _]]; lia.
  - intros g srvs Hg. destruct Hst as [->|[_ Hs]]; [by apply C6|]. rewrite Hs; [by apply C6|].
    intros ->. rewrite (HB gid) in Hg by lia. done.
  - intros g Hg. destruct Hst as [->|[_ Hs]]; [by apply C7|]. destruct (decide (g = gid)) as [->|Hn]; [by right|].
    rewrite Hs in Hg by done. by apply C7.
  - intros j th Hj Hg. destruct (C8 j th Hj Hg) as [Hb Hi]. split; [done|].
    eapply (th_inv_stable false gid); [done|by eapply Hne|done|done|done].
Qed.

Lemma cinv_weaken k n n' s cfg : cinv k n s cfg -> (n' <= n)%nat -> cinv k n' s cfg.
Proof. intros [C1 C2 C3 C4 C5 C6 C7 C8 C9] Hn. split; try done. lia. Qed.

Lemma concur_step_ok ls l s cfg :
  (size (Groups cfg) <= NShards)%nat -> cinv (news (l :: ls)) (S (length ls)) s cfg ->
  exists s' cfg', concur_step Randstring s l = Ret s' /\ cinv (news ls) (length ls) s' cfg' /\ Num cfg <= Num cfg'.
Proof.
  intros Hsz Hinv. destruct s as [ts ths].
  assert (Hle : (news ls <= news (l :: ls))%nat) by (unfold news; rewrite filter_cons; case_decide; simpl; lia).
  assert (Hkeep : cinv (news ls) (length ls) (mkConcur ts ths) cfg).
  { destruct Hinv as [C1 C2 C3 C4 C5 C6 C7 C8 C9]. split; try done; simpl in *; lia. }
  assert (Hnop : exists s' cfg', Ret (mkConcur ts ths) = Ret s' /\ cinv (news ls) (length ls) s' cfg' /\ Num cfg <= Num cfg')
    by (eexists _, cfg; by split).
  unfold concur_step. cbn [cc_threads cc_ts]. destruct l as [i|i|i]; (destruct (ths !! i) as [[gid pc]|] eqn:Hi; [|exact Hnop]).
  - destruct pc; try exact Hnop. destruct Hinv as [C1 C2 C3 C4 C5 C6 C7 C8 C9].
    change (news (CNew i :: ls)) with (S (news ls)) in *. cbn [cc_ts cc_threads] in *.
    unfold newGid. rewrite wrap64_id by (unfold int_min; lia). eexists _, cfg. split; [done|]. split; [|done].
    apply (cinv_set _ _ _ _ _ i (mkThread gid GNew)); [|done|].
    + split; simpl; try done; try lia.
      * destruct C1 as [R1 R2 R3 R4 R5 R6]. by split.
      * intros g Hg. destruct (C7 g Hg) as [?|?]; [by left|right; lia].
      * intros j th Hj Hg. destruct (C8 j th Hj Hg) as [Hb Hth]. split; [lia|]. destruct (th_pc th); exact Hth.
    + intros _. simpl. split; [lia|]. split.
      * split; [lia|]. destruct (Groups cfg !! st_ngid ts) eqn:Hg; [|done]. exfalso.
        destruct (C7 (st_ngid ts)) as [[x Hb]|?]; [by eexists| |lia]. by rewrite HB in Hb by lia.
      * intros j th2 _ Hj Hg. destruct (C8 j th2 Hj Hg). lia.
  - destruct (has_gid pc) eqn:Hg.
    + destruct (ci_threads _ _ _ _ Hinv i _ Hi Hg) as [Hb Hth]. cbn [cc_ts cc_threads th_ngid th_pc] in *.
      pose proof (ci_num _ _ _ _ Hinv) as Hnum.
      destruct (thread_step_ok ts cfg (mkThread gid pc) (ci_ready _ _ _ _ Hinv) (ci_pending _ _ _ _ Hinv) ltac:(lia) Hsz (ci_clerks _ _ _ _ Hinv) Hth)
        as (ts' & [gid' pc'] & cfg' & -> & He & _ & Hr' & HP' & Hth' & Hev & _ & Hst). cbn [th_ngid th_pc] in *. subst gid'.
      step_bind. eexists _, cfg'. split; [done|]. split; [|destruct Hst as [->|[-> _]]; lia].
      assert (Hoth : forall j th2, j <> i -> ths !! j = Some th2 -> has_gid (th_pc th2) = true -> th_ngid th2 <> gid).
      { intros j th2 Hj Hl Hg2 Heq. apply Hj. eapply (ci_distinct _ _ _ _ Hinv j i th2 (mkThread gid pc)); done. }
      rewrite <- (list_insert_insert_eq ths i (mkThread gid pc') (mkThread gid GDone)).
      apply (cinv_set _ _ _ _ _ i (mkThread gid GDone)).
      * apply (cinv_evolve _ _ gid ts ts' _ cfg cfg'); try done.
        -- apply (cinv_set _ _ _ _ _ i (mkThread gid pc)); [|done|done].
           destruct Hinv as [C1 C2 C3 C4 C5 C6 C7 C8 C9]. split; try done; simpl in *; lia.
        -- intros j th2 [(<- & <- & _)|(Hne & Hj)]%list_lookup_insert_Some Hg2; [discriminate Hg2|by apply (Hoth j th2)].
      * apply list_lookup_insert_eq. by eapply lookup_lt_Some.
      * intros _. simpl. rewrite (ev_ngid _ _ _ Hev). split; [done|]. split; [done|].
        intros j th2 Hne. rewrite list_lookup_insert_ne by done. by apply Hoth.
    + assert (Hs : thread_step Randstring ts (mkThread gid pc) = Ret (ts, mkThread gid pc)) by (destruct pc; try discriminate Hg; done).
      rewrite Hs. step_bind. rewrite list_insert_id by done. exact Hnop.
  - destruct pc; try exact Hnop. eexists _, cfg. split; [done|]. split; [|done].
    by apply (cinv_set _ _ _ _ _ i (mkThread gid GNew)).
Qed.

Lemma concur_run_ok ls : forall s cfg,
  cinv (news ls) (length ls) s cfg -> roomy s ls = true ->
  exists s' cfg', foldM (concur_step Randstring) ls s = Ret s' /\ cinv 0 0 s' cfg' /\ Num cfg <= Num cfg'.
Proof.
  induction ls as [|l ls IH]; intros s cfg Hinv Hroom; [by exists s, cfg|]. cbn [roomy] in Hroom.
  rewrite (rd_current _ _ _ (ci_ready _ _ _ _ Hinv)) in Hroom. apply andb_prop in Hroom as [Hsz%Nat.leb_le Hroom].
  destruct (concur_step_ok ls l s cfg Hsz Hinv) as (s1 & cfg1 & E1 & Hi1 & Hle). rewrite E1 in Hroom.
  destruct (IH s1 cfg1 Hi1 Hroom) as (s2 & cfg2 & E2 & Hi2 & Hle'). exists s2, cfg2. cbn [foldM]. rewrite E1. step_bind.
  split; [done|]. split; [done|lia].
Qed.
End Concur.

(** C18: [concurCtrler].  Four goroutines let new groups join and leave again, each with a
    controller of its own for every round, with steps interleaved in any way.  A controller
    that has been superseded, so that its new configuration does not follow the current one,
    refuses the change, and [InitController] recovers; the harness ignores refusals.  As
    long as the current configuration never has more groups than there are shards, no step
    of the test panics, and at every moment the current configuration is balanced and
    passes [CheckConfig], has every group it had before with its servers, and every group
    in it is up: no goroutine takes down a group that is still a member. *)
Theorem concurCtrler_safe {C} `{Refusing C} Randstring (ts : stest C) cfg ls :
  (forall i j, Randstring i = Randstring j -> i = j) ->
  ready Randstring ts cfg -> pending (st_ctl ts) = None -> is_Some (cf_clerks (st_cfg ts)) ->
  0 < st_ngid ts -> (forall g, st_ngid ts <= g -> Groups cfg !! g = None) ->
  roomy Randstring (concur_init ts) ls = true ->
  Num cfg + Z.of_nat (length ls) <= int_max -> st_ngid ts + Z.of_nat (news ls) <= int_max ->
  exists s cfg', concurCtrler Randstring ts ls = Ret s /\ current (st_ctl (cc_ts s)) = Some cfg' /\
    Num cfg <= Num cfg' /\
    (forall gs, NoDup gs -> (forall g, g ∈ gs <-> is_Some (Groups cfg' !! g)) -> CheckConfig cfg' gs = Ret tt) /\
    (forall g srvs, Groups cfg !! g = Some srvs -> Groups cfg' !! g = Some srvs) /\
    (forall g, is_Some (Groups cfg' !! g) -> group_up (st_cfg (cc_ts s)) g).
Proof.
  intros Hinj Hr HP Hcl Hpos Hfresh Hroom Hnum Hgid.
  destruct (concur_run_ok Randstring Hinj (Groups cfg) (st_ngid ts) Hfresh Hpos ls (concur_init ts) cfg)
    as (s & cfg' & E & [C1 C2 C3 C4 C5 C6 C7 C8 C9] & Hle); [|done|].
  - unfold concur_init. split; cbn [cc_ts cc_threads]; try done; try lia.
    + by left.
    + intros i th [-> _]%lookup_replicate Hg. discriminate Hg.
    + intros i j th th' [-> _]%lookup_replicate _ Hg. discriminate Hg.
  - exists s, cfg'. split; [done|]. split; [apply C1|]. split; [done|]. split; [intros gs; exact (ready_check Randstring (cc_ts s) cfg' gs C1)|].
    split; [done|apply C1].
Qed.

(** ** A controller that is cut off *)


Section Partition.
Context {C : Type} `{CutOff C}.
Variable Randstring : nat -> string.
Hypothesis Rand_inj : forall i j, Randstring i = Randstring j -> i = j.










(** *** The second controller *)






(** *** The goroutine alone *)

(** The configuration before and its number, the first number for a new group, the group
    that is shut down, and the client of the goroutine's controller. *)
Variable B : gmap Z (list string).
Variables num lo gid : Z.
Variable clnt : nat.
Hypothesis HB : forall g, lo <= g -> B !! g = None.
Hypothesis Hlo : 0 < lo.
Hypothesis Hgid : is_Some (B !! gid).
Hypothesis Hsize : (size B < NShards)%nat.















(** *** Runs *)








(** *** The verdict *)





(** *** The whole test *)







End Partition.



(** ** A controller *)

(** One that posts a change before it makes it, and makes none that does not follow the
    current configuration. *)
Module PartDemo.
Record store := mkStore { s_cur : option ShardConfig; s_post : option ShardConfig }.

Definition follows (s : store) (new : ShardConfig) : bool :=
  match s_cur s with Some cfg => bool_decide (Num new = wrap64 (Num cfg + 1)) | None => false end.

#[global] Instance posting : ShardCtrler store := {|
  InitController s := Ret match s_post s with Some new => mkStore (Some new) None | None => s end;
  InitConfig s cfg := Ret (mkStore (Some cfg) None);
  ChangeConfigTo s new := Ret (if follows s new then mkStore (Some new) None else s);
  Query s := Ret (s, s_cur s)
|}.

#[global] Instance posting_upto : Interruptible store :=
  fun k s new =>
    if follows s new then
      match k with O => s | 1%nat => mkStore (s_cur s) (Some new) | _ => mkStore (Some new) None end
    else s.

Lemma follows_next c cfg new : s_cur c = Some cfg -> Num new = wrap64 (Num cfg + 1) -> follows c new = true.
Proof. intros Hc Hn. unfold follows. rewrite Hc. by apply bool_decide_eq_true. Qed.

#[global] Instance posting_sequential : Sequential store.
Proof.
  refine {| current := s_cur |}.
  - intros c. by exists c.
  - intros c cfg _. by exists (mkStore (Some cfg) None).
  - intros c cfg new Hc Hn. exists (mkStore (Some new) None). simpl. by rewrite (follows_next c cfg).
Defined.

#[global] Instance posting_recovers : Recovering store.
Proof.
  refine {| pending := s_post |}.
  - by intros c c' cfg [= <- _].
  - intros c new c' Hp [= <-]. by destruct (follows c new).
  - intros [cur post]. destruct post as [new|]; eexists; by repeat split.
Defined.

#[global] Instance posting_cut : CutOff store.
Proof.
  split. intros k c cfg new Hc Hp Hn. unfold ChangeConfigTo_upto, posting_upto. rewrite (follows_next c cfg) by done.
  destruct k as [|[|k]]; simpl; auto.
Qed.

#[global] Instance posting_refuses : Refusing store.
Proof.
  split. intros c cfg new Hc _ Hn. exists c. split; [|exact Hc]. cbn [ChangeConfigTo posting].
  change (s_cur c = Some cfg) in Hc. unfold follows. by rewrite Hc, bool_decide_eq_false_2.
Qed.

Definition ts : stest store := mkStest CfgDemo.empty (mkStore None None) (Gid1 + 1).

(** Two goroutines that read the same configuration. *)
Definition ls : list clabel :=
  [CNew 0; CNew 1; CStep 0; CStep 1; CStep 0; CStep 1; CStep 0; CStep 1; CStep 0; CStep 1; CStep 0; CStep 1;
   CStep 0; CStep 1; CStep 0; CStep 0; CStep 0; CStep 0; CStep 0; CStop 0; CStop 1].
End PartDemo.

Lemma fresh_gids {A} (x : A) g : 2 <= g -> ({[Gid1 := x]} : gmap Z A) !! g = None.
Proof. intros Hg. apply lookup_singleton_ne. unfold Gid1. lia. Qed.

Lemma concurCtrler_safe_witness :
  exists (s : concur PartDemo.store) cfg, current (st_ctl (cc_ts s)) = Some cfg /\
    Groups cfg !! Gid1 = Some (group_srvs Gid1) /\ group_up (st_cfg (cc_ts s)) Gid1.
Proof.
  destruct (setupKVService_ok TesterDemo.Randstring CfgDemo.Rand_inj PartDemo.ts ∅) as (ts & cfg & Hs & Hr & HG & HN & _);
    [reflexivity|reflexivity|exact CfgDemo.below|].
  assert (Hw : match setupKVService TesterDemo.Randstring PartDemo.ts with
    | Ret (ts, _) =>
        match cf_clerks (st_cfg ts) with
        | Some _ => st_ngid ts = 2 /\ PartDemo.s_post (st_ctl ts) = None /\
            roomy TesterDemo.Randstring (concur_init ts) PartDemo.ls = true
        | None => False
        end
    | _ => False end)
    by (vm_compute; repeat split; reflexivity).
  rewrite Hs in Hw. destruct (cf_clerks (st_cfg ts)) as [clerks|] eqn:Hcl; [|destruct Hw]. destruct Hw as (Hn & Hp & Hroom).
  destruct (concurCtrler_safe TesterDemo.Randstring ts cfg PartDemo.ls) as (s & cfg' & _ & Hc & _ & _ & Hb & Hup).
  - exact CfgDemo.Rand_inj.
  - exact Hr.
  - exact Hp.
  - rewrite Hcl. eexists. reflexivity.
  - rewrite Hn. lia.
  - rewrite Hn, HG. apply fresh_gids.
  - exact Hroom.
  - rewrite HN. vm_compute. discriminate.
  - rewrite Hn. vm_compute. discriminate.
  - exists s, cfg'. split; [exact Hc|]. assert (H1 : Groups cfg' !! Gid1 = Some (group_srvs Gid1)).
    { apply Hb. rewrite HG. apply lookup_singleton_eq. }
    split; [exact H1|]. apply Hup. rewrite H1. eexists. reflexivity.
Defined.

