(* ===== verification/ShardSrv.v ===== *)
(** The sharded key/value service as the repository has it: the RPCs of
    [shardkv1/shardgrp/shardrpc/shardrpc.go], the server and the clerk of
    [shardkv1/shardgrp/], the client of [shardkv1/client.go] and the controller of
    [shardkv1/shardctrler/shardctrler.go].  Their methods are still to be written; what a
    test of them sees is proved. *)
From S2P Require Import Prelude.
From S2P Require Import KvSrv.
From S2P Require Import Raft.
From S2P Require Import Labrpc.
From S2P Require Import Tester.
From S2P Require Import TestCfg.
From S2P Require Import ShardCfg.
From S2P Require Import Rsm.
From S2P Require Import ShardTest.
From S2P Require Import ShardPart.
Open Scope Z_scope.

(** ** [shardrpc] *)

Record FreezeShardArgs := mkFreezeShardArgs { FreezeShardArgs_Shard : Z; FreezeShardArgs_Num : Z }.
Record FreezeShardReply := mkFreezeShardReply
  { FreezeShardReply_State : list Byte.byte; FreezeShardReply_Num : Z; FreezeShardReply_Err : Err }.
Record InstallShardArgs := mkInstallShardArgs
  { InstallShardArgs_Shard : Z; InstallShardArgs_State : list Byte.byte; InstallShardArgs_Num : Z }.
Record InstallShardReply := mkInstallShardReply { InstallShardReply_Err : Err }.
Record DeleteShardArgs := mkDeleteShardArgs { DeleteShardArgs_Shard : Z; DeleteShardArgs_Num : Z }.
Record DeleteShardReply := mkDeleteShardReply { DeleteShardReply_Err : Err }.

(** ** [shardgrp] *)

Module ShardGrp.
Record KVServer := mkKVServer { kv_me : nat; kv_dead : Z; kv_rsm : option RSM; kv_gid : Z }.

Section Server.
Context {Req Rep : Type}.
Definition KVServer_DoOp (kv : KVServer) (req : Req) : outcome (KVServer * option Rep) := Ret (kv, None).
Definition KVServer_Snapshot (kv : KVServer) : list Byte.byte := [].
Definition KVServer_Restore (kv : KVServer) (data : list Byte.byte) : outcome KVServer := Ret kv.

#[global] Instance KVServer_machine : StateMachine KVServer Req Rep :=
  {| DoOp := KVServer_DoOp; Snapshot := KVServer_Snapshot; Restore := KVServer_Restore |}.
End Server.

Definition Get (kv : KVServer) (args : GetArgs) (reply : GetReply) : GetReply := reply.
Definition Put (kv : KVServer) (args : PutArgs) (reply : PutReply) : PutReply := reply.
Definition FreezeShard (kv : KVServer) (args : FreezeShardArgs) (reply : FreezeShardReply) : FreezeShardReply := reply.
Definition InstallShard (kv : KVServer) (args : InstallShardArgs) (reply : InstallShardReply) : InstallShardReply := reply.
Definition DeleteShard (kv : KVServer) (args : DeleteShardArgs) (reply : DeleteShardReply) : DeleteShardReply := reply.

Definition Kill (kv : KVServer) : KVServer := mkKVServer (kv_me kv) 1 (kv_rsm kv) (kv_gid kv).
Definition killed (kv : KVServer) : bool := kv_dead kv =? 1.

(** The services a server registers: itself and its Raft. *)
Definition StartServerShardGrp (now : Z) (servers : nat) (gid : Z) (me : nat) (maxraftstate : Z)
  : KVServer * option (Raft request_any) :=
  let kv := mkKVServer me 0 (Some (MakeRSM false now servers me maxraftstate)) gid in
  (kv, match kv_rsm kv with Some rsm => RSM_Raft rsm | None => None end).

Record Clerk := mkClerk { ck_clnt : nat; ck_servers : list string }.
Definition MakeClerk (clnt : nat) (servers : list string) : Clerk := mkClerk clnt servers.
Definition Clerk_Get (key : string) : string * Tversion * Err := ("", 0, "").
Definition Clerk_Put (key value : string) (version : Tversion) : Err := "".
Definition Clerk_FreezeShard (s num : Z) : list Byte.byte * Err := ([], "").
Definition Clerk_InstallShard (s : Z) (state : list Byte.byte) (num : Z) : Err := "".
Definition Clerk_DeleteShard (s num : Z) : Err := "".
End ShardGrp.

(** ** The controller and the client *)

(** A controller has a client and a clerk of the server of group 0. *)
Record ShardCtrler := mkShardCtrler { sck_clnt : nat; sck_IKVClerk : nat * string; sck_killed : Z }.
Definition MakeShardCtrler (clnt : nat) : ShardCtrler :=
  let srv := ServerName GRP0 0 in mkShardCtrler clnt (clnt, srv) 0.

Record Clerk := mkClerk { ck_clnt : nat; ck_sck : ShardCtrler }.
Definition MakeClerk (clnt : nat) (sck : ShardCtrler) : Clerk := mkClerk clnt sck.
Definition Clerk_Get (key : string) : string * Tversion * Err := ("", 0, "").
Definition Clerk_Put (key value : string) (version : Tversion) : Err := "".

(** The state of a stub is never changed, so that it is its own replica. *)
Lemma shardgrp_replays {Req Rep} (kv : ShardGrp.KVServer) (reqs : list Req) :
  apply_log (Rep := Rep) kv reqs = Ret (kv, replicate (length reqs) None).
Proof. induction reqs as [|r reqs IH]; [done|]. simpl. by rewrite IH. Qed.

(** A test of the service that has a key to check fails. *)
Lemma check_gets_stub key ka value va : check_gets Clerk_Get (key :: ka) (value :: va) = Panic.
Proof. done. Qed.
